(** * svsim simulation driver: the wire protocol of [simulation-driver.cpp]

    A shallow embedding of the command/message protocol spoken by the
    simulation driver: the hexadecimal bit-vector codec ([sendBits],
    [scanHexBits]), the execution-script recorder ([readCommand] and the
    [writeMessage*] family), the log tailer ([sendLog]) and the command
    dispatcher ([processCommand], [simulation_body]).

    Conventions of the embedding:
    - a C [int] is a [Z]; where the program can leave the 32-bit range the
      two's-complement wrap-around is written out with [wrap_int];
    - a [uint8_t] buffer is a [list Z] of bytes in the range 0..255, read with
      [byteAt] and updated in place with stdpp's [<[i:=b]>];
    - C strings are [list ascii]; a [const char *] into the command line is
      the line together with a [Z] index, and reading at or past the end of
      the line yields the terminating NUL;
    - [failWithError] writes one [e] message and ends the process: functions
      that only parse return [Scan], the dispatcher runs in [Outcome]. *)

From Stdlib Require Import ZArith Ascii String List Lia Bool.
From stdpp Require Import base list.

Open Scope Z_scope.

(** ** Characters, strings and C integers *)

Definition text (s : string) : list ascii := list_ascii_of_string s.

Definition NUL : ascii := Ascii.zero.
Definition newline : ascii := ascii_of_nat 10.

(** Unsigned code of a character. *)
Definition code (c : ascii) : Z := Z.of_N (N_of_ascii c).

(** [char] is signed on the platforms the driver is built for. *)
Definition charValue (c : ascii) : Z :=
  if code c <? 128 then code c else code c - 256.

(** [line[i]]: the character a [const char *] at offset [i] points to. *)
Definition charAt (line : list ascii) (i : Z) : ascii :=
  if i <? 0 then NUL else nth (Z.to_nat i) line NUL.

(** [%s]: a C string ends at its first NUL. *)
Fixpoint cstr (s : list ascii) : list ascii :=
  match s with
  | [] => []
  | c :: s' => if Ascii.eqb c NUL then [] else c :: cstr s'
  end.

Definition INT_MIN : Z := - 2 ^ 31.
Definition INT_MAX : Z := 2 ^ 31 - 1.
Definition UINT32_MAX : Z := 2 ^ 32 - 1.

(** Two's-complement wrap-around of a 32-bit [int]. *)
Definition wrap_int (x : Z) : Z := (x + 2 ^ 31) mod 2 ^ 32 - 2 ^ 31.

(** [b[i]] on a byte buffer (0 outside the buffer, which C leaves undefined). *)
Definition byteAt (bytes : list Z) (i : Z) : Z :=
  if i <? 0 then 0 else nth (Z.to_nat i) bytes 0.

(** [b[i] = x] on a byte buffer (no effect outside the buffer). *)
Definition setByte (bytes : list Z) (i : Z) (x : Z) : list Z :=
  if i <? 0 then bytes else <[Z.to_nat i := x]> bytes.

(** [calloc(sizeof(uint8_t), n)] *)
Definition calloc (n : Z) : list Z := replicate (Z.to_nat n) 0.

(** ** printf conversions *)

Definition hexDigit (d : Z) : ascii :=
  if d <? 10 then ascii_of_N (Z.to_N (code "0" + d))
  else ascii_of_N (Z.to_N (code "A" + (d - 10))).

(** The [n] low hexadecimal digits of [x], most significant first. *)
Fixpoint hexFixed (n : nat) (x : Z) : list ascii :=
  match n with
  | O => []
  | S n' => hexFixed n' (x / 16) ++ [hexDigit (x mod 16)]
  end.

(** [%02X] of a [uint8_t]. *)
Definition hex02 (b : Z) : list ascii := hexFixed 2 b.

(** [%08X] of an [int] and [%08lX] of a [long] below 2^32: eight digits. *)
Definition hex08 (x : Z) : list ascii := hexFixed 8 (x mod 2 ^ 32).

Fixpoint decimalDigits (fuel : nat) (x : Z) (acc : list ascii) : list ascii :=
  match fuel with
  | O => acc
  | S fuel' =>
      let acc' := ascii_of_N (Z.to_N (code "0" + x mod 10)) :: acc in
      if x / 10 =? 0 then acc' else decimalDigits fuel' (x / 10) acc'
  end.

(** [%d] and [%ld]. *)
Definition decimal (x : Z) : list ascii :=
  if x <? 0 then "-"%char :: decimalDigits (S (Z.to_nat (Z.log2 (- x)))) (- x) []
  else decimalDigits (S (Z.to_nat (Z.log2 x))) x [].

(** ** Results of the parsing functions

    A parsing function either returns a value or calls [failWithError] with a
    message; nothing else happens to the process state on the way. *)

Inductive Scan (A : Type) : Type :=
| Scanned (a : A)
| Failed (message : list ascii).
Arguments Scanned {A} a.
Arguments Failed {A} message.

Definition scanBind {A B} (r : Scan A) (k : A -> Scan B) : Scan B :=
  match r with
  | Scanned a => k a
  | Failed m => Failed m
  end.

Declare Scope scan_scope.
Delimit Scope scan_scope with scan.
Notation "'let*' p := r 'in' k" := (scanBind r (fun p => k))
  (at level 10, p pattern, r at level 100, k at level 200) : scan_scope.
Notation "'require' b 'orFail' m 'in' k" :=
  (if b then k else Failed m)
  (at level 10, b at level 100, m at level 100, k at level 200) : scan_scope.

Open Scope scan_scope.

(** ** Decoding: [scanHexCharacterReverse], [scanHexByteReverse], [scanHexBits] *)

(** Reads the hexadecimal digit under the cursor and moves the cursor one
    character to the left. Returns the digit and the new cursor. *)
Definition scanHexCharacterReverse (line : list ascii) (reverseScanCursor : Z)
    (description : list ascii) : Scan (Z * Z) :=
  let value := charAt line reverseScanCursor in
  if (charValue "0" <=? charValue value) && (charValue value <=? charValue "9") then
    Scanned (charValue value - charValue "0", reverseScanCursor - 1)
  else if (charValue "A" <=? charValue value) && (charValue value <=? charValue "F") then
    Scanned (charValue value - charValue "A" + 10, reverseScanCursor - 1)
  else if (charValue "a" <=? charValue value) && (charValue value <=? charValue "f") then
    Scanned (charValue value - charValue "a" + 10, reverseScanCursor - 1)
  else
    Failed (text "Encountered unexpected character '" ++ [value] ++ text "' when "
            ++ description ++ text ".").

(** Reads one byte, low digit first; the left-most byte of a value may be a
    single digit. *)
Definition scanHexByteReverse (line : list ascii) (reverseScanCursor : Z)
    (firstCharacterOfValue : Z) (description : list ascii) : Scan (Z * Z) :=
  let* (low, reverseScanCursor) :=
    scanHexCharacterReverse line reverseScanCursor description in
  if reverseScanCursor <? firstCharacterOfValue then
    Scanned (low, reverseScanCursor)
  else
    let* (high, reverseScanCursor) :=
      scanHexCharacterReverse line reverseScanCursor description in
    Scanned (Z.lor (Z.shiftl high 4) low, reverseScanCursor).

(** The [while (scannedByteCount < valueByteCount)] loop of [scanHexBits];
    [remaining] is [valueByteCount - scannedByteCount]. Returns the cursor,
    the carry, the number of bytes scanned and the buffer. *)
Fixpoint scanHexBitsLoop (remaining : nat) (line : list ascii)
    (firstCharacterOfValue : Z) (description : list ascii) (isNegative : bool)
    (reverseScanCursor carry scannedByteCount : Z) (bytes : list Z)
    : Scan (Z * Z * Z * list Z) :=
  match remaining with
  | O => Scanned (reverseScanCursor, carry, scannedByteCount, bytes)
  | S remaining' =>
      let* (scannedByte, reverseScanCursor) :=
        scanHexByteReverse line reverseScanCursor firstCharacterOfValue description in
      let* (scannedByte, carry) :=
        if isNegative then
          let scannedByte := Z.land (Z.lnot scannedByte) 255 + carry in
          let carry := Z.shiftr scannedByte 8 in
          require (Z.land carry (Z.lnot 1) =? 0)
          orFail (text "Unexpected error in carry computation for negative value when "
                  ++ description) in
          Scanned (scannedByte, carry)
        else Scanned (scannedByte, carry) in
      let bytes := setByte bytes scannedByteCount (scannedByte mod 256) in
      let scannedByteCount := scannedByteCount + 1 in
      if reverseScanCursor <? firstCharacterOfValue then
        Scanned (reverseScanCursor, carry, scannedByteCount, bytes)
      else
        scanHexBitsLoop remaining' line firstCharacterOfValue description isNegative
          reverseScanCursor carry scannedByteCount bytes
  end.

(** The mask of the bits of the high-order byte that lie above the value. *)
Definition highOrderByteMask (valueBitCount : Z) : Z :=
  match Z.rem valueBitCount 8 with
  | 1 => 254
  | 2 => 252
  | 3 => 248
  | 4 => 240
  | 5 => 224
  | 6 => 192
  | 7 => 128
  | _ => 0
  end.

(** [while (scannedByteCount < byteCount) bytes[scannedByteCount++] = 0xFF;] *)
Fixpoint padNegative (remaining : nat) (scannedByteCount : Z) (bytes : list Z) : list Z :=
  match remaining with
  | O => bytes
  | S remaining' => padNegative remaining' (scannedByteCount + 1) (setByte bytes scannedByteCount 255)
  end.

(** Scans the value written in [line] between [scanCursor] (included) and
    [scanEnd] (excluded) into a little-endian two's-complement buffer of
    [bitCount] bits. Returns the buffer and the advanced cursor. *)
Definition scanHexBits (line : list ascii) (scanCursor scanEnd : Z) (bitCount : Z)
    (description : list ascii) : Scan (list Z * Z) :=
  let reverseScanCursor := scanEnd - 1 in
  require negb (reverseScanCursor <? scanCursor)
  orFail (text "Scanned value is empty when " ++ description ++ text ".") in
  require negb (bitCount <=? 0)
  orFail (text "Cannot scan 0-bit-wide value when " ++ description ++ text ".") in
  let* (scanCursor, isNegative, valueBitCount) :=
    if Ascii.eqb (charAt line scanCursor) "-" then
      let scanCursor := scanCursor + 1 in
      require negb (reverseScanCursor <? scanCursor)
      orFail (text "Unexpected end of negative value when " ++ description ++ text ".") in
      require negb (bitCount <=? 1)
      orFail (text "Cannot scan 1-bit-wide negative value when " ++ description ++ text ".") in
      Scanned (scanCursor, true, bitCount - 1)
    else Scanned (scanCursor, false, bitCount) in
  let byteCount := Z.quot (wrap_int (bitCount + 7)) 8 in
  let bytes := calloc byteCount in
  let firstCharacterOfValue := scanCursor in
  let carry := 1 in
  let scannedByteCount := 0 in
  let valueByteCount := Z.quot (wrap_int (valueBitCount + 7)) 8 in
  let* (reverseScanCursor, carry, scannedByteCount, bytes) :=
    scanHexBitsLoop (Z.to_nat (valueByteCount - scannedByteCount)) line
      firstCharacterOfValue description isNegative
      reverseScanCursor carry scannedByteCount bytes in
  require negb (reverseScanCursor >? firstCharacterOfValue)
  orFail (text "Scanned value exceeded " ++ decimal byteCount ++ text " bytes when "
          ++ description ++ text ".") in
  let highOrderByteMask := highOrderByteMask valueBitCount in
  if isNegative then
    require (carry =? 0)
    orFail (text "Scanned negative value exceeded " ++ decimal byteCount
            ++ text " bytes when " ++ description ++ text ".") in
    let bytes := padNegative (Z.to_nat (byteCount - scannedByteCount)) scannedByteCount bytes in
    require (Z.land (byteAt bytes (byteCount - 1)) highOrderByteMask =? highOrderByteMask)
    orFail (text "Scanned negative value exceeded " ++ decimal bitCount
            ++ text " bits when " ++ description ++ text ".") in
    Scanned (bytes, scanEnd)
  else
    require (Z.land (byteAt bytes (byteCount - 1)) highOrderByteMask =? 0)
    orFail (text "Scanned value exceeded " ++ decimal bitCount
            ++ text " bits when " ++ description ++ text ".") in
    Scanned (bytes, scanEnd).

(** ** The simulation engine

    The engine is outside the driver: it resolves port ids, advances the
    simulation and controls tracing. [port_getter] and [port_setter] return
    [None] where the C functions return non-zero. Whatever the simulation
    prints while it runs goes to the process's standard output, which [main]
    has redirected to the simulation log. *)

Record Engine : Type := {
  EngineState : Type;
  port_getter : Z -> option (Z * (EngineState -> list Z -> list Z));
  port_setter : Z -> option (Z * (list Z -> EngineState -> EngineState));
  run_simulation : Z -> EngineState -> EngineState * list ascii;
  simulation_initializeTrace : list ascii -> EngineState -> EngineState;
  simulation_enableTrace : EngineState -> EngineState;
  simulation_disableTrace : EngineState -> EngineState;
}.

(** The calls the driver makes into the engine, in order. *)
Inductive EngineCall : Type :=
| CallSetter (id : Z) (bytes : list Z)
| CallGetter (id : Z)
| CallRunSimulation (timesteps : Z)
| CallInitializeTrace (path : list ascii)
| CallEnableTrace
| CallDisableTrace.

(** ** The execution script

    One entry per [fprintf] to the script file; [renderScript] gives the
    bytes of the file. *)

Inductive ScriptEntry : Type :=
| ScriptCommand (count : Z) (line : list ascii)   (* "%d> %s" *)
| ScriptLimitNote (limit : Z)                     (* "# Execution script limited to ..." *)
| ScriptImplicitDone (count : Z)                  (* "%d> D\n" *)
| ScriptMessageStart (count : Z) (messageCode : ascii)   (* "%d< %c " *)
| ScriptMessageText (body : list ascii).          (* a piece of a message *)

Definition renderEntry (e : ScriptEntry) : list ascii :=
  match e with
  | ScriptCommand count line => decimal count ++ text "> " ++ line
  | ScriptLimitNote limit =>
      text "# Execution script limited to " ++ decimal limit
      ++ text " commands (not counting implicit 'Done')." ++ [newline]
  | ScriptImplicitDone count => decimal count ++ text "> D" ++ [newline]
  | ScriptMessageStart count messageCode =>
      decimal count ++ text "< " ++ [messageCode] ++ text " "
  | ScriptMessageText body => body
  end.

Definition renderScript (script : list ScriptEntry) : list ascii :=
  concat (map renderEntry script).

(** ** Process state *)

Definition MESSAGE_READY : ascii := "r".
Definition MESSAGE_ERROR : ascii := "e".
Definition MESSAGE_ACK : ascii := "k".
Definition MESSAGE_BITS : ascii := "b".
Definition MESSAGE_LOG : ascii := "l".

Definition COMMAND_DONE : ascii := "D".
Definition COMMAND_LOG : ascii := "L".
Definition COMMAND_GET_BITS : ascii := "G".
Definition COMMAND_SET_BITS : ascii := "S".
Definition COMMAND_RUN : ascii := "R".
Definition COMMAND_TICK : ascii := "T".
Definition COMMAND_TRACE : ascii := "W".

Section Driver.

Context (E : Engine).

(** The globals and function-local statics of the driver, the streams it
    owns and the engine it drives.
    - [executionScript] is [None] for [NULL];
    - [commandStream] is the input not read yet, [messageStream] the output
      written so far;
    - [stringBuffer] is the line buffer of [readCommand];
    - [log] is the read offset of the log file of [sendLog], [None] until it
      is opened; [simulationLog] is the content of that file once standard
      output is flushed. *)
Record Driver : Type := mkDriver {
  executionScript : option (list ScriptEntry);
  executionScriptMessageCount : Z;
  executionScriptCommandCount : Z;
  executionScriptLimit : Z;
  messageStream : list ascii;
  commandStream : list ascii;
  stringBuffer : list ascii;
  log : option Z;
  simulationLog : list ascii;
  simulationTraceFilepath : list ascii;
  receivedDone : bool;
  traceInitialized : bool;
  engine : EngineState E;
  engineCalls : list EngineCall;
}.

Definition set_executionScript (f : option (list ScriptEntry) -> option (list ScriptEntry))
    (st : Driver) : Driver :=
  mkDriver (f (executionScript st)) (executionScriptMessageCount st)
    (executionScriptCommandCount st) (executionScriptLimit st)
    (messageStream st) (commandStream st) (stringBuffer st) (log st)
    (simulationLog st) (simulationTraceFilepath st) (receivedDone st)
    (traceInitialized st) (engine st) (engineCalls st).

Definition set_executionScriptMessageCount (n : Z) (st : Driver) : Driver :=
  mkDriver (executionScript st) n
    (executionScriptCommandCount st) (executionScriptLimit st)
    (messageStream st) (commandStream st) (stringBuffer st) (log st)
    (simulationLog st) (simulationTraceFilepath st) (receivedDone st)
    (traceInitialized st) (engine st) (engineCalls st).

Definition set_executionScriptCommandCount (n : Z) (st : Driver) : Driver :=
  mkDriver (executionScript st) (executionScriptMessageCount st)
    n (executionScriptLimit st)
    (messageStream st) (commandStream st) (stringBuffer st) (log st)
    (simulationLog st) (simulationTraceFilepath st) (receivedDone st)
    (traceInitialized st) (engine st) (engineCalls st).

Definition set_messageStream (f : list ascii -> list ascii) (st : Driver) : Driver :=
  mkDriver (executionScript st) (executionScriptMessageCount st)
    (executionScriptCommandCount st) (executionScriptLimit st)
    (f (messageStream st)) (commandStream st) (stringBuffer st) (log st)
    (simulationLog st) (simulationTraceFilepath st) (receivedDone st)
    (traceInitialized st) (engine st) (engineCalls st).

Definition set_commandInput (stream buffer : list ascii) (st : Driver) : Driver :=
  mkDriver (executionScript st) (executionScriptMessageCount st)
    (executionScriptCommandCount st) (executionScriptLimit st)
    (messageStream st) stream buffer (log st)
    (simulationLog st) (simulationTraceFilepath st) (receivedDone st)
    (traceInitialized st) (engine st) (engineCalls st).

Definition set_log (offset : option Z) (st : Driver) : Driver :=
  mkDriver (executionScript st) (executionScriptMessageCount st)
    (executionScriptCommandCount st) (executionScriptLimit st)
    (messageStream st) (commandStream st) (stringBuffer st) offset
    (simulationLog st) (simulationTraceFilepath st) (receivedDone st)
    (traceInitialized st) (engine st) (engineCalls st).

Definition set_receivedDone (b : bool) (st : Driver) : Driver :=
  mkDriver (executionScript st) (executionScriptMessageCount st)
    (executionScriptCommandCount st) (executionScriptLimit st)
    (messageStream st) (commandStream st) (stringBuffer st) (log st)
    (simulationLog st) (simulationTraceFilepath st) b
    (traceInitialized st) (engine st) (engineCalls st).

Definition set_traceInitialized (b : bool) (st : Driver) : Driver :=
  mkDriver (executionScript st) (executionScriptMessageCount st)
    (executionScriptCommandCount st) (executionScriptLimit st)
    (messageStream st) (commandStream st) (stringBuffer st) (log st)
    (simulationLog st) (simulationTraceFilepath st) (receivedDone st)
    b (engine st) (engineCalls st).

(** A call into the engine: the new engine state, what the engine printed,
    and the call itself appended to the record of calls. *)
Definition engineStep (call : EngineCall) (next : EngineState E) (printed : list ascii)
    (st : Driver) : Driver :=
  mkDriver (executionScript st) (executionScriptMessageCount st)
    (executionScriptCommandCount st) (executionScriptLimit st)
    (messageStream st) (commandStream st) (stringBuffer st) (log st)
    (simulationLog st ++ printed) (simulationTraceFilepath st) (receivedDone st)
    (traceInitialized st) next (engineCalls st ++ [call]).

(** ** Sending messages *)

Definition shouldLogMessageToExecutionScript (st : Driver) : bool :=
  match executionScript st with
  | None => false
  | Some _ =>
      (executionScriptLimit st =? -1)
      || (executionScriptMessageCount st <? executionScriptLimit st)
  end.

(** [fprintf(executionScript, ...)] *)
Definition writeScript (e : ScriptEntry) (st : Driver) : Driver :=
  set_executionScript (option_map (fun script => script ++ [e])) st.

Definition writeMessageStart (messageCode : ascii) (st : Driver) : Driver :=
  let st :=
    if shouldLogMessageToExecutionScript st then
      writeScript (ScriptMessageStart (executionScriptMessageCount st) messageCode) st
    else st in
  set_messageStream (fun out => out ++ [messageCode; " "%char]) st.

Definition writeMessageBody (body : list ascii) (st : Driver) : Driver :=
  let st := set_messageStream (fun out => out ++ body) st in
  if shouldLogMessageToExecutionScript st then writeScript (ScriptMessageText body) st
  else st.

Definition writeMessageEnd (st : Driver) : Driver :=
  let st := set_messageStream (fun out => out ++ [newline]) st in
  let st :=
    if shouldLogMessageToExecutionScript st then writeScript (ScriptMessageText [newline]) st
    else st in
  set_executionScriptMessageCount (wrap_int (executionScriptMessageCount st + 1)) st.

Definition writeMessage (messageCode : ascii) (body : list ascii) (st : Driver) : Driver :=
  writeMessageEnd (writeMessageBody body (writeMessageStart messageCode st)).

(** What a function of the driver does to the process: it returns, or the
    process exits through [failWithError], or the model of a loop has run out
    of fuel ([Stuck]; [processCommand_not_stuck] shows it is never reached). *)
Inductive Outcome (A : Type) : Type :=
| Return (a : A) (st : Driver)
| Exit (st : Driver)
| Stuck.
Arguments Return {A} a st.
Arguments Exit {A} st.
Arguments Stuck {A}.

Definition M (A : Type) : Type := Driver -> Outcome A.

Definition bind {A B} (m : M A) (k : A -> M B) : M B :=
  fun st =>
    match m st with
    | Return a st' => k a st'
    | Exit st' => Exit st'
    | Stuck => Stuck
    end.

Definition ret {A} (a : A) : M A := fun st => Return a st.

(** A step that cannot fail. *)
Definition step (f : Driver -> Driver) : M unit := fun st => Return tt (f st).

Definition failWithError {A} (message : list ascii) : M A :=
  fun st => Exit (writeMessage MESSAGE_ERROR message st).

(** Runs a parsing function; its failure is a [failWithError]. *)
Definition scanning {A} (r : Scan A) : M A :=
  match r with
  | Scanned a => ret a
  | Failed message => failWithError message
  end.

Notation "'let!' p := m 'in' k" := (bind m (fun p => k))
  (at level 10, p pattern, m at level 100, k at level 200).
Notation "m ;;; k" := (bind m (fun _ : unit => k))
  (at level 100, k at level 200, right associativity).

Definition sendReady : M unit := step (writeMessage MESSAGE_READY (text "ready")).

Definition sendAck : M unit := step (writeMessage MESSAGE_ACK (text "ack")).

(** ** Encoding: [sendBits] *)

Definition signBitMask (bitCount : Z) : Z :=
  match Z.rem bitCount 8 with
  | 1 => 1
  | 2 => 2
  | 3 => 4
  | 4 => 8
  | 5 => 16
  | 6 => 32
  | 7 => 64
  | _ => 128
  end.

(** The in-place negation [for (int i = 0; i < byteCount; i++)]; [remaining]
    is [byteCount - i]. *)
Fixpoint twosComplement (remaining : nat) (i : Z) (carry : Z) (mutableBytes : list Z)
    : list Z :=
  match remaining with
  | O => mutableBytes
  | S remaining' =>
      let byte := byteAt mutableBytes i in
      let byte := Z.land (Z.lnot byte) 255 + carry in
      let carry := Z.shiftr byte 8 in
      twosComplement remaining' (i + 1) carry (setByte mutableBytes i (byte mod 256))
  end.

(** [for (int i = byteCount - 1; i >= 0; i--) writeMessageBody("%02X", ...)];
    [count] is [i + 1]. *)
Fixpoint sendBytes (count : nat) (mutableBytes : list Z) (st : Driver) : Driver :=
  match count with
  | O => st
  | S i => sendBytes i mutableBytes
             (writeMessageBody (hex02 (byteAt mutableBytes (Z.of_nat i))) st)
  end.

Definition sendBits (mutableBytes : list Z) (bitCount : Z) (isSigned : bool) : M unit :=
  if bitCount <=? 0 then failWithError (text "Cannot send 0-bit value.")
  else if isSigned && (bitCount <=? 1) then
    failWithError (text "Cannot send 1-bit signed value.")
  else fun st =>
    let st := writeMessageStart MESSAGE_BITS st in
    let st := writeMessageBody (hex08 bitCount ++ text " ") st in
    let byteCount := Z.quot (wrap_int (bitCount + 7)) 8 in
    let '(mutableBytes, st) :=
      if isSigned then
        let signBitMask := signBitMask bitCount in
        let '(mutableBytes, st) :=
          if negb (Z.land (byteAt mutableBytes (byteCount - 1)) signBitMask =? 0) then
            let st := writeMessageBody (text "-") st in
            (twosComplement (Z.to_nat byteCount) 0 1 mutableBytes, st)
          else (mutableBytes, st) in
        (setByte mutableBytes (byteCount - 1)
           (Z.land (byteAt mutableBytes (byteCount - 1)) (signBitMask - 1)), st)
      else (mutableBytes, st) in
    let st := sendBytes (Z.to_nat byteCount) mutableBytes st in
    Return tt (writeMessageEnd st).

(** The eight bytes of a [uint64_t] as they lie in memory (little-endian). *)
Fixpoint bytesOf (count : nat) (value : Z) : list Z :=
  match count with
  | O => []
  | S count' => value mod 256 :: bytesOf count' (value / 256)
  end.

Definition sendUintAsBits (value : Z) : M unit :=
  sendBits (bytesOf 8 (value mod 2 ^ 64)) 64 false.

(** ** The log tailer: [sendLog]

    [main] has redirected standard output to the log file before the
    simulation starts, so the file exists and [logFilePath] is set; after
    [fflush(stdout)] its content is [simulationLog]. *)
Definition sendLog : M unit := fun st =>
  let st := match log st with
            | None => set_log (Some 0) st
            | Some _ => st
            end in
  let currentOffset := match log st with Some offset => offset | None => 0 end in
  let endOffset := Z.of_nat (length (simulationLog st)) in
  if endOffset <? currentOffset then
    failWithError (text "Failed to gather log (" ++ decimal 299 ++ text ").") st
  else
    let readByteCount := endOffset - currentOffset in
    if readByteCount >? UINT32_MAX then
      failWithError (text "Log is too long to be encoded as a single `LOG` message.") st
    else
      let data := take (Z.to_nat readByteCount)
                    (drop (Z.to_nat currentOffset) (simulationLog st)) in
      let st := set_log (Some (currentOffset + readByteCount)) st in
      Return tt (writeMessage MESSAGE_LOG (hex08 readByteCount ++ text " " ++ cstr data) st).

(** ** Reading commands *)

(** The next line of the input, with its newline if it has one, and the
    rest of the input. *)
Fixpoint splitLine (stream : list ascii) : list ascii * list ascii :=
  match stream with
  | [] => ([], [])
  | c :: stream' =>
      if Ascii.eqb c newline then ([c], stream')
      else let '(line, rest) := splitLine stream' in (c :: line, rest)
  end.

(** [getline(&stringBuffer, &stringBufferLength, commandStream)]: at the end
    of the input it returns -1 and leaves the buffer as it is. *)
Definition getline (st : Driver) : Z * Driver :=
  match commandStream st with
  | [] => (-1, st)
  | _ :: _ =>
      let '(line, rest) := splitLine (commandStream st) in
      (Z.of_nat (length line), set_commandInput rest line st)
  end.

(** [feof(stdin)]: [main] has reopened [stdin] on /dev/null and nothing reads
    it, so its end-of-file indicator is never set. *)
Definition feof_stdin : bool := false.

(** The recorder's half of [readCommand]: the line just read goes to the
    execution script while the limit allows it, and when the count of
    commands reaches the limit the script gets a note and a closing [D]. *)
Definition recordCommand (st : Driver) : Driver :=
  match executionScript st with
  | None => st
  | Some _ =>
      let st :=
        if (executionScriptLimit st =? -1)
           || (executionScriptCommandCount st <=? executionScriptLimit st)
        then
          let st := writeScript (ScriptCommand (executionScriptCommandCount st)
                                   (cstr (stringBuffer st))) st in
          set_executionScriptCommandCount
            (wrap_int (executionScriptCommandCount st + 1)) st
        else st in
      if executionScriptCommandCount st =? wrap_int (executionScriptLimit st + 1) then
        let st := writeScript (ScriptLimitNote (executionScriptLimit st)) st in
        writeScript (ScriptImplicitDone (executionScriptCommandCount st)) st
      else st
  end.

(** Reads one command line into [stringBuffer] and returns the offsets of its
    first character and of its newline. *)
Definition readCommand : M (Z * Z) := fun st =>
  let '(byteCount, st) := getline st in
  let st := recordCommand st in
  let stringEnd := byteCount - 1 in
  if byteCount <=? 0 then
    if feof_stdin then failWithError (text "Unexpected end of input.") st
    else failWithError (text "Could not read next command.") st
  else if Ascii.eqb (charAt (stringBuffer st) stringEnd) newline then
    Return (0, stringEnd) st
  else failWithError (text "Read partial line " ++ cstr (stringBuffer st)) st.

(** *** [strtol] in base 16, after the C standard: white space, an optional
    sign, an optional [0x] before a digit, then the digits; the result is
    clamped to the range of [long]; without a digit nothing is consumed. *)

Definition isspace (c : ascii) : bool :=
  (code c =? 32) || ((9 <=? code c) && (code c <=? 13)).

Definition hexDigitValue (c : ascii) : option Z :=
  if (code "0" <=? code c) && (code c <=? code "9") then Some (code c - code "0")
  else if (code "A" <=? code c) && (code c <=? code "F") then Some (code c - code "A" + 10)
  else if (code "a" <=? code c) && (code c <=? code "f") then Some (code c - code "a" + 10)
  else None.

Fixpoint skipSpaces (s : list ascii) : Z :=
  match s with
  | c :: s' => if isspace c then 1 + skipSpaces s' else 0
  | [] => 0
  end.

Fixpoint scanDigits (s : list ascii) (value count : Z) : Z * Z :=
  match s with
  | c :: s' =>
      match hexDigitValue c with
      | Some d => scanDigits s' (16 * value + d) (count + 1)
      | None => (value, count)
      end
  | [] => (value, count)
  end.

Definition LONG_MIN : Z := - 2 ^ 63.
Definition LONG_MAX : Z := 2 ^ 63 - 1.

(** Returns the value and the offset of the first character not consumed. *)
Definition strtol16 (line : list ascii) (nptr : Z) : Z * Z :=
  let s := drop (Z.to_nat nptr) line in
  let i := skipSpaces s in
  let negative := Ascii.eqb (charAt s i) "-" in
  let i := if negative || Ascii.eqb (charAt s i) "+" then i + 1 else i in
  let i :=
    if Ascii.eqb (charAt s i) "0"
       && (Ascii.eqb (charAt s (i + 1)) "x" || Ascii.eqb (charAt s (i + 1)) "X")
       && (match hexDigitValue (charAt s (i + 2)) with Some _ => true | None => false end)
    then i + 2 else i in
  let '(magnitude, count) := scanDigits (drop (Z.to_nat i) s) 0 0 in
  if count =? 0 then (0, nptr)
  else
    let value := if negative then - magnitude else magnitude in
    (Z.max LONG_MIN (Z.min LONG_MAX value), nptr + i + count).

(** Scans an integer at [lineCursor]; returns it with the advanced cursor. *)
Definition scanInt (line : list ascii) (lineCursor : Z) (description : list ascii)
    : Scan (Z * Z) :=
  let '(value, scanEnd) := strtol16 line lineCursor in
  require negb (scanEnd =? lineCursor)
  orFail (text "Could not scan integer while " ++ description ++ text ".") in
  require negb ((value <? INT_MIN) || (value >? INT_MAX))
  orFail (text "Scanned out-of-bounds integer while " ++ description ++ text ".") in
  Scanned (value, scanEnd).

(** The offset of the next [character] at or after [cursor], or of the end
    of the string. *)
Fixpoint findNextIn (s : list ascii) (character : ascii) : Z :=
  match s with
  | [] => 0
  | c :: s' =>
      if Ascii.eqb c NUL || Ascii.eqb c character then 0
      else 1 + findNextIn s' character
  end.

Definition findNext (line : list ascii) (cursor : Z) (character : ascii) : Z :=
  cursor + findNextIn (drop (Z.to_nat cursor) line) character.

(** ** Ports *)

Definition resolveSettablePort (id : Z) (description : list ascii)
    : Scan (Z * (list Z -> EngineState E -> EngineState E)) :=
  match port_setter E id with
  | None => Failed (text "Invalid port ID '" ++ decimal id ++ text "'.")
  | Some (bitWidth, setter) =>
      require negb (bitWidth <=? 0)
      orFail (text "Encountered port with invalid bit width when " ++ description
              ++ text ".") in
      Scanned (bitWidth, setter)
  end.

Definition resolveGettablePort (id : Z) (description : list ascii)
    : Scan (Z * (EngineState E -> list Z -> list Z)) :=
  match port_getter E id with
  | None => Failed (text "Invalid port ID '" ++ decimal id ++ text "'.")
  | Some (bitWidth, getter) =>
      require negb (bitWidth <=? 0)
      orFail (text "Encountered port with invalid bit width when " ++ description
              ++ text ".") in
      Scanned (bitWidth, getter)
  end.

(** ** Processing commands *)

(** [memcmp(a, b, n) == 0]. A block of memory is the buffer that was
    allocated followed by whatever lies behind it ([beyond]); C leaves the
    result undefined when [n] exceeds the allocation. *)
Definition memoryByte (block : list Z) (beyond : nat -> Z) (i : nat) : Z :=
  match block !! i with
  | Some b => b
  | None => beyond (i - length block)%nat
  end.

Definition memcmpEqual (a : list Z) (beyondA : nat -> Z) (b : list Z) (beyondB : nat -> Z)
    (n : Z) : bool :=
  forallb (fun i => memoryByte a beyondA i =? memoryByte b beyondB i)
    (seq 0 (Z.to_nat n)).

(** What lies in memory behind the two sentinel buffers of a TICK command. *)
Variable beyondSentinelPortValue : nat -> Z.
Variable beyondSentinelValue : nat -> Z.

Record Sentinel : Type := {
  sentinelPortID : Z;
  sentinelBitWidth : Z;
  sentinelGetter : EngineState E -> list Z -> list Z;
  sentinelValue : list Z;
}.

(** The arguments of a TICK command once its line is parsed. *)
Record Tick : Type := {
  tickingPortID : Z;
  tickingSetter : list Z -> EngineState E -> EngineState E;
  inPhaseValue : list Z;
  outOfPhaseValue : list Z;
  timestepsPerPhase : Z;
  maxCycleCount : Z;
  sentinel : option Sentinel;
}.

(** The call of a port's setter on [data]. *)
Definition callSetter (id : Z) (setter : list Z -> EngineState E -> EngineState E)
    (data : list Z) (st : Driver) : Driver :=
  engineStep (CallSetter id data) (setter data (engine st)) [] st.

(** [run_simulation(timesteps)] *)
Definition callRunSimulation (timesteps : Z) (st : Driver) : Driver :=
  let '(next, printed) := run_simulation E timesteps (engine st) in
  engineStep (CallRunSimulation timesteps) next printed st.

(** The call of a port's getter on [bytes]: the buffer as the getter leaves it. *)
Definition callGetter (id : Z) (getter : EngineState E -> list Z -> list Z)
    (bytes : list Z) (st : Driver) : list Z * Driver :=
  (getter (engine st) bytes, engineStep (CallGetter id) (engine st) [] st).

(** The loop [while (cycles++ < maxCycleCount)] of the TICK command. Returns
    [cycles] as the loop leaves it; [None] when [fuel] runs out. *)
Fixpoint tickLoop (fuel : nat) (t : Tick) (sentinelPortValue : list Z) (cycles : Z)
    (st : Driver) : option (Z * Driver) :=
  match fuel with
  | O => None
  | S fuel' =>
      let test := cycles <? maxCycleCount t in
      let cycles := wrap_int (cycles + 1) in
      if test then
        let '(stop, sentinelPortValue, st) :=
          match sentinel t with
          | Some s =>
              let '(sentinelPortValue, st) :=
                callGetter (sentinelPortID s) (sentinelGetter s) sentinelPortValue st in
              (memcmpEqual sentinelPortValue beyondSentinelPortValue
                 (sentinelValue s) beyondSentinelValue (sentinelBitWidth s),
               sentinelPortValue, st)
          | None => (false, sentinelPortValue, st)
          end in
        if stop then Some (cycles, st)
        else
          let st := callSetter (tickingPortID t) (tickingSetter t) (inPhaseValue t) st in
          let st := callRunSimulation (timestepsPerPhase t) st in
          let st := callSetter (tickingPortID t) (tickingSetter t) (outOfPhaseValue t) st in
          let st := callRunSimulation (timestepsPerPhase t) st in
          tickLoop fuel' t sentinelPortValue cycles st
      else Some (cycles, st)
  end.

Definition expect (line : list ascii) (cursor : Z) (c : ascii) (message : string)
    : Scan unit :=
  if Ascii.eqb (charAt line cursor) c then Scanned tt else Failed (text message).

(** The parsing half of the SET_BITS case: the port and the data to set. *)
Definition scanSetBits (line : list ascii) (lineCursor lineEnd : Z)
    : Scan (Z * (list Z -> EngineState E -> EngineState E) * list Z) :=
  let* (id, lineCursor) :=
    scanInt line lineCursor (text "parsing port ID for SET_BITS command") in
  let* (bitWidth, setter) :=
    resolveSettablePort id (text "resolving port for SET_BITS command") in
  let* _ := expect line lineCursor " " "Expected space after port ID for SET_BITS command." in
  let lineCursor := lineCursor + 1 in
  let valueStart := lineCursor in
  let* (data, valueStart) :=
    scanHexBits line valueStart lineEnd bitWidth
      (text "parsing value for SET_BITS command") in
  Scanned (id, setter, data).

(** The parsing half of the GET_BITS case: signedness and the port. *)
Definition scanGetBits (line : list ascii) (lineCursor : Z)
    : Scan (bool * Z * Z * (EngineState E -> list Z -> list Z)) :=
  let* _ := expect line lineCursor " " "Expected space after `GET_BITS` command." in
  let lineCursor := lineCursor + 1 in
  let foo := charAt line lineCursor in
  let lineCursor := lineCursor + 1 in
  let* isSigned :=
    if Ascii.eqb foo "s" then Scanned true
    else if Ascii.eqb foo "u" then Scanned false
    else Failed (text "Expected `s` or `u` argument to `GET_BITS` command ("
                 ++ [foo] ++ text ").") in
  let* _ := expect line lineCursor " "
              "Expected space after `s` or `u` argument to `GET_BITS` command." in
  let lineCursor := lineCursor + 1 in
  let* (id, lineCursor) :=
    scanInt line lineCursor (text "parsing port ID for GET_BITS command") in
  let* _ := expect line lineCursor newline "Unexpected data at end of GET_BITS command" in
  let* (bitWidth, getter) :=
    resolveGettablePort id (text "resolving port for GET_BITS command") in
  Scanned (isSigned, id, bitWidth, getter).

(** The parsing half of the RUN case. *)
Definition scanRun (line : list ascii) (lineCursor : Z) : Scan Z :=
  let* (time, lineCursor) := scanInt line lineCursor (text "parsing time for RUN command") in
  let* _ := expect line lineCursor newline "Unexpected data at end of RUN command." in
  Scanned time.

(** The parsing half of the TICK case. *)
Definition scanTick (line : list ascii) (lineCursor lineEnd : Z) : Scan Tick :=
  let* (tickingPortID, lineCursor) :=
    scanInt line lineCursor (text "parsing ticking port ID for TICK command") in
  let* (tickingBitWidth, tickingSetter) :=
    resolveSettablePort tickingPortID (text "resolving ticking port for TICK command") in
  let* _ := expect line lineCursor " "
              "Expected space after ticking port ID for TICK command." in
  let lineCursor := lineCursor + 1 in
  let* (inPhaseValue, lineCursor) :=
    scanHexBits line lineCursor (findNext line lineCursor ",") tickingBitWidth
      (text "parsing in-phase value for TICK command") in
  let* _ := expect line lineCursor ","
              "Expected comma after in-phase value for TICK command." in
  let lineCursor := lineCursor + 1 in
  let* (outOfPhaseValue, lineCursor) :=
    scanHexBits line lineCursor (findNext line lineCursor "-") tickingBitWidth
      (text "parsing out-of-phase value for TICK command") in
  let* _ := expect line lineCursor "-"
              "Expected dash after out-of-phase value for TICK command." in
  let lineCursor := lineCursor + 1 in
  let* (timestepsPerPhase, lineCursor) :=
    scanInt line lineCursor (text "parsing timesteps-per-phase for TICK command") in
  let* _ := expect line lineCursor "*"
              "Expected asterisk after timesteps-per-phase for TICK command." in
  let lineCursor := lineCursor + 1 in
  let* (maxCycleCount, lineCursor) :=
    scanInt line lineCursor (text "parsing max cycle count for TICK command.") in
  require negb (maxCycleCount <=? 0)
  orFail (text "Max cycle count for TICK command should be greater than 0.") in
  let* (sentinel, lineCursor) :=
    if Ascii.eqb (charAt line lineCursor) " " then
      let lineCursor := lineCursor + 1 in
      let* (sentinelPortID, lineCursor) :=
        scanInt line lineCursor (text "parsing sentinel port ID for TICK command") in
      let* (sentinelBitWidth, sentinelGetter) :=
        resolveGettablePort sentinelPortID
          (text "resolving sentinel port for TICK command") in
      let* _ := expect line lineCursor "="
                  "Expected equals sign after sentinel port ID for TICK command." in
      let lineCursor := lineCursor + 1 in
      let* (sentinelValue, lineCursor) :=
        scanHexBits line lineCursor lineEnd sentinelBitWidth
          (text "parsing sentinel value for TICK command") in
      Scanned (Some {| sentinelPortID := sentinelPortID;
                       sentinelBitWidth := sentinelBitWidth;
                       sentinelGetter := sentinelGetter;
                       sentinelValue := sentinelValue |}, lineCursor)
    else Scanned (None, lineCursor) in
  require Ascii.eqb (charAt line lineCursor) newline
  orFail (text "Unexpected data at end of TICK command: "
          ++ cstr (drop (Z.to_nat lineCursor) line) ++ text ".") in
  Scanned {| tickingPortID := tickingPortID;
             tickingSetter := tickingSetter;
             inPhaseValue := inPhaseValue;
             outOfPhaseValue := outOfPhaseValue;
             timestepsPerPhase := timestepsPerPhase;
             maxCycleCount := maxCycleCount;
             sentinel := sentinel |}.

(** The parsing half of the TRACE case: the argument character. *)
Definition scanTrace (line : list ascii) (lineCursor : Z) : Scan ascii :=
  let* _ := expect line lineCursor " "
              "Expected space after ticking port ID for TICK command." in
  let lineCursor := lineCursor + 1 in
  let argument := charAt line lineCursor in
  let lineCursor := lineCursor + 1 in
  let* _ := expect line lineCursor newline "Unexpected data at end of TRACE command." in
  Scanned argument.

(** The cycles of a TICK command and its answer. *)
Definition runTick (t : Tick) : M unit := fun st =>
  let sentinelPortValue :=
    match sentinel t with
    | Some s => calloc (Z.quot (wrap_int (sentinelBitWidth s + 7)) 8)
    | None => []
    end in
  match tickLoop (S (Z.to_nat (maxCycleCount t))) t sentinelPortValue 0 st with
  | None => Stuck
  | Some (cycles, st) =>
      let cycles := wrap_int (cycles - 1) in
      sendUintAsBits cycles st
  end.

Definition runTrace (argument : ascii) : M unit := fun st =>
  let st :=
    if Ascii.eqb argument "1" then
      let st :=
        if negb (traceInitialized st) then
          let st := set_traceInitialized true st in
          engineStep (CallInitializeTrace (simulationTraceFilepath st))
            (simulation_initializeTrace E (simulationTraceFilepath st) (engine st)) [] st
        else st in
      engineStep CallEnableTrace (simulation_enableTrace E (engine st)) [] st
    else if Ascii.eqb argument "0" then
      engineStep CallDisableTrace (simulation_disableTrace E (engine st)) [] st
    else st in
  sendAck st.

(** The [switch (commandCode)] of [processCommand], on the line just read. *)
Definition dispatchCommand (line : list ascii) (lineCursor lineEnd : Z) : M unit :=
  let commandCode := charAt line lineCursor in
  let lineCursor := lineCursor + 1 in
  if Ascii.eqb commandCode COMMAND_DONE then
    step (set_receivedDone true)
  else if Ascii.eqb commandCode COMMAND_LOG then
    sendLog
  else if Ascii.eqb commandCode COMMAND_SET_BITS then
    let! (id, setter, data) := scanning (scanSetBits line lineCursor lineEnd) in
    step (callSetter id setter data) ;;;
    sendAck
  else if Ascii.eqb commandCode COMMAND_GET_BITS then
    let! (isSigned, id, bitWidth, getter) := scanning (scanGetBits line lineCursor) in
    let byteCount := Z.quot (wrap_int (bitWidth + 7)) 8 in
    let bytes := calloc byteCount in
    fun st =>
      let '(bytes, st) := callGetter id getter bytes st in
      sendBits bytes bitWidth isSigned st
  else if Ascii.eqb commandCode COMMAND_RUN then
    let! time := scanning (scanRun line lineCursor) in
    step (callRunSimulation time) ;;;
    sendAck
  else if Ascii.eqb commandCode COMMAND_TICK then
    let! t := scanning (scanTick line lineCursor lineEnd) in
    runTick t
  else if Ascii.eqb commandCode COMMAND_TRACE then
    let! argument := scanning (scanTrace line lineCursor) in
    runTrace argument
  else
    failWithError (text "Unknown opcode '" ++ decimal (charValue commandCode) ++ text "'.").

Definition processCommand : M unit :=
  let! (lineCursor, lineEnd) := readCommand in
  fun st => dispatchCommand (stringBuffer st) lineCursor lineEnd st.

(** [while (!receivedDone) processCommand();] *)
Fixpoint commandLoop (fuel : nat) : M unit := fun st =>
  if receivedDone st then Return tt st
  else
    match fuel with
    | O => Stuck
    | S fuel' => (processCommand ;;; commandLoop fuel') st
    end.

(** [aslrShenanigansDetected] is set by [main] before the simulation starts. *)
Definition simulation_body (fuel : nat) (aslrShenanigansDetected : bool) : M unit :=
  if aslrShenanigansDetected then
    failWithError
      (text "Backend did not relaunch the executable with ASLR disabled as expected.")
  else
    sendReady ;;;
    commandLoop fuel.

(** The process at the start of [simulation_body]. *)
Definition initialDriver (script : bool) (limit : Z) (input : list ascii)
    (tracePath : list ascii) (e : EngineState E) : Driver :=
  {| executionScript := if script then Some [] else None;
     executionScriptMessageCount := 0;
     executionScriptCommandCount := 1;
     executionScriptLimit := limit;
     messageStream := [];
     commandStream := input;
     stringBuffer := [];
     log := None;
     simulationLog := [];
     simulationTraceFilepath := tracePath;
     receivedDone := false;
     traceInitialized := false;
     engine := e;
     engineCalls := [] |}.

End Driver.

Arguments Return {E A} a st.
Arguments Exit {E A} st.
Arguments Stuck {E A}.
Arguments executionScript {E} d.
Arguments executionScriptMessageCount {E} d.
Arguments executionScriptCommandCount {E} d.
Arguments executionScriptLimit {E} d.
Arguments messageStream {E} d.
Arguments commandStream {E} d.
Arguments stringBuffer {E} d.
Arguments log {E} d.
Arguments simulationLog {E} d.
Arguments simulationTraceFilepath {E} d.
Arguments receivedDone {E} d.
Arguments traceInitialized {E} d.
Arguments engine {E} d.
Arguments engineCalls {E} d.

(** ** Values of buffers and of digit strings

    The vocabulary of the statements below: what number a buffer or a string
    of digits stands for. *)

(** The number a little-endian buffer holds. *)
Fixpoint leValue (bytes : list Z) : Z :=
  match bytes with
  | [] => 0
  | b :: bytes' => b + 256 * leValue bytes'
  end.

(** The number a list of hexadecimal digits holds, least significant first. *)
Fixpoint digitsValue (digits : list Z) : Z :=
  match digits with
  | [] => 0
  | d :: digits' => d + 16 * digitsValue digits'
  end.

(** Digits, least significant first, grouped into bytes, least significant
    first; an odd digit at the top is a byte of its own. *)
Fixpoint pairUp (digits : list Z) : list Z :=
  match digits with
  | [] => []
  | [lo] => [lo]
  | lo :: hi :: digits' => (16 * hi + lo) :: pairUp digits'
  end.

(** Byte-wise complement with a carry, as both the encoder and the decoder
    compute it: the new bytes and the carry out. *)
Fixpoint negateFrom (carry : Z) (bytes : list Z) : list Z * Z :=
  match bytes with
  | [] => ([], carry)
  | b :: bytes' =>
      let x := 255 - b + carry in
      let '(rest, out) := negateFrom (x / 256) bytes' in
      (x mod 256 :: rest, out)
  end.

(** What the scanning loop of the decoder stores for the bytes of a value:
    the bytes themselves, or their complement plus the carry. *)
Definition scannedBytes (isNegative : bool) (carry : Z) (bytes : list Z) : list Z * Z :=
  if isNegative then negateFrom carry bytes else (bytes, carry).

(** The text of a buffer: two uppercase digits per byte, high byte first. *)
Definition hexBytes (bytes : list Z) : list ascii :=
  concat (map hex02 (rev bytes)).

(** The integer a buffer of [bitCount] bits stands for. *)
Definition bufferValue (isSigned : bool) (bitCount : Z) (bytes : list Z) : Z :=
  let u := leValue bytes mod 2 ^ bitCount in
  if isSigned && (2 ^ (bitCount - 1) <=? u) then u - 2 ^ bitCount else u.

(** [ceil(bitCount / 8)] *)
Definition byteCountOf (bitCount : Z) : Z := (bitCount + 7) / 8.

(** The buffer the engine hands over for the integer [v] of [bitCount] bits:
    its two's complement, little-endian, unused high bits zero. *)
Definition bufferOf (bitCount : Z) (v : Z) : list Z :=
  bytesOf (Z.to_nat (byteCountOf bitCount)) (v mod 2 ^ bitCount).

Definition zrange (n : nat) : list Z := map Z.of_nat (seq 0 n).

Definition isByte (b : Z) : Prop := 0 <= b < 256.
Definition isDigit (d : Z) : Prop := 0 <= d < 16.

(** The hexadecimal digits of a buffer, least significant first. *)
Definition byteDigits (bytes : list Z) : list Z :=
  flat_map (fun b => [b mod 16; (b / 16) mod 16]) bytes.

(** ** The codec on integers *)

(** The integers a buffer of [bitCount] bits can hold. *)
Definition inRange (isSigned : bool) (bitCount : Z) (v : Z) : Prop :=
  if isSigned then - 2 ^ (bitCount - 1) <= v < 2 ^ (bitCount - 1)
  else 0 <= v < 2 ^ bitCount.

Definition encodedSign (isSigned : bool) (v : Z) : list ascii :=
  if isSigned && (v <? 0) then ["-"%char] else [].

(** The magnitude [sendBits] prints: a negative value is negated and cut to
    the [bitCount - 1] bits below the sign bit. *)
Definition encodedMagnitude (isSigned : bool) (bitCount : Z) (v : Z) : Z :=
  if isSigned && (v <? 0) then (- v) mod 2 ^ (bitCount - 1) else v.

(** The value part of the BITS message for the integer [v]. *)
Definition encodedText (isSigned : bool) (bitCount : Z) (v : Z) : list ascii :=
  encodedSign isSigned v
  ++ hexBytes (bytesOf (Z.to_nat (byteCountOf bitCount)) (encodedMagnitude isSigned bitCount v)).

(** The BITS message that carries the value text [value] at [bitCount] bits. *)
Definition bitsMessage (bitCount : Z) (value : list ascii) : list ascii :=
  [MESSAGE_BITS; " "%char] ++ hex08 bitCount ++ text " " ++ value ++ [newline].

(** An engine without ports, for running the codec on its own. *)
Definition nullEngine : Engine :=
  {| EngineState := unit;
     port_getter := fun _ => None;
     port_setter := fun _ => None;
     run_simulation := fun _ e => (e, []);
     simulation_initializeTrace := fun _ e => e;
     simulation_enableTrace := fun e => e;
     simulation_disableTrace := fun e => e |}.

(** The process right after start-up, nothing read or written yet. *)
Definition freshDriver (E : Engine) (e : EngineState E) (input : list ascii) : Driver E :=
  initialDriver E false (-1) input (text "trace") e.

(** The integer [v] of [bitCount] bits survives the wire: [sendBits] answers
    with a BITS message whose value text [scanHexBits] reads back, at the
    same width, into a buffer that holds [v]. *)
Definition roundTrips (E : Engine) (isSigned : bool) (bitCount v : Z) : Prop :=
  forall (st : Driver E) (description : list ascii),
  exists st' value bytes,
    sendBits E (bufferOf bitCount v) bitCount isSigned st = Return tt st'
    /\ messageStream st' = messageStream st ++ bitsMessage bitCount value
    /\ scanHexBits value 0 (Z.of_nat (length value)) bitCount description
       = Scanned (bytes, Z.of_nat (length value))
    /\ bufferValue isSigned bitCount bytes = v.

(** ** Vocabulary for the dispatcher *)

(** The entries of the execution script that record parts of a message. *)
Definition isMessageEntry (e : ScriptEntry) : Prop :=
  match e with
  | ScriptMessageStart _ _ | ScriptMessageText _ => True
  | _ => False
  end.

Definition isCommandEntry (e : ScriptEntry) : bool :=
  match e with
  | ScriptCommand _ _ => true
  | _ => false
  end.

(** The lines read from the command stream that the script has recorded. *)
Definition recordedCommands (script : list ScriptEntry) : nat :=
  length (filter (fun e => isCommandEntry e = true) script).

(** The characters of a value on the wire. *)
Definition isValueChar (c : ascii) : Prop :=
  c = "-"%char \/ exists d, hexDigitValue c = Some d.

Section DriverVocabulary.

Context {E : Engine}.

(** [st] with its message side replaced: the script, the message count and
    the message stream. *)
Definition withMessages (st : Driver E) (script : option (list ScriptEntry)) (count : Z)
    (stream : list ascii) : Driver E :=
  mkDriver E script count (executionScriptCommandCount st) (executionScriptLimit st)
    stream (commandStream st) (stringBuffer st) (log st) (simulationLog st)
    (simulationTraceFilepath st) (receivedDone st) (traceInitialized st)
    (engine st) (engineCalls st).

(** [st'] differs from [st] in its message side at most. *)
Definition onlyMessages (st st' : Driver E) : Prop :=
  st' = withMessages st (executionScript st') (executionScriptMessageCount st')
          (messageStream st').

(** The script of [st'] is the script of [st] with parts of messages added;
    the command side of the recorder is untouched. *)
Definition recorderGrows (st st' : Driver E) : Prop :=
  executionScriptLimit st' = executionScriptLimit st
  /\ executionScriptCommandCount st' = executionScriptCommandCount st
  /\ exists entries,
       Forall isMessageEntry entries
       /\ executionScript st'
          = option_map (fun script => script ++ entries) (executionScript st).

(** [st] with its engine side replaced: the engine, the record of the calls
    into it and the simulation log. *)
Definition withEngine (st : Driver E) (next : EngineState E) (calls : list EngineCall)
    (printed : list ascii) : Driver E :=
  mkDriver E (executionScript st) (executionScriptMessageCount st)
    (executionScriptCommandCount st) (executionScriptLimit st)
    (messageStream st) (commandStream st) (stringBuffer st) (log st) printed
    (simulationTraceFilepath st) (receivedDone st) (traceInitialized st) next calls.

(** [st'] differs from [st] in its engine side at most. *)
Definition onlyEngine (st st' : Driver E) : Prop :=
  st' = withEngine st (engine st') (engineCalls st') (simulationLog st').

(** The three ways a function of the driver can end. *)
Definition outcomeSatisfies {A} (o : Outcome E A) (Q : A -> Driver E -> Prop)
    (X : Driver E -> Prop) : Prop :=
  match o with
  | Return a st' => Q a st'
  | Exit st' => X st'
  | Stuck => False
  end.

(** The state in which a command is dispatched: the line is taken from the
    input and recorded. *)
Definition afterRead (st : Driver E) (line rest : list ascii) : Driver E :=
  recordCommand E (set_commandInput E rest line st).

(** The LOG message that [sendLog] writes in the state [st]: the number of
    bytes between the read offset and the end of the log, and these bytes as
    [%s] prints them. *)
Definition logResponse (st : Driver E) : list ascii :=
  let offset := match log st with Some offset => offset | None => 0 end in
  [MESSAGE_LOG; " "%char]
  ++ hex08 (Z.of_nat (length (simulationLog st)) - offset) ++ text " "
  ++ cstr (drop (Z.to_nat offset) (simulationLog st)) ++ [newline].

(** The one response to a command with the code [commandCode] that is
    dispatched in the state [st]: [k ack] for SET_BITS, RUN and TRACE, one
    [b <width> <value>] line for GET_BITS and TICK, and for LOG the LOG
    message of the log as it is in [st]. *)
Inductive Response (st : Driver E) (commandCode : ascii) : list ascii -> Prop :=
| ResponseAck :
    commandCode = COMMAND_SET_BITS \/ commandCode = COMMAND_RUN
    \/ commandCode = COMMAND_TRACE ->
    Response st commandCode ([MESSAGE_ACK; " "%char] ++ text "ack" ++ [newline])
| ResponseBits bitCount value :
    commandCode = COMMAND_GET_BITS \/ commandCode = COMMAND_TICK ->
    Forall isValueChar value ->
    Response st commandCode (bitsMessage bitCount value)
| ResponseLog :
    commandCode = COMMAND_LOG ->
    Response st commandCode (logResponse st).

(** [st'] is [st1] after the one response to a command with the code
    [commandCode] that was dispatched in [st1]: the recorder has only grown
    by parts of messages, the input is where it was, and the message stream
    is longer by exactly that response. *)
Definition responded (commandCode : ascii) (st1 st' : Driver E) : Prop :=
  recorderGrows st1 st'
  /\ commandStream st' = commandStream st1
  /\ executionScriptMessageCount st' = wrap_int (executionScriptMessageCount st1 + 1)
  /\ exists r, Response st1 commandCode r /\ messageStream st' = messageStream st1 ++ r.

(** A step between reading the command and writing the response: it leaves
    the recorder, the input and the message side alone. *)
Definition quiet (st1 st2 : Driver E) : Prop :=
  recorderGrows st1 st2
  /\ commandStream st2 = commandStream st1
  /\ executionScriptMessageCount st2 = executionScriptMessageCount st1
  /\ messageStream st2 = messageStream st1.

(** The next line of the command stream is [line], newline included. *)
Definition nextCommand (st : Driver E) (line : list ascii) (rest : list ascii) : Prop :=
  commandStream st = line ++ rest
  /\ exists body, line = body ++ [newline] /\ ~ In newline body.

End DriverVocabulary.

(** The timesteps of the [run_simulation] calls among [calls], in order. *)
Definition advances (calls : list EngineCall) : list Z :=
  flat_map (fun call => match call with
                        | CallRunSimulation timesteps => [timesteps]
                        | _ => []
                        end) calls.

(** The engine calls of one cycle of a TICK command without sentinel. *)
Definition cycleCalls {E : Engine} (t : Tick E) : list EngineCall :=
  [CallSetter (tickingPortID E t) (inPhaseValue E t);
   CallRunSimulation (timestepsPerPhase E t);
   CallSetter (tickingPortID E t) (outOfPhaseValue E t);
   CallRunSimulation (timestepsPerPhase E t)].

(** One cycle of a TICK command without sentinel: in-phase, advance,
    out-of-phase, advance; and [n] cycles in a row. *)
Definition cycleStep (E : Engine) (t : Tick E) (st : Driver E) : Driver E :=
  callRunSimulation E (timestepsPerPhase E t)
    (callSetter E (tickingPortID E t) (tickingSetter E t) (outOfPhaseValue E t)
       (callRunSimulation E (timestepsPerPhase E t)
          (callSetter E (tickingPortID E t) (tickingSetter E t) (inPhaseValue E t) st))).

Fixpoint cycleSteps (E : Engine) (n : nat) (t : Tick E) (st : Driver E) : Driver E :=
  match n with
  | O => st
  | S n' => cycleSteps E n' t (cycleStep E t st)
  end.

(** ** An engine to run examples on

    Ports 0 and 7 are one bit wide, port 1 four bits, port 5 eight, port 9
    nine, port 16 sixteen, port 42 twelve, port 3 has the invalid width 0.
    A port holds what was last set, except port 7, which reads 1 once the
    simulation has been advanced ten times. Advancing by 1, 2 or 3 timesteps
    prints a piece of text. *)

Record DemoState : Type := {
  portValue : Z -> list Z;
  runs : Z;
}.

Definition demoWidth (id : Z) : option Z :=
  match id with
  | 0 => Some 1
  | 1 => Some 4
  | 3 => Some 0
  | 5 => Some 8
  | 7 => Some 1
  | 9 => Some 9
  | 16 => Some 16
  | 42 => Some 12
  | _ => None
  end.

Definition demoEngine : Engine :=
  {| EngineState := DemoState;
     port_getter := fun id =>
       match demoWidth id with
       | Some w =>
           Some (w, fun e buffer =>
                      if id =? 7 then (if 10 <=? runs e then [1] else [0])
                      else portValue e id)
       | None => None
       end;
     port_setter := fun id =>
       match demoWidth id with
       | Some w =>
           Some (w, fun data e =>
                      {| portValue := fun j => if j =? id then data else portValue e j;
                         runs := runs e |})
       | None => None
       end;
     run_simulation := fun timesteps e =>
       ({| portValue := portValue e; runs := runs e + 1 |},
        if timesteps =? 1 then text "hello" ++ [newline]
        else if timesteps =? 2 then text "world"
        else if timesteps =? 3 then ["a"%char; NUL; "b"%char]
        else []);
     simulation_initializeTrace := fun _ e => e;
     simulation_enableTrace := fun e => e;
     simulation_disableTrace := fun e => e |}.

Definition demoStart : DemoState :=
  {| portValue := fun id => if id =? 5 then [240] else if id =? 16 then [52; 18] else [0];
     runs := 0 |}.

(** A command line: [s] followed by a newline. *)
Definition commandLine (s : string) : list ascii := text s ++ [newline].

(** Memory behind a buffer that holds [b] everywhere. *)
Definition filledWith (b : Z) : nat -> Z := fun _ => b.

(** ** Vocabulary for the execution script *)

(** Every closing [D] of the script stands right behind a note about the
    limit and carries the number after the limit. *)
Definition noteBeforeDone (limit : Z) (script : list ScriptEntry) : Prop :=
  forall i n,
    script !! i = Some (ScriptImplicitDone n) ->
    n = limit + 1
    /\ exists j, i = S j /\ script !! j = Some (ScriptLimitNote limit).


(** What the recorder keeps true while a limit is set. *)
Definition recorderInvariant {E : Engine} (limit : Z) (st : Driver E) : Prop :=
  executionScriptLimit st = limit
  /\ 1 <= executionScriptCommandCount st <= limit + 1
  /\ exists script,
       executionScript st = Some script
       /\ Z.of_nat (recordedCommands script) = executionScriptCommandCount st - 1
       /\ noteBeforeDone limit script.

(** ** Vocabulary for the engine side of a session *)

(** The probe of the sentinel port that comes before a cycle of TICK. *)
Definition probeCalls {E : Engine} (t : Tick E) : list EngineCall :=
  match sentinel E t with
  | Some s => [CallGetter (sentinelPortID E s)]
  | None => []
  end.

(** The engine calls of a TICK command that ran [n] cycles: a probe and a
    cycle, [n] times over, and the probe that stopped it if it stopped
    early. *)
Definition tickCalls {E : Engine} (t : Tick E) (n : nat) (stopped : bool)
    : list EngineCall :=
  concat (replicate n (probeCalls t ++ cycleCalls t))
  ++ (if stopped then probeCalls t else []).

Definition isTraceCall (call : EngineCall) : bool :=
  match call with
  | CallInitializeTrace _ | CallEnableTrace | CallDisableTrace => true
  | _ => false
  end.

(** The discipline of the trace calls: the trace is initialised at most once
    and never enabled before it is initialised. Runs over the calls from the
    state [initialized]; [None] when a call breaks the discipline. *)
Fixpoint traceRun (initialized : bool) (calls : list EngineCall) : option bool :=
  match calls with
  | [] => Some initialized
  | CallInitializeTrace _ :: calls' =>
      if initialized then None else traceRun true calls'
  | CallEnableTrace :: calls' =>
      if initialized then traceRun true calls' else None
  | _ :: calls' => traceRun initialized calls'
  end.

Section EngineVocabulary.

Context {E : Engine}.

(** The read offset of [sendLog] in the log file: 0 until it is opened. *)
Definition logOffset (st : Driver E) : Z :=
  match log st with
  | Some offset => offset
  | None => 0
  end.

(** The read offset lies within the log file. *)
Definition logWithin (st : Driver E) : Prop :=
  0 <= logOffset st <= Z.of_nat (length (simulationLog st)).

(** The calls made so far keep the discipline of the trace, and the flag
    [traceInitialized] tells whether the trace is initialised. *)
Definition traceDiscipline (st : Driver E) : Prop :=
  traceRun false (engineCalls st) = Some (traceInitialized st).

(** [st'] is [st] after calls to ports and to [run_simulation]: only the
    engine side differs, by calls that are not trace calls and by what the
    simulation printed. *)
Definition engineAdvanced (st st' : Driver E) : Prop :=
  onlyEngine st st'
  /\ (exists calls,
        engineCalls st' = engineCalls st ++ calls
        /\ Forall (fun call => isTraceCall call = false) calls)
  /\ exists printed, simulationLog st' = simulationLog st ++ printed.

(** What one command may do to the engine side and to the log: calls are
    added, the log grows, the read offset stays or moves to the end of the
    log, and the trace calls keep their discipline. *)
Definition engineSideStep (st st' : Driver E) : Prop :=
  exists calls printed,
    engineCalls st' = engineCalls st ++ calls
    /\ simulationLog st' = simulationLog st ++ printed
    /\ (logOffset st' = logOffset st
        \/ logOffset st' = Z.of_nat (length (simulationLog st')))
    /\ traceRun (traceInitialized st) calls = Some (traceInitialized st').

End EngineVocabulary.

(** The states a session passes through: the state after the READY message,
    and every state a command returns to while DONE has not been received. *)
Inductive sessionState {E : Engine} (beyondSentinelPortValue beyondSentinelValue : nat -> Z)
    (start : Driver E) : Driver E -> Prop :=
| sessionReady :
    sessionState beyondSentinelPortValue beyondSentinelValue start
      (writeMessage E MESSAGE_READY (text "ready") start)
| sessionCommand st st' :
    sessionState beyondSentinelPortValue beyondSentinelValue start st ->
    receivedDone st = false ->
    processCommand E beyondSentinelPortValue beyondSentinelValue st = Return tt st' ->
    sessionState beyondSentinelPortValue beyondSentinelValue start st'.

(** [st'] is [st] after the lines [lines] were read, none of them a DONE
    command, and answered by [responses]: each line by the one response to
    it in the state in which it was read. *)
Inductive answered {E : Engine} (beyondSentinelPortValue beyondSentinelValue : nat -> Z)
    : Driver E -> list (list ascii) -> list (list ascii) -> Driver E -> Prop :=
| answeredNone st :
    answered beyondSentinelPortValue beyondSentinelValue st [] [] st
| answeredLine st st1 st' line lines r responses :
    processCommand E beyondSentinelPortValue beyondSentinelValue st = Return tt st1 ->
    nextCommand st line (commandStream st1) ->
    charAt line 0 <> COMMAND_DONE ->
    Response st (charAt line 0) r ->
    messageStream st1 = messageStream st ++ r ->
    answered beyondSentinelPortValue beyondSentinelValue st1 lines responses st' ->
    answered beyondSentinelPortValue beyondSentinelValue st (line :: lines)
      (r :: responses) st'.

(** [st1] has the engine side, the log and the trace flag of [st]. *)
Definition sameEngineSide {E : Engine} (st st1 : Driver E) : Prop :=
  engineCalls st1 = engineCalls st
  /\ simulationLog st1 = simulationLog st
  /\ log st1 = log st
  /\ traceInitialized st1 = traceInitialized st.

(** ** Vocabulary for command lines *)

(** The number a numeral stands for, most significant digit first. *)
Definition numeralValue (digits : list Z) : Z :=
  fold_left (fun value d => 16 * value + d) digits 0.

(** [chars] is a hexadecimal numeral, in upper or lower case, whose digits
    are [digits]. *)
Definition isNumeral (chars : list ascii) (digits : list Z) : Prop :=
  chars <> [] /\ Forall2 (fun c d => hexDigitValue c = Some d) chars digits.

(** [c] ends a numeral: it is no hexadecimal digit and no [x]. *)
Definition endsNumeral (c : ascii) : Prop :=
  hexDigitValue c = None /\ c <> "x"%char /\ c <> "X"%char.

(** White space in the sense of [isspace]. *)
Definition isBlank (spaces : list ascii) : Prop :=
  Forall (fun c => isspace c = true) spaces.

Definition signChars (negative : bool) : list ascii :=
  if negative then ["-"%char] else [].

Definition signedValue (negative : bool) (digits : list Z) : Z :=
  if negative then - numeralValue digits else numeralValue digits.

(** ** Vocabulary for sessions *)

(** A line of the input: no newline but the one that ends it. *)
Definition isLine (line : list ascii) : Prop :=
  exists body, line = body ++ [newline] /\ ~ In newline body.

(** The number of newlines of the input. *)
Fixpoint lineCount (stream : list ascii) : nat :=
  match stream with
  | [] => 0
  | c :: stream' => (if Ascii.eqb c newline then 1 else 0) + lineCount stream'
  end.

(** [st'] is [st] after a command was refused: the engine and the log are as
    they were, no port was set and the simulation was not advanced (at most a
    getter was called), and one error message was written. *)
Definition refusedFrom {E : Engine} (st st' : Driver E) : Prop :=
  engine st' = engine st
  /\ simulationLog st' = simulationLog st
  /\ (engineCalls st' = engineCalls st
      \/ exists id, engineCalls st' = engineCalls st ++ [CallGetter id])
  /\ exists message,
       messageStream st'
       = messageStream st ++ [MESSAGE_ERROR; " "%char] ++ message ++ [newline].

(** The codes of the commands. *)
Definition commandCodes : list ascii :=
  [COMMAND_DONE; COMMAND_LOG; COMMAND_GET_BITS; COMMAND_SET_BITS; COMMAND_RUN;
   COMMAND_TICK; COMMAND_TRACE].

(** ** Vocabulary for the record of messages *)

Section RecordVocabulary.

Context {E : Engine}.

(** What the execution script gets for the message [out] written in the
    state [st]: the message behind its number, or nothing. *)
Definition messageRecord (st : Driver E) (out : list ascii) : list ascii :=
  if shouldLogMessageToExecutionScript E st then
    decimal (executionScriptMessageCount st) ++ text "< " ++ out
  else [].

(** [st1] has the message side of [st]: stream, script, count and limit. *)
Definition sameMessageSide (st st1 : Driver E) : Prop :=
  messageStream st1 = messageStream st
  /\ executionScript st1 = executionScript st
  /\ executionScriptMessageCount st1 = executionScriptMessageCount st
  /\ executionScriptLimit st1 = executionScriptLimit st.

(** [st'] is [st] after the piece [out] of a message: the stream has it,
    and so has the script if messages are recorded. *)
Definition mirrored (st st' : Driver E) (out : list ascii) : Prop :=
  onlyMessages st st'
  /\ executionScriptMessageCount st' = executionScriptMessageCount st
  /\ messageStream st' = messageStream st ++ out
  /\ exists entries,
       executionScript st'
       = option_map (fun script => script ++ entries) (executionScript st)
       /\ renderScript entries
          = if shouldLogMessageToExecutionScript E st then out else [].

(** [st'] is [st] after one message: the stream has it, the script has it
    whole behind its number or not at all, and the count of messages is one
    higher. *)
Definition messageRecorded (st st' : Driver E) : Prop :=
  exists out entries,
    messageStream st' = messageStream st ++ out
    /\ executionScript st'
       = option_map (fun script => script ++ entries) (executionScript st)
    /\ renderScript entries = messageRecord st out
    /\ executionScriptMessageCount st' = wrap_int (executionScriptMessageCount st + 1)
    /\ executionScriptLimit st' = executionScriptLimit st.

End RecordVocabulary.

(** ** Vocabulary for the commands of the execution script *)





(** ** Vocabulary for what the calls do to the engine *)

(** The engine after the call [call], and what the simulation has printed
    during it. A setter of a port that the engine does not have leaves the
    engine as it is, and so does every getter. *)
Definition engineCall (E : Engine) (call : EngineCall) (e : EngineState E)
    : EngineState E * list ascii :=
  match call with
  | CallSetter id bytes =>
      match port_setter E id with
      | Some (_, setter) => (setter bytes e, [])
      | None => (e, [])
      end
  | CallGetter _ => (e, [])
  | CallRunSimulation timesteps => run_simulation E timesteps e
  | CallInitializeTrace path => (simulation_initializeTrace E path e, [])
  | CallEnableTrace => (simulation_enableTrace E e, [])
  | CallDisableTrace => (simulation_disableTrace E e, [])
  end.

(** The engine after the calls [calls], in order, and all that the
    simulation has printed on the way. *)
Fixpoint engineAfter (E : Engine) (calls : list EngineCall) (e : EngineState E)
    : EngineState E * list ascii :=
  match calls with
  | [] => (e, [])
  | call :: calls' =>
      let '(e1, printed) := engineCall E call e in
      let '(e2, printed') := engineAfter E calls' e1 in
      (e2, printed ++ printed')
  end.

(** [st'] is [st] after the calls [calls] into the engine: the record of
    calls has them, the engine has gone through them, and the log has what
    the simulation printed. *)
Definition engineWent {E : Engine} (st st' : Driver E) (calls : list EngineCall) : Prop :=
  engineCalls st' = engineCalls st ++ calls
  /\ engine st' = fst (engineAfter E calls (engine st))
  /\ simulationLog st' = simulationLog st ++ snd (engineAfter E calls (engine st)).

(** * Properties *)

(** ** Arithmetic of C integers, bytes and digits *)

(** Turns the boolean tests of the model into propositions for [lia]. *)
Ltac boolZ :=
  repeat match goal with
  | H : negb _ = true |- _ => apply negb_true_iff in H
  | H : negb _ = false |- _ => apply negb_false_iff in H
  | H : (_ && _)%bool = true |- _ => apply andb_true_iff in H; destruct H
  | H : (_ || _)%bool = false |- _ => apply orb_false_iff in H; destruct H
  | H : (_ <? _) = true |- _ => apply Z.ltb_lt in H
  | H : (_ <? _) = false |- _ => apply Z.ltb_ge in H
  | H : (_ <=? _) = true |- _ => apply Z.leb_le in H
  | H : (_ <=? _) = false |- _ => apply Z.leb_gt in H
  | H : (_ >? _) = true |- _ => rewrite Z.gtb_ltb in H
  | H : (_ >? _) = false |- _ => rewrite Z.gtb_ltb in H
  | H : (_ =? _) = true |- _ => apply Z.eqb_eq in H
  | H : (_ =? _) = false |- _ => apply Z.eqb_neq in H
  end.

Ltac absurd_lia := exfalso; boolZ; lia.

Lemma wrap_int_id x : INT_MIN <= x <= INT_MAX -> wrap_int x = x.
Proof.
  unfold wrap_int, INT_MIN, INT_MAX. intros H.
  rewrite Z.mod_small by lia. lia.
Qed.

Lemma byteCount_quot w :
  1 <= w <= INT_MAX - 7 -> Z.quot (wrap_int (w + 7)) 8 = byteCountOf w.
Proof.
  intros H. rewrite wrap_int_id by (unfold INT_MIN, INT_MAX in *; lia).
  unfold byteCountOf. apply Z.quot_div_nonneg; lia.
Qed.

Lemma byteCountOf_pos w : 1 <= w -> 1 <= byteCountOf w.
Proof. intros H. unfold byteCountOf. apply Z.div_le_lower_bound; lia. Qed.

Lemma byteCountOf_split w : 1 <= w -> byteCountOf w = (w - 1) / 8 + 1.
Proof.
  intros H. unfold byteCountOf.
  replace (w + 7) with ((w - 1) + 1 * 8) by lia.
  rewrite Z.div_add by lia. reflexivity.
Qed.

Lemma zrange_forallb (P : Z -> bool) n :
  forallb P (zrange n) = true -> forall x, 0 <= x < Z.of_nat n -> P x = true.
Proof.
  intros H x Hx. rewrite forallb_forall in H. apply H.
  unfold zrange. apply in_map_iff. exists (Z.to_nat x). split; [lia|].
  apply in_seq. lia.
Qed.

Lemma lnot_land_byte b : isByte b -> Z.land (Z.lnot b) 255 = 255 - b.
Proof.
  intros Hb. change 255 with (Z.ones 8) at 1. rewrite Z.land_ones by lia.
  unfold Z.lnot. rewrite <- Z.sub_1_r.
  replace (- b - 1) with ((255 - b) + (-1) * 2 ^ 8) by lia.
  rewrite Z.mod_add by lia. apply Z.mod_small. unfold isByte in Hb. lia.
Qed.

Lemma shiftr_8 x : Z.shiftr x 8 = x / 256.
Proof. rewrite Z.shiftr_div_pow2 by lia. reflexivity. Qed.

Lemma lor_shiftl_digits hi lo :
  isDigit hi -> isDigit lo -> Z.lor (Z.shiftl hi 4) lo = 16 * hi + lo.
Proof.
  intros Hh Hl.
  assert (H : forallb (fun h => forallb (fun l => Z.lor (Z.shiftl h 4) l =? 16 * h + l)
                                  (zrange 16)) (zrange 16) = true) by (vm_compute; reflexivity).
  pose proof (zrange_forallb _ _ H hi Hh) as H1. cbv beta in H1.
  pose proof (zrange_forallb _ _ H1 lo Hl) as H2. cbv beta in H2.
  apply Z.eqb_eq in H2. exact H2.
Qed.

(** A hexadecimal digit character and its value, as [scanHexCharacterReverse]
    reads it. *)
Lemma hexDigitValue_range c d : hexDigitValue c = Some d -> isDigit d.
Proof.
  unfold hexDigitValue, isDigit.
  repeat match goal with
  | |- context [if ?b then _ else _] => destruct b eqn:?
  end; intros [= <-]; change (code "0") with 48 in *; change (code "9") with 57 in *;
    change (code "A") with 65 in *; change (code "F") with 70 in *;
    change (code "a") with 97 in *; change (code "f") with 102 in *; lia.
Qed.

Lemma scanHexCharacterReverse_digit line cursor description d :
  hexDigitValue (charAt line cursor) = Some d ->
  scanHexCharacterReverse line cursor description = Scanned (d, cursor - 1).
Proof.
  unfold hexDigitValue, scanHexCharacterReverse.
  set (c := charAt line cursor). unfold charValue.
  change (code "0") with 48; change (code "9") with 57;
    change (code "A") with 65; change (code "F") with 70;
    change (code "a") with 97; change (code "f") with 102.
  cbn [Z.ltb Z.compare Pos.compare Pos.compare_cont].
  destruct (code c <? 128) eqn:Hc;
  repeat match goal with
  | |- context [if ?b then _ else _] => destruct b eqn:?
  end; intros [= <-]; try reflexivity; exfalso; lia.
Qed.

Lemma scanHexCharacterReverse_not_digit line cursor description :
  hexDigitValue (charAt line cursor) = None ->
  exists message, scanHexCharacterReverse line cursor description = Failed message.
Proof.
  unfold hexDigitValue, scanHexCharacterReverse.
  set (c := charAt line cursor). unfold charValue.
  change (code "0") with 48; change (code "9") with 57;
    change (code "A") with 65; change (code "F") with 70;
    change (code "a") with 97; change (code "f") with 102.
  cbn [Z.ltb Z.compare Pos.compare Pos.compare_cont].
  assert (Hc0 : 0 <= code c < 256)
    by (unfold code; pose proof (N_ascii_bounded c); lia).
  destruct (code c <? 128) eqn:Hc;
  repeat match goal with
  | |- context [if ?b then _ else _] => destruct b eqn:?
  end; intros [=]; try (eexists; reflexivity); exfalso; lia.
Qed.

Lemma hexDigitValue_hexDigit d : isDigit d -> hexDigitValue (hexDigit d) = Some d.
Proof.
  intros Hd.
  assert (H : forallb (fun x => match hexDigitValue (hexDigit x) with
                                | Some y => y =? x
                                | None => false
                                end) (zrange 16) = true) by (vm_compute; reflexivity).
  pose proof (zrange_forallb _ _ H d Hd) as H1. cbv beta in H1.
  destruct (hexDigitValue (hexDigit d)); [|discriminate].
  apply Z.eqb_eq in H1. subst. reflexivity.
Qed.

(** ** The scanning loop of the decoder *)

Lemma charAt_app pre c post :
  charAt (pre ++ c :: post) (Z.of_nat (length pre)) = c.
Proof.
  unfold charAt. destruct (Z.of_nat (length pre) <? 0) eqn:H; [absurd_lia|].
  rewrite Nat2Z.id. rewrite app_nth2 by lia.
  replace (length pre - length pre)%nat with 0%nat by lia. reflexivity.
Qed.

Lemma byteAt_app done b rest :
  byteAt (done ++ b :: rest) (Z.of_nat (length done)) = b.
Proof.
  unfold byteAt. destruct (Z.of_nat (length done) <? 0) eqn:H; [absurd_lia|].
  rewrite Nat2Z.id. rewrite app_nth2 by lia.
  replace (length done - length done)%nat with 0%nat by lia. reflexivity.
Qed.

Lemma setByte_app done b rest x :
  setByte (done ++ b :: rest) (Z.of_nat (length done)) x = done ++ x :: rest.
Proof.
  unfold setByte. destruct (Z.of_nat (length done) <? 0) eqn:H; [absurd_lia|].
  rewrite Nat2Z.id. rewrite insert_app_r_alt by lia.
  replace (length done - length done)%nat with 0%nat by lia. reflexivity.
Qed.

Lemma scanHexByteReverse_one line first description c d :
  charAt line first = c -> hexDigitValue c = Some d ->
  scanHexByteReverse line first first description = Scanned (d, first - 1).
Proof.
  intros Hc Hd. unfold scanHexByteReverse.
  rewrite (scanHexCharacterReverse_digit _ _ _ d) by (rewrite Hc; exact Hd).
  cbn [scanBind]. destruct (first - 1 <? first) eqn:H; [reflexivity | absurd_lia].
Qed.

Lemma scanHexByteReverse_two line first cursor description clo chi dlo dhi :
  first < cursor ->
  charAt line cursor = clo -> hexDigitValue clo = Some dlo ->
  charAt line (cursor - 1) = chi -> hexDigitValue chi = Some dhi ->
  scanHexByteReverse line cursor first description = Scanned (16 * dhi + dlo, cursor - 2).
Proof.
  intros Hlt Hc Hd Hc' Hd'. unfold scanHexByteReverse.
  rewrite (scanHexCharacterReverse_digit _ _ _ dlo) by (rewrite Hc; exact Hd).
  cbn [scanBind]. destruct (cursor - 1 <? first) eqn:H; [absurd_lia|].
  rewrite (scanHexCharacterReverse_digit _ _ _ dhi) by (rewrite Hc'; exact Hd').
  cbn [scanBind]. rewrite lor_shiftl_digits by eauto using hexDigitValue_range.
  do 2 f_equal. lia.
Qed.

Lemma carry_check x : 0 <= x <= 256 -> (Z.land (x / 256) (Z.lnot 1) =? 0) = true.
Proof.
  intros H. assert (Hc : x / 256 = 0 \/ x / 256 = 1).
  { assert (0 <= x / 256 <= 1); [|lia]. split.
    - apply Z.div_pos; lia.
    - apply Z.div_le_upper_bound; lia. }
  destruct Hc as [-> | ->]; reflexivity.
Qed.

Lemma carry_out_bit x : 0 <= x <= 256 -> x / 256 = 0 \/ x / 256 = 1.
Proof.
  intros H. assert (0 <= x / 256 <= 1); [|lia]. split.
  - apply Z.div_pos; lia.
  - apply Z.div_le_upper_bound; lia.
Qed.

Lemma pairUp_isByte digits : Forall isDigit digits -> Forall isByte (pairUp digits).
Proof.
  revert digits.
  fix IH 1. intros [|lo [|hi digits]] H.
  - constructor.
  - inversion H; subst. constructor; [|constructor]. unfold isDigit, isByte in *. lia.
  - inversion H as [|? ? Hlo H']; subst. inversion H' as [|? ? Hhi H'']; subst.
    cbn [pairUp]. constructor.
    + unfold isDigit, isByte in *. lia.
    + apply IH. exact H''.
Qed.

Lemma digits_of_chars chars digits :
  Forall2 (fun c d => hexDigitValue c = Some d) chars digits -> Forall isDigit digits.
Proof.
  induction 1; constructor; eauto using hexDigitValue_range.
Qed.

(** When every character of the value is a digit and the loop has room for
    all of them, it consumes the whole value: the cursor ends left of the
    first character and the buffer holds the digits paired into bytes,
    complemented for a negative value. [rchars] is the value read from its
    last character backwards. *)
Lemma scanHexBitsLoop_scans remaining :
  forall rchars rdigits pre post description isNegative carry done rest,
    Forall2 (fun c d => hexDigitValue c = Some d) rchars rdigits ->
    rchars <> [] ->
    (length rchars <= 2 * remaining)%nat ->
    (length (pairUp rdigits) <= length rest)%nat ->
    carry = 0 \/ carry = 1 ->
    scanHexBitsLoop remaining (pre ++ rev rchars ++ post) (Z.of_nat (length pre))
      description isNegative
      (Z.of_nat (length pre) + Z.of_nat (length rchars) - 1) carry
      (Z.of_nat (length done)) (done ++ rest)
    = let new := scannedBytes isNegative carry (pairUp rdigits) in
      Scanned (Z.of_nat (length pre) - 1, snd new,
               Z.of_nat (length done) + Z.of_nat (length (fst new)),
               done ++ fst new ++ drop (length (fst new)) rest).
Proof.
  induction remaining as [|remaining IH];
    intros rchars rdigits pre post description isNegative carry done rest
      Hchars Hne Hlen Hroom Hcarry.
  { destruct rchars; [congruence | simpl in Hlen; absurd_lia]. }
  destruct Hchars as [|clo dlo rchars rdigits Hlo Hchars]; [congruence|].
  pose proof (hexDigitValue_range _ _ Hlo) as Rlo.
  destruct Hchars as [|chi dhi rchars rdigits Hhi Hchars].
  - (* a single digit is left *)
    cbn [pairUp length] in Hroom. destruct rest as [|r0 rest]; [simpl in Hroom; absurd_lia|].
    cbn [scanHexBitsLoop rev app length].
    replace (Z.of_nat (length pre) + Z.of_nat 1 - 1) with (Z.of_nat (length pre)) by lia.
    rewrite (scanHexByteReverse_one _ _ _ clo dlo) by (auto using charAt_app).
    cbn [scanBind]. destruct isNegative.
    + rewrite lnot_land_byte by (unfold isDigit, isByte in *; lia).
      rewrite shiftr_8.
      rewrite carry_check by (unfold isDigit in *; lia).
      cbn [scanBind]. rewrite setByte_app.
      destruct (Z.of_nat (length pre) - 1 <? Z.of_nat (length pre)) eqn:E; [|absurd_lia].
      cbn [scannedBytes pairUp negateFrom fst snd length drop app].
      reflexivity.
    + cbn [scanBind]. rewrite setByte_app.
      destruct (Z.of_nat (length pre) - 1 <? Z.of_nat (length pre)) eqn:E; [|absurd_lia].
      cbn [scannedBytes pairUp fst snd length drop app].
      rewrite Z.mod_small by (unfold isDigit in *; lia). reflexivity.
  - (* two digits make a byte *)
    pose proof (hexDigitValue_range _ _ Hhi) as Rhi.
    cbn [pairUp length] in Hroom. destruct rest as [|r0 rest]; [simpl in Hroom; absurd_lia|].
    cbn [length] in Hroom.
    cbn [scanHexBitsLoop].
    assert (Hline : pre ++ rev (clo :: chi :: rchars) ++ post
                    = (pre ++ rev rchars) ++ chi :: clo :: post).
    { cbn [rev]. rewrite <- !app_assoc. reflexivity. }
    assert (Hline' : pre ++ rev (clo :: chi :: rchars) ++ post
                    = (pre ++ rev rchars ++ [chi]) ++ clo :: post).
    { cbn [rev]. rewrite <- !app_assoc. reflexivity. }
    rewrite (scanHexByteReverse_two _ _ _ _ clo chi dlo dhi); cycle 1.
    { cbn [length]. lia. }
    { rewrite Hline'.
      replace (Z.of_nat (length pre) + Z.of_nat (length (clo :: chi :: rchars)) - 1)
        with (Z.of_nat (length (pre ++ rev rchars ++ [chi]))).
      - apply charAt_app.
      - rewrite !length_app, length_rev. cbn [length]. lia. }
    { exact Hlo. }
    { rewrite Hline.
      replace (Z.of_nat (length pre) + Z.of_nat (length (clo :: chi :: rchars)) - 1 - 1)
        with (Z.of_nat (length (pre ++ rev rchars))).
      - apply charAt_app.
      - rewrite !length_app, length_rev. cbn [length]. lia. }
    { exact Hhi. }
    cbn [scanBind].
    set (b := 16 * dhi + dlo).
    assert (Rb : isByte b) by (unfold b, isDigit, isByte in *; lia).
    set (cursor' := Z.of_nat (length pre) + Z.of_nat (length (clo :: chi :: rchars)) - 1 - 2).
    assert (Hcursor' : cursor' = Z.of_nat (length pre) + Z.of_nat (length rchars) - 1)
      by (unfold cursor'; cbn [length]; lia).
    assert (Hstep : forall x carry',
      (carry' = 0 \/ carry' = 1) ->
      (if cursor' <? Z.of_nat (length pre)
       then Scanned (cursor', carry', Z.of_nat (length done) + 1,
                     setByte (done ++ r0 :: rest) (Z.of_nat (length done)) x)
       else scanHexBitsLoop remaining (pre ++ rev (clo :: chi :: rchars) ++ post)
              (Z.of_nat (length pre)) description isNegative cursor' carry'
              (Z.of_nat (length done) + 1)
              (setByte (done ++ r0 :: rest) (Z.of_nat (length done)) x))
      = let new := scannedBytes isNegative carry' (pairUp rdigits) in
        Scanned (Z.of_nat (length pre) - 1, snd new,
                 Z.of_nat (length done) + Z.of_nat (S (length (fst new))),
                 done ++ (x :: fst new) ++ drop (length (fst new)) rest)).
    { intros x carry' Hcarry'. rewrite setByte_app.
      destruct rchars as [|c rchars'].
      - inversion Hchars; subst.
        destruct (cursor' <? Z.of_nat (length pre)) eqn:E;
          [|rewrite Hcursor' in E; cbn [length] in E; absurd_lia].
        assert (Hnil : scannedBytes isNegative carry' (pairUp []) = ([], carry'))
          by (destruct isNegative; reflexivity).
        rewrite Hnil. cbn [fst snd length drop app]. rewrite Hcursor'.
        cbn [length Z.of_nat Pos.of_succ_nat drop]. rewrite Z.add_0_r. reflexivity.
      - destruct (cursor' <? Z.of_nat (length pre)) eqn:E;
          [rewrite Hcursor' in E; cbn [length] in E; absurd_lia|].
        rewrite Hline, Hcursor'.
        replace (Z.of_nat (length done) + 1) with (Z.of_nat (length (done ++ [x])))
          by (rewrite length_app; cbn [length]; lia).
        replace (done ++ x :: rest) with ((done ++ [x]) ++ rest)
          by (rewrite <- app_assoc; reflexivity).
        rewrite <- (app_assoc pre).
        rewrite (IH (c :: rchars') rdigits pre (chi :: clo :: post) description
                   isNegative carry' (done ++ [x]) rest Hchars);
          [| congruence | cbn [length] in *; lia | lia | exact Hcarry'].
        cbv zeta. rewrite length_app. cbn [length].
        rewrite <- !app_assoc. cbn [app]. do 3 f_equal. lia. }
    destruct isNegative.
    + rewrite lnot_land_byte by exact Rb.
      rewrite shiftr_8.
      rewrite carry_check by (unfold isByte in Rb; lia).
      cbn [scanBind].
      rewrite Hstep by (apply carry_out_bit; unfold isByte in Rb; lia).
      cbn [scannedBytes pairUp negateFrom]. fold b.
      destruct (negateFrom ((255 - b + carry) / 256) (pairUp rdigits)) as [new out] eqn:En.
      cbn [fst snd length drop app]. reflexivity.
    + cbn [scanBind]. rewrite Hstep by exact Hcarry.
      cbn [scannedBytes pairUp fst snd length drop app]. fold b.
      rewrite Z.mod_small by (unfold isByte in Rb; lia). reflexivity.
Qed.

(** ** Buffers, digits and the numbers they hold *)

Lemma pairUp_ind (P : list Z -> Prop) :
  P [] -> (forall lo, P [lo]) ->
  (forall lo hi digits, P digits -> P (lo :: hi :: digits)) ->
  forall digits, P digits.
Proof.
  intros H0 H1 H2. fix IH 1. intros [|lo [|hi digits]].
  - exact H0.
  - apply H1.
  - apply H2, IH.
Qed.

Lemma leValue_pairUp digits : leValue (pairUp digits) = digitsValue digits.
Proof.
  induction digits as [|lo|lo hi digits IH] using pairUp_ind; cbn [pairUp leValue digitsValue].
  - reflexivity.
  - lia.
  - rewrite IH. lia.
Qed.

Lemma length_pairUp digits : (2 * length (pairUp digits) = length digits + length digits mod 2)%nat.
Proof.
  induction digits as [|lo|lo hi digits IH] using pairUp_ind; cbn [pairUp length].
  - reflexivity.
  - reflexivity.
  - replace (S (S (length digits))) with (length digits + 1 * 2)%nat by lia.
    rewrite Nat.Div0.mod_add. lia.
Qed.

Lemma length_pairUp_le digits n :
  (length digits <= 2 * n)%nat -> (length (pairUp digits) <= n)%nat.
Proof.
  intros H. pose proof (length_pairUp digits).
  pose proof (Nat.mod_upper_bound (length digits) 2). lia.
Qed.

Lemma pairUp_nonempty digits : digits <> [] -> pairUp digits <> [].
Proof. destruct digits as [|lo [|hi digits]]; cbn [pairUp]; congruence. Qed.

Lemma leValue_app a b : leValue (a ++ b) = leValue a + 256 ^ Z.of_nat (length a) * leValue b.
Proof.
  induction a as [|x a IH]; cbn [app leValue length].
  - cbn. lia.
  - rewrite IH, Nat2Z.inj_succ, Z.pow_succ_r by lia. lia.
Qed.

Lemma leValue_replicate_0 n : leValue (replicate n 0) = 0.
Proof. induction n as [|n IH]; cbn [replicate leValue]; lia. Qed.

Lemma leValue_replicate_255 n : leValue (replicate n 255) = 256 ^ Z.of_nat n - 1.
Proof.
  induction n as [|n IH]; cbn [replicate leValue].
  - reflexivity.
  - rewrite IH, Nat2Z.inj_succ, Z.pow_succ_r by lia. lia.
Qed.

Lemma leValue_bounds bytes :
  Forall isByte bytes -> 0 <= leValue bytes < 256 ^ Z.of_nat (length bytes).
Proof.
  induction 1 as [|b bytes Hb _ IH]; cbn [leValue length].
  - cbn. lia.
  - rewrite Nat2Z.inj_succ, Z.pow_succ_r by lia. unfold isByte in Hb. lia.
Qed.

Lemma bytesOf_leValue bytes n :
  Forall isByte bytes ->
  bytesOf (length bytes + n) (leValue bytes) = bytes ++ replicate n 0.
Proof.
  induction 1 as [|b bytes Hb Hbytes IH]; cbn [leValue length app Nat.add].
  - induction n as [|n IHn]; cbn [bytesOf replicate]; [reflexivity|].
    rewrite Zmod_0_l, Zdiv_0_l. f_equal. exact IHn.
  - cbn [bytesOf]. unfold isByte in Hb.
    replace (b + 256 * leValue bytes) with (b + leValue bytes * 256) by lia.
    rewrite Z.mod_add, Z.div_add by lia.
    rewrite Z.mod_small, Z.div_small by lia. rewrite Z.add_0_l, IH. reflexivity.
Qed.

Lemma length_bytesOf n v : length (bytesOf n v) = n.
Proof. revert v. induction n as [|n IH]; intros v; cbn [bytesOf length]; auto. Qed.

Lemma bytesOf_isByte n v : Forall isByte (bytesOf n v).
Proof.
  revert v. induction n as [|n IH]; intros v; cbn [bytesOf]; constructor.
  - unfold isByte. apply Z.mod_pos_bound. lia.
  - apply IH.
Qed.

Lemma leValue_bytesOf n v : leValue (bytesOf n v) = v mod 256 ^ Z.of_nat n.
Proof.
  revert v. induction n as [|n IH]; intros v; cbn [bytesOf leValue].
  - cbn. rewrite Z.mod_1_r. reflexivity.
  - rewrite IH, Nat2Z.inj_succ, Z.pow_succ_r by lia.
    rewrite (Z.mul_comm 256), Z.rem_mul_r by lia. lia.
Qed.

(** Two buffers of the same length that hold the same number are equal. *)
Lemma leValue_inj a b :
  Forall isByte a -> Forall isByte b -> length a = length b ->
  leValue a = leValue b -> a = b.
Proof.
  intros Ha Hb Hlen Hval.
  pose proof (bytesOf_leValue a 0 Ha) as Ea. pose proof (bytesOf_leValue b 0 Hb) as Eb.
  rewrite Nat.add_0_r in Ea, Eb. cbn [replicate] in Ea, Eb.
  rewrite app_nil_r in Ea, Eb. rewrite <- Ea, <- Eb, Hlen, Hval. reflexivity.
Qed.

(** The complement with carry, as a number: [new + out * 256^n = 256^n - 1 - old + carry]. *)
Lemma negateFrom_value bytes : forall carry,
  Forall isByte bytes -> (carry = 0 \/ carry = 1) ->
  let '(new, out) := negateFrom carry bytes in
  Forall isByte new /\ length new = length bytes /\ (out = 0 \/ out = 1) /\
  leValue new + out * 256 ^ Z.of_nat (length bytes)
  = 256 ^ Z.of_nat (length bytes) - 1 - leValue bytes + carry.
Proof.
  induction bytes as [|b bytes IH]; intros carry Hbytes Hcarry; cbn [negateFrom].
  - cbn. repeat split; auto. lia.
  - inversion Hbytes as [|? ? Hb Hbytes']; subst.
    assert (Hx : 0 <= 255 - b + carry <= 256) by (unfold isByte in Hb; lia).
    specialize (IH ((255 - b + carry) / 256) Hbytes' (carry_out_bit _ Hx)).
    destruct (negateFrom ((255 - b + carry) / 256) bytes) as [new out].
    destruct IH as (Hnew & Hlen & Hout & Hval).
    repeat split.
    + constructor; [|exact Hnew]. unfold isByte. apply Z.mod_pos_bound. lia.
    + cbn [length]. congruence.
    + exact Hout.
    + cbn [leValue length]. rewrite Nat2Z.inj_succ, Z.pow_succ_r by lia.
      pose proof (Z.div_mod (255 - b + carry) 256 ltac:(lia)). nia.
Qed.

(** The digits of a buffer pair up into the buffer again. *)
Lemma pairUp_byteDigits bytes : Forall isByte bytes -> pairUp (byteDigits bytes) = bytes.
Proof.
  induction 1 as [|b bytes Hb _ IH]; [reflexivity|].
  cbn [byteDigits flat_map app pairUp]. fold (byteDigits bytes). rewrite IH. f_equal.
  unfold isByte in Hb. rewrite (Z.mod_small (b / 16)).
  - pose proof (Z.div_mod b 16 ltac:(lia)). lia.
  - split; [apply Z.div_pos; lia | apply Z.div_lt_upper_bound; lia].
Qed.

Lemma byteDigits_isDigit bytes : Forall isDigit (byteDigits bytes).
Proof.
  induction bytes as [|b bytes IH]; cbn [byteDigits flat_map app]; [constructor|].
  constructor; [|constructor; [|exact IH]]; unfold isDigit; apply Z.mod_pos_bound; lia.
Qed.

Lemma length_byteDigits bytes : length (byteDigits bytes) = (2 * length bytes)%nat.
Proof.
  induction bytes as [|b bytes IH]; cbn [byteDigits flat_map app length]; [reflexivity|].
  fold (byteDigits bytes). rewrite IH. lia.
Qed.

(** The text the encoder writes for a buffer is its digits, last one first. *)
Lemma hexBytes_byteDigits bytes : hexBytes bytes = rev (map hexDigit (byteDigits bytes)).
Proof.
  unfold hexBytes. induction bytes as [|b bytes IH]; [reflexivity|].
  cbn [rev byteDigits flat_map app map]. fold (byteDigits bytes).
  rewrite map_app, concat_app, IH. cbn [map concat hex02 hexFixed app rev].
  rewrite <- !app_assoc. reflexivity.
Qed.

Lemma byteDigits_chars bytes :
  Forall2 (fun c d => hexDigitValue c = Some d) (map hexDigit (byteDigits bytes))
    (byteDigits bytes).
Proof.
  pose proof (byteDigits_isDigit bytes) as H.
  induction H as [|d digits Hd _ IH]; cbn [map]; constructor; auto using hexDigitValue_hexDigit.
Qed.

(** ** The masks of the high-order byte *)

Lemma rem_mod_8 w : 0 <= w -> Z.rem w 8 = w mod 8.
Proof. intros H. apply Z.rem_mod_nonneg; lia. Qed.

Lemma mod_8_cases w : 
  w mod 8 = 0 \/ w mod 8 = 1 \/ w mod 8 = 2 \/ w mod 8 = 3 \/
  w mod 8 = 4 \/ w mod 8 = 5 \/ w mod 8 = 6 \/ w mod 8 = 7.
Proof. pose proof (Z.mod_pos_bound w 8 ltac:(lia)). lia. Qed.

Lemma highOrderByteMask_mod w :
  0 <= w -> highOrderByteMask w = if w mod 8 =? 0 then 0 else 256 - 2 ^ (w mod 8).
Proof.
  intros H. unfold highOrderByteMask. rewrite rem_mod_8 by exact H.
  destruct (mod_8_cases w) as [E|[E|[E|[E|[E|[E|[E|E]]]]]]]; rewrite E; reflexivity.
Qed.

Lemma signBitMask_mod w : 1 <= w -> signBitMask w = 2 ^ ((w - 1) mod 8).
Proof.
  intros H. unfold signBitMask. rewrite rem_mod_8 by lia.
  assert (Hw : (w - 1) mod 8 = (w mod 8 + 7) mod 8)
    by (Z.div_mod_to_equations; lia).
  rewrite Hw.
  destruct (mod_8_cases w) as [E|[E|[E|[E|[E|[E|[E|E]]]]]]]; rewrite E; reflexivity.
Qed.

(** The bits above position [r] of a byte are clear iff the byte is below [2^r]. *)
Lemma high_bits_clear t r :
  isByte t -> 1 <= r <= 7 -> (Z.land t (256 - 2 ^ r) =? 0) = (t <? 2 ^ r).
Proof.
  intros Ht Hr.
  assert (H : forallb (fun r => forallb (fun t =>
               Bool.eqb (Z.land t (256 - 2 ^ r) =? 0) (t <? 2 ^ r)) (zrange 256))
               [1; 2; 3; 4; 5; 6; 7] = true) by (vm_compute; reflexivity).
  rewrite forallb_forall in H.
  assert (Hin : In r [1; 2; 3; 4; 5; 6; 7]) by (cbn; lia).
  pose proof (zrange_forallb _ _ (H r Hin) t Ht) as H1. cbv beta in H1.
  apply Bool.eqb_prop in H1. exact H1.
Qed.

(** The bits above position [r] of a byte are all set iff the byte is at
    least [256 - 2^r]. *)
Lemma high_bits_set t r :
  isByte t -> 1 <= r <= 7 ->
  (Z.land t (256 - 2 ^ r) =? 256 - 2 ^ r) = (256 - 2 ^ r <=? t).
Proof.
  intros Ht Hr.
  assert (H : forallb (fun r => forallb (fun t =>
               Bool.eqb (Z.land t (256 - 2 ^ r) =? 256 - 2 ^ r) (256 - 2 ^ r <=? t))
               (zrange 256)) [1; 2; 3; 4; 5; 6; 7] = true) by (vm_compute; reflexivity).
  rewrite forallb_forall in H.
  assert (Hin : In r [1; 2; 3; 4; 5; 6; 7]) by (cbn; lia).
  pose proof (zrange_forallb _ _ (H r Hin) t Ht) as H1. cbv beta in H1.
  apply Bool.eqb_prop in H1. exact H1.
Qed.

(** Bit [r] of a byte is clear iff the byte modulo [2^(r+1)] is below [2^r]. *)
Lemma sign_bit_clear t r :
  isByte t -> 0 <= r <= 7 -> (Z.land t (2 ^ r) =? 0) = (t mod 2 ^ (r + 1) <? 2 ^ r).
Proof.
  intros Ht Hr.
  assert (H : forallb (fun r => forallb (fun t =>
               Bool.eqb (Z.land t (2 ^ r) =? 0) (t mod 2 ^ (r + 1) <? 2 ^ r))
               (zrange 256)) [0; 1; 2; 3; 4; 5; 6; 7] = true) by (vm_compute; reflexivity).
  rewrite forallb_forall in H.
  assert (Hin : In r [0; 1; 2; 3; 4; 5; 6; 7]) by (cbn; lia).
  pose proof (zrange_forallb _ _ (H r Hin) t Ht) as H1. cbv beta in H1.
  apply Bool.eqb_prop in H1. exact H1.
Qed.

Lemma land_low_bits t r : 0 <= r -> Z.land t (2 ^ r - 1) = t mod 2 ^ r.
Proof.
  intros Hr. rewrite <- Z.land_ones by exact Hr. rewrite Z.ones_equiv, Z.sub_1_r.
  reflexivity.
Qed.

(** ** Reading single bytes of a buffer *)

Lemma byteAt_bytesOf n v i :
  0 <= i < Z.of_nat n -> byteAt (bytesOf n v) i = (v / 256 ^ i) mod 256.
Proof.
  intros Hi. unfold byteAt. destruct (i <? 0) eqn:E; [absurd_lia|]. clear E.
  rewrite <- (Z2Nat.id i) at 2 by lia.
  assert (Hlt : (Z.to_nat i < n)%nat) by lia. clear Hi.
  revert v n Hlt. induction (Z.to_nat i) as [|k IH]; intros v n Hlt.
  - destruct n; [lia|]. cbn [bytesOf nth]. cbn. rewrite Z.div_1_r. reflexivity.
  - destruct n; [lia|]. cbn [bytesOf nth]. rewrite IH by lia.
    rewrite Nat2Z.inj_succ, Z.pow_succ_r by lia.
    rewrite Z.div_div by lia. reflexivity.
Qed.

Lemma setByte_bytesOf_top n v x :
  (0 < n)%nat -> 0 <= v -> isByte x ->
  setByte (bytesOf n v) (Z.of_nat n - 1) x
  = bytesOf n (v mod 256 ^ (Z.of_nat n - 1) + 256 ^ (Z.of_nat n - 1) * x).
Proof.
  intros Hn Hv Hx.
  destruct n as [|m]; [lia|]. clear Hn.
  replace (Z.of_nat (S m) - 1) with (Z.of_nat m) by lia.
  unfold setByte. destruct (Z.of_nat m <? 0) eqn:E; [absurd_lia|]. clear E.
  rewrite Nat2Z.id. revert v Hv. induction m as [|m IH]; intros v Hv.
  - cbn [bytesOf insert list_insert]. f_equal.
    change (256 ^ Z.of_nat 0) with 1. rewrite Z.mod_1_r. unfold isByte in Hx.
    rewrite Z.mod_small by lia. lia.
  - change (bytesOf (S (S m)) v) with (v mod 256 :: bytesOf (S m) (v / 256)).
    cbn [insert list_insert]. change (list_insert m x) with (insert (M:=list Z) m x).
    rewrite IH by (apply Z.div_pos; lia).
    rewrite Nat2Z.inj_succ, Z.pow_succ_r by lia.
    set (p := 256 ^ Z.of_nat m). assert (Hp : 0 < p) by (unfold p; lia).
    change (bytesOf (S (S m)) ?w) with (w mod 256 :: bytesOf (S m) (w / 256)).
    assert (Hsplit : v mod (256 * p) = v mod 256 + 256 * ((v / 256) mod p))
      by (apply Z.rem_mul_r; lia).
    rewrite Hsplit.
    replace (v mod 256 + 256 * ((v / 256) mod p) + 256 * p * x)
      with (v mod 256 + ((v / 256) mod p + p * x) * 256) by lia.
    rewrite Z.mod_add, Z.div_add by lia.
    rewrite Z.mod_mod by lia.
    rewrite (Z.div_small (v mod 256)) by (apply Z.mod_pos_bound; lia).
    rewrite Z.add_0_l. reflexivity.
Qed.

(** ** What the decoder computes *)

Lemma hexDigitValue_not_minus c d : hexDigitValue c = Some d -> Ascii.eqb c "-" = false.
Proof.
  intros H. destruct (Ascii.eqb c "-") eqn:E; [|reflexivity].
  apply Ascii.eqb_eq in E. subst. discriminate.
Qed.

Lemma first_char_of_value pre rchars rdigits post :
  Forall2 (fun c d => hexDigitValue c = Some d) rchars rdigits -> rchars <> [] ->
  exists d, hexDigitValue (charAt (pre ++ rev rchars ++ post) (Z.of_nat (length pre))) = Some d.
Proof.
  intros H Hne.
  destruct (rev rchars) as [|c0 tl] eqn:E.
  { apply (f_equal (@length ascii)) in E. rewrite length_rev in E.
    destruct rchars; [congruence | discriminate]. }
  cbn [app]. rewrite charAt_app.
  assert (Hin : In c0 rchars) by (apply in_rev; rewrite E; left; reflexivity).
  clear E. induction H as [|c d rchars rdigits Hc H IH]; [contradiction|].
  destruct Hin as [-> | Hin]; [eauto|].
  apply IH; [|exact Hin]. intros ->. contradiction.
Qed.

Lemma drop_replicate_0 (k n : nat) :
  (k <= n)%nat -> drop k (replicate n 0) = replicate (n - k) 0.
Proof. intros _. apply drop_replicate. Qed.

Lemma pairUp_padded digits n :
  Forall isDigit digits -> (length (pairUp digits) <= n)%nat ->
  pairUp digits ++ drop (length (pairUp digits)) (replicate n 0)
  = bytesOf n (digitsValue digits).
Proof.
  intros Hd Hn. rewrite drop_replicate.
  rewrite <- leValue_pairUp.
  replace n with (length (pairUp digits) + (n - length (pairUp digits)))%nat at 2 by lia.
  rewrite bytesOf_leValue by (apply pairUp_isByte; exact Hd). reflexivity.
Qed.

Lemma digitsValue_bounds digits :
  Forall isDigit digits -> 0 <= digitsValue digits < 16 ^ Z.of_nat (length digits).
Proof.
  induction 1 as [|d digits Hd _ IH]; cbn [digitsValue length].
  - cbn. lia.
  - rewrite Nat2Z.inj_succ, Z.pow_succ_r by lia. unfold isDigit in Hd. lia.
Qed.

Lemma pow_256_16 n : 256 ^ Z.of_nat n = 16 ^ Z.of_nat (2 * n).
Proof.
  rewrite Nat2Z.inj_mul. change (Z.of_nat 2) with 2.
  rewrite Z.pow_mul_r by lia. reflexivity.
Qed.

Lemma digitsValue_lt_bytes digits n :
  Forall isDigit digits -> (length digits <= 2 * n)%nat ->
  0 <= digitsValue digits < 256 ^ Z.of_nat n.
Proof.
  intros Hd Hn. pose proof (digitsValue_bounds digits Hd) as [H0 H1].
  split; [exact H0|]. rewrite pow_256_16.
  eapply Z.lt_le_trans; [exact H1|]. apply Z.pow_le_mono_r; lia.
Qed.

(** [2^w] is [2^j * 256^(B-1)] with [B] the byte count and [j] the number of
    bits of the value in the high-order byte. *)
Lemma pow2_split w :
  1 <= w -> 2 ^ w = 2 ^ ((w - 1) mod 8 + 1) * 256 ^ (byteCountOf w - 1).
Proof.
  intros H. rewrite byteCountOf_split by exact H.
  replace ((w - 1) / 8 + 1 - 1) with ((w - 1) / 8) by lia.
  change 256 with (2 ^ 8). rewrite <- Z.pow_mul_r by (try apply Z.div_pos; lia).
  rewrite <- Z.pow_add_r.
  - f_equal. pose proof (Z.div_mod (w - 1) 8 ltac:(lia)). lia.
  - pose proof (Z.mod_pos_bound (w - 1) 8 ltac:(lia)). lia.
  - apply Z.mul_nonneg_nonneg; [lia | apply Z.div_pos; lia].
Qed.

(** The test on the high-order byte of a non-negative value: it passes iff
    the value is below [2^w]. *)
Lemma unsigned_check w v :
  1 <= w -> 0 <= v < 256 ^ byteCountOf w ->
  (Z.land (byteAt (bytesOf (Z.to_nat (byteCountOf w)) v) (byteCountOf w - 1))
     (highOrderByteMask w) =? 0) = (v <? 2 ^ w).
Proof.
  intros Hw Hv. pose proof (byteCountOf_pos w Hw) as HB.
  rewrite byteAt_bytesOf by lia.
  set (p := 256 ^ (byteCountOf w - 1)). assert (Hp : 0 < p) by (unfold p; lia).
  assert (Hpow : 256 ^ byteCountOf w = 256 * p).
  { unfold p. rewrite <- Z.pow_succ_r by lia. f_equal. lia. }
  assert (Ht : isByte (v / p)).
  { unfold isByte. split; [apply Z.div_pos; lia|].
    apply Z.div_lt_upper_bound; lia. }
  rewrite Z.mod_small by exact Ht.
  rewrite highOrderByteMask_mod by lia.
  rewrite (pow2_split w Hw). fold p.
  assert (Hj : (w - 1) mod 8 + 1 = if w mod 8 =? 0 then 8 else w mod 8).
  { destruct (w mod 8 =? 0) eqn:E; boolZ; Z.div_mod_to_equations; lia. }
  rewrite Hj. destruct (w mod 8 =? 0) eqn:E; boolZ.
  - rewrite Z.land_0_r. cbn [Z.eqb]. symmetry. apply Z.ltb_lt.
    change (2 ^ 8) with 256. lia.
  - pose proof (Z.mod_pos_bound w 8 ltac:(lia)).
    rewrite high_bits_clear by (auto; lia).
    destruct (v / p <? 2 ^ (w mod 8)) eqn:E1; symmetry; boolZ.
    + apply Z.ltb_lt.
      destruct (Z.lt_ge_cases v (2 ^ (w mod 8) * p)) as [|Hge]; [assumption|].
      pose proof (Z.div_le_lower_bound v p (2 ^ (w mod 8)) Hp ltac:(lia)). lia.
    + apply Z.ltb_ge. 
      pose proof (Z.mul_div_le v p Hp).
      assert (2 ^ (w mod 8) * p <= v / p * p) by (apply Z.mul_le_mono_nonneg_r; lia).
      lia.
Qed.

(** A value without sign whose digits all fit the buffer decodes to its
    number when that is below [2^bitCount], and is refused otherwise.
    [rchars] are the characters of the value, the last one first. *)
Lemma scanHexBits_unsigned pre rchars rdigits post bitCount description :
  1 <= bitCount <= INT_MAX - 7 ->
  Forall2 (fun c d => hexDigitValue c = Some d) rchars rdigits ->
  rchars <> [] ->
  (length rchars <= 2 * Z.to_nat (byteCountOf bitCount))%nat ->
  scanHexBits (pre ++ rev rchars ++ post) (Z.of_nat (length pre))
    (Z.of_nat (length pre) + Z.of_nat (length rchars)) bitCount description
  = if digitsValue rdigits <? 2 ^ bitCount then
      Scanned (bytesOf (Z.to_nat (byteCountOf bitCount)) (digitsValue rdigits),
               Z.of_nat (length pre) + Z.of_nat (length rchars))
    else
      Failed (text "Scanned value exceeded " ++ decimal bitCount
              ++ text " bits when " ++ description ++ text ".").
Proof.
  intros Hw Hchars Hne Hlen.
  pose proof (digits_of_chars _ _ Hchars) as Hdigits.
  pose proof (byteCountOf_pos bitCount ltac:(lia)) as HB.
  assert (Hn : (0 < length rchars)%nat) by (destruct rchars; [congruence | cbn; lia]).
  unfold scanHexBits.
  destruct (Z.of_nat (length pre) + Z.of_nat (length rchars) - 1 <? Z.of_nat (length pre)) eqn:E1;
    [absurd_lia|]. cbn [negb].
  destruct (bitCount <=? 0) eqn:E2; [absurd_lia|]. cbn [negb].
  destruct (first_char_of_value pre rchars rdigits post Hchars Hne) as [d0 Hd0].
  rewrite (hexDigitValue_not_minus _ _ Hd0). cbn [scanBind].
  rewrite byteCount_quot by lia. rewrite Z.sub_0_r.
  unfold calloc.
  pose proof (scanHexBitsLoop_scans (Z.to_nat (byteCountOf bitCount)) rchars rdigits pre post
                description false 1 [] (replicate (Z.to_nat (byteCountOf bitCount)) 0)
                Hchars Hne Hlen) as Hloop.
  cbn [length app scannedBytes fst snd] in Hloop. cbv zeta in Hloop.
  change (Z.of_nat 0) with 0 in Hloop.
  rewrite Hloop; cycle 1.
  { rewrite length_replicate. apply length_pairUp_le.
    erewrite <- Forall2_length by exact Hchars. exact Hlen. }
  { right; reflexivity. }
  cbn [scanBind].
  destruct (Z.of_nat (length pre) - 1 >? Z.of_nat (length pre)) eqn:E3; [absurd_lia|].
  cbn [negb].
  rewrite pairUp_padded; cycle 1.
  { exact Hdigits. }
  { apply length_pairUp_le. erewrite <- Forall2_length by exact Hchars. exact Hlen. }
  rewrite unsigned_check; [reflexivity | lia |].
  rewrite <- (Z2Nat.id (byteCountOf bitCount)) by lia.
  apply digitsValue_lt_bytes; [exact Hdigits|].
  erewrite <- Forall2_length by exact Hchars. exact Hlen.
Qed.

Lemma pow2_div_mod v : 0 <= v -> 2 ^ v = 2 ^ (v mod 8) * 256 ^ (v / 8).
Proof.
  intros H. change 256 with (2 ^ 8).
  rewrite <- Z.pow_mul_r by (try apply Z.div_pos; lia).
  rewrite <- Z.pow_add_r.
  - f_equal. pose proof (Z.div_mod v 8 ltac:(lia)). lia.
  - pose proof (Z.mod_pos_bound v 8 ltac:(lia)). lia.
  - apply Z.mul_nonneg_nonneg; [lia | apply Z.div_pos; lia].
Qed.

Lemma padNegative_fills remaining : forall done rest,
  length rest = remaining ->
  padNegative remaining (Z.of_nat (length done)) (done ++ rest)
  = done ++ replicate remaining 255.
Proof.
  induction remaining as [|remaining IH]; intros done rest Hrest.
  - destruct rest; [|discriminate]. reflexivity.
  - destruct rest as [|r0 rest]; [discriminate|]. cbn [padNegative replicate].
    rewrite setByte_app.
    replace (Z.of_nat (length done) + 1) with (Z.of_nat (length (done ++ [255])))
      by (rewrite length_app; cbn [length]; lia).
    replace (done ++ 255 :: rest) with ((done ++ [255]) ++ rest)
      by (rewrite <- app_assoc; reflexivity).
    rewrite IH by (cbn [length] in Hrest; lia).
    rewrite <- app_assoc. reflexivity.
Qed.

(** The test on the high-order byte of a negative value of magnitude [m]:
    it passes iff [m] is at most [2^(w-1)]. *)
Lemma negative_check w m :
  2 <= w -> 1 <= m < 256 ^ byteCountOf (w - 1) ->
  (Z.land (byteAt (bytesOf (Z.to_nat (byteCountOf w)) (256 ^ byteCountOf w - m))
             (byteCountOf w - 1))
     (highOrderByteMask (w - 1)) =? highOrderByteMask (w - 1)) = (m <=? 2 ^ (w - 1)).
Proof.
  intros Hw Hm. pose proof (byteCountOf_pos w ltac:(lia)) as HB.
  rewrite highOrderByteMask_mod by lia.
  pose proof (Z.mod_pos_bound (w - 1) 8 ltac:(lia)) as Hr.
  assert (HB1 : byteCountOf w - 1 = (w - 1) / 8) by (rewrite byteCountOf_split; lia).
  destruct ((w - 1) mod 8 =? 0) eqn:E; boolZ.
  - rewrite Z.land_0_r. cbn [Z.eqb]. symmetry. apply Z.leb_le.
    assert (HV : byteCountOf (w - 1) = (w - 1) / 8).
    { unfold byteCountOf. Z.div_mod_to_equations. lia. }
    rewrite HV in Hm. rewrite (pow2_div_mod (w - 1)) by lia. rewrite E.
    change (2 ^ 0) with 1. lia.
  - assert (HV : byteCountOf (w - 1) = byteCountOf w).
    { unfold byteCountOf. Z.div_mod_to_equations. lia. }
    rewrite HV in Hm.
    rewrite byteAt_bytesOf by lia.
    set (p := 256 ^ (byteCountOf w - 1)). assert (Hp : 0 < p) by (unfold p; lia).
    assert (Hpow : 256 ^ byteCountOf w = 256 * p).
    { unfold p. rewrite <- Z.pow_succ_r by lia. f_equal. lia. }
    rewrite Hpow in *.
    assert (Ht : isByte ((256 * p - m) / p)).
    { unfold isByte. split; [apply Z.div_pos; lia|].
      apply Z.div_lt_upper_bound; lia. }
    rewrite Z.mod_small by exact Ht.
    rewrite high_bits_set by (auto; lia).
    rewrite (pow2_div_mod (w - 1)) by lia. rewrite <- HB1. fold p.
    set (q := 2 ^ ((w - 1) mod 8)).
    assert (Hq : 0 < q <= 128).
    { unfold q. split; [lia|]. change 128 with (2 ^ 7). apply Z.pow_le_mono_r; lia. }
    destruct (m <=? q * p) eqn:E1; boolZ.
    + apply Z.leb_le. apply Z.div_le_lower_bound; [lia|]. nia.
    + apply Z.leb_gt. apply Z.div_lt_upper_bound; [lia|]. nia.
Qed.

(** A value with a sign whose digits all fit decodes to the two's complement
    of its magnitude [m] when [1 <= m <= 2^(bitCount-1)], and is refused
    otherwise. [rchars] are the digits behind the sign, the last one first. *)
Lemma scanHexBits_negative pre rchars rdigits post bitCount description :
  2 <= bitCount <= INT_MAX - 7 ->
  Forall2 (fun c d => hexDigitValue c = Some d) rchars rdigits ->
  rchars <> [] ->
  (length rchars <= 2 * Z.to_nat (byteCountOf (bitCount - 1)))%nat ->
  scanHexBits (pre ++ "-"%char :: rev rchars ++ post) (Z.of_nat (length pre))
    (Z.of_nat (length pre) + 1 + Z.of_nat (length rchars)) bitCount description
  = if digitsValue rdigits =? 0 then
      Failed (text "Scanned negative value exceeded " ++ decimal (byteCountOf bitCount)
              ++ text " bytes when " ++ description ++ text ".")
    else if digitsValue rdigits <=? 2 ^ (bitCount - 1) then
      Scanned (bytesOf (Z.to_nat (byteCountOf bitCount))
                 (256 ^ byteCountOf bitCount - digitsValue rdigits),
               Z.of_nat (length pre) + 1 + Z.of_nat (length rchars))
    else
      Failed (text "Scanned negative value exceeded " ++ decimal bitCount
              ++ text " bits when " ++ description ++ text ".").
Proof.
  intros Hw Hchars Hne Hlen.
  pose proof (digits_of_chars _ _ Hchars) as Hdigits.
  pose proof (byteCountOf_pos bitCount ltac:(lia)) as HB.
  pose proof (byteCountOf_pos (bitCount - 1) ltac:(lia)) as HV.
  assert (HVB : byteCountOf (bitCount - 1) <= byteCountOf bitCount).
  { unfold byteCountOf. apply Z.div_le_mono; lia. }
  assert (Hn : (0 < length rchars)%nat) by (destruct rchars; [congruence | cbn; lia]).
  assert (Hk : (length (pairUp rdigits) <= Z.to_nat (byteCountOf (bitCount - 1)))%nat).
  { apply length_pairUp_le. erewrite <- Forall2_length by exact Hchars. exact Hlen. }
  unfold scanHexBits.
  destruct (Z.of_nat (length pre) + 1 + Z.of_nat (length rchars) - 1 <? Z.of_nat (length pre))
    eqn:E1; [absurd_lia|]. cbn [negb]. clear E1.
  destruct (bitCount <=? 0) eqn:E2; [absurd_lia|]. cbn [negb]. clear E2.
  rewrite charAt_app. cbn [Ascii.eqb Bool.eqb andb].
  destruct (Z.of_nat (length pre) + 1 + Z.of_nat (length rchars) - 1
            <? Z.of_nat (length pre) + 1) eqn:E1; [absurd_lia|]. cbn [negb]. clear E1.
  destruct (bitCount <=? 1) eqn:E2; [absurd_lia|]. cbn [negb scanBind]. clear E2.
  rewrite (byteCount_quot bitCount) by lia.
  rewrite (byteCount_quot (bitCount - 1)) by lia. rewrite Z.sub_0_r.
  unfold calloc.
  pose proof (scanHexBitsLoop_scans (Z.to_nat (byteCountOf (bitCount - 1))) rchars rdigits
                (pre ++ ["-"%char]) post description true 1 []
                (replicate (Z.to_nat (byteCountOf bitCount)) 0)
                Hchars Hne Hlen) as Hloop.
  rewrite length_app in Hloop. cbn [length app] in Hloop. cbv zeta in Hloop.
  rewrite <- app_assoc in Hloop. cbn [app] in Hloop.
  change (Z.of_nat 0) with 0 in Hloop.
  replace (Z.of_nat (length pre + 1)) with (Z.of_nat (length pre) + 1) in Hloop by lia.
  replace (Z.of_nat (length pre) + 1 + Z.of_nat (length rchars) - 1)
    with (Z.of_nat (length pre) + 1 + Z.of_nat (length rchars) - 1) in Hloop by lia.
  rewrite Hloop; [| rewrite length_replicate; lia | right; reflexivity].
  clear Hloop. cbn [scanBind scannedBytes].
  pose proof (negateFrom_value (pairUp rdigits) 1 (pairUp_isByte _ Hdigits)
                ltac:(right; reflexivity)) as Hneg.
  destruct (negateFrom 1 (pairUp rdigits)) as [new out] eqn:En.
  destruct Hneg as (Hnew & Hlennew & Hout & Hval).
  rewrite leValue_pairUp in Hval. cbn [fst snd].
  destruct (Z.of_nat (length pre) + 1 - 1 >? Z.of_nat (length pre) + 1) eqn:E3;
    [absurd_lia|]. cbn [negb]. clear E3.
  pose proof (leValue_bounds new Hnew) as Hnewb. rewrite Hlennew in Hnewb.
  pose proof (leValue_bounds (pairUp rdigits) (pairUp_isByte _ Hdigits)) as Hmk.
  rewrite leValue_pairUp in Hmk.
  set (k := length (pairUp rdigits)) in *.
  assert (Hpk : 0 < 256 ^ Z.of_nat k) by lia.
  pose proof (digitsValue_bounds rdigits Hdigits) as [Hm0 _].
  destruct (digitsValue rdigits =? 0) eqn:Em; boolZ.
  - (* magnitude zero: the carry runs out of the value *)
    assert (out = 1) by (destruct Hout; [exfalso; nia | assumption]). subst out.
    cbn [Z.eqb]. reflexivity.
  - assert (out = 0) by (destruct Hout; [assumption | exfalso; nia]). subst out.
    cbn [Z.eqb].
    rewrite drop_replicate. rewrite Hlennew.
    replace (0 + Z.of_nat k) with (Z.of_nat (length new)) by lia.
    replace (byteCountOf bitCount - Z.of_nat (length new))
      with (Z.of_nat (Z.to_nat (byteCountOf bitCount) - k)) by lia.
    rewrite Nat2Z.id.
    rewrite padNegative_fills by (rewrite length_replicate; reflexivity).
    assert (Hbytes : new ++ replicate (Z.to_nat (byteCountOf bitCount) - k) 255
                     = bytesOf (Z.to_nat (byteCountOf bitCount))
                         (256 ^ byteCountOf bitCount - digitsValue rdigits)).
    { apply leValue_inj.
      - apply Forall_app. split; [exact Hnew|]. apply Forall_replicate. unfold isByte. lia.
      - apply bytesOf_isByte.
      - rewrite length_app, length_replicate, length_bytesOf. lia.
      - rewrite leValue_app, leValue_replicate_255, leValue_bytesOf, Hlennew.
        rewrite Z2Nat.id by lia.
        assert (Hsplit : 256 ^ byteCountOf bitCount
                         = 256 ^ Z.of_nat k * 256 ^ Z.of_nat (Z.to_nat (byteCountOf bitCount) - k)).
        { rewrite <- Z.pow_add_r by lia. f_equal. lia. }
        assert (Hkle : 256 ^ Z.of_nat k <= 256 ^ byteCountOf bitCount)
          by (apply Z.pow_le_mono_r; lia).
        rewrite Z.mod_small by lia.
        rewrite Hsplit. rewrite Z.mul_0_l in Hval. nia. }
    rewrite Hbytes.
    rewrite negative_check; [reflexivity | lia |].
    split; [lia|].
    rewrite <- (Z2Nat.id (byteCountOf (bitCount - 1))) by lia.
    apply digitsValue_lt_bytes; [exact Hdigits|].
    erewrite <- Forall2_length by exact Hchars. exact Hlen.
Qed.

(** ** Values with too many characters *)

Lemma scanHexByteReverse_moves line cursor first description :
  first < cursor ->
  match scanHexByteReverse line cursor first description with
  | Scanned (_, cursor') => cursor' = cursor - 2
  | Failed _ => True
  end.
Proof.
  intros Hlt. unfold scanHexByteReverse.
  destruct (hexDigitValue (charAt line cursor)) as [dlo|] eqn:Elo.
  - rewrite (scanHexCharacterReverse_digit _ _ _ dlo Elo). cbn [scanBind].
    destruct (cursor - 1 <? first) eqn:E; [absurd_lia|].
    destruct (hexDigitValue (charAt line (cursor - 1))) as [dhi|] eqn:Ehi.
    + rewrite (scanHexCharacterReverse_digit _ _ _ dhi Ehi). cbn [scanBind]. lia.
    + destruct (scanHexCharacterReverse_not_digit line (cursor - 1) description Ehi) as [m ->].
      exact I.
  - destruct (scanHexCharacterReverse_not_digit line cursor description Elo) as [m ->].
    exact I.
Qed.

(** While more than two characters per remaining byte are left, the loop
    cannot reach the first character: it stops on a bad character or runs
    through all its iterations, two characters each. *)
Lemma scanHexBitsLoop_long remaining :
  forall line first description isNegative cursor carry scannedByteCount bytes,
    first + 2 * Z.of_nat remaining < cursor ->
    match scanHexBitsLoop remaining line first description isNegative cursor carry
            scannedByteCount bytes with
    | Scanned (cursor', _, _, _) => cursor' = cursor - 2 * Z.of_nat remaining
    | Failed _ => True
    end.
Proof.
  induction remaining as [|remaining IH];
    intros line first description isNegative cursor carry scannedByteCount bytes Hlt.
  - cbn [scanHexBitsLoop]. lia.
  - cbn [scanHexBitsLoop].
    pose proof (scanHexByteReverse_moves line cursor first description ltac:(lia)) as Hbyte.
    destruct (scanHexByteReverse line cursor first description) as [[b cursor']|m];
      [|exact I].
    subst cursor'. cbn [scanBind].
    destruct isNegative.
    + destruct (Z.land (Z.shiftr (Z.land (Z.lnot b) 255 + carry) 8) (Z.lnot 1) =? 0);
        [|exact I].
      cbn [scanBind]. destruct (cursor - 2 <? first) eqn:E; [absurd_lia|].
      specialize (IH line first description true (cursor - 2)
                    (Z.shiftr (Z.land (Z.lnot b) 255 + carry) 8) (scannedByteCount + 1)
                    (setByte bytes scannedByteCount ((Z.land (Z.lnot b) 255 + carry) mod 256))
                    ltac:(lia)).
      destruct (scanHexBitsLoop _ _ _ _ _ _ _ _ _) as [[[[c1 c2] c3] c4]|]; [lia | exact I].
    + cbn [scanBind]. destruct (cursor - 2 <? first) eqn:E; [absurd_lia|].
      specialize (IH line first description false (cursor - 2) carry (scannedByteCount + 1)
                    (setByte bytes scannedByteCount (b mod 256)) ltac:(lia)).
      destruct (scanHexBitsLoop _ _ _ _ _ _ _ _ _) as [[[[c1 c2] c3] c4]|]; [lia | exact I].
Qed.

(** A value with at least two characters more than two per byte of the
    magnitude is refused, whatever the characters are. *)
Lemma scanHexBits_too_long line scanCursor scanEnd bitCount description :
  1 <= bitCount <= INT_MAX - 7 ->
  let negative := Ascii.eqb (charAt line scanCursor) "-" in
  let magnitudeWidth := if negative then bitCount - 1 else bitCount in
  let characters := scanEnd - scanCursor - (if negative then 1 else 0) in
  2 * byteCountOf magnitudeWidth + 2 <= characters ->
  exists message, scanHexBits line scanCursor scanEnd bitCount description = Failed message.
Proof.
  intros Hw negative magnitudeWidth characters Hlong.
  assert (HB0 : 0 <= byteCountOf magnitudeWidth).
  { unfold byteCountOf, magnitudeWidth. apply Z.div_pos; destruct negative; lia. }
  unfold scanHexBits. fold negative.
  destruct (scanEnd - 1 <? scanCursor) eqn:E1; cbn [negb]; [eexists; reflexivity|].
  destruct (bitCount <=? 0) eqn:E2; cbn [negb]; [eexists; reflexivity|].
  unfold characters, magnitudeWidth in *. clear characters magnitudeWidth.
  destruct negative.
  - destruct (scanEnd - 1 <? scanCursor + 1) eqn:E3; cbn [negb]; [eexists; reflexivity|].
    destruct (bitCount <=? 1) eqn:E4; cbn [negb]; [eexists; reflexivity|].
    cbn [scanBind]. boolZ.
    rewrite (byteCount_quot (bitCount - 1)) by lia. rewrite Z.sub_0_r.
    pose proof (scanHexBitsLoop_long (Z.to_nat (byteCountOf (bitCount - 1))) line
                  (scanCursor + 1) description true (scanEnd - 1) 1 0
                  (calloc (Z.quot (wrap_int (bitCount + 7)) 8)) ltac:(lia)) as Hloop.
    destruct (scanHexBitsLoop _ _ _ _ _ _ _ _ _) as [[[[c1 c2] c3] c4]|m];
      [|eexists; reflexivity].
    cbn [scanBind]. destruct (c1 >? scanCursor + 1) eqn:E5; [|absurd_lia].
    cbn [negb]. eexists; reflexivity.
  - cbn [scanBind]. boolZ.
    rewrite (byteCount_quot bitCount) by lia. rewrite Z.sub_0_r.
    pose proof (scanHexBitsLoop_long (Z.to_nat (byteCountOf bitCount)) line
                  scanCursor description false (scanEnd - 1) 1 0
                  (calloc (byteCountOf bitCount)) ltac:(lia)) as Hloop.
    destruct (scanHexBitsLoop _ _ _ _ _ _ _ _ _) as [[[[c1 c2] c3] c4]|m];
      [|eexists; reflexivity].
    cbn [scanBind]. destruct (c1 >? scanCursor) eqn:E5; [|absurd_lia].
    cbn [negb]. eexists; reflexivity.
Qed.

(** ** What the encoder writes *)

Section Encoder.

Context (E : Engine).

Lemma messageStream_writeScript e (st : Driver E) :
  messageStream (writeScript E e st) = messageStream st.
Proof. reflexivity. Qed.

Lemma messageStream_writeMessageStart c (st : Driver E) :
  messageStream (writeMessageStart E c st) = messageStream st ++ [c; " "%char].
Proof.
  unfold writeMessageStart. destruct (shouldLogMessageToExecutionScript E st); reflexivity.
Qed.

Lemma messageStream_writeMessageBody body (st : Driver E) :
  messageStream (writeMessageBody E body st) = messageStream st ++ body.
Proof.
  unfold writeMessageBody.
  destruct (shouldLogMessageToExecutionScript E _); reflexivity.
Qed.

Lemma messageStream_writeMessageEnd (st : Driver E) :
  messageStream (writeMessageEnd E st) = messageStream st ++ [newline].
Proof.
  unfold writeMessageEnd.
  destruct (shouldLogMessageToExecutionScript E _); reflexivity.
Qed.

Lemma messageStream_writeMessage c body (st : Driver E) :
  messageStream (writeMessage E c body st)
  = messageStream st ++ [c; " "%char] ++ body ++ [newline].
Proof.
  unfold writeMessage.
  rewrite messageStream_writeMessageEnd, messageStream_writeMessageBody,
    messageStream_writeMessageStart.
  rewrite <- !app_assoc. reflexivity.
Qed.

Lemma hexBytes_snoc bytes b : hexBytes (bytes ++ [b]) = hex02 b ++ hexBytes bytes.
Proof. unfold hexBytes. rewrite rev_app_distr. reflexivity. Qed.

Lemma byteAt_lookup bytes i b :
  bytes !! i = Some b -> byteAt bytes (Z.of_nat i) = b.
Proof.
  intros H. unfold byteAt. destruct (Z.of_nat i <? 0) eqn:Ei; [absurd_lia|].
  rewrite Nat2Z.id. apply nth_lookup_Some with (d := 0) in H. exact H.
Qed.

Lemma messageStream_sendBytes count : forall bytes (st : Driver E),
  (count <= length bytes)%nat ->
  messageStream (sendBytes E count bytes st) = messageStream st ++ hexBytes (take count bytes).
Proof.
  induction count as [|i IH]; intros bytes st Hlen.
  - cbn [sendBytes take]. unfold hexBytes. cbn. rewrite app_nil_r. reflexivity.
  - cbn [sendBytes]. rewrite IH by lia. rewrite messageStream_writeMessageBody.
    destruct (lookup_lt_is_Some_2 bytes i ltac:(lia)) as [b Hb].
    rewrite (take_S_r _ _ _ Hb), hexBytes_snoc, (byteAt_lookup _ _ _ Hb).
    rewrite <- app_assoc. reflexivity.
Qed.

Lemma twosComplement_negateFrom remaining : forall done bytes carry,
  length bytes = remaining -> Forall isByte bytes ->
  twosComplement remaining (Z.of_nat (length done)) carry (done ++ bytes)
  = done ++ fst (negateFrom carry bytes).
Proof.
  induction remaining as [|remaining IH]; intros done bytes carry Hlen Hbytes.
  - destruct bytes; [|discriminate]. reflexivity.
  - destruct bytes as [|b bytes]; [discriminate|].
    inversion Hbytes as [|? ? Hb Hbytes']; subst.
    cbn [twosComplement negateFrom].
    rewrite byteAt_app, lnot_land_byte, shiftr_8, setByte_app by exact Hb.
    replace (Z.of_nat (length done) + 1)
      with (Z.of_nat (length (done ++ [(255 - b + carry) mod 256])))
      by (rewrite length_app; cbn [length]; lia).
    replace (done ++ (255 - b + carry) mod 256 :: bytes)
      with ((done ++ [(255 - b + carry) mod 256]) ++ bytes)
      by (rewrite <- app_assoc; reflexivity).
    rewrite IH by (cbn [length] in Hlen; auto; lia).
    destruct (negateFrom ((255 - b + carry) / 256) bytes) as [new out].
    cbn [fst]. rewrite <- app_assoc. reflexivity.
Qed.

(** The sign test of the encoder on a canonical buffer: the bit is set iff
    the number is at least [2^(w-1)]. *)
Lemma sign_test w u :
  1 <= w -> 0 <= u < 2 ^ w ->
  (Z.land (byteAt (bytesOf (Z.to_nat (byteCountOf w)) u) (byteCountOf w - 1))
     (signBitMask w) =? 0) = (u <? 2 ^ (w - 1)).
Proof.
  intros Hw Hu. pose proof (byteCountOf_pos w Hw) as HB.
  rewrite byteAt_bytesOf by lia.
  rewrite signBitMask_mod by exact Hw.
  pose proof (Z.mod_pos_bound (w - 1) 8 ltac:(lia)) as Hr.
  assert (HB1 : byteCountOf w - 1 = (w - 1) / 8) by (rewrite byteCountOf_split; lia).
  set (p := 256 ^ (byteCountOf w - 1)). assert (Hp : 0 < p) by (unfold p; lia).
  set (r := (w - 1) mod 8) in *.
  assert (H2w : 2 ^ w = 2 ^ (r + 1) * p).
  { rewrite (pow2_split w Hw). reflexivity. }
  assert (H2w1 : 2 ^ (w - 1) = 2 ^ r * p).
  { rewrite (pow2_div_mod (w - 1)) by lia. rewrite <- HB1. reflexivity. }
  assert (Hr1 : 2 ^ (r + 1) <= 256) by (change 256 with (2 ^ 8); apply Z.pow_le_mono_r; lia).
  assert (Ht : 0 <= u / p < 2 ^ (r + 1)).
  { split; [apply Z.div_pos; lia|]. apply Z.div_lt_upper_bound; lia. }
  rewrite (Z.mod_small (u / p)) by lia.
  rewrite sign_bit_clear by (unfold isByte; lia).
  rewrite (Z.mod_small (u / p)) by lia.
  rewrite H2w1.
  destruct (u / p <? 2 ^ r) eqn:E1; symmetry; boolZ.
  - apply Z.ltb_lt.
    destruct (Z.lt_ge_cases u (2 ^ r * p)) as [|Hge]; [assumption|].
    pose proof (Z.div_le_lower_bound u p (2 ^ r) Hp ltac:(lia)). lia.
  - apply Z.ltb_ge. pose proof (Z.mul_div_le u p Hp).
    assert (2 ^ r * p <= u / p * p) by (apply Z.mul_le_mono_nonneg_r; lia).
    lia.
Qed.

(** Stripping the bits from the sign bit upwards cuts the number to its low
    [w - 1] bits. *)
Lemma strip_sign w x :
  1 <= w -> 0 <= x < 256 ^ byteCountOf w ->
  let bytes := bytesOf (Z.to_nat (byteCountOf w)) x in
  setByte bytes (byteCountOf w - 1)
    (Z.land (byteAt bytes (byteCountOf w - 1)) (signBitMask w - 1))
  = bytesOf (Z.to_nat (byteCountOf w)) (x mod 2 ^ (w - 1)).
Proof.
  intros Hw Hx bytes. unfold bytes. pose proof (byteCountOf_pos w Hw) as HB.
  rewrite byteAt_bytesOf by lia.
  rewrite signBitMask_mod by exact Hw.
  pose proof (Z.mod_pos_bound (w - 1) 8 ltac:(lia)) as Hr.
  rewrite land_low_bits by lia.
  assert (HB1 : byteCountOf w - 1 = (w - 1) / 8) by (rewrite byteCountOf_split; lia).
  set (p := 256 ^ (byteCountOf w - 1)). assert (Hp : 0 < p) by (unfold p; lia).
  set (r := (w - 1) mod 8) in *.
  assert (Hpow : 256 ^ byteCountOf w = 256 * p).
  { unfold p. rewrite <- Z.pow_succ_r by lia. f_equal. lia. }
  assert (Ht : 0 <= x / p < 256).
  { split; [apply Z.div_pos; lia|]. apply Z.div_lt_upper_bound; lia. }
  rewrite (Z.mod_small (x / p)) by lia.
  assert (Hq : 0 < 2 ^ r) by lia.
  replace (byteCountOf w - 1) with (Z.of_nat (Z.to_nat (byteCountOf w)) - 1) at 1 by lia.
  rewrite setByte_bytesOf_top; [| lia | lia |]; cycle 1.
  { unfold isByte. pose proof (Z.mod_pos_bound (x / p) (2 ^ r) Hq).
    assert (2 ^ r <= 256) by (change 256 with (2 ^ 8); apply Z.pow_le_mono_r; lia). lia. }
  f_equal. rewrite Z2Nat.id by lia. fold p.
  assert (H2w1 : 2 ^ (w - 1) = p * 2 ^ r).
  { rewrite (pow2_div_mod (w - 1)) by lia. rewrite <- HB1. fold p r. lia. }
  rewrite H2w1. rewrite Z.rem_mul_r by lia. reflexivity.
Qed.

Lemma pow256_ge_pow2 w : 1 <= w -> exists k, 0 < k /\ 256 ^ byteCountOf w = 2 ^ w * k.
Proof.
  intros Hw. exists (2 ^ (8 * byteCountOf w - w)).
  assert (Hge : w <= 8 * byteCountOf w).
  { unfold byteCountOf. Z.div_mod_to_equations. lia. }
  split; [apply Z.pow_pos_nonneg; lia|].
  rewrite <- Z.pow_add_r by lia. change 256 with (2 ^ 8).
  rewrite <- Z.pow_mul_r by (pose proof (byteCountOf_pos w Hw); lia).
  f_equal. lia.
Qed.

Lemma pow2_lt_pow256 w : 1 <= w -> 2 ^ w <= 256 ^ byteCountOf w.
Proof.
  intros Hw. destruct (pow256_ge_pow2 w Hw) as (k & Hk & ->).
  assert (0 < 2 ^ w) by lia. nia.
Qed.

Lemma take_all {A} (l : list A) n : length l = n -> take n l = l.
Proof. intros <-. apply firstn_all. Qed.

(** The BITS message for the integer [v] held in a buffer of [bitCount] bits. *)
Lemma sendBits_encodes isSigned bitCount v (st : Driver E) :
  1 <= bitCount <= INT_MAX - 7 ->
  (isSigned = true -> 2 <= bitCount) ->
  inRange isSigned bitCount v ->
  exists st',
    sendBits E (bufferOf bitCount v) bitCount isSigned st = Return tt st'
    /\ messageStream st'
       = messageStream st ++ bitsMessage bitCount (encodedText isSigned bitCount v).
Proof.
  intros Hw Hsigned Hrange.
  pose proof (byteCountOf_pos bitCount ltac:(lia)) as HB.
  pose proof (pow2_lt_pow256 bitCount ltac:(lia)) as Hpow.
  unfold sendBits.
  destruct (bitCount <=? 0) eqn:E1; [absurd_lia|]. clear E1.
  assert (E2 : isSigned && (bitCount <=? 1) = false).
  { destruct isSigned; [|reflexivity]. specialize (Hsigned eq_refl).
    cbn [andb]. apply Z.leb_gt. lia. }
  rewrite E2. clear E2.
  rewrite byteCount_quot by lia.
  unfold encodedText, encodedSign, encodedMagnitude, bitsMessage, bufferOf.
  destruct isSigned; cbn [andb].
  - (* signed *)
    specialize (Hsigned eq_refl). unfold inRange in Hrange.
    assert (H2 : 2 ^ bitCount = 2 * 2 ^ (bitCount - 1)).
    { rewrite <- Z.pow_succ_r by lia. f_equal. lia. }
    assert (Hp1 : 0 < 2 ^ (bitCount - 1)) by lia.
    destruct (v <? 0) eqn:Ev; boolZ.
    + (* negative: sign bit set, negate, strip *)
      assert (Hu : v mod 2 ^ bitCount = v + 2 ^ bitCount).
      { replace v with ((v + 2 ^ bitCount) + (-1) * 2 ^ bitCount) at 1 by lia.
        rewrite Z.mod_add by lia. apply Z.mod_small. lia. }
      rewrite Hu.
      rewrite sign_test by lia.
      destruct (v + 2 ^ bitCount <? 2 ^ (bitCount - 1)) eqn:Es; [absurd_lia|]. clear Es.
      cbn [negb].
      pose proof (twosComplement_negateFrom (Z.to_nat (byteCountOf bitCount)) []
                    (bytesOf (Z.to_nat (byteCountOf bitCount)) (v + 2 ^ bitCount)) 1
                    (length_bytesOf _ _) (bytesOf_isByte _ _)) as Htwos.
      cbn [length app] in Htwos. change (Z.of_nat 0) with 0 in Htwos.
      rewrite Htwos. clear Htwos.
      pose proof (negateFrom_value
                    (bytesOf (Z.to_nat (byteCountOf bitCount)) (v + 2 ^ bitCount)) 1
                    (bytesOf_isByte _ _) ltac:(right; reflexivity)) as Hneg.
      destruct (negateFrom 1 _) as [new out].
      destruct Hneg as (Hnew & Hlennew & Hout & Hval). cbn [fst].
      rewrite length_bytesOf in Hlennew, Hval.
      rewrite leValue_bytesOf in Hval. rewrite Z2Nat.id in Hval by lia.
      rewrite (Z.mod_small (v + 2 ^ bitCount)) in Hval by lia.
      pose proof (leValue_bounds new Hnew) as Hnewb. rewrite Hlennew in Hnewb.
      rewrite Z2Nat.id in Hnewb by lia.
      assert (out = 0) by (destruct Hout; [assumption | exfalso; nia]). subst out.
      assert (Hnew' : new = bytesOf (Z.to_nat (byteCountOf bitCount))
                              (256 ^ byteCountOf bitCount - (v + 2 ^ bitCount))).
      { apply leValue_inj; auto using bytesOf_isByte.
        - rewrite length_bytesOf. exact Hlennew.
        - rewrite leValue_bytesOf, Z2Nat.id by lia. rewrite Z.mod_small by lia. lia. }
      rewrite Hnew'. clear Hnew' Hnew Hlennew Hval Hnewb new.
      rewrite strip_sign by lia.
      assert (Hmag : (256 ^ byteCountOf bitCount - (v + 2 ^ bitCount)) mod 2 ^ (bitCount - 1)
                     = (- v) mod 2 ^ (bitCount - 1)).
      { destruct (pow256_ge_pow2 bitCount ltac:(lia)) as (k & Hk & Hk').
        rewrite Hk', H2.
        replace (2 * 2 ^ (bitCount - 1) * k - (v + 2 * 2 ^ (bitCount - 1)))
          with (- v + (2 * k - 2) * 2 ^ (bitCount - 1)) by lia.
        apply Z.mod_add. lia. }
      rewrite Hmag.
      eexists. split; [reflexivity|].
      rewrite messageStream_writeMessageEnd, messageStream_sendBytes
        by (rewrite length_bytesOf; lia).
      rewrite !messageStream_writeMessageBody, messageStream_writeMessageStart.
      rewrite take_all by apply length_bytesOf.
      rewrite <- !app_assoc. reflexivity.
    + (* not negative: sign bit clear, strip changes nothing *)
      rewrite (Z.mod_small v) by lia.
      rewrite sign_test by lia.
      destruct (v <? 2 ^ (bitCount - 1)) eqn:Es; [|absurd_lia]. clear Es.
      cbn [negb].
      rewrite strip_sign by lia.
      rewrite (Z.mod_small v) by lia.
      eexists. split; [reflexivity|].
      rewrite messageStream_writeMessageEnd, messageStream_sendBytes
        by (rewrite length_bytesOf; lia).
      rewrite messageStream_writeMessageBody, messageStream_writeMessageStart.
      rewrite take_all by apply length_bytesOf.
      rewrite <- !app_assoc. reflexivity.
  - (* unsigned *)
    unfold inRange in Hrange. rewrite (Z.mod_small v) by lia.
    eexists. split; [reflexivity|].
    rewrite messageStream_writeMessageEnd, messageStream_sendBytes
      by (rewrite length_bytesOf; lia).
    rewrite messageStream_writeMessageBody, messageStream_writeMessageStart.
    rewrite take_all by apply length_bytesOf.
    rewrite <- !app_assoc. reflexivity.
Qed.

End Encoder.

(** ** The codec round trip (claim C1) *)

Lemma digitsValue_byteDigits bytes :
  Forall isByte bytes -> digitsValue (byteDigits bytes) = leValue bytes.
Proof.
  intros H. rewrite <- leValue_pairUp, pairUp_byteDigits by exact H. reflexivity.
Qed.

Lemma byteDigits_nonempty n v : (0 < n)%nat -> map hexDigit (byteDigits (bytesOf n v)) <> [].
Proof. destruct n; [lia|]. intros _. cbn. discriminate. Qed.

Lemma length_hexBytes bytes : length (hexBytes bytes) = (2 * length bytes)%nat.
Proof.
  rewrite hexBytes_byteDigits, length_rev, length_map, length_byteDigits. reflexivity.
Qed.

(** Reading back the text of a non-negative number below [2^bitCount]. *)
Lemma scanHexBits_hexBytes bitCount v description :
  1 <= bitCount <= INT_MAX - 7 -> 0 <= v < 2 ^ bitCount ->
  let value := hexBytes (bytesOf (Z.to_nat (byteCountOf bitCount)) v) in
  scanHexBits value 0 (Z.of_nat (length value)) bitCount description
  = Scanned (bytesOf (Z.to_nat (byteCountOf bitCount)) v, Z.of_nat (length value)).
Proof.
  intros Hw Hv value. unfold value.
  pose proof (byteCountOf_pos bitCount ltac:(lia)) as HB.
  pose proof (pow2_lt_pow256 bitCount ltac:(lia)) as Hpow.
  set (bytes := bytesOf (Z.to_nat (byteCountOf bitCount)) v).
  pose proof (scanHexBits_unsigned [] (map hexDigit (byteDigits bytes)) (byteDigits bytes) []
                bitCount description Hw (byteDigits_chars bytes)
                (byteDigits_nonempty (Z.to_nat (byteCountOf bitCount)) v ltac:(lia))) as H.
  assert (Hlenb : length bytes = Z.to_nat (byteCountOf bitCount)) by apply length_bytesOf.
  rewrite length_map, length_byteDigits, Hlenb in H. specialize (H ltac:(lia)).
  cbn [length app] in H. rewrite app_nil_r in H. change (Z.of_nat 0) with 0 in H.
  rewrite Z.add_0_l in H. rewrite <- hexBytes_byteDigits in H.
  rewrite length_hexBytes, Hlenb.
  rewrite H. clear H.
  rewrite digitsValue_byteDigits by apply bytesOf_isByte.
  unfold bytes. rewrite leValue_bytesOf, Z2Nat.id by lia.
  rewrite (Z.mod_small v) by lia.
  destruct (v <? 2 ^ bitCount) eqn:Ev; [reflexivity | absurd_lia].
Qed.

(** Reading back the text of a negative number above [-2^(bitCount-1)],
    at a width that does not leave the sign bit alone in the top byte. *)
Lemma scanHexBits_minus_hexBytes bitCount m description :
  2 <= bitCount <= INT_MAX - 7 -> bitCount mod 8 <> 1 ->
  1 <= m < 2 ^ (bitCount - 1) ->
  let value := "-"%char :: hexBytes (bytesOf (Z.to_nat (byteCountOf bitCount)) m) in
  scanHexBits value 0 (Z.of_nat (length value)) bitCount description
  = Scanned (bytesOf (Z.to_nat (byteCountOf bitCount)) (256 ^ byteCountOf bitCount - m),
             Z.of_nat (length value)).
Proof.
  intros Hw Hmod Hm value. unfold value.
  pose proof (byteCountOf_pos bitCount ltac:(lia)) as HB.
  pose proof (pow2_lt_pow256 bitCount ltac:(lia)) as Hpow.
  assert (H2 : 2 ^ bitCount = 2 * 2 ^ (bitCount - 1)).
  { rewrite <- Z.pow_succ_r by lia. f_equal. lia. }
  assert (HV : byteCountOf (bitCount - 1) = byteCountOf bitCount).
  { unfold byteCountOf. Z.div_mod_to_equations. lia. }
  set (bytes := bytesOf (Z.to_nat (byteCountOf bitCount)) m).
  pose proof (scanHexBits_negative [] (map hexDigit (byteDigits bytes)) (byteDigits bytes) []
                bitCount description Hw (byteDigits_chars bytes)
                (byteDigits_nonempty (Z.to_nat (byteCountOf bitCount)) m ltac:(lia))) as H.
  assert (Hlenb : length bytes = Z.to_nat (byteCountOf bitCount)) by apply length_bytesOf.
  rewrite length_map, length_byteDigits, Hlenb, HV in H. specialize (H ltac:(lia)).
  cbn [length app] in H. rewrite app_nil_r in H. change (Z.of_nat 0) with 0 in H.
  rewrite Z.add_0_l in H. rewrite <- hexBytes_byteDigits in H.
  cbn [length]. rewrite length_hexBytes, Hlenb.
  replace (Z.of_nat (S (2 * Z.to_nat (byteCountOf bitCount))))
    with (1 + Z.of_nat (2 * Z.to_nat (byteCountOf bitCount))) by lia.
  rewrite H. clear H.
  rewrite digitsValue_byteDigits by apply bytesOf_isByte.
  unfold bytes. rewrite leValue_bytesOf, Z2Nat.id by lia.
  rewrite (Z.mod_small m) by lia.
  destruct (m =? 0) eqn:E0; [absurd_lia|].
  destruct (m <=? 2 ^ (bitCount - 1)) eqn:E1; [reflexivity | absurd_lia].
Qed.

(** C1, as the code has it: the round trip [decode(encode(v, W), W) == v]
    holds for every unsigned in-range [v], for every signed [v >= 0], and for
    a negative [v] when [v] is above the minimum [-2^(W-1)] and [W mod 8] is
    not 1 (widths are C [int]s whose byte count [(W + 7) / 8] does not
    overflow). *)
Theorem codec_round_trip (E : Engine) (isSigned : bool) (bitCount v : Z) :
  1 <= bitCount <= INT_MAX - 7 ->
  (isSigned = true -> 2 <= bitCount) ->
  inRange isSigned bitCount v ->
  (isSigned = true -> v < 0 -> - 2 ^ (bitCount - 1) < v /\ bitCount mod 8 <> 1) ->
  roundTrips E isSigned bitCount v.
Proof.
  intros Hw Hsigned Hrange Hneg st description.
  destruct (sendBits_encodes E isSigned bitCount v st Hw Hsigned Hrange) as (st' & Hsend & Hms).
  pose proof (byteCountOf_pos bitCount ltac:(lia)) as HB.
  pose proof (pow2_lt_pow256 bitCount ltac:(lia)) as Hpow.
  assert (H2 : 2 ^ bitCount = 2 * 2 ^ (bitCount - 1)).
  { rewrite <- Z.pow_succ_r by lia. f_equal. lia. }
  assert (Hp1 : 0 < 2 ^ (bitCount - 1)) by lia.
  exists st', (encodedText isSigned bitCount v).
  unfold encodedText, encodedSign, encodedMagnitude in *.
  destruct (isSigned && (v <? 0)) eqn:Esign.
  - (* a negative signed value *)
    apply andb_true_iff in Esign. destruct Esign as [-> Ev]. boolZ.
    specialize (Hsigned eq_refl). destruct (Hneg eq_refl Ev) as [Hmin Hmod].
    unfold inRange in Hrange.
    assert (Hm : (- v) mod 2 ^ (bitCount - 1) = - v) by (apply Z.mod_small; lia).
    rewrite Hm in *. cbn [app].
    eexists. split; [exact Hsend|]. split; [exact Hms|]. split.
    + apply scanHexBits_minus_hexBytes; lia.
    + unfold bufferValue. rewrite leValue_bytesOf, Z2Nat.id by lia.
      destruct (pow256_ge_pow2 bitCount ltac:(lia)) as (k & Hk & Hk').
      assert (Hlt : 0 <= 256 ^ byteCountOf bitCount - - v < 256 ^ byteCountOf bitCount) by lia.
      rewrite (Z.mod_small _ _ Hlt).
      assert (Hu : (256 ^ byteCountOf bitCount - - v) mod 2 ^ bitCount = v + 2 ^ bitCount).
      { rewrite Hk'. replace (2 ^ bitCount * k - - v) with (v + 2 ^ bitCount + (k - 1) * 2 ^ bitCount) by lia.
        rewrite Z.mod_add by lia. apply Z.mod_small. lia. }
      rewrite Hu. cbn [andb].
      destruct (2 ^ (bitCount - 1) <=? v + 2 ^ bitCount) eqn:El; [lia | absurd_lia].
  - (* an unsigned value, or a signed value that is not negative *)
    cbn [app] in *.
    assert (Hv : 0 <= v < 2 ^ bitCount).
    { unfold inRange in Hrange. destruct isSigned; [|exact Hrange].
      cbn [andb] in Esign. specialize (Hsigned eq_refl). boolZ. lia. }
    eexists. split; [exact Hsend|]. split; [exact Hms|]. split.
    + apply scanHexBits_hexBytes; lia.
    + unfold bufferValue. rewrite leValue_bytesOf, Z2Nat.id by lia.
      rewrite (Z.mod_small v) by lia. rewrite (Z.mod_small v) by lia.
      destruct isSigned; [|reflexivity]. cbn [andb] in *.
      unfold inRange in Hrange.
      destruct (2 ^ (bitCount - 1) <=? v) eqn:El; [absurd_lia | reflexivity].
Qed.

(** The round trip at a concrete input: -5 in 12 signed bits. *)
Lemma codec_round_trip_witness : roundTrips nullEngine true 12 (-5).
Proof.
  apply (codec_round_trip nullEngine true 12 (-5)).
  - unfold INT_MAX. lia.
  - intros _. lia.
  - unfold inRange. lia.
  - intros _ _. split; [lia | discriminate].
Defined.

Lemma bitsMessage_value_inj bitCount value value' :
  bitsMessage bitCount value = bitsMessage bitCount value' -> value = value'.
Proof.
  unfold bitsMessage. intros H.
  apply app_inv_head in H. apply app_inv_head in H. apply app_inv_head in H.
  apply app_inv_tail in H. exact H.
Qed.

(** C1 as stated fails: -1 in 9 signed bits is in range, [sendBits] writes it
    as [-0001] (two digits per byte of the buffer), and [scanHexBits] refuses
    that text at width 9, where a magnitude has one byte. *)
Lemma codec_round_trip_fails_at_9_bits : ~ roundTrips nullEngine true 9 (-1).
Proof.
  intros H.
  destruct (H (freshDriver nullEngine tt []) []) as (st' & value & bytes & Hsend & Hms & Hscan & _).
  vm_compute in Hsend. injection Hsend as <-.
  change (messageStream _) with (bitsMessage 9 (text "-0001")) in Hms at 1.
  cbn [messageStream freshDriver initialDriver app] in Hms.
  apply bitsMessage_value_inj in Hms. subst value.
  vm_compute in Hscan. discriminate.
Qed.

(** ** The text of the encoder (claim C4) *)

Lemma replicate_snoc {A} n (x : A) : replicate n x ++ [x] = x :: replicate n x.
Proof. induction n as [|n IH]; cbn [replicate app]; [|rewrite IH]; reflexivity. Qed.

Lemma rev_replicate {A} n (x : A) : rev (replicate n x) = replicate n x.
Proof.
  induction n as [|n IH]; [reflexivity|].
  cbn [replicate rev]. rewrite IH. apply replicate_snoc.
Qed.

Lemma bytesOf_zero n : bytesOf n 0 = replicate n 0.
Proof.
  induction n as [|n IH]; [reflexivity|]. cbn [bytesOf replicate].
  rewrite Zmod_0_l, Zdiv_0_l, IH. reflexivity.
Qed.

Lemma hexBytes_zero n : hexBytes (bytesOf n 0) = concat (replicate n (text "00")).
Proof.
  unfold hexBytes. rewrite bytesOf_zero, rev_replicate.
  induction n as [|n IH]; [reflexivity|].
  cbn [replicate map concat]. rewrite IH. reflexivity.
Qed.

(** C4, as the code has it: for every in-range [v] above the signed minimum
    the encoder writes a [-] exactly when [v] is negative and then two
    uppercase hexadecimal digits for every one of the [ceil(W/8)] bytes of
    the magnitude [|v|], high byte first, leading zeros included; for [v = 0]
    that is [00] repeated [ceil(W/8)] times, without a sign. *)
Theorem sendBits_writes_every_byte (E : Engine) (isSigned : bool) (bitCount v : Z)
    (st : Driver E) :
  1 <= bitCount <= INT_MAX - 7 ->
  (isSigned = true -> 2 <= bitCount /\ - 2 ^ (bitCount - 1) < v) ->
  inRange isSigned bitCount v ->
  let byteCount := Z.to_nat (byteCountOf bitCount) in
  let digits := hexBytes (bytesOf byteCount (Z.abs v)) in
  exists st',
    sendBits E (bufferOf bitCount v) bitCount isSigned st = Return tt st'
    /\ messageStream st'
       = messageStream st
         ++ bitsMessage bitCount ((if v <? 0 then ["-"%char] else []) ++ digits)
    /\ length digits = (2 * byteCount)%nat
    /\ (v = 0 -> digits = concat (replicate byteCount (text "00"))).
Proof.
  intros Hw Hsigned Hrange byteCount digits.
  destruct (sendBits_encodes E isSigned bitCount v st Hw
              (fun H => proj1 (Hsigned H)) Hrange) as (st' & Hsend & Hms).
  exists st'. split; [exact Hsend|]. split; [|split].
  - rewrite Hms. f_equal. f_equal.
    unfold encodedText, encodedSign, encodedMagnitude, digits, byteCount.
    unfold inRange in Hrange.
    destruct isSigned; cbn [andb].
    + destruct (Hsigned eq_refl) as [Hw2 Hmin].
      destruct (v <? 0) eqn:Ev; boolZ.
      * rewrite Z.mod_small by lia. rewrite Z.abs_neq by lia. reflexivity.
      * rewrite Z.abs_eq by lia. reflexivity.
    + destruct (v <? 0) eqn:Ev; [absurd_lia|]. rewrite Z.abs_eq by lia. reflexivity.
  - unfold digits. rewrite length_hexBytes, length_bytesOf. reflexivity.
  - intros ->. unfold digits. apply hexBytes_zero.
Qed.

(** The text of zero in 12 unsigned bits. *)
Lemma sendBits_writes_every_byte_witness :
  exists st',
    sendBits nullEngine (bufferOf 12 0) 12 false (freshDriver nullEngine tt [])
    = Return tt st'
    /\ messageStream st' = bitsMessage 12 (text "0000").
Proof.
  destruct (sendBits_writes_every_byte nullEngine false 12 0 (freshDriver nullEngine tt []))
    as (st' & Hsend & Hms & _ & _).
  - unfold INT_MAX. lia.
  - discriminate.
  - unfold inRange. lia.
  - exists st'. split; [exact Hsend | exact Hms].
Defined.

(** C4 as stated fails: zero in 8 unsigned bits is written [00], not [0]. *)
Lemma sendBits_zero_is_not_one_digit :
  exists st',
    sendBits nullEngine (bufferOf 8 0) 8 false (freshDriver nullEngine tt [])
    = Return tt st'
    /\ messageStream st' = bitsMessage 8 (text "00")
    /\ messageStream st' <> bitsMessage 8 (text "0").
Proof.
  eexists. split; [vm_compute; reflexivity|]. split; [reflexivity|].
  vm_compute. discriminate.
Qed.

(** ** Overflow detection of the decoder (claim C2) *)

(** C2, as the code has it: a value whose digits all fit the bytes of the
    magnitude is refused when it is at least [2^W] (no sign) or above
    [2^(W-1)] (after a [-]: the two's-complement minimum is still in range);
    and a value with at least two digits more than two per byte of the
    magnitude is refused whatever its digits are. Decoding is a function of
    the line alone and touches neither the process nor the engine.
    [rchars] are the digits of the value, the last one first. *)
Theorem scanHexBits_rejects_overflow (negative : bool) (pre rchars post : list ascii)
    (rdigits : list Z) (bitCount : Z) (description : list ascii) :
  1 <= bitCount <= INT_MAX - 7 ->
  (negative = true -> 2 <= bitCount) ->
  Forall2 (fun c d => hexDigitValue c = Some d) rchars rdigits ->
  rchars <> [] ->
  let sign := if negative then ["-"%char] else [] in
  let magnitudeBytes := byteCountOf (if negative then bitCount - 1 else bitCount) in
  let bound := if negative then 2 ^ (bitCount - 1) + 1 else 2 ^ bitCount in
  (Z.of_nat (length rchars) <= 2 * magnitudeBytes /\ bound <= digitsValue rdigits)
  \/ 2 * magnitudeBytes + 2 <= Z.of_nat (length rchars) ->
  exists message,
    scanHexBits (pre ++ sign ++ rev rchars ++ post) (Z.of_nat (length pre))
      (Z.of_nat (length pre) + Z.of_nat (length sign) + Z.of_nat (length rchars))
      bitCount description
    = Failed message.
Proof.
  intros Hw Hneg Hchars Hne sign magnitudeBytes bound [[Hfit Hbig] | Hlong].
  - (* every digit is read and the number is too large *)
    destruct negative; unfold sign, magnitudeBytes, bound in *; cbn [app length].
    + specialize (Hneg eq_refl).
      pose proof (byteCountOf_pos (bitCount - 1) ltac:(lia)).
      change (Z.of_nat 1) with 1.
      rewrite scanHexBits_negative with (rdigits := rdigits) by (auto; lia).
      destruct (digitsValue rdigits =? 0); [eexists; reflexivity|].
      destruct (digitsValue rdigits <=? 2 ^ (bitCount - 1)) eqn:Ev; [absurd_lia|].
      eexists; reflexivity.
    + pose proof (byteCountOf_pos bitCount ltac:(lia)).
      change (Z.of_nat 0) with 0. rewrite Z.add_0_r.
      rewrite scanHexBits_unsigned with (rdigits := rdigits) by (auto; lia).
      destruct (digitsValue rdigits <? 2 ^ bitCount) eqn:Ev; [absurd_lia|].
      eexists; reflexivity.
  - (* too many characters *)
    apply scanHexBits_too_long; [exact Hw|].
    assert (Hsign : Ascii.eqb (charAt (pre ++ sign ++ rev rchars ++ post)
                                 (Z.of_nat (length pre))) "-" = negative).
    { destruct negative; unfold sign; cbn [app].
      - rewrite charAt_app. reflexivity.
      - destruct (first_char_of_value pre rchars rdigits post Hchars Hne) as [d Hd].
        apply (hexDigitValue_not_minus _ _ Hd). }
    rewrite Hsign. unfold magnitudeBytes, sign in *.
    destruct negative; cbn [length] in *; lia.
Qed.

(** The overflow of scenario S3: [1F] does not fit 4 bits. *)
Lemma scanHexBits_rejects_overflow_witness :
  exists message, scanHexBits (text "1F") 0 2 4 (text "parsing value") = Failed message.
Proof.
  apply (scanHexBits_rejects_overflow false [] [ "F"%char; "1"%char ] [] [15; 1] 4
           (text "parsing value")).
  - unfold INT_MAX. lia.
  - discriminate.
  - repeat constructor.
  - discriminate.
  - left. split; apply Z.leb_le; vm_compute; reflexivity.
Defined.

(** C2 as stated fails: the magnitude [80] exceeds the 7 bits below the sign
    of an 8-bit value, and [-80] decodes all the same, to the buffer of -128. *)
Lemma scanHexBits_accepts_minimum :
  scanHexBits (text "-80") 0 3 8 (text "parsing value") = Scanned ([128], 3).
Proof. vm_compute. reflexivity. Qed.

(** Left out of C2 above: with exactly one character more than the magnitude
    has room for, the loop stops on that character and the test
    [reverseScanCursor > firstCharacterOfValue] lets it pass unread. *)
Lemma scanHexBits_ignores_one_extra_character :
  scanHexBits (text "1FF") 0 3 8 (text "parsing value") = Scanned ([255], 3)
  /\ scanHexBits (text "zFF") 0 3 8 (text "parsing value") = Scanned ([255], 3).
Proof. split; vm_compute; reflexivity. Qed.

(** ** What writing a message changes *)

Section Frames.

Context (E : Engine).

Implicit Types st : Driver E.

Lemma onlyMessages_refl st : onlyMessages st st.
Proof. destruct st. reflexivity. Qed.

Lemma onlyMessages_trans st1 st2 st3 :
  onlyMessages st1 st2 -> onlyMessages st2 st3 -> onlyMessages st1 st3.
Proof.
  unfold onlyMessages. intros H12 H23. rewrite H23 at 1. rewrite H12 at 1. reflexivity.
Qed.

Lemma recorderGrows_refl st : recorderGrows st st.
Proof.
  repeat split. exists []. split; [constructor|].
  destruct (executionScript st); cbn; [rewrite app_nil_r|]; reflexivity.
Qed.

Lemma recorderGrows_trans st1 st2 st3 :
  recorderGrows st1 st2 -> recorderGrows st2 st3 -> recorderGrows st1 st3.
Proof.
  intros (Hl1 & Hc1 & es1 & Hes1 & Hs1) (Hl2 & Hc2 & es2 & Hes2 & Hs2).
  split; [congruence|]. split; [congruence|].
  exists (es1 ++ es2). split; [apply Forall_app; auto|].
  rewrite Hs2, Hs1. destruct (executionScript st1); cbn; [rewrite app_assoc|]; reflexivity.
Qed.

Lemma recorderGrows_same_script st st' :
  executionScriptLimit st' = executionScriptLimit st ->
  executionScriptCommandCount st' = executionScriptCommandCount st ->
  executionScript st' = executionScript st ->
  recorderGrows st st'.
Proof.
  intros Hl Hc Hs. split; [exact Hl|]. split; [exact Hc|].
  exists []. split; [constructor|]. rewrite Hs.
  destruct (executionScript st); cbn; [rewrite app_nil_r|]; reflexivity.
Qed.

Lemma writeScript_grows e st :
  isMessageEntry e -> recorderGrows st (writeScript E e st).
Proof.
  intros He. repeat split. exists [e]. split; [repeat constructor; exact He|].
  reflexivity.
Qed.

Lemma writeMessageStart_only c st : onlyMessages st (writeMessageStart E c st).
Proof.
  unfold writeMessageStart. destruct (shouldLogMessageToExecutionScript E st);
    destruct st; reflexivity.
Qed.

Lemma writeMessageBody_only body st : onlyMessages st (writeMessageBody E body st).
Proof.
  unfold writeMessageBody. destruct (shouldLogMessageToExecutionScript E _);
    destruct st; reflexivity.
Qed.

Lemma writeMessageEnd_only st : onlyMessages st (writeMessageEnd E st).
Proof.
  unfold writeMessageEnd. destruct (shouldLogMessageToExecutionScript E _);
    destruct st; reflexivity.
Qed.

Lemma writeMessage_only c body st : onlyMessages st (writeMessage E c body st).
Proof.
  unfold writeMessage.
  eauto using onlyMessages_trans, writeMessageStart_only, writeMessageBody_only,
    writeMessageEnd_only.
Qed.

Lemma writeMessageStart_grows c st : recorderGrows st (writeMessageStart E c st).
Proof.
  unfold writeMessageStart. destruct (shouldLogMessageToExecutionScript E st).
  - apply recorderGrows_trans
      with (writeScript E (ScriptMessageStart (executionScriptMessageCount st) c) st).
    + apply writeScript_grows. exact I.
    + apply recorderGrows_same_script; reflexivity.
  - apply recorderGrows_same_script; reflexivity.
Qed.

Lemma writeMessageBody_grows body st : recorderGrows st (writeMessageBody E body st).
Proof.
  unfold writeMessageBody. destruct (shouldLogMessageToExecutionScript E _).
  - apply recorderGrows_trans with (set_messageStream E (fun out => out ++ body) st).
    + apply recorderGrows_same_script; reflexivity.
    + apply writeScript_grows. exact I.
  - apply recorderGrows_same_script; reflexivity.
Qed.

Lemma writeMessageEnd_grows st : recorderGrows st (writeMessageEnd E st).
Proof.
  unfold writeMessageEnd. destruct (shouldLogMessageToExecutionScript E _).
  - apply recorderGrows_trans with (set_messageStream E (fun out => out ++ [newline]) st).
    + apply recorderGrows_same_script; reflexivity.
    + apply recorderGrows_trans
        with (writeScript E (ScriptMessageText [newline])
                (set_messageStream E (fun out => out ++ [newline]) st)).
      * apply writeScript_grows. exact I.
      * apply recorderGrows_same_script; reflexivity.
  - apply recorderGrows_same_script; reflexivity.
Qed.

Lemma writeMessage_grows c body st : recorderGrows st (writeMessage E c body st).
Proof.
  unfold writeMessage.
  eauto using recorderGrows_trans, writeMessageStart_grows, writeMessageBody_grows,
    writeMessageEnd_grows.
Qed.

Lemma executionScriptMessageCount_writeMessage c body st :
  executionScriptMessageCount (writeMessage E c body st)
  = wrap_int (executionScriptMessageCount st + 1).
Proof.
  unfold writeMessage, writeMessageEnd, writeMessageBody, writeMessageStart.
  repeat match goal with
  | |- context [if ?b then _ else _] => destruct b
  end; reflexivity.
Qed.

Lemma sendBytes_only count : forall bytes st, onlyMessages st (sendBytes E count bytes st).
Proof.
  induction count as [|i IH]; intros bytes st; cbn [sendBytes].
  - apply onlyMessages_refl.
  - eapply onlyMessages_trans; [apply writeMessageBody_only | apply IH].
Qed.

Lemma sendBytes_grows count : forall bytes st, recorderGrows st (sendBytes E count bytes st).
Proof.
  induction count as [|i IH]; intros bytes st; cbn [sendBytes].
  - apply recorderGrows_refl.
  - eapply recorderGrows_trans; [apply writeMessageBody_grows | apply IH].
Qed.

Lemma executionScriptMessageCount_sendBytes count : forall bytes st,
  executionScriptMessageCount (sendBytes E count bytes st) = executionScriptMessageCount st.
Proof.
  induction count as [|i IH]; intros bytes st; cbn [sendBytes]; [reflexivity|].
  rewrite IH. unfold writeMessageBody.
  destruct (shouldLogMessageToExecutionScript E _); reflexivity.
Qed.

Lemma messageStream_sendBytes_any count : forall bytes st,
  exists digits,
    messageStream (sendBytes E count bytes st) = messageStream st ++ digits
    /\ Forall isValueChar digits.
Proof.
  induction count as [|i IH]; intros bytes st; cbn [sendBytes].
  - exists []. rewrite app_nil_r. split; [reflexivity | constructor].
  - destruct (IH bytes (writeMessageBody E (hex02 (byteAt bytes (Z.of_nat i))) st))
      as (digits & Hms & Hdigits).
    exists (hex02 (byteAt bytes (Z.of_nat i)) ++ digits).
    rewrite Hms, messageStream_writeMessageBody, <- app_assoc. split; [reflexivity|].
    apply Forall_app. split; [|exact Hdigits].
    unfold hex02. cbn [hexFixed app].
    constructor; [|constructor; [|constructor]];
      right; eexists; apply hexDigitValue_hexDigit;
      unfold isDigit; apply Z.mod_pos_bound; lia.
Qed.

End Frames.

(** ** The effects of the driver's functions *)

Ltac split_all := repeat match goal with |- _ /\ _ => split end.

Section Effects.

Context (E : Engine).

Implicit Types st : Driver E.

Lemma outcomeSatisfies_bind {A B} (m : M E A) (k : A -> M E B) st
    (Q : B -> Driver E -> Prop) (X : Driver E -> Prop) :
  outcomeSatisfies (m st) (fun a st' => outcomeSatisfies (k a st') Q X) X ->
  outcomeSatisfies (bind E m k st) Q X.
Proof. unfold bind. destruct (m st); cbn; auto. Qed.

Lemma outcomeSatisfies_mono {A} (o : Outcome E A) (Q Q' : A -> Driver E -> Prop)
    (X X' : Driver E -> Prop) :
  outcomeSatisfies o Q X ->
  (forall a st', Q a st' -> Q' a st') -> (forall st', X st' -> X' st') ->
  outcomeSatisfies o Q' X'.
Proof. destruct o; cbn; auto. Qed.

Lemma onlyMessages_commandStream st st' :
  onlyMessages st st' -> commandStream st' = commandStream st.
Proof. intros ->. reflexivity. Qed.

Lemma onlyMessages_engineCalls st st' :
  onlyMessages st st' -> engineCalls st' = engineCalls st.
Proof. intros ->. reflexivity. Qed.

Lemma onlyMessages_engine st st' : onlyMessages st st' -> engine st' = engine st.
Proof. intros ->. reflexivity. Qed.

Lemma onlyMessages_traceInitialized st st' :
  onlyMessages st st' -> traceInitialized st' = traceInitialized st.
Proof. intros ->. reflexivity. Qed.

Lemma onlyMessages_receivedDone st st' :
  onlyMessages st st' -> receivedDone st' = receivedDone st.
Proof. intros ->. reflexivity. Qed.

Lemma onlyEngine_refl st : onlyEngine st st.
Proof. destruct st. reflexivity. Qed.

Lemma onlyEngine_trans st1 st2 st3 :
  onlyEngine st1 st2 -> onlyEngine st2 st3 -> onlyEngine st1 st3.
Proof.
  unfold onlyEngine. intros H12 H23. rewrite H23 at 1. rewrite H12 at 1. reflexivity.
Qed.

Lemma onlyEngine_messageStream st st' :
  onlyEngine st st' -> messageStream st' = messageStream st.
Proof. intros ->. reflexivity. Qed.

Lemma onlyEngine_commandStream st st' :
  onlyEngine st st' -> commandStream st' = commandStream st.
Proof. intros ->. reflexivity. Qed.

Lemma onlyEngine_grows st st' : onlyEngine st st' -> recorderGrows st st'.
Proof. intros ->. apply recorderGrows_same_script; reflexivity. Qed.

Lemma engineStep_only call next printed st :
  onlyEngine st (engineStep E call next printed st).
Proof. destruct st. reflexivity. Qed.

Lemma callSetter_only id setter data st : onlyEngine st (callSetter E id setter data st).
Proof. apply engineStep_only. Qed.

Lemma callRunSimulation_only timesteps st :
  onlyEngine st (callRunSimulation E timesteps st).
Proof.
  unfold callRunSimulation. destruct (run_simulation E timesteps (engine st)).
  apply engineStep_only.
Qed.

Lemma sendAck_eq st : sendAck E st = Return tt (writeMessage E MESSAGE_ACK (text "ack") st).
Proof. reflexivity. Qed.

Lemma failWithError_eq {A} message st :
  failWithError E (A := A) message st = Exit (writeMessage E MESSAGE_ERROR message st).
Proof. reflexivity. Qed.

(** Whatever buffer it is given, [sendBits] writes one BITS message or one
    error message, and nothing else changes. *)
Lemma sendBits_effect bytes bitCount isSigned st :
  outcomeSatisfies (sendBits E bytes bitCount isSigned st)
    (fun _ st' =>
       onlyMessages st st' /\ recorderGrows st st'
       /\ executionScriptMessageCount st' = wrap_int (executionScriptMessageCount st + 1)
       /\ exists value,
            Forall isValueChar value
            /\ messageStream st' = messageStream st ++ bitsMessage bitCount value)
    (fun st' => onlyMessages st st' /\ recorderGrows st st').
Proof.
  unfold sendBits.
  destruct (bitCount <=? 0).
  { cbn. split; [apply writeMessage_only | apply writeMessage_grows]. }
  destruct (isSigned && (bitCount <=? 1)).
  { cbn. split; [apply writeMessage_only | apply writeMessage_grows]. }
  set (st1 := writeMessageBody E (hex08 bitCount ++ text " ")
                (writeMessageStart E MESSAGE_BITS st)).
  assert (H1 : onlyMessages st st1 /\ recorderGrows st st1
               /\ executionScriptMessageCount st1 = executionScriptMessageCount st
               /\ messageStream st1
                  = messageStream st ++ [MESSAGE_BITS; " "%char] ++ hex08 bitCount ++ text " ").
  { unfold st1. split_all.
    - eapply onlyMessages_trans; [apply writeMessageStart_only | apply writeMessageBody_only].
    - eapply recorderGrows_trans; [apply writeMessageStart_grows | apply writeMessageBody_grows].
    - unfold writeMessageBody, writeMessageStart.
      repeat match goal with
      | |- context [if ?b then _ else _] => destruct b
      end; reflexivity.
    - rewrite messageStream_writeMessageBody, messageStream_writeMessageStart.
      rewrite <- !app_assoc. reflexivity. }
  destruct H1 as (Ho1 & Hg1 & Hc1 & Hm1).
  assert (Hfinish : forall sign bytes' st2,
            onlyMessages st1 st2 -> recorderGrows st1 st2 ->
            executionScriptMessageCount st2 = executionScriptMessageCount st1 ->
            messageStream st2 = messageStream st1 ++ sign -> Forall isValueChar sign ->
            outcomeSatisfies
              (Return (E:=E) tt
                 (writeMessageEnd E
                    (sendBytes E (Z.to_nat (Z.quot (wrap_int (bitCount + 7)) 8)) bytes' st2)))
              (fun _ st' =>
                 onlyMessages st st' /\ recorderGrows st st'
                 /\ executionScriptMessageCount st'
                    = wrap_int (executionScriptMessageCount st + 1)
                 /\ exists value,
                      Forall isValueChar value
                      /\ messageStream st' = messageStream st ++ bitsMessage bitCount value)
              (fun st' => onlyMessages st st' /\ recorderGrows st st')).
  { intros sign bytes' st2 Ho2 Hg2 Hc2 Hm2 Hsign. cbn [outcomeSatisfies].
    set (n := Z.to_nat (Z.quot (wrap_int (bitCount + 7)) 8)).
    destruct (messageStream_sendBytes_any E n bytes' st2) as (digits & Hm3 & Hdigits).
    split_all.
    - eauto using onlyMessages_trans, sendBytes_only, writeMessageEnd_only.
    - eauto using recorderGrows_trans, sendBytes_grows, writeMessageEnd_grows.
    - unfold writeMessageEnd.
      assert (Hc : executionScriptMessageCount (sendBytes E n bytes' st2)
                   = executionScriptMessageCount st)
        by (rewrite executionScriptMessageCount_sendBytes; congruence).
      destruct (shouldLogMessageToExecutionScript E _); cbn; rewrite Hc; reflexivity.
    - exists (sign ++ digits). split; [apply Forall_app; auto|].
      rewrite messageStream_writeMessageEnd, Hm3, Hm2, Hm1.
      unfold bitsMessage. rewrite <- !app_assoc. reflexivity. }
  destruct isSigned.
  - destruct (negb (Z.land (byteAt bytes (Z.quot (wrap_int (bitCount + 7)) 8 - 1))
                      (signBitMask bitCount) =? 0)).
    + apply (Hfinish ["-"%char]).
      * apply writeMessageBody_only.
      * apply writeMessageBody_grows.
      * unfold writeMessageBody. destruct (shouldLogMessageToExecutionScript E _); reflexivity.
      * apply messageStream_writeMessageBody.
      * constructor; [left; reflexivity | constructor].
    + apply (Hfinish []).
      * apply onlyMessages_refl.
      * apply recorderGrows_refl.
      * reflexivity.
      * rewrite app_nil_r. reflexivity.
      * constructor.
  - apply (Hfinish []).
    + apply onlyMessages_refl.
    + apply recorderGrows_refl.
    + reflexivity.
    + rewrite app_nil_r. reflexivity.
    + constructor.
Qed.

(** [sendLog] moves the read offset and writes one LOG message, the one of
    the log as it is, or fails. *)
Lemma sendLog_effect st :
  outcomeSatisfies (sendLog E st)
    (fun _ st' =>
       recorderGrows st st' /\ commandStream st' = commandStream st
       /\ engineCalls st' = engineCalls st
       /\ executionScriptMessageCount st'
          = wrap_int (executionScriptMessageCount st + 1)
       /\ messageStream st' = messageStream st ++ logResponse st)
    (fun st' => recorderGrows st st' /\ engineCalls st' = engineCalls st).
Proof.
  unfold sendLog, logResponse.
  set (st0 := match log st with None => set_log E (Some 0) st | Some _ => st end).
  set (offset := match log st with Some offset => offset | None => 0 end).
  assert (H0 : recorderGrows st st0 /\ commandStream st0 = commandStream st
               /\ engineCalls st0 = engineCalls st /\ messageStream st0 = messageStream st
               /\ simulationLog st0 = simulationLog st
               /\ match log st0 with Some offset => offset | None => 0 end = offset).
  { unfold st0, offset. destruct (log st) eqn:Hlog; split_all;
      first [ apply recorderGrows_refl
            | apply recorderGrows_same_script; reflexivity
            | rewrite Hlog; reflexivity
            | reflexivity ]. }
  destruct H0 as (Hg0 & Hc0 & He0 & Hm0 & Hs0 & Hl0). rewrite Hl0, Hs0.
  destruct (Z.of_nat (length (simulationLog st)) <? offset) eqn:E1.
  { rewrite failWithError_eq. cbn [outcomeSatisfies]. split.
    - eapply recorderGrows_trans; [exact Hg0 | apply writeMessage_grows].
    - rewrite (onlyMessages_engineCalls _ _ (writeMessage_only E _ _ _)). exact He0. }
  destruct (_ >? UINT32_MAX).
  { rewrite failWithError_eq. cbn [outcomeSatisfies]. split.
    - eapply recorderGrows_trans; [exact Hg0 | apply writeMessage_grows].
    - rewrite (onlyMessages_engineCalls _ _ (writeMessage_only E _ _ _)). exact He0. }
  cbn [outcomeSatisfies].
  match goal with
  | |- context [writeMessage E MESSAGE_LOG _ (set_log E ?o st0)] =>
      set (st1 := set_log E o st0)
  end.
  assert (H1 : recorderGrows st0 st1 /\ commandStream st1 = commandStream st0
               /\ engineCalls st1 = engineCalls st0 /\ messageStream st1 = messageStream st0).
  { unfold st1. split_all; [apply recorderGrows_same_script; reflexivity | reflexivity ..]. }
  destruct H1 as (Hg1 & Hc1 & He1 & Hm1).
  split_all.
  - apply recorderGrows_trans with st0; [exact Hg0|].
    apply recorderGrows_trans with st1; [exact Hg1 | apply writeMessage_grows].
  - rewrite (onlyMessages_commandStream _ _ (writeMessage_only E _ _ _)).
    etransitivity; [exact Hc1 | exact Hc0].
  - rewrite (onlyMessages_engineCalls _ _ (writeMessage_only E _ _ _)).
    etransitivity; [exact He1 | exact He0].
  - rewrite executionScriptMessageCount_writeMessage. unfold st1, st0.
    destruct (log st); reflexivity.
  - rewrite messageStream_writeMessage, Hm1, Hm0.
    rewrite take_ge by (rewrite length_drop; lia).
    rewrite <- !app_assoc. reflexivity.
Qed.

End Effects.

(** ** Reading a command line *)

Section Reading.

Context (E : Engine).

Implicit Types st : Driver E.

Lemma splitLine_line body rest :
  ~ In newline body -> splitLine (body ++ newline :: rest) = (body ++ [newline], rest).
Proof.
  induction body as [|c body IH]; intros Hnl; cbn [app splitLine].
  - rewrite Ascii.eqb_refl. reflexivity.
  - destruct (Ascii.eqb c newline) eqn:Ec.
    + apply Ascii.eqb_eq in Ec. subst. exfalso. apply Hnl. left. reflexivity.
    + rewrite IH; [reflexivity|]. intros Hin. apply Hnl. right. exact Hin.
Qed.

(** What [splitLine] returns: a line closed by the first newline, or, when
    there is none, all of the input. *)
Lemma splitLine_spec stream line rest :
  splitLine stream = (line, rest) ->
  stream = line ++ rest
  /\ ((exists body, line = body ++ [newline] /\ ~ In newline body)
      \/ (~ In newline line /\ rest = [])).
Proof.
  revert line rest. induction stream as [|c stream IH]; intros line rest H; cbn [splitLine] in H.
  - injection H as <- <-. split; [reflexivity|]. right. split; [intros []|reflexivity].
  - destruct (Ascii.eqb c newline) eqn:Ec.
    + apply Ascii.eqb_eq in Ec. subst c. injection H as <- <-.
      split; [reflexivity|]. left. exists []. split; [reflexivity | intros []].
    + destruct (splitLine stream) as [line' rest'] eqn:Es. injection H as <- <-.
      destruct (IH line' rest' eq_refl) as (Hs & Hl). subst stream.
      split; [reflexivity|].
      assert (Hc : c <> newline) by (intros ->; rewrite Ascii.eqb_refl in Ec; discriminate).
      destruct Hl as [(body & -> & Hbody) | (Hline & ->)].
      * left. exists (c :: body). split; [reflexivity|].
        intros [Hin | Hin]; [congruence | contradiction].
      * right. split; [|reflexivity].
        intros [Hin | Hin]; [congruence | contradiction].
Qed.

Lemma charAt_last body c :
  charAt (body ++ [c]) (Z.of_nat (length (body ++ [c])) - 1) = c.
Proof.
  rewrite length_app. cbn [length].
  replace (Z.of_nat (length body + 1) - 1) with (Z.of_nat (length body)) by lia.
  apply charAt_app.
Qed.

Lemma charAt_not_in line i c : ~ In c line -> c <> NUL -> charAt line i <> c.
Proof.
  intros Hin Hnul. unfold charAt. destruct (i <? 0); [congruence|].
  destruct (Nat.lt_ge_cases (Z.to_nat i) (length line)) as [Hlt | Hge].
  - intros Heq. apply Hin. rewrite <- Heq. apply nth_In. exact Hlt.
  - rewrite nth_overflow by exact Hge. congruence.
Qed.

Lemma stringBuffer_recordCommand st : stringBuffer (recordCommand E st) = stringBuffer st.
Proof.
  unfold recordCommand. destruct (executionScript st); [|reflexivity].
  repeat match goal with
  | |- context [if ?b then _ else _] => destruct b
  end; reflexivity.
Qed.

Lemma recordCommand_onlyRecorder st :
  messageStream (recordCommand E st) = messageStream st
  /\ commandStream (recordCommand E st) = commandStream st
  /\ engineCalls (recordCommand E st) = engineCalls st
  /\ engine (recordCommand E st) = engine st
  /\ traceInitialized (recordCommand E st) = traceInitialized st
  /\ receivedDone (recordCommand E st) = receivedDone st
  /\ executionScriptMessageCount (recordCommand E st) = executionScriptMessageCount st
  /\ log (recordCommand E st) = log st
  /\ simulationLog (recordCommand E st) = simulationLog st
  /\ simulationTraceFilepath (recordCommand E st) = simulationTraceFilepath st.
Proof.
  unfold recordCommand. destruct (executionScript st); [|repeat split; reflexivity].
  repeat match goal with
  | |- context [if ?b then _ else _] => destruct b
  end; repeat split; reflexivity.
Qed.

(** With a whole line in the input, [readCommand] takes it, records it and
    returns the offsets of its first character and of its newline. *)
Lemma readCommand_next st line rest :
  nextCommand st line rest ->
  readCommand E st
  = Return (0, Z.of_nat (length line) - 1)
      (recordCommand E (set_commandInput E rest line st)).
Proof.
  intros (Hstream & body & -> & Hbody).
  unfold readCommand, getline. rewrite Hstream.
  destruct ((body ++ [newline]) ++ rest) as [|c0 cs] eqn:Es.
  { destruct body; discriminate. }
  rewrite <- Es. rewrite <- app_assoc. cbn [app].
  rewrite splitLine_line by exact Hbody.
  destruct (Z.of_nat (length (body ++ [newline])) <=? 0) eqn:E0.
  { rewrite length_app in E0. cbn [length] in E0. absurd_lia. }
  rewrite stringBuffer_recordCommand. cbn [stringBuffer set_commandInput].
  rewrite charAt_last, Ascii.eqb_refl. reflexivity.
Qed.

(** However the input looks, [readCommand] returns only after taking a whole
    line; otherwise the process exits with an error message. *)
Lemma readCommand_effect st :
  outcomeSatisfies (readCommand E st)
    (fun '(lineCursor, lineEnd) st1 =>
       exists line rest,
         nextCommand st line rest
         /\ lineCursor = 0 /\ lineEnd = Z.of_nat (length line) - 1
         /\ st1 = recordCommand E (set_commandInput E rest line st))
    (fun st' =>
       exists stream buffer message,
         st' = writeMessage E MESSAGE_ERROR message
                 (recordCommand E (set_commandInput E stream buffer st))).
Proof.
  unfold readCommand, getline.
  destruct (commandStream st) as [|c0 cs] eqn:Es.
  - cbn [Z.leb Z.compare]. cbv iota. unfold feof_stdin. rewrite failWithError_eq.
    cbn [outcomeSatisfies].
    exists (commandStream st), (stringBuffer st), (text "Could not read next command.").
    destruct st; reflexivity.
  - destruct (splitLine (c0 :: cs)) as [line rest] eqn:El.
    destruct (splitLine_spec _ _ _ El) as (Hs & Hl).
    destruct (Z.of_nat (length line) <=? 0) eqn:E0.
    { unfold feof_stdin. rewrite failWithError_eq. cbn [outcomeSatisfies]. eauto. }
    destruct (Ascii.eqb (charAt (stringBuffer (recordCommand E (set_commandInput E rest line st)))
                           (Z.of_nat (length line) - 1)) newline) eqn:Enl.
    + cbn [outcomeSatisfies]. exists line, rest.
      rewrite stringBuffer_recordCommand in Enl. cbn [stringBuffer set_commandInput] in Enl.
      apply Ascii.eqb_eq in Enl.
      split; [|auto]. split; [rewrite Es; exact Hs|].
      destruct Hl as [Hl | (Hnone & _)]; [exact Hl|].
      exfalso. revert Enl. apply charAt_not_in; [exact Hnone | discriminate].
    + rewrite failWithError_eq. cbn [outcomeSatisfies]. eauto.
Qed.

End Reading.

(** ** The cycles of a TICK command *)

Lemma wrap_int_add_l a b : wrap_int (wrap_int a + b) = wrap_int (a + b).
Proof.
  unfold wrap_int.
  replace ((a + 2 ^ 31) mod 2 ^ 32 - 2 ^ 31 + b + 2 ^ 31)
    with ((a + 2 ^ 31) mod 2 ^ 32 + b) by lia.
  rewrite Z.add_mod_idemp_l by lia. f_equal. f_equal. lia.
Qed.

Lemma scanInt_range line lineCursor description value scanEnd :
  scanInt line lineCursor description = Scanned (value, scanEnd) ->
  INT_MIN <= value <= INT_MAX.
Proof.
  unfold scanInt. destruct (strtol16 line lineCursor) as [v e].
  destruct (negb (e =? lineCursor)); [|discriminate].
  destruct (negb ((v <? INT_MIN) || (v >? INT_MAX))) eqn:Hr; [|discriminate].
  intros [= <- <-]. boolZ. lia.
Qed.

Section Tick.

Context (E : Engine).
Variable beyondSentinelPortValue : nat -> Z.
Variable beyondSentinelValue : nat -> Z.

Implicit Types st : Driver E.

Local Abbreviation loop := (tickLoop E beyondSentinelPortValue beyondSentinelValue).
Local Abbreviation run := (runTick E beyondSentinelPortValue beyondSentinelValue).

(** A TICK command that parses has a cycle count between 1 and [INT_MAX]. *)
Lemma scanTick_maxCycleCount line lineCursor lineEnd t :
  scanTick E line lineCursor lineEnd = Scanned t -> 1 <= maxCycleCount E t <= INT_MAX.
Proof.
  unfold scanTick. intros H.
  destruct (scanInt line lineCursor _) as [[id c1]|] eqn:E1; cbn [scanBind] in H; [|discriminate].
  destruct (resolveSettablePort E id _) as [[w setter]|]; cbn [scanBind] in H; [|discriminate].
  destruct (expect line c1 _ _); cbn [scanBind] in H; [|discriminate].
  destruct (scanHexBits line (c1 + 1) _ w _) as [[v1 c2]|]; cbn [scanBind] in H; [|discriminate].
  destruct (expect line c2 _ _); cbn [scanBind] in H; [|discriminate].
  destruct (scanHexBits line (c2 + 1) _ w _) as [[v2 c3]|]; cbn [scanBind] in H; [|discriminate].
  destruct (expect line c3 _ _); cbn [scanBind] in H; [|discriminate].
  destruct (scanInt line (c3 + 1) _) as [[ts c4]|] eqn:E4; cbn [scanBind] in H; [|discriminate].
  destruct (expect line c4 _ _); cbn [scanBind] in H; [|discriminate].
  destruct (scanInt line (c4 + 1) _) as [[n c5]|] eqn:E5; cbn [scanBind] in H; [|discriminate].
  destruct (negb (n <=? 0)) eqn:En; [|discriminate].
  match type of H with
  | scanBind ?r _ = _ => destruct r as [[s c6]|]; cbn [scanBind] in H; [|discriminate]
  end.
  destruct (Ascii.eqb (charAt line c6) newline); [|discriminate].
  injection H as <-. cbn [maxCycleCount].
  pose proof (scanInt_range _ _ _ _ _ E5). boolZ. lia.
Qed.

(** Peels the engine calls off a state, outermost first. *)
Ltac only_engine :=
  repeat first
    [ apply onlyEngine_refl
    | eapply onlyEngine_trans; [| apply callRunSimulation_only]
    | eapply onlyEngine_trans; [| apply callSetter_only]
    | eapply onlyEngine_trans; [| apply engineStep_only] ].

Lemma tickLoop_only fuel : forall t sentinelPortValue cycles st cycles' st',
  loop fuel t sentinelPortValue cycles st = Some (cycles', st') -> onlyEngine st st'.
Proof.
  induction fuel as [|fuel IH]; intros t spv cycles st cycles' st' H; [discriminate|].
  cbn [tickLoop] in H.
  destruct (cycles <? maxCycleCount E t).
  - destruct (sentinel E t) as [s|].
    + unfold callGetter in H.
      destruct (memcmpEqual _ _ _ _ _).
      * injection H as <- <-. apply engineStep_only.
      * apply IH in H. revert H. apply onlyEngine_trans.
        only_engine.
    + apply IH in H. revert H. apply onlyEngine_trans.
      only_engine.
  - injection H as <- <-. apply onlyEngine_refl.
Qed.

(** With [maxCycleCount + 1] units of fuel the loop comes to its end. *)
Lemma tickLoop_returns fuel : forall t sentinelPortValue cycles st,
  0 <= cycles <= maxCycleCount E t -> maxCycleCount E t <= INT_MAX ->
  (Z.to_nat (maxCycleCount E t - cycles) < fuel)%nat ->
  exists cycles' st', loop fuel t sentinelPortValue cycles st = Some (cycles', st').
Proof.
  induction fuel as [|fuel IH]; intros t spv cycles st Hc Hmax Hfuel; [lia|].
  cbn [tickLoop].
  destruct (cycles <? maxCycleCount E t) eqn:Et; [|eauto].
  boolZ. rewrite wrap_int_id by (unfold INT_MIN, INT_MAX in *; lia).
  destruct (sentinel E t) as [s|].
  - unfold callGetter. destruct (memcmpEqual _ _ _ _ _); [eauto|].
    apply IH; lia.
  - apply IH; lia.
Qed.

Lemma engineCalls_callRunSimulation timesteps st :
  engineCalls (callRunSimulation E timesteps st)
  = engineCalls st ++ [CallRunSimulation timesteps].
Proof.
  unfold callRunSimulation. destruct (run_simulation E timesteps (engine st)). reflexivity.
Qed.

Lemma engineCalls_cycleStep t st :
  engineCalls (cycleStep E t st) = engineCalls st ++ cycleCalls t.
Proof.
  unfold cycleStep, cycleCalls.
  rewrite engineCalls_callRunSimulation. cbn [callSetter engineStep engineCalls].
  rewrite engineCalls_callRunSimulation. cbn [callSetter engineStep engineCalls].
  rewrite <- !app_assoc. reflexivity.
Qed.

Lemma engineCalls_cycleSteps n : forall t st,
  engineCalls (cycleSteps E n t st) = engineCalls st ++ concat (replicate n (cycleCalls t)).
Proof.
  induction n as [|n IH]; intros t st; cbn [cycleSteps replicate concat].
  - rewrite app_nil_r. reflexivity.
  - rewrite IH, engineCalls_cycleStep, <- app_assoc. reflexivity.
Qed.

Lemma cycleSteps_only n : forall t st, onlyEngine st (cycleSteps E n t st).
Proof.
  induction n as [|n IH]; intros t st; cbn [cycleSteps].
  - apply onlyEngine_refl.
  - eapply onlyEngine_trans; [|apply IH]. unfold cycleStep.
    only_engine.
Qed.

(** Without a sentinel the loop runs all its cycles. *)
Lemma tickLoop_no_sentinel fuel : forall t sentinelPortValue cycles st,
  sentinel E t = None ->
  0 <= cycles <= maxCycleCount E t -> maxCycleCount E t <= INT_MAX ->
  (Z.to_nat (maxCycleCount E t - cycles) < fuel)%nat ->
  loop fuel t sentinelPortValue cycles st
  = Some (wrap_int (maxCycleCount E t + 1),
          cycleSteps E (Z.to_nat (maxCycleCount E t - cycles)) t st).
Proof.
  induction fuel as [|fuel IH]; intros t spv cycles st Hs Hc Hmax Hfuel; [lia|].
  cbn [tickLoop]. rewrite Hs.
  destruct (cycles <? maxCycleCount E t) eqn:Et; boolZ.
  - rewrite wrap_int_id by (unfold INT_MIN, INT_MAX in *; lia).
    rewrite IH by (auto; lia).
    replace (Z.to_nat (maxCycleCount E t - cycles))
      with (S (Z.to_nat (maxCycleCount E t - (cycles + 1)))) by lia.
    reflexivity.
  - replace cycles with (maxCycleCount E t) by lia.
    rewrite Z.sub_diag. reflexivity.
Qed.

Lemma advances_cycles n (t : Tick E) :
  advances (concat (replicate n (cycleCalls t)))
  = replicate (2 * n) (timestepsPerPhase E t).
Proof.
  induction n as [|n IH]; [reflexivity|].
  cbn [replicate concat]. unfold advances in *. rewrite flat_map_app, IH.
  replace (2 * S n)%nat with (S (S (2 * n))) by lia. reflexivity.
Qed.

(** The cycles and the answer of a TICK command without sentinel. *)
Lemma runTick_no_sentinel t st :
  sentinel E t = None -> 1 <= maxCycleCount E t <= INT_MAX ->
  exists st',
    run t st = Return tt st'
    /\ engineCalls st'
       = engineCalls st ++ concat (replicate (Z.to_nat (maxCycleCount E t)) (cycleCalls t))
    /\ messageStream st'
       = messageStream st ++ bitsMessage 64 (hexBytes (bytesOf 8 (maxCycleCount E t))).
Proof.
  intros Hs Hn. unfold runTick. rewrite Hs.
  rewrite tickLoop_no_sentinel by (auto; lia). rewrite Z.sub_0_r.
  replace (wrap_int (maxCycleCount E t + 1) - 1)
    with (wrap_int (maxCycleCount E t + 1) + -1) by lia.
  rewrite wrap_int_add_l.
  replace (maxCycleCount E t + 1 + -1) with (maxCycleCount E t) by lia.
  rewrite wrap_int_id by (unfold INT_MIN, INT_MAX in *; lia).
  set (n := maxCycleCount E t) in *.
  set (st1 := cycleSteps E (Z.to_nat n) t st).
  destruct (sendBits_encodes E false 64 n st1) as (st' & Hsend & Hms).
  - unfold INT_MAX. lia.
  - discriminate.
  - unfold inRange. unfold INT_MAX in Hn. lia.
  - exists st'. split; [exact Hsend|]. split.
    + pose proof (sendBits_effect E (bufferOf 64 n) 64 false st1) as Heff.
      rewrite Hsend in Heff. destruct Heff as (Ho' & _).
      rewrite (onlyMessages_engineCalls _ _ _ Ho'). apply engineCalls_cycleSteps.
    + rewrite Hms. unfold st1. rewrite (onlyEngine_messageStream _ _ _ (cycleSteps_only _ _ _)).
      unfold encodedText, encodedSign, encodedMagnitude. cbn [andb app]. reflexivity.
Qed.

End Tick.

(** ** Dispatching one command *)

Section Dispatch.

Context (E : Engine).
Variable beyondSentinelPortValue : nat -> Z.
Variable beyondSentinelValue : nat -> Z.

Implicit Types st : Driver E.

Local Abbreviation process := (processCommand E beyondSentinelPortValue beyondSentinelValue).
Local Abbreviation dispatch := (dispatchCommand E beyondSentinelPortValue beyondSentinelValue).

Lemma afterRead_frame st line rest :
  stringBuffer (afterRead st line rest) = line
  /\ commandStream (afterRead st line rest) = rest
  /\ messageStream (afterRead st line rest) = messageStream st
  /\ engineCalls (afterRead st line rest) = engineCalls st
  /\ engine (afterRead st line rest) = engine st
  /\ traceInitialized (afterRead st line rest) = traceInitialized st
  /\ receivedDone (afterRead st line rest) = receivedDone st
  /\ log (afterRead st line rest) = log st
  /\ simulationLog (afterRead st line rest) = simulationLog st.
Proof.
  unfold afterRead.
  pose proof (recordCommand_onlyRecorder E (set_commandInput E rest line st))
    as (H1 & H2 & H3 & H4 & H5 & H6 & H7 & H8 & H9 & H10).
  rewrite stringBuffer_recordCommand.
  repeat split; assumption.
Qed.

Lemma processCommand_next st line rest :
  nextCommand st line rest ->
  process st = dispatch line 0 (Z.of_nat (length line) - 1) (afterRead st line rest).
Proof.
  intros Hnext. unfold processCommand, bind.
  rewrite (readCommand_next E st line rest Hnext).
  fold (afterRead st line rest).
  destruct (afterRead_frame st line rest) as (-> & _). reflexivity.
Qed.

Lemma scanning_Scanned {A} (r : Scan A) a st : r = Scanned a -> scanning E r st = Return a st.
Proof. intros ->. reflexivity. Qed.

Lemma scanning_Failed {A} (r : Scan A) message st :
  r = Failed message ->
  scanning E r st = Exit (writeMessage E MESSAGE_ERROR message st).
Proof. intros ->. reflexivity. Qed.

Lemma dispatch_TICK line lineEnd st :
  charAt line 0 = COMMAND_TICK ->
  dispatch line 0 lineEnd st
  = bind E (scanning E (scanTick E line 1 lineEnd))
      (runTick E beyondSentinelPortValue beyondSentinelValue) st.
Proof. intros Hc. unfold dispatchCommand. rewrite Hc. reflexivity. Qed.

Lemma dispatch_RUN line lineEnd st :
  charAt line 0 = COMMAND_RUN ->
  dispatch line 0 lineEnd st
  = bind E (scanning E (scanRun line 1))
      (fun time => bind E (step E (callRunSimulation E time)) (fun _ => sendAck E)) st.
Proof. intros Hc. unfold dispatchCommand. rewrite Hc. reflexivity. Qed.

Lemma dispatch_TRACE line lineEnd st :
  charAt line 0 = COMMAND_TRACE ->
  dispatch line 0 lineEnd st
  = bind E (scanning E (scanTrace line 1)) (runTrace E) st.
Proof. intros Hc. unfold dispatchCommand. rewrite Hc. reflexivity. Qed.

(** C10: a TRACE command whose argument is a character other than [0] and
    [1] (and not the newline itself) makes no call into the engine, leaves
    the trace uninitialised if it was, and is acknowledged. *)
Theorem trace_other_argument st (c : ascii) rest :
  c <> "0"%char -> c <> "1"%char -> c <> newline ->
  commandStream st = text "W " ++ [c; newline] ++ rest ->
  exists st',
    process st = Return tt st'
    /\ engineCalls st' = engineCalls st
    /\ engine st' = engine st
    /\ traceInitialized st' = traceInitialized st
    /\ messageStream st' = messageStream st ++ [MESSAGE_ACK; " "%char] ++ text "ack" ++ [newline].
Proof.
  intros H0 H1 Hnl Hstream.
  assert (Hnext : nextCommand st (text "W " ++ [c; newline]) rest).
  { split; [exact Hstream|]. exists (text "W " ++ [c]). split; [reflexivity|].
    cbn. intros [H | [H | [H | []]]]; [discriminate H | discriminate H | congruence]. }
  rewrite (processCommand_next st _ rest Hnext).
  rewrite dispatch_TRACE by reflexivity.
  unfold bind. rewrite (scanning_Scanned _ c).
  - unfold runTrace.
    assert (E1 : Ascii.eqb c "1" = false) by (apply Ascii.eqb_neq; exact H1).
    assert (E0 : Ascii.eqb c "0" = false) by (apply Ascii.eqb_neq; exact H0).
    rewrite E1, E0, sendAck_eq.
    destruct (afterRead_frame st (text "W " ++ [c; newline]) rest)
      as (_ & _ & Hm & He & Hen & Ht & _).
    eexists. split; [reflexivity|].
    set (st1 := afterRead st _ rest) in *.
    pose proof (writeMessage_only E MESSAGE_ACK (text "ack") st1) as Ho.
    rewrite (onlyMessages_engineCalls _ _ _ Ho), (onlyMessages_engine _ _ _ Ho),
      (onlyMessages_traceInitialized _ _ _ Ho), messageStream_writeMessage, Hm.
    auto.
  - reflexivity.
Qed.

End Dispatch.

(** C6 as stated fails: RUN with the negative timesteps -1 is not refused;
    the engine is advanced by -1 and the command acknowledged. So is TICK with
    negative timesteps per phase. *)
Lemma negative_timesteps_reach_the_engine :
  (exists st',
     processCommand demoEngine (filledWith 0) (filledWith 0)
       (freshDriver demoEngine demoStart (commandLine "R -1"))
     = Return tt st'
     /\ engineCalls st' = [CallRunSimulation (-1)])
  /\ (exists st',
        processCommand demoEngine (filledWith 0) (filledWith 0)
          (freshDriver demoEngine demoStart (commandLine "T 0 1,0--5*1"))
        = Return tt st'
        /\ advances (engineCalls st') = [-5; -5]).
Proof.
  split; eexists; (split; [vm_compute; reflexivity|]); vm_compute; reflexivity.
Qed.

(** The TRACE command with the argument [x]. *)
Lemma trace_other_argument_witness :
  exists st',
    processCommand demoEngine (filledWith 0) (filledWith 0)
      (freshDriver demoEngine demoStart (commandLine "W x"))
    = Return tt st'
    /\ engineCalls st' = []
    /\ messageStream st' = commandLine "k ack".
Proof.
  destruct (trace_other_argument demoEngine (filledWith 0) (filledWith 0)
              (freshDriver demoEngine demoStart (commandLine "W x")) "x"%char [])
    as (st' & Hrun & Hcalls & _ & _ & Hms).
  - discriminate.
  - discriminate.
  - discriminate.
  - reflexivity.
  - exists st'. split; [exact Hrun|]. split; [exact Hcalls | exact Hms].
Defined.

(** ** One response per command (claim C8) *)

Section Responses.

Context (E : Engine).
Variable beyondSentinelPortValue : nat -> Z.
Variable beyondSentinelValue : nat -> Z.

Implicit Types st : Driver E.

Local Abbreviation process := (processCommand E beyondSentinelPortValue beyondSentinelValue).
Local Abbreviation dispatch := (dispatchCommand E beyondSentinelPortValue beyondSentinelValue).

Lemma quiet_refl st : quiet st st.
Proof. repeat split. apply recorderGrows_refl. Qed.

Lemma onlyEngine_quiet st1 st2 : onlyEngine st1 st2 -> quiet st1 st2.
Proof.
  intros H. split; [exact (onlyEngine_grows E _ _ H)|]. rewrite H. repeat split.
Qed.

Lemma ack_responded commandCode st1 st2 :
  commandCode = COMMAND_SET_BITS \/ commandCode = COMMAND_RUN
  \/ commandCode = COMMAND_TRACE ->
  quiet st1 st2 ->
  responded commandCode st1 (writeMessage E MESSAGE_ACK (text "ack") st2).
Proof.
  intros Hcode (Hg & Hc & Hn & Hm). split; [|split; [|split]].
  - eapply recorderGrows_trans; [exact Hg | apply writeMessage_grows].
  - rewrite (onlyMessages_commandStream _ _ _ (writeMessage_only E _ _ _)). exact Hc.
  - rewrite executionScriptMessageCount_writeMessage, Hn. reflexivity.
  - exists ([MESSAGE_ACK; " "%char] ++ text "ack" ++ [newline]).
    split; [constructor; exact Hcode|]. rewrite messageStream_writeMessage, Hm. reflexivity.
Qed.

Lemma error_grows st1 st2 message :
  recorderGrows st1 st2 -> recorderGrows st1 (writeMessage E MESSAGE_ERROR message st2).
Proof. intros Hg. eapply recorderGrows_trans; [exact Hg | apply writeMessage_grows]. Qed.

Lemma bits_responded commandCode st1 st2 bytes bitCount isSigned :
  commandCode = COMMAND_GET_BITS \/ commandCode = COMMAND_TICK ->
  quiet st1 st2 ->
  outcomeSatisfies (sendBits E bytes bitCount isSigned st2)
    (fun _ st' => responded commandCode st1 st') (fun st' => recorderGrows st1 st').
Proof.
  intros Hcode (Hg & Hc & Hn & Hm).
  eapply outcomeSatisfies_mono; [apply sendBits_effect | |].
  - intros _ st' (Ho & Hg' & Hn' & value & Hvalue & Hms). split; [|split; [|split]].
    + eapply recorderGrows_trans; eassumption.
    + rewrite (onlyMessages_commandStream _ _ _ Ho). exact Hc.
    + rewrite Hn', Hn. reflexivity.
    + exists (bitsMessage bitCount value). split; [constructor; [exact Hcode | exact Hvalue]|].
      rewrite Hms, Hm. reflexivity.
  - intros st' (_ & Hg'). eapply recorderGrows_trans; eassumption.
Qed.

Lemma scanning_effect {A} (r : Scan A) (k : A -> M E unit) st
    (Q : unit -> Driver E -> Prop) (X : Driver E -> Prop) :
  (forall a, r = Scanned a -> outcomeSatisfies (k a st) Q X) ->
  (forall message, X (writeMessage E MESSAGE_ERROR message st)) ->
  outcomeSatisfies (bind E (scanning E r) k st) Q X.
Proof.
  intros Hk Hx. unfold bind. destruct r as [a | message]; cbn [scanning].
  - unfold ret. apply Hk. reflexivity.
  - rewrite failWithError_eq. apply Hx.
Qed.

Lemma runTick_effect t st :
  1 <= maxCycleCount E t <= INT_MAX ->
  outcomeSatisfies (runTick E beyondSentinelPortValue beyondSentinelValue t st)
    (fun _ st' => responded COMMAND_TICK st st') (fun st' => recorderGrows st st').
Proof.
  intros Hn. unfold runTick.
  match goal with
  | |- context [tickLoop E _ _ ?fuel t ?spv 0 st] =>
      destruct (tickLoop_returns E beyondSentinelPortValue beyondSentinelValue
                  fuel t spv 0 st ltac:(lia) ltac:(lia) ltac:(lia))
        as (cycles & st2 & Hloop)
  end.
  rewrite Hloop.
  apply bits_responded; [right; reflexivity|]. apply onlyEngine_quiet.
  exact (tickLoop_only E _ _ _ _ _ _ _ _ _ Hloop).
Qed.

Lemma runTrace_effect argument st :
  outcomeSatisfies (runTrace E argument st)
    (fun _ st' => responded COMMAND_TRACE st st') (fun st' => recorderGrows st st').
Proof.
  unfold runTrace. rewrite sendAck_eq. cbn [outcomeSatisfies].
  apply ack_responded; [right; right; reflexivity|].
  destruct (Ascii.eqb argument "1").
  - destruct (negb (traceInitialized st)); repeat split;
      apply recorderGrows_same_script; reflexivity.
  - destruct (Ascii.eqb argument "0"); [|apply quiet_refl].
    repeat split. apply recorderGrows_same_script; reflexivity.
Qed.

(** Whatever the line, dispatching it ends in one of three ways: DONE sets
    the flag and writes nothing; any other command that is accepted writes
    exactly one response, the one to its command code; a command that is
    refused ends the process. The input is not read again on the way. *)
Lemma dispatchCommand_effect line lineCursor lineEnd st :
  outcomeSatisfies (dispatch line lineCursor lineEnd st)
    (fun _ st' =>
       if Ascii.eqb (charAt line lineCursor) COMMAND_DONE then
         quiet st st' /\ receivedDone st' = true
       else responded (charAt line lineCursor) st st')
    (fun st' => recorderGrows st st').
Proof.
  unfold dispatchCommand.
  destruct (Ascii.eqb (charAt line lineCursor) COMMAND_DONE).
  { cbn [step outcomeSatisfies]. split; [|reflexivity].
    repeat split. apply recorderGrows_same_script; reflexivity. }
  destruct (Ascii.eqb (charAt line lineCursor) COMMAND_LOG) eqn:Elog.
  { apply Ascii.eqb_eq in Elog.
    eapply outcomeSatisfies_mono; [apply sendLog_effect | |].
    - intros _ st' (Hg & Hc & _ & Hn & Hms).
      split; [exact Hg|]. split; [exact Hc|]. split; [exact Hn|].
      exists (logResponse st). split; [apply ResponseLog; exact Elog | exact Hms].
    - intros st' (Hg & _). exact Hg. }
  destruct (Ascii.eqb (charAt line lineCursor) COMMAND_SET_BITS) eqn:Eset.
  { apply Ascii.eqb_eq in Eset. apply scanning_effect.
    - intros [[id setter] data] _. cbn [bind step]. unfold bind, step. rewrite sendAck_eq.
      cbn [outcomeSatisfies].
      apply ack_responded; [left; exact Eset|]. apply onlyEngine_quiet, callSetter_only.
    - intros message. apply error_grows, recorderGrows_refl. }
  destruct (Ascii.eqb (charAt line lineCursor) COMMAND_GET_BITS) eqn:Eget.
  { apply Ascii.eqb_eq in Eget. apply scanning_effect.
    - intros [[[isSigned id] bitWidth] getter] _. unfold callGetter.
      apply bits_responded; [left; exact Eget|]. apply onlyEngine_quiet, engineStep_only.
    - intros message. apply error_grows, recorderGrows_refl. }
  destruct (Ascii.eqb (charAt line lineCursor) COMMAND_RUN) eqn:Erun.
  { apply Ascii.eqb_eq in Erun. apply scanning_effect.
    - intros time _. unfold bind, step. rewrite sendAck_eq.
      cbn [outcomeSatisfies].
      apply ack_responded; [right; left; exact Erun|].
      apply onlyEngine_quiet, callRunSimulation_only.
    - intros message. apply error_grows, recorderGrows_refl. }
  destruct (Ascii.eqb (charAt line lineCursor) COMMAND_TICK) eqn:Etick.
  { apply Ascii.eqb_eq in Etick. rewrite Etick. apply scanning_effect.
    - intros t Hscan. apply runTick_effect.
      exact (scanTick_maxCycleCount E _ _ _ _ Hscan).
    - intros message. apply error_grows, recorderGrows_refl. }
  destruct (Ascii.eqb (charAt line lineCursor) COMMAND_TRACE) eqn:Etrace.
  { apply Ascii.eqb_eq in Etrace. rewrite Etrace. apply scanning_effect.
    - intros argument _. apply runTrace_effect.
    - intros message. apply error_grows, recorderGrows_refl. }
  rewrite failWithError_eq. cbn [outcomeSatisfies].
  apply error_grows, recorderGrows_refl.
Qed.

(** [processCommand] never runs out of fuel: the TICK loop is given enough. *)
Lemma processCommand_not_stuck st : process st <> Stuck.
Proof.
  unfold processCommand, bind.
  pose proof (readCommand_effect E st) as Hread.
  destruct (readCommand E st) as [[lineCursor lineEnd] st1 | st1 |]; [|discriminate|contradiction].
  pose proof (dispatchCommand_effect (stringBuffer st1) lineCursor lineEnd st1) as Hd.
  destruct (dispatch _ _ _ st1); [discriminate | discriminate | contradiction].
Qed.

(** The response to a command depends on the state through the log only. *)
Lemma Response_same_log st st1 commandCode r :
  log st1 = log st -> simulationLog st1 = simulationLog st ->
  Response st1 commandCode r -> Response st commandCode r.
Proof.
  intros Hl Hs [Hcode | bitCount value Hcode Hvalue | Hcode].
  - apply ResponseAck. exact Hcode.
  - apply ResponseBits; assumption.
  - replace (logResponse st1) with (logResponse st)
      by (unfold logResponse; rewrite Hl, Hs; reflexivity).
    apply ResponseLog. exact Hcode.
Qed.

(** C8: when [processCommand] returns it has read exactly one line of the
    input, and it has written nothing on the message stream if the line is a
    DONE command, and otherwise exactly one response, the one to the command
    code of the line: [k ack] for SET_BITS, RUN and TRACE, one BITS message
    (a width of eight digits and a value without space or newline) for
    GET_BITS and TICK, and for LOG the one LOG message that [sendLog] writes
    for the log as it is when the command is read. *)
Theorem one_response_per_command st st' :
  process st = Return tt st' ->
  exists line rest,
    nextCommand st line rest
    /\ commandStream st' = rest
    /\ if Ascii.eqb (charAt line 0) COMMAND_DONE then
         messageStream st' = messageStream st /\ receivedDone st' = true
       else
         exists r,
           Response st (charAt line 0) r /\ messageStream st' = messageStream st ++ r.
Proof.
  intros Hrun. unfold processCommand, bind in Hrun.
  pose proof (readCommand_effect E st) as Hread.
  destruct (readCommand E st) as [[lineCursor lineEnd] st1 | st1 |]; [|discriminate..].
  cbn [outcomeSatisfies] in Hread.
  destruct Hread as (line & rest & Hnext & -> & -> & ->).
  fold (afterRead st line rest) in Hrun.
  destruct (afterRead_frame E st line rest) as (Hbuf & Hcs & Hms & _ & _ & _ & _ & Hl & Hs).
  rewrite Hbuf in Hrun.
  pose proof (dispatchCommand_effect line 0 (Z.of_nat (length line) - 1)
                (afterRead st line rest)) as Hd.
  rewrite Hrun in Hd. cbn [outcomeSatisfies] in Hd.
  exists line, rest. split; [exact Hnext|].
  destruct (Ascii.eqb (charAt line 0) COMMAND_DONE).
  - destruct Hd as ((_ & Hc & _ & Hm) & Hdone).
    split; [congruence|]. split; [congruence | exact Hdone].
  - destruct Hd as (_ & Hc & _ & r & Hr & Hm).
    split; [congruence|]. exists r. split; [|congruence].
    exact (Response_same_log st _ _ r Hl Hs Hr).
Qed.

End Responses.

(** The response to [L] after the simulation has printed [a], NUL, [b]: one
    LOG message, which announces three bytes. *)
Lemma one_response_per_command_witness :
  let st := callRunSimulation demoEngine 3
              (freshDriver demoEngine demoStart (commandLine "L")) in
  exists st',
    processCommand demoEngine (filledWith 0) (filledWith 0) st = Return tt st'
    /\ messageStream st' = commandLine "l 00000003 a"
    /\ exists line rest,
         nextCommand st line rest
         /\ commandStream st' = rest
         /\ if Ascii.eqb (charAt line 0) COMMAND_DONE then
              messageStream st' = messageStream st /\ receivedDone st' = true
            else
              exists r,
                Response st (charAt line 0) r
                /\ messageStream st' = messageStream st ++ r.
Proof.
  intros st. eexists. split; [vm_compute; reflexivity|]. split; [reflexivity|].
  apply (one_response_per_command demoEngine (filledWith 0) (filledWith 0) st).
  vm_compute. reflexivity.
Defined.

(** ** The execution script under a limit (claim C7) *)

Lemma recordedCommands_app a b :
  recordedCommands (a ++ b) = (recordedCommands a + recordedCommands b)%nat.
Proof. unfold recordedCommands. rewrite filter_app, length_app. reflexivity. Qed.

Lemma recordedCommands_messages entries :
  Forall isMessageEntry entries -> recordedCommands entries = 0%nat.
Proof.
  induction 1 as [|e entries He _ IH]; [reflexivity|].
  change (e :: entries) with ([e] ++ entries). rewrite recordedCommands_app, IH.
  destruct e; try contradiction; reflexivity.
Qed.

Lemma noteBeforeDone_app limit script entries :
  noteBeforeDone limit script ->
  (forall i n, entries !! i = Some (ScriptImplicitDone n) ->
     n = limit + 1
     /\ exists j, (length script + i)%nat = S j
                  /\ (script ++ entries) !! j = Some (ScriptLimitNote limit)) ->
  noteBeforeDone limit (script ++ entries).
Proof.
  intros Hs He i n Hi.
  destruct (Nat.lt_ge_cases i (length script)) as [Hlt | Hge].
  - rewrite lookup_app_l in Hi by exact Hlt.
    destruct (Hs i n Hi) as (Hn & j & -> & Hj).
    split; [exact Hn|]. exists j. split; [reflexivity|].
    rewrite lookup_app_l by lia. exact Hj.
  - rewrite lookup_app_r in Hi by exact Hge.
    destruct (He _ n Hi) as (Hn & j & Hij & Hj).
    split; [exact Hn|]. exists j. split; [lia | exact Hj].
Qed.

Lemma noteBeforeDone_messages limit script entries :
  noteBeforeDone limit script -> Forall isMessageEntry entries ->
  noteBeforeDone limit (script ++ entries).
Proof.
  intros Hs He. apply noteBeforeDone_app; [exact Hs|].
  intros i n Hi. exfalso.
  rewrite Forall_lookup in He. exact (He i _ Hi).
Qed.

Section Recorder.

Context (E : Engine).
Variable beyondSentinelPortValue : nat -> Z.
Variable beyondSentinelValue : nat -> Z.

Implicit Types st : Driver E.

Local Abbreviation process := (processCommand E beyondSentinelPortValue beyondSentinelValue).

(** Parts of messages do not disturb the invariant. *)
Lemma recorderInvariant_grows limit st st' :
  recorderGrows st st' -> recorderInvariant limit st -> recorderInvariant limit st'.
Proof.
  intros (Hl & Hc & entries & Hentries & Hs) (Hlimit & Hcount & script & Hscript & Hn & Hnote).
  split; [congruence|]. split; [rewrite Hc; exact Hcount|].
  exists (script ++ entries). rewrite Hs, Hscript. split; [reflexivity|]. split.
  - rewrite recordedCommands_app, (recordedCommands_messages _ Hentries), Hc. lia.
  - apply noteBeforeDone_messages; assumption.
Qed.

Lemma recorderInvariant_input limit stream buffer st :
  recorderInvariant limit st -> recorderInvariant limit (set_commandInput E stream buffer st).
Proof. intros H. exact H. Qed.

(** Recording a command keeps the invariant: below the limit the line is
    recorded and counted, and the note and the closing [D] are written only
    with the count at the limit plus one. *)
Lemma recordCommand_invariant limit st :
  0 <= limit < INT_MAX ->
  recorderInvariant limit st -> recorderInvariant limit (recordCommand E st).
Proof.
  intros Hlimit (Hl & Hcount & script & Hscript & Hn & Hnote).
  unfold recordCommand. rewrite Hscript, Hl.
  assert (Hw : wrap_int (limit + 1) = limit + 1)
    by (apply wrap_int_id; unfold INT_MIN, INT_MAX in *; lia).
  destruct (limit =? -1) eqn:E1; [absurd_lia|]. cbn [orb].
  destruct (executionScriptCommandCount st <=? limit) eqn:E2; boolZ.
  - (* below the limit: the line is recorded *)
    cbn [executionScriptCommandCount set_executionScriptCommandCount writeScript
           set_executionScript executionScriptLimit].
    rewrite Hl, Hw.
    rewrite (wrap_int_id (executionScriptCommandCount st + 1))
      by (unfold INT_MIN, INT_MAX in *; lia).
    set (line := ScriptCommand (executionScriptCommandCount st) (cstr (stringBuffer st))).
    assert (Hnote1 : noteBeforeDone limit (script ++ [line])).
    { apply noteBeforeDone_app; [exact Hnote|].
      intros [|i] n Hi; cbn in Hi; discriminate. }
    assert (Hn1 : Z.of_nat (recordedCommands (script ++ [line]))
                  = executionScriptCommandCount st + 1 - 1).
    { rewrite recordedCommands_app. change (recordedCommands [line]) with 1%nat. lia. }
    destruct (executionScriptCommandCount st + 1 =? limit + 1) eqn:E3; boolZ.
    + split; [exact Hl|]. split; [cbn; lia|].
      exists ((script ++ [line]) ++ [ScriptLimitNote limit]
              ++ [ScriptImplicitDone (executionScriptCommandCount st + 1)]).
      cbn [executionScript executionScriptCommandCount writeScript set_executionScript
             set_executionScriptCommandCount option_map].
      rewrite Hscript. cbn [option_map]. split; [rewrite <- !app_assoc; reflexivity|].
      split.
      * rewrite recordedCommands_app.
        change (recordedCommands ([ScriptLimitNote limit] ++ _)) with 0%nat. lia.
      * apply noteBeforeDone_app; [exact Hnote1|].
        intros [|[|i]] n Hi; cbn in Hi; try discriminate.
        injection Hi as <-. split; [lia|].
        exists (length (script ++ [line])). split; [lia|].
        rewrite lookup_app_r by lia. rewrite Nat.sub_diag. reflexivity.
    + split; [exact Hl|]. split; [cbn; lia|].
      exists (script ++ [line]).
      cbn [executionScript executionScriptCommandCount writeScript set_executionScript
             set_executionScriptCommandCount option_map].
      rewrite Hscript. cbn [option_map]. auto.
  - (* at the limit: nothing is recorded, the note and the [D] are written *)
    rewrite Hl, Hw.
    destruct (executionScriptCommandCount st =? limit + 1) eqn:E3; boolZ; [|lia].
    split; [exact Hl|]. split; [cbn; lia|].
    exists (script ++ [ScriptLimitNote limit]
            ++ [ScriptImplicitDone (executionScriptCommandCount st)]).
    cbn [executionScript executionScriptCommandCount writeScript set_executionScript
           option_map].
    rewrite Hscript. cbn [option_map]. split; [rewrite <- !app_assoc; reflexivity|].
    split.
    + rewrite recordedCommands_app.
      change (recordedCommands ([ScriptLimitNote limit] ++ _)) with 0%nat. lia.
    + apply noteBeforeDone_app; [exact Hnote|].
      intros [|[|i]] n Hi; cbn in Hi; try discriminate.
      injection Hi as <-. split; [lia|].
      exists (length script). split; [lia|].
      rewrite lookup_app_r by lia. rewrite Nat.sub_diag. reflexivity.
Qed.

Lemma processCommand_invariant limit st :
  0 <= limit < INT_MAX ->
  recorderInvariant limit st ->
  outcomeSatisfies (process st)
    (fun _ st' => recorderInvariant limit st') (fun st' => recorderInvariant limit st').
Proof.
  intros Hlimit Hinv. unfold processCommand. apply outcomeSatisfies_bind.
  eapply outcomeSatisfies_mono; [apply readCommand_effect | |].
  - intros [lineCursor lineEnd] st1 (line & rest & _ & _ & _ & ->).
    eapply outcomeSatisfies_mono; [apply dispatchCommand_effect | |].
    + intros u st' H. cbv beta in H.
      assert (Hg : recorderGrows (recordCommand E (set_commandInput E rest line st)) st').
      { destruct (Ascii.eqb _ COMMAND_DONE); [destruct H as ((Hg & _) & _) | destruct H as (Hg & _)];
          exact Hg. }
      eapply recorderInvariant_grows; [exact Hg|].
      apply recordCommand_invariant; [exact Hlimit|]. exact Hinv.
    + intros st' Hg. eapply recorderInvariant_grows; [exact Hg|].
      apply recordCommand_invariant; [exact Hlimit|]. exact Hinv.
  - intros st' (stream & buffer & message & ->).
    eapply recorderInvariant_grows; [apply writeMessage_grows|].
    apply recordCommand_invariant; [exact Hlimit|]. exact Hinv.
Qed.

Lemma commandLoop_invariant limit fuel : forall st,
  0 <= limit < INT_MAX ->
  recorderInvariant limit st ->
  match commandLoop E beyondSentinelPortValue beyondSentinelValue fuel st with
  | Return _ st' | Exit st' => recorderInvariant limit st'
  | Stuck => True
  end.
Proof.
  induction fuel as [|fuel IH]; intros st Hlimit Hinv; cbn [commandLoop].
  - destruct (receivedDone st); [exact Hinv | exact I].
  - destruct (receivedDone st); [exact Hinv|].
    unfold bind. pose proof (processCommand_invariant limit st Hlimit Hinv) as Hp.
    destruct (process st) as [[] st1 | st1 |]; cbn [outcomeSatisfies] in Hp.
    + apply IH; assumption.
    + exact Hp.
    + exact I.
Qed.

End Recorder.


(** Left out of C7 above: once the limit is reached, every further command
    writes the note and the closing [D] again. *)
Lemma script_repeats_note_and_done :
  exists st',
    simulation_body demoEngine (filledWith 0) (filledWith 0) 10 false
      (initialDriver demoEngine true 0 (commandLine "R 5" ++ commandLine "D")
         (text "trace") demoStart)
    = Return tt st'
    /\ executionScript st'
       = Some [ScriptLimitNote 0; ScriptImplicitDone 1; ScriptLimitNote 0; ScriptImplicitDone 1].
Proof. eexists. split; vm_compute; reflexivity. Qed.

(** ** The sentinel comparison of TICK (claim C3) *)

(** C3 fails on the code: [memcmp] is given the bit width of the sentinel
    port as its length, not the byte count of the two buffers. On a port of
    16 bits that holds 1234, with the sentinel value 1234, the two buffers of
    two bytes are equal, but the sixteen bytes compared run past both
    buffers: with different memory behind them the sentinel is not
    recognised and both cycles run, where a comparison of
    [ceil(16/8) = 2] bytes stops before the first cycle. *)
Lemma sentinel_check_compares_bitWidth_bytes :
  let st := freshDriver demoEngine demoStart (commandLine "T 0 1,0-1*2 10=1234") in
  (exists st',
     processCommand demoEngine (filledWith 0) (filledWith 1) st = Return tt st'
     /\ messageStream st' = bitsMessage 64 (text "0000000000000002")
     /\ advances (engineCalls st') = [1; 1; 1; 1])
  /\ memcmpEqual [52; 18] (filledWith 0) [52; 18] (filledWith 1) (byteCountOf 16) = true
  /\ memcmpEqual [52; 18] (filledWith 0) [52; 18] (filledWith 1) 16 = false.
Proof.
  split; [|split; vm_compute; reflexivity].
  eexists. split; [vm_compute; reflexivity|]. split; vm_compute; reflexivity.
Qed.

(** ** The payload of a LOG message (claim C9) *)

(** C9 fails on the code: the data of a LOG message is written with [%s],
    which stops at the first NUL. After the simulation has written the three
    bytes [a], NUL, [b] to its log, the LOG message announces three bytes and
    carries one. *)
Lemma log_payload_stops_at_nul :
  exists st',
    simulation_body demoEngine (filledWith 0) (filledWith 0) 10 false
      (freshDriver demoEngine demoStart
         (commandLine "R 3" ++ commandLine "L" ++ commandLine "D"))
    = Return tt st'
    /\ simulationLog st' = ["a"%char; NUL; "b"%char]
    /\ messageStream st'
       = commandLine "r ready" ++ commandLine "k ack" ++ commandLine "l 00000003 a".
Proof.
  eexists. split; [vm_compute; reflexivity|]. split; vm_compute; reflexivity.
Qed.

(** ** More on the decoder: soundness *)

(** *** Soundness on any input *)

Lemma scanHexCharacterReverse_inv line cursor description d cursor' :
  scanHexCharacterReverse line cursor description = Scanned (d, cursor') ->
  isDigit d /\ cursor' = cursor - 1.
Proof.
  intros H. destruct (hexDigitValue (charAt line cursor)) as [x|] eqn:Hx.
  - rewrite (scanHexCharacterReverse_digit _ _ _ _ Hx) in H. injection H as <- <-.
    split; [exact (hexDigitValue_range _ _ Hx) | reflexivity].
  - destruct (scanHexCharacterReverse_not_digit line cursor description Hx) as [m Hm].
    congruence.
Qed.

Lemma scanHexByteReverse_inv line cursor first description b cursor' :
  scanHexByteReverse line cursor first description = Scanned (b, cursor') ->
  isByte b /\ cursor' < cursor.
Proof.
  unfold scanHexByteReverse. intros H.
  destruct (scanHexCharacterReverse line cursor description) as [[lo c1]|m] eqn:Hlo;
    cbn [scanBind] in H; [|discriminate].
  apply scanHexCharacterReverse_inv in Hlo. destruct Hlo as [Hlo ->].
  destruct (cursor - 1 <? first).
  - injection H as <- <-. unfold isByte, isDigit in *. lia.
  - destruct (scanHexCharacterReverse line (cursor - 1) description) as [[hi c2]|m] eqn:Hhi;
      cbn [scanBind] in H; [|discriminate].
    apply scanHexCharacterReverse_inv in Hhi. destruct Hhi as [Hhi ->].
    injection H as <- <-. rewrite lor_shiftl_digits by assumption.
    unfold isByte, isDigit in *. lia.
Qed.

Lemma setByte_isByte bytes i x :
  Forall isByte bytes -> isByte x -> Forall isByte (setByte bytes i x).
Proof.
  intros Hb Hx. unfold setByte. destruct (i <? 0); [assumption|].
  apply Forall_insert; assumption.
Qed.

Lemma length_setByte bytes i x : length (setByte bytes i x) = length bytes.
Proof. unfold setByte. destruct (i <? 0); [reflexivity | apply length_insert]. Qed.

(** Whatever the characters are, the scanning loop leaves a buffer of the
    same length with bytes in range, and counts at most [remaining] bytes. *)
Lemma scanHexBitsLoop_sound remaining :
  forall line first description isNegative cursor carry count bytes
         cursor' carry' count' bytes',
    scanHexBitsLoop remaining line first description isNegative cursor carry count bytes
    = Scanned (cursor', carry', count', bytes') ->
    Forall isByte bytes ->
    Forall isByte bytes' /\ length bytes' = length bytes
    /\ count <= count' <= count + Z.of_nat remaining
    /\ (cursor' < first \/ count' = count + Z.of_nat remaining).
Proof.
  induction remaining as [|remaining IH];
    intros line first description isNegative cursor carry count bytes
           cursor' carry' count' bytes' H Hbytes.
  - cbn in H. injection H as <- <- <- <-. split_all; try assumption; lia.
  - cbn [scanHexBitsLoop] in H.
    destruct (scanHexByteReverse line cursor first description) as [[b c1]|m] eqn:Hb;
      cbn [scanBind] in H; [|discriminate].
    assert (Hstep : exists x carry1,
               (if isNegative
                then (if Z.land (Z.shiftr (Z.land (Z.lnot b) 255 + carry) 8) (Z.lnot 1) =? 0
                      then Scanned (Z.land (Z.lnot b) 255 + carry,
                                    Z.shiftr (Z.land (Z.lnot b) 255 + carry) 8)
                      else Failed (text "Unexpected error in carry computation for negative value when "
                                   ++ description))
                else Scanned (b, carry)) = Scanned (x, carry1)
               \/ exists m,
                   (if isNegative
                    then (if Z.land (Z.shiftr (Z.land (Z.lnot b) 255 + carry) 8) (Z.lnot 1) =? 0
                          then Scanned (Z.land (Z.lnot b) 255 + carry,
                                        Z.shiftr (Z.land (Z.lnot b) 255 + carry) 8)
                          else Failed (text "Unexpected error in carry computation for negative value when "
                                       ++ description))
                    else Scanned (b, carry)) = @Failed (Z * Z) m).
    { destruct isNegative; [|exists b, carry; left; reflexivity].
      destruct (Z.land _ _ =? 0); [eexists _, _; left; reflexivity|].
      exists 0, 0. right. eexists; reflexivity. }
    destruct Hstep as (x & carry1 & [Hx | [m Hm]]); [|rewrite Hm in H; discriminate].
    rewrite Hx in H. cbn [scanBind] in H.
    assert (Hnew : Forall isByte (setByte bytes count (x mod 256))).
    { apply setByte_isByte; [assumption|]. unfold isByte. apply Z.mod_pos_bound. lia. }
    destruct (c1 <? first) eqn:Hc.
    + apply Z.ltb_lt in Hc. injection H as <- <- <- <-.
      split_all; try assumption; try apply length_setByte; lia.
    + apply IH in H; [|assumption]. destruct H as (H1 & H2 & H3 & H4).
      rewrite length_setByte in H2.
      split_all; try assumption; lia.
Qed.

Lemma bytesOf_of_leValue bytes :
  Forall isByte bytes -> bytesOf (length bytes) (leValue bytes) = bytes.
Proof.
  intros H. pose proof (bytesOf_leValue bytes 0 H) as E.
  rewrite Nat.add_0_r in E. cbn [replicate] in E. rewrite app_nil_r in E. exact E.
Qed.

(** The top byte of a buffer bounds its value from below. *)
Lemma leValue_top bytes :
  Forall isByte bytes -> (0 < length bytes)%nat ->
  byteAt bytes (Z.of_nat (length bytes) - 1) * 256 ^ (Z.of_nat (length bytes) - 1)
  <= leValue bytes.
Proof.
  intros Hb Hlen. pose proof (leValue_bounds bytes Hb) as Hv.
  rewrite <- (bytesOf_of_leValue bytes Hb) at 1.
  rewrite byteAt_bytesOf by lia.
  set (d := 256 ^ (Z.of_nat (length bytes) - 1)).
  assert (Hd : 0 < d) by (apply Z.pow_pos_nonneg; lia).
  assert (Hsplit : 256 ^ Z.of_nat (length bytes) = 256 * d).
  { unfold d. rewrite <- Z.pow_succ_r by lia. f_equal. lia. }
  rewrite Z.mod_small.
  - rewrite Z.mul_comm. apply Z.mul_div_le. exact Hd.
  - split; [apply Z.div_pos; lia|]. apply Z.div_lt_upper_bound; lia.
Qed.

(** X1 ([scanHexBits], any input): whatever the line holds, a value the
    decoder accepts is a well-formed buffer for the width: it has
    [ceil(bitCount / 8)] bytes, each in 0..255, and the cursor is at the end
    of the value. Without a minus sign the buffer holds a number below
    [2^bitCount]; with one, the buffer read as a two's-complement number of
    its full length is negative and not below [-2^(bitCount-1)]. *)
Theorem scanHexBits_sound (line : list ascii) (scanCursor scanEnd bitCount : Z)
    (description : list ascii) (bytes : list Z) (scanned : Z) :
  bitCount <= INT_MAX - 7 ->
  scanHexBits line scanCursor scanEnd bitCount description = Scanned (bytes, scanned) ->
  scanned = scanEnd
  /\ 1 <= bitCount
  /\ Z.of_nat (length bytes) = byteCountOf bitCount
  /\ Forall isByte bytes
  /\ if Ascii.eqb (charAt line scanCursor) "-"
     then - 2 ^ (bitCount - 1) <= leValue bytes - 256 ^ byteCountOf bitCount < 0
     else 0 <= leValue bytes < 2 ^ bitCount.
Proof.
  intros Hmax H. unfold scanHexBits in H.
  destruct (scanEnd - 1 <? scanCursor) eqn:E1; cbn [negb] in H; [discriminate|].
  destruct (bitCount <=? 0) eqn:E2; cbn [negb] in H; [discriminate|].
  apply Z.leb_gt in E2.
  pose proof (byteCountOf_pos bitCount ltac:(lia)) as HB.
  rewrite !(byteCount_quot bitCount) in H by lia.
  assert (Hcalloc : Forall isByte (calloc (byteCountOf bitCount))).
  { unfold calloc. apply Forall_replicate. unfold isByte. lia. }
  assert (Hlen0 : length (calloc (byteCountOf bitCount)) = Z.to_nat (byteCountOf bitCount)).
  { unfold calloc. apply length_replicate. }
  destruct (Ascii.eqb (charAt line scanCursor) "-") eqn:Esign.
  - destruct (scanEnd - 1 <? scanCursor + 1) eqn:E3; cbn [negb scanBind] in H; [discriminate|].
    destruct (bitCount <=? 1) eqn:E4; cbn [negb scanBind] in H; [discriminate|].
    apply Z.leb_gt in E4.
    rewrite (byteCount_quot (bitCount - 1)) in H by lia.
    destruct (scanHexBitsLoop _ _ _ _ _ _ _ _ _) as [[[[c1 carry1] n1] bytes1]|m] eqn:Hloop;
      cbn [scanBind] in H; [|discriminate].
    apply scanHexBitsLoop_sound in Hloop; [|assumption].
    destruct Hloop as (Hb1 & Hl1 & Hn1 & _).
    destruct (c1 >? scanCursor + 1); cbn [negb] in H; [discriminate|].
    destruct (carry1 =? 0); [|discriminate].
    destruct (Z.land _ _ =? _) eqn:Hmask in H; [|discriminate].
    injection H as <- <-.
    assert (HV : 1 <= byteCountOf (bitCount - 1) <= byteCountOf bitCount).
    { split; [apply byteCountOf_pos; lia|].
      unfold byteCountOf. Z.div_mod_to_equations. lia. }
    rewrite Z2Nat.id in Hn1 by lia.
    assert (Hpad : padNegative (Z.to_nat (byteCountOf bitCount - n1)) n1 bytes1
                   = take (Z.to_nat n1) bytes1
                     ++ replicate (Z.to_nat (byteCountOf bitCount - n1)) 255).
    { pose proof (padNegative_fills (Z.to_nat (byteCountOf bitCount - n1))
                    (take (Z.to_nat n1) bytes1) (drop (Z.to_nat n1) bytes1)) as Hfill.
      rewrite take_drop in Hfill. rewrite length_take in Hfill.
      rewrite Hl1, Hlen0 in Hfill.
      replace (Z.of_nat (Z.to_nat n1 `min` Z.to_nat (byteCountOf bitCount))) with n1
        in Hfill by lia.
      apply Hfill. rewrite length_drop, Hl1, Hlen0. lia. }
    rewrite Hpad in *.
    set (final := take (Z.to_nat n1) bytes1
                  ++ replicate (Z.to_nat (byteCountOf bitCount - n1)) 255) in *.
    assert (Hfb : Forall isByte final).
    { unfold final. apply Forall_app. split.
      - apply Forall_take. assumption.
      - apply Forall_replicate. unfold isByte. lia. }
    assert (Hfl : length final = Z.to_nat (byteCountOf bitCount)).
    { unfold final. rewrite length_app, length_take, length_replicate, Hl1, Hlen0. lia. }
    pose proof (leValue_bounds final Hfb) as Hbound.
    rewrite Hfl, Z2Nat.id in Hbound by lia.
    assert (Hlow : 256 ^ byteCountOf bitCount - 2 ^ (bitCount - 1) <= leValue final).
    { assert (Hw : bitCount - 1 = 8 * ((bitCount - 1) / 8) + (bitCount - 1) mod 8)
        by (apply Z.div_mod; lia).
      assert (HBs : byteCountOf bitCount = (bitCount - 1) / 8 + 1)
        by (apply byteCountOf_split; lia).
      assert (Hq : 0 <= (bitCount - 1) / 8) by (apply Z.div_pos; lia).
      assert (H256 : forall k, 0 <= k -> 256 ^ k = 2 ^ (8 * k)).
      { intros k Hk. rewrite Z.pow_mul_r by lia. reflexivity. }
      destruct (Z.eq_dec ((bitCount - 1) mod 8) 0) as [Hr|Hr].
      - (* the magnitude ends at a byte boundary: the top byte is padding *)
        assert (HVe : byteCountOf (bitCount - 1) = (bitCount - 1) / 8).
        { unfold byteCountOf. Z.div_mod_to_equations. lia. }
        unfold final. rewrite leValue_app, leValue_replicate_255, length_take, Hl1, Hlen0.
        replace (Z.of_nat (Z.to_nat n1 `min` Z.to_nat (byteCountOf bitCount))) with n1 by lia.
        rewrite Z2Nat.id by lia.
        pose proof (leValue_bounds (take (Z.to_nat n1) bytes1)
                      ltac:(apply Forall_take; assumption)) as Ht.
        rewrite Z.mul_sub_distr_l, <- Z.pow_add_r by lia.
        replace (n1 + (byteCountOf bitCount - n1)) with (byteCountOf bitCount) by lia.
        assert (256 ^ n1 <= 2 ^ (bitCount - 1)).
        { rewrite H256 by lia. apply Z.pow_le_mono_r; lia. }
        lia.
      - (* the top byte carries bits of the magnitude: the mask test bounds it *)
        assert (Hrr : 1 <= (bitCount - 1) mod 8 <= 7).
        { pose proof (Z.mod_pos_bound (bitCount - 1) 8 ltac:(lia)). lia. }
        rewrite highOrderByteMask_mod in Hmask by lia.
        destruct ((bitCount - 1) mod 8 =? 0) eqn:E0; [absurd_lia|].
        assert (Htop : isByte (byteAt final (byteCountOf bitCount - 1))).
        { pose proof (byteAt_bytesOf (length final) (leValue final)
                        (byteCountOf bitCount - 1) ltac:(lia)) as Hat.
          rewrite bytesOf_of_leValue in Hat by assumption. rewrite Hat.
          unfold isByte. apply Z.mod_pos_bound. lia. }
        rewrite high_bits_set in Hmask by assumption. apply Z.leb_le in Hmask.
        pose proof (leValue_top final Hfb ltac:(lia)) as Htopv.
        rewrite Hfl, Z2Nat.id in Htopv by lia.
        assert (Hpw : 2 ^ (bitCount - 1)
                      = 2 ^ ((bitCount - 1) mod 8) * 256 ^ (byteCountOf bitCount - 1)).
        { rewrite H256 by lia. rewrite <- Z.pow_add_r by lia. f_equal. lia. }
        assert (Hpb : 256 ^ byteCountOf bitCount = 256 * 256 ^ (byteCountOf bitCount - 1)).
        { rewrite <- Z.pow_succ_r by lia. f_equal. lia. }
        assert (0 < 256 ^ (byteCountOf bitCount - 1)) by (apply Z.pow_pos_nonneg; lia).
        nia. }
    split_all; first [reflexivity | assumption | lia].
  - cbn [scanBind] in H.
    destruct (scanHexBitsLoop _ _ _ _ _ _ _ _ _) as [[[[c1 carry1] n1] bytes1]|m] eqn:Hloop;
      cbn [scanBind] in H; [|discriminate].
    apply scanHexBitsLoop_sound in Hloop; [|assumption].
    destruct Hloop as (Hb1 & Hl1 & Hn1 & _).
    destruct (c1 >? scanCursor); cbn [negb] in H; [discriminate|].
    destruct (Z.land _ _ =? 0) eqn:Hmask in H; [|discriminate].
    injection H as <- <-.
    rewrite Hlen0 in Hl1.
    pose proof (leValue_bounds bytes1 Hb1) as Hbound.
    rewrite Hl1, Z2Nat.id in Hbound by lia.
    pose proof (unsigned_check bitCount (leValue bytes1) ltac:(lia) Hbound) as Hcheck.
    rewrite <- Hl1 in Hcheck at 1. rewrite bytesOf_of_leValue in Hcheck by assumption.
    rewrite Hmask in Hcheck. symmetry in Hcheck. apply Z.ltb_lt in Hcheck.
    split_all; first [reflexivity | assumption | lia].
Qed.

(** A lower-case value with a sign, read at 8 bits. *)
Lemma scanHexBits_sound_witness :
  3 = 3 /\ 1 <= 8
  /\ Z.of_nat (length [129]) = byteCountOf 8
  /\ Forall isByte [129]
  /\ if Ascii.eqb (charAt (text "-7f") 0) "-"
     then - 2 ^ (8 - 1) <= leValue [129] - 256 ^ byteCountOf 8 < 0
     else 0 <= leValue [129] < 2 ^ 8.
Proof.
  apply (scanHexBits_sound (text "-7f") 0 3 8 (text "parsing value") [129] 3).
  - unfold INT_MAX. lia.
  - vm_compute. reflexivity.
Defined.

(** ** More on the encoder *)

(** X2 ([sendBits] against [scanHexBits], the signed values that do not come
    back): the signed minimum [-2^(bitCount-1)] at any width, and every
    negative value at a width with [bitCount mod 8 = 1], are written by
    [sendBits] as a text that [scanHexBits] refuses at the same width. The
    minimum goes out as a minus sign and zeros only. *)
Theorem negative_values_not_read_back (E : Engine) (bitCount v : Z) (st : Driver E)
    (description : list ascii) :
  2 <= bitCount <= INT_MAX - 7 ->
  - 2 ^ (bitCount - 1) <= v < 0 ->
  v = - 2 ^ (bitCount - 1) \/ bitCount mod 8 = 1 ->
  let value := encodedText true bitCount v in
  exists st' message,
    sendBits E (bufferOf bitCount v) bitCount true st = Return tt st'
    /\ messageStream st' = messageStream st ++ bitsMessage bitCount value
    /\ (v = - 2 ^ (bitCount - 1) ->
        value = "-"%char
                  :: concat (replicate (Z.to_nat (byteCountOf bitCount)) (text "00")))
    /\ scanHexBits value 0 (Z.of_nat (length value)) bitCount description = Failed message.
Proof.
  intros Hw Hv Hcase value.
  pose proof (byteCountOf_pos bitCount ltac:(lia)) as HB.
  assert (Hp1 : 0 < 2 ^ (bitCount - 1)) by (apply Z.pow_pos_nonneg; lia).
  destruct (sendBits_encodes E true bitCount v st ltac:(lia) ltac:(intros _; lia)
              ltac:(unfold inRange; lia)) as (st' & Hsend & Hms).
  set (m := (- v) mod 2 ^ (bitCount - 1)).
  set (bytes := bytesOf (Z.to_nat (byteCountOf bitCount)) m).
  assert (Hvalue : value = "-"%char :: hexBytes bytes).
  { unfold value, encodedText, encodedSign, encodedMagnitude.
    destruct (v <? 0) eqn:Ev; [|absurd_lia]. reflexivity. }
  assert (Hlenb : length bytes = Z.to_nat (byteCountOf bitCount)) by apply length_bytesOf.
  assert (Hmin : v = - 2 ^ (bitCount - 1) -> m = 0).
  { intros ->. unfold m. rewrite Z.opp_involutive. apply Z.mod_same. lia. }
  assert (Hfail : exists message,
             scanHexBits value 0 (Z.of_nat (length value)) bitCount description
             = Failed message).
  { destruct (Z.eq_dec (bitCount mod 8) 1) as [Hmod|Hmod].
    - (* one byte more than the magnitude has room for *)
      apply scanHexBits_too_long; [lia|].
      rewrite Hvalue.
      assert (Hc : Ascii.eqb (charAt ("-"%char :: hexBytes bytes) 0) "-" = true)
        by reflexivity.
      rewrite Hc. cbn [length]. rewrite length_hexBytes, Hlenb.
      assert (byteCountOf (bitCount - 1) = byteCountOf bitCount - 1).
      { unfold byteCountOf. Z.div_mod_to_equations. lia. }
      lia.
    - (* the magnitude of the minimum is cut to zero *)
      destruct Hcase as [Hcase|Hcase]; [|contradiction].
      assert (HV : byteCountOf (bitCount - 1) = byteCountOf bitCount).
      { unfold byteCountOf. Z.div_mod_to_equations. lia. }
      pose proof (scanHexBits_negative [] (map hexDigit (byteDigits bytes)) (byteDigits bytes)
                    [] bitCount description Hw (byteDigits_chars bytes)
                    (byteDigits_nonempty (Z.to_nat (byteCountOf bitCount)) m ltac:(lia)))
        as H.
      rewrite length_map, length_byteDigits, Hlenb, HV in H. specialize (H ltac:(lia)).
      cbn [length app] in H. rewrite app_nil_r in H. change (Z.of_nat 0) with 0 in H.
      rewrite Z.add_0_l in H. rewrite <- hexBytes_byteDigits in H.
      rewrite Hvalue. cbn [length]. rewrite length_hexBytes, Hlenb.
      replace (Z.of_nat (S (2 * Z.to_nat (byteCountOf bitCount))))
        with (1 + Z.of_nat (2 * Z.to_nat (byteCountOf bitCount))) by lia.
      rewrite H. clear H.
      rewrite digitsValue_byteDigits by apply bytesOf_isByte.
      unfold bytes. rewrite leValue_bytesOf, (Hmin Hcase), Z.mod_0_l.
      + cbn [Z.eqb]. eexists. reflexivity.
      + apply Z.pow_nonzero; lia. }
  destruct Hfail as [message Hfail].
  exists st', message. split_all; try assumption.
  intros Hcase'. rewrite Hvalue. unfold bytes. rewrite (Hmin Hcase'), hexBytes_zero.
  reflexivity.
Qed.

(** -128 at 8 bits goes out as [-00]. *)
Lemma negative_values_not_read_back_witness :
  let value := encodedText true 8 (-128) in
  exists st' message,
    sendBits nullEngine (bufferOf 8 (-128)) 8 true (freshDriver nullEngine tt [])
    = Return tt st'
    /\ messageStream st'
       = messageStream (freshDriver nullEngine tt []) ++ bitsMessage 8 value
    /\ (-128 = - 2 ^ (8 - 1) ->
        value = "-"%char :: concat (replicate (Z.to_nat (byteCountOf 8)) (text "00")))
    /\ scanHexBits value 0 (Z.of_nat (length value)) 8 (text "parsing value")
       = Failed message.
Proof.
  apply (negative_values_not_read_back nullEngine 8 (-128) (freshDriver nullEngine tt [])
           (text "parsing value")).
  - unfold INT_MAX. lia.
  - lia.
  - left. reflexivity.
Defined.

Section EncoderEffects.

Context (E : Engine).

(** X3 ([sendBits], any buffer and any width): [sendBits] refuses a width
    below 1, and a signed width below 2, with one [e] message and ends the
    process; for every other width and every buffer it returns after writing
    exactly one [b] message that carries the width and a value of minus signs
    and hexadecimal digits. Either way nothing but the message side of the
    process changes: no engine call, no input read. *)
Theorem sendBits_answers_or_refuses (bytes : list Z) (bitCount : Z) (isSigned : bool)
    (st : Driver E) :
  if (bitCount <=? 0) || (isSigned && (bitCount <=? 1)) then
    exists message,
      sendBits E bytes bitCount isSigned st
      = Exit (writeMessage E MESSAGE_ERROR message st)
      /\ onlyMessages st (writeMessage E MESSAGE_ERROR message st)
      /\ messageStream (writeMessage E MESSAGE_ERROR message st)
         = messageStream st ++ [MESSAGE_ERROR; " "%char] ++ message ++ [newline]
  else
    exists st' value,
      sendBits E bytes bitCount isSigned st = Return tt st'
      /\ onlyMessages st st'
      /\ executionScriptMessageCount st' = wrap_int (executionScriptMessageCount st + 1)
      /\ Forall isValueChar value
      /\ messageStream st' = messageStream st ++ bitsMessage bitCount value.
Proof.
  pose proof (sendBits_effect E bytes bitCount isSigned st) as H.
  destruct ((bitCount <=? 0) || (isSigned && (bitCount <=? 1))) eqn:Erefuse.
  - assert (Hexit : exists message,
               sendBits E bytes bitCount isSigned st
               = Exit (writeMessage E MESSAGE_ERROR message st)).
    { unfold sendBits. destruct (bitCount <=? 0); [eexists; reflexivity|].
      cbn [orb] in Erefuse. rewrite Erefuse. eexists; reflexivity. }
    destruct Hexit as [message Hexit]. exists message.
    split; [exact Hexit|]. split.
    + apply writeMessage_only.
    + apply messageStream_writeMessage.
  - destruct (sendBits E bytes bitCount isSigned st) as [[] st'| st'|] eqn:Hsend.
    + cbn [outcomeSatisfies] in H. destruct H as (H1 & _ & H3 & value & H4 & H5).
      exists st', value. split_all; try assumption. reflexivity.
    + exfalso. unfold sendBits in Hsend.
      apply orb_false_iff in Erefuse. destruct Erefuse as [E1 E2].
      rewrite E1, E2 in Hsend.
      repeat match type of Hsend with
             | context [let '(_, _) := ?x in _] => destruct x
             end.
      discriminate.
    + contradiction.
Qed.

(** X4 (unsigned buffers on the wire): [sendBits] writes an unsigned buffer
    as it is - two hexadecimal digits for each of its [ceil(bitCount / 8)]
    bytes, high byte first, the bits above the width included - and
    [scanHexBits] reads that text back into the same buffer exactly if the
    bits above the width are clear; a buffer with one of them set is refused
    with the "exceeded ... bits" error. *)
Theorem unsigned_buffer_round_trip (bytes : list Z) (bitCount : Z) (st : Driver E)
    (description : list ascii) :
  1 <= bitCount <= INT_MAX - 7 ->
  Forall isByte bytes ->
  length bytes = Z.to_nat (byteCountOf bitCount) ->
  let value := hexBytes bytes in
  exists st',
    sendBits E bytes bitCount false st = Return tt st'
    /\ messageStream st' = messageStream st ++ bitsMessage bitCount value
    /\ scanHexBits value 0 (Z.of_nat (length value)) bitCount description
       = if leValue bytes <? 2 ^ bitCount then Scanned (bytes, Z.of_nat (length value))
         else Failed (text "Scanned value exceeded " ++ decimal bitCount
                      ++ text " bits when " ++ description ++ text ".").
Proof.
  intros Hw Hbytes Hlen value.
  pose proof (byteCountOf_pos bitCount ltac:(lia)) as HB.
  unfold sendBits.
  destruct (bitCount <=? 0) eqn:E1; [absurd_lia|]. cbn [andb].
  rewrite byteCount_quot by lia.
  eexists. split; [reflexivity|]. split.
  - rewrite messageStream_writeMessageEnd, messageStream_sendBytes by lia.
    rewrite (take_all bytes _ Hlen).
    rewrite messageStream_writeMessageBody, messageStream_writeMessageStart.
    unfold bitsMessage, value. rewrite <- !app_assoc. reflexivity.
  - assert (Hof : bytes = bytesOf (Z.to_nat (byteCountOf bitCount)) (leValue bytes)).
    { rewrite <- Hlen. symmetry. apply bytesOf_of_leValue. exact Hbytes. }
    pose proof (scanHexBits_unsigned [] (map hexDigit (byteDigits bytes)) (byteDigits bytes)
                  [] bitCount description Hw (byteDigits_chars bytes)) as H.
    assert (Hne : map hexDigit (byteDigits bytes) <> []).
    { rewrite Hof. apply byteDigits_nonempty. lia. }
    specialize (H Hne).
    rewrite length_map, length_byteDigits, Hlen in H. specialize (H ltac:(lia)).
    cbn [length app] in H. rewrite app_nil_r in H. change (Z.of_nat 0) with 0 in H.
    rewrite Z.add_0_l in H. rewrite <- hexBytes_byteDigits in H.
    unfold value. rewrite length_hexBytes, Hlen. rewrite H.
    rewrite digitsValue_byteDigits by exact Hbytes.
    rewrite <- Hof. reflexivity.
Qed.

End EncoderEffects.

(** A getter that leaves a bit set above the four bits of its port: the
    byte goes out as [1F] and does not come back. *)
Lemma unsigned_buffer_round_trip_witness :
  exists st',
    sendBits nullEngine [31] 4 false (freshDriver nullEngine tt []) = Return tt st'
    /\ messageStream st' = bitsMessage 4 (text "1F")
    /\ scanHexBits (text "1F") 0 2 4 (text "parsing value")
       = Failed (text "Scanned value exceeded 4 bits when parsing value.").
Proof.
  destruct (unsigned_buffer_round_trip nullEngine [31] 4 (freshDriver nullEngine tt [])
              (text "parsing value")) as (st' & Hsend & Hms & Hscan).
  - unfold INT_MAX. lia.
  - repeat constructor; unfold isByte; lia.
  - reflexivity.
  - exists st'. split; [exact Hsend|]. split; [exact Hms | exact Hscan].
Defined.

(** ** The engine side of a session: calls, log and trace *)

Lemma traceRun_app calls : forall initialized calls',
  traceRun initialized (calls ++ calls')
  = match traceRun initialized calls with
    | Some initialized' => traceRun initialized' calls'
    | None => None
    end.
Proof.
  induction calls as [|call calls IH]; intros initialized calls'; [reflexivity|].
  destruct call; cbn [app traceRun]; try apply IH; destruct initialized;
    first [reflexivity | apply IH].
Qed.

Lemma traceRun_other calls initialized :
  Forall (fun call => isTraceCall call = false) calls ->
  traceRun initialized calls = Some initialized.
Proof.
  induction 1 as [|call calls Hcall _ IH]; [reflexivity|].
  destruct call; cbn [traceRun]; try exact IH; discriminate Hcall.
Qed.

Lemma cstr_no_nul s : ~ In NUL s -> cstr s = s.
Proof.
  induction s as [|c s IH]; intros H; [reflexivity|]. cbn [cstr].
  destruct (Ascii.eqb c NUL) eqn:Ec.
  - apply Ascii.eqb_eq in Ec. subst c. exfalso. apply H. left. reflexivity.
  - f_equal. apply IH. intros Hin. apply H. right. exact Hin.
Qed.

Section EngineSide.

Context (E : Engine).
Variable beyondSentinelPortValue : nat -> Z.
Variable beyondSentinelValue : nat -> Z.

Implicit Types st : Driver E.

Local Abbreviation loop := (tickLoop E beyondSentinelPortValue beyondSentinelValue).
Local Abbreviation run := (runTick E beyondSentinelPortValue beyondSentinelValue).
Local Abbreviation process := (processCommand E beyondSentinelPortValue beyondSentinelValue).
Local Abbreviation dispatch := (dispatchCommand E beyondSentinelPortValue beyondSentinelValue).

Lemma onlyMessages_log st st' : onlyMessages st st' -> log st' = log st.
Proof. intros H. rewrite H. reflexivity. Qed.

Lemma onlyMessages_simulationLog st st' :
  onlyMessages st st' -> simulationLog st' = simulationLog st.
Proof. intros H. rewrite H. reflexivity. Qed.

Lemma onlyEngine_log st st' : onlyEngine st st' -> log st' = log st.
Proof. intros H. rewrite H. reflexivity. Qed.

Lemma onlyEngine_traceInitialized st st' :
  onlyEngine st st' -> traceInitialized st' = traceInitialized st.
Proof. intros H. rewrite H. reflexivity. Qed.

Lemma engineAdvanced_refl st : engineAdvanced st st.
Proof.
  split; [apply onlyEngine_refl|]. split.
  - exists []. rewrite app_nil_r. split; [reflexivity | constructor].
  - exists []. rewrite app_nil_r. reflexivity.
Qed.

Lemma engineAdvanced_trans st1 st2 st3 :
  engineAdvanced st1 st2 -> engineAdvanced st2 st3 -> engineAdvanced st1 st3.
Proof.
  intros (Ho & (calls & Hc & Hf) & printed & Hp) (Ho' & (calls' & Hc' & Hf') & printed' & Hp').
  split; [exact (onlyEngine_trans E _ _ _ Ho Ho')|]. split.
  - exists (calls ++ calls'). rewrite Hc', Hc, app_assoc. split; [reflexivity|].
    apply Forall_app. split; assumption.
  - exists (printed ++ printed'). rewrite Hp', Hp, app_assoc. reflexivity.
Qed.

Lemma engineStep_advanced call next printed st :
  isTraceCall call = false -> engineAdvanced st (engineStep E call next printed st).
Proof.
  intros Hcall. split; [apply engineStep_only|]. split.
  - exists [call]. split; [reflexivity|]. constructor; [exact Hcall | constructor].
  - exists printed. reflexivity.
Qed.

Lemma callSetter_advanced id setter data st :
  engineAdvanced st (callSetter E id setter data st).
Proof. apply engineStep_advanced. reflexivity. Qed.

Lemma callRunSimulation_advanced timesteps st :
  engineAdvanced st (callRunSimulation E timesteps st).
Proof.
  unfold callRunSimulation. destruct (run_simulation E timesteps (engine st)).
  apply engineStep_advanced. reflexivity.
Qed.

Lemma cycleStep_advanced t st : engineAdvanced st (cycleStep E t st).
Proof.
  unfold cycleStep.
  repeat first [ eapply engineAdvanced_trans; [|apply callRunSimulation_advanced]
               | eapply engineAdvanced_trans; [|apply callSetter_advanced] ].
  apply engineAdvanced_refl.
Qed.

(** *** The cycles of TICK with a sentinel *)

(** The loop of TICK runs some number [n] of cycles, each behind a probe of
    the sentinel port if there is one; it leaves [cycles] one above the
    number of cycles run, and it stops below the maximum only on a probe. *)
Lemma tickLoop_calls fuel : forall t sentinelPortValue cycles st cycles' st',
  loop fuel t sentinelPortValue cycles st = Some (cycles', st') ->
  0 <= cycles <= maxCycleCount E t -> maxCycleCount E t <= INT_MAX ->
  exists n : nat,
    cycles + Z.of_nat n <= maxCycleCount E t
    /\ cycles' = wrap_int (cycles + Z.of_nat n + 1)
    /\ engineCalls st'
       = engineCalls st ++ tickCalls t n (cycles + Z.of_nat n <? maxCycleCount E t)
    /\ (sentinel E t = None -> cycles + Z.of_nat n = maxCycleCount E t)
    /\ engineAdvanced st st'.
Proof.
  induction fuel as [|fuel IH]; intros t spv cycles st cycles' st' H Hc Hmax; [discriminate|].
  cbn [tickLoop] in H.
  destruct (cycles <? maxCycleCount E t) eqn:Et.
  - apply Z.ltb_lt in Et.
    rewrite (wrap_int_id (cycles + 1)) in H by (unfold INT_MIN, INT_MAX in *; lia).
    assert (Hcont : forall spv1 st1,
               engineCalls st1 = engineCalls st ++ probeCalls t ->
               engineAdvanced st st1 ->
               loop fuel t spv1 (cycles + 1) (cycleStep E t st1) = Some (cycles', st') ->
               exists n : nat,
                 cycles + Z.of_nat n <= maxCycleCount E t
                 /\ cycles' = wrap_int (cycles + Z.of_nat n + 1)
                 /\ engineCalls st'
                    = engineCalls st
                      ++ tickCalls t n (cycles + Z.of_nat n <? maxCycleCount E t)
                 /\ (sentinel E t = None -> cycles + Z.of_nat n = maxCycleCount E t)
                 /\ engineAdvanced st st').
    { intros spv1 st1 Hcalls1 Hadv1 Hloop.
      apply IH in Hloop; [|lia|lia].
      destruct Hloop as (n & Hn & Hcycles & Hcalls & Hnone & Hadv).
      exists (S n).
      replace (cycles + Z.of_nat (S n)) with (cycles + 1 + Z.of_nat n) by lia.
      split_all; try assumption.
      - rewrite Hcalls, engineCalls_cycleStep, Hcalls1. unfold tickCalls.
        cbn [replicate concat]. rewrite <- !app_assoc. reflexivity.
      - eapply engineAdvanced_trans; [exact Hadv1|].
        eapply engineAdvanced_trans; [apply cycleStep_advanced | exact Hadv]. }
    destruct (sentinel E t) as [s|] eqn:Hs.
    + unfold callGetter in H.
      set (st1 := engineStep E (CallGetter (sentinelPortID E s)) (engine st) [] st) in *.
      assert (Hcalls1 : engineCalls st1 = engineCalls st ++ probeCalls t).
      { unfold probeCalls. rewrite Hs. reflexivity. }
      assert (Hadv1 : engineAdvanced st st1) by (apply engineStep_advanced; reflexivity).
      destruct (memcmpEqual _ _ _ _ _).
      * injection H as <- <-. exists 0%nat.
        rewrite Z.add_0_r.
        split_all; [lia | | | discriminate | exact Hadv1].
        -- rewrite wrap_int_id by (unfold INT_MIN, INT_MAX in *; lia). reflexivity.
        -- unfold tickCalls. cbn [replicate concat app].
           destruct (cycles <? maxCycleCount E t) eqn:Et'; [exact Hcalls1 | absurd_lia].
      * eapply Hcont; eassumption.
    + apply (Hcont spv st); [| apply engineAdvanced_refl | exact H].
      unfold probeCalls. rewrite Hs, app_nil_r. reflexivity.
  - apply Z.ltb_ge in Et. injection H as <- <-. exists 0%nat.
    rewrite Z.add_0_r.
    split_all; [lia | reflexivity | | intros _; lia | apply engineAdvanced_refl].
    unfold tickCalls. cbn [replicate concat app].
    destruct (cycles <? maxCycleCount E t) eqn:Et'; [absurd_lia|].
    rewrite app_nil_r. reflexivity.
Qed.

Lemma advances_tickCalls (t : Tick E) n stopped :
  advances (tickCalls t n stopped) = replicate (2 * n) (timestepsPerPhase E t).
Proof.
  unfold tickCalls, advances. rewrite flat_map_app.
  assert (Hprobe : flat_map (fun call => match call with
                                         | CallRunSimulation timesteps => [timesteps]
                                         | _ => []
                                         end) (probeCalls t) = []).
  { unfold probeCalls. destruct (sentinel E t); reflexivity. }
  replace (flat_map _ (if stopped then probeCalls t else [])) with (@nil Z)
    by (destruct stopped; [symmetry; exact Hprobe | reflexivity]).
  rewrite app_nil_r.
  induction n as [|n IH]; [reflexivity|].
  cbn [replicate concat]. rewrite !flat_map_app, IH, Hprobe.
  replace (2 * S n)%nat with (S (S (2 * n))) by lia. reflexivity.
Qed.

(** The cycles and the answer of a TICK command, with or without sentinel. *)
Lemma runTick_cycles t st :
  1 <= maxCycleCount E t <= INT_MAX ->
  exists st' (n : nat),
    run t st = Return tt st'
    /\ Z.of_nat n <= maxCycleCount E t
    /\ engineCalls st'
       = engineCalls st ++ tickCalls t n (Z.of_nat n <? maxCycleCount E t)
    /\ (sentinel E t = None -> Z.of_nat n = maxCycleCount E t)
    /\ messageStream st'
       = messageStream st ++ bitsMessage 64 (hexBytes (bytesOf 8 (Z.of_nat n))).
Proof.
  intros Hn. unfold runTick.
  match goal with
  | |- context [tickLoop E _ _ ?fuel t ?spv 0 st] =>
      destruct (tickLoop_returns E beyondSentinelPortValue beyondSentinelValue
                  fuel t spv 0 st ltac:(lia) ltac:(lia) ltac:(lia))
        as (cycles & st1 & Hloop);
      rewrite Hloop;
      destruct (tickLoop_calls fuel t spv 0 st cycles st1 Hloop ltac:(lia) ltac:(lia))
        as (n & Hle & Hcycles & Hcalls & Hnone & Hadv)
  end.
  rewrite Z.add_0_l in *. subst cycles.
  replace (wrap_int (Z.of_nat n + 1) - 1)
    with (wrap_int (Z.of_nat n + 1) + -1) by lia.
  rewrite wrap_int_add_l.
  replace (Z.of_nat n + 1 + -1) with (Z.of_nat n) by lia.
  rewrite wrap_int_id by (unfold INT_MIN, INT_MAX in *; lia).
  destruct (sendBits_encodes E false 64 (Z.of_nat n) st1) as (st' & Hsend & Hms).
  - unfold INT_MAX. lia.
  - discriminate.
  - unfold inRange. unfold INT_MAX in Hn. lia.
  - exists st', n. unfold sendUintAsBits.
    change (bytesOf 8 (Z.of_nat n mod 2 ^ 64)) with (bufferOf 64 (Z.of_nat n)).
    split; [exact Hsend|]. split; [exact Hle|]. split; [|split; [exact Hnone|]].
    + pose proof (sendBits_effect E (bufferOf 64 (Z.of_nat n)) 64 false st1) as Heff.
      rewrite Hsend in Heff. destruct Heff as (Ho' & _).
      rewrite (onlyMessages_engineCalls _ _ _ Ho'). exact Hcalls.
    + rewrite Hms. destruct Hadv as (Ho & _).
      rewrite (onlyEngine_messageStream _ _ _ Ho).
      unfold encodedText, encodedSign, encodedMagnitude. cbn [andb app]. reflexivity.
Qed.

(** X5 (TICK, with or without sentinel): a TICK command whose line parses
    answers with the BITS message of width 64 that carries the number [n] of
    cycles it ran, and [n] is at most the max cycle count. Its calls into the
    engine are [n] times a probe of the sentinel port (if the command names
    one) followed by the cycle in-phase, advance, out-of-phase, advance; a
    command that stops below its max cycle count ends on one more probe, and
    a command without sentinel never stops early. The engine is advanced
    exactly [2n] times. *)
Theorem tick_reports_cycles_run st line rest (t : Tick E) :
  nextCommand st line rest ->
  charAt line 0 = COMMAND_TICK ->
  scanTick E line 1 (Z.of_nat (length line) - 1) = Scanned t ->
  exists st' (n : nat),
    process st = Return tt st'
    /\ Z.of_nat n <= maxCycleCount E t
    /\ engineCalls st'
       = engineCalls st ++ tickCalls t n (Z.of_nat n <? maxCycleCount E t)
    /\ advances (tickCalls t n (Z.of_nat n <? maxCycleCount E t))
       = replicate (2 * n) (timestepsPerPhase E t)
    /\ (sentinel E t = None -> Z.of_nat n = maxCycleCount E t)
    /\ messageStream st'
       = messageStream st ++ bitsMessage 64 (hexBytes (bytesOf 8 (Z.of_nat n))).
Proof.
  intros Hnext Hc Hscan.
  pose proof (scanTick_maxCycleCount E _ _ _ _ Hscan) as HN.
  rewrite (processCommand_next E _ _ st line rest Hnext), (dispatch_TICK E _ _ _ _ _ Hc).
  unfold bind. rewrite (scanning_Scanned E _ _ _ Hscan).
  destruct (runTick_cycles t (afterRead st line rest) HN)
    as (st' & n & Hrun & Hle & Hcalls & Hnone & Hms).
  destruct (afterRead_frame E st line rest) as (_ & _ & Hm & He & _).
  exists st', n. split; [exact Hrun|]. split; [exact Hle|].
  split; [rewrite Hcalls, He; reflexivity|].
  split; [apply advances_tickCalls|]. split; [exact Hnone|].
  rewrite Hms, Hm. reflexivity.
Qed.

End EngineSide.

(** Port 7 of the example engine reads 1 once the simulation has been
    advanced ten times: the TICK command below stops after five of its
    hundred cycles. *)
Lemma tick_reports_cycles_run_witness :
  let st := freshDriver demoEngine demoStart (commandLine "T 0 1,0-2*64 7=1") in
  exists t st' (n : nat),
    scanTick demoEngine (commandLine "T 0 1,0-2*64 7=1") 1 16 = Scanned t
    /\ processCommand demoEngine (filledWith 0) (filledWith 0) st = Return tt st'
    /\ Z.of_nat n <= maxCycleCount demoEngine t
    /\ engineCalls st'
       = engineCalls st ++ tickCalls t n (Z.of_nat n <? maxCycleCount demoEngine t)
    /\ advances (tickCalls t n (Z.of_nat n <? maxCycleCount demoEngine t))
       = replicate (2 * n) (timestepsPerPhase demoEngine t)
    /\ (sentinel demoEngine t = None -> Z.of_nat n = maxCycleCount demoEngine t)
    /\ messageStream st'
       = messageStream st ++ bitsMessage 64 (hexBytes (bytesOf 8 (Z.of_nat n))).
Proof.
  intros st.
  destruct (scanTick demoEngine (commandLine "T 0 1,0-2*64 7=1") 1 16) as [t|] eqn:Hscan;
    [|vm_compute in Hscan; discriminate].
  exists t.
  destruct (tick_reports_cycles_run demoEngine (filledWith 0) (filledWith 0) st
              (commandLine "T 0 1,0-2*64 7=1") [] t) as (st' & n & H).
  - split; [reflexivity|]. exists (text "T 0 1,0-2*64 7=1"). split; [reflexivity|].
    vm_compute. intuition discriminate.
  - reflexivity.
  - exact Hscan.
  - exists st', n. split; [reflexivity | exact H].
Defined.

(** ** The log offset and the trace calls over a session *)

Section LogAndTrace.

Context (E : Engine).
Variable beyondSentinelPortValue : nat -> Z.
Variable beyondSentinelValue : nat -> Z.

Implicit Types st : Driver E.

Local Abbreviation process := (processCommand E beyondSentinelPortValue beyondSentinelValue).
Local Abbreviation dispatch := (dispatchCommand E beyondSentinelPortValue beyondSentinelValue).

(** [sendLog] on a log whose read offset lies within the file: the message
    carries what was written since the last LOG message, and the offset moves
    to the end. *)
Lemma sendLog_new_output st :
  logWithin st ->
  Z.of_nat (length (simulationLog st)) - logOffset st <= UINT32_MAX ->
  let new := drop (Z.to_nat (logOffset st)) (simulationLog st) in
  exists st',
    sendLog E st = Return tt st'
    /\ log st' = Some (Z.of_nat (length (simulationLog st)))
    /\ simulationLog st' = simulationLog st
    /\ engineCalls st' = engineCalls st
    /\ messageStream st'
       = messageStream st ++ [MESSAGE_LOG; " "%char] ++ hex08 (Z.of_nat (length new))
         ++ text " " ++ cstr new ++ [newline].
Proof.
  intros (Hlo & Hhi) Hmax new. unfold sendLog.
  set (st0 := match log st with None => set_log E (Some 0) st | Some _ => st end).
  assert (H0 : log st0 = Some (logOffset st) /\ simulationLog st0 = simulationLog st
               /\ engineCalls st0 = engineCalls st /\ messageStream st0 = messageStream st).
  { unfold st0, logOffset. destruct (log st) eqn:Hlog; split_all; try reflexivity. exact Hlog. }
  destruct H0 as (Hl0 & Hs0 & He0 & Hm0). rewrite Hl0, Hs0.
  destruct (Z.of_nat (length (simulationLog st)) <? logOffset st) eqn:E1; [absurd_lia|].
  destruct (Z.of_nat (length (simulationLog st)) - logOffset st >? UINT32_MAX) eqn:E2;
    [absurd_lia|].
  eexists. split; [reflexivity|].
  match goal with
  | |- context [writeMessage E MESSAGE_LOG ?body ?st1] =>
      pose proof (writeMessage_only E MESSAGE_LOG body st1) as Ho
  end.
  rewrite (onlyMessages_log E _ _ Ho), (onlyMessages_simulationLog E _ _ Ho),
    (onlyMessages_engineCalls E _ _ Ho), messageStream_writeMessage.
  cbn [log set_log simulationLog engineCalls messageStream].
  assert (Hnew : take (Z.to_nat (Z.of_nat (length (simulationLog st)) - logOffset st))
                   (drop (Z.to_nat (logOffset st)) (simulationLog st)) = new).
  { unfold new. apply take_ge. rewrite length_drop. lia. }
  assert (Hlen : Z.of_nat (length new)
                 = Z.of_nat (length (simulationLog st)) - logOffset st).
  { unfold new. rewrite length_drop. lia. }
  rewrite Hnew, Hlen, Hs0, He0, Hm0. split_all; try reflexivity.
  f_equal. lia.
Qed.

Lemma dispatch_LOG line lineEnd st :
  charAt line 0 = COMMAND_LOG -> dispatch line 0 lineEnd st = sendLog E st.
Proof. intros Hc. unfold dispatchCommand. rewrite Hc. reflexivity. Qed.

(** X6 (LOG command, [sendLog]): while the read offset of the log lies within
    the log file, a line that starts with [L] is answered with one LOG
    message that announces the number of bytes written to the log since the
    last LOG message and carries them up to their first NUL (all of them if
    they hold no NUL); the offset moves to the end of the log, so no byte is
    sent twice, and the engine is not called. The rest of the line is not
    looked at. *)
Theorem log_command_sends_new_output st line rest :
  nextCommand st line rest ->
  charAt line 0 = COMMAND_LOG ->
  logWithin st ->
  Z.of_nat (length (simulationLog st)) - logOffset st <= UINT32_MAX ->
  let new := drop (Z.to_nat (logOffset st)) (simulationLog st) in
  exists st',
    process st = Return tt st'
    /\ messageStream st'
       = messageStream st ++ [MESSAGE_LOG; " "%char] ++ hex08 (Z.of_nat (length new))
         ++ text " " ++ cstr new ++ [newline]
    /\ (~ In NUL new -> cstr new = new)
    /\ simulationLog st' = simulationLog st
    /\ logOffset st' = Z.of_nat (length (simulationLog st'))
    /\ engineCalls st' = engineCalls st.
Proof.
  intros Hnext Hc Hwithin Hmax new.
  rewrite (processCommand_next E _ _ st line rest Hnext), (dispatch_LOG _ _ _ Hc).
  destruct (afterRead_frame E st line rest) as (_ & _ & Hm & He & _ & _ & _ & Hl & Hs).
  assert (Hoff : logOffset (afterRead st line rest) = logOffset st).
  { unfold logOffset. rewrite Hl. reflexivity. }
  destruct (sendLog_new_output (afterRead st line rest)) as (st' & Hrun & Hl' & Hs' & He' & Hm').
  - unfold logWithin. rewrite Hoff, Hs. exact Hwithin.
  - rewrite Hoff, Hs. exact Hmax.
  - rewrite Hoff, Hs, Hm in Hm'. fold new in Hm'.
    exists st'. split; [exact Hrun|]. split; [exact Hm'|].
    split; [apply cstr_no_nul|]. split; [congruence|]. split; [|congruence].
    unfold logOffset. rewrite Hl', Hs', Hs. reflexivity.
Qed.

(** *** What a command does to the engine side *)

Lemma sameEngineSide_refl st : sameEngineSide st st.
Proof. repeat split. Qed.

Lemma onlyMessages_same st st' : onlyMessages st st' -> sameEngineSide st st'.
Proof. intros H. rewrite H. repeat split. Qed.

Lemma afterRead_same st line rest : sameEngineSide st (afterRead st line rest).
Proof.
  destruct (afterRead_frame E st line rest) as (_ & _ & _ & He & _ & Ht & _ & Hl & Hs).
  repeat split; assumption.
Qed.

Lemma engineSideStep_same_l st st1 st' :
  sameEngineSide st st1 -> engineSideStep st1 st' -> engineSideStep st st'.
Proof.
  intros (He & Hs & Hl & Ht) (calls & printed & Hc & Hp & Ho & Hr).
  exists calls, printed. unfold logOffset in *. rewrite <- He, <- Hs, <- Hl, <- Ht.
  auto.
Qed.

Lemma engineSideStep_same_r st st1 st' :
  engineSideStep st st1 -> sameEngineSide st1 st' -> engineSideStep st st'.
Proof.
  intros (calls & printed & Hc & Hp & Ho & Hr) (He & Hs & Hl & Ht).
  exists calls, printed. unfold logOffset in *. rewrite He, Hs, Hl, Ht.
  auto.
Qed.

Lemma engineSideStep_refl st : engineSideStep st st.
Proof. exists [], []. rewrite !app_nil_r. auto. Qed.

Lemma engineSideStep_messages st st1 st' :
  engineSideStep st st1 -> onlyMessages st1 st' -> engineSideStep st st'.
Proof. intros H Ho. exact (engineSideStep_same_r _ _ _ H (onlyMessages_same _ _ Ho)). Qed.

Lemma engineAdvanced_side st st' : engineAdvanced st st' -> engineSideStep st st'.
Proof.
  intros (Ho & (calls & Hc & Hf) & printed & Hp).
  exists calls, printed. split; [exact Hc|]. split; [exact Hp|]. split.
  - left. unfold logOffset. rewrite (onlyEngine_log E _ _ Ho). reflexivity.
  - rewrite (onlyEngine_traceInitialized E _ _ Ho). apply traceRun_other. exact Hf.
Qed.

Lemma error_side st st1 message :
  engineSideStep st st1 -> engineSideStep st (writeMessage E MESSAGE_ERROR message st1).
Proof. intros H. eapply engineSideStep_messages; [exact H | apply writeMessage_only]. Qed.

Lemma sendBits_side st st1 bytes bitCount isSigned :
  engineSideStep st st1 ->
  outcomeSatisfies (sendBits E bytes bitCount isSigned st1)
    (fun _ st' => engineSideStep st st') (fun st' => engineSideStep st st').
Proof.
  intros H. eapply outcomeSatisfies_mono; [apply sendBits_effect | |].
  - intros _ st' (Ho & _). exact (engineSideStep_messages _ _ _ H Ho).
  - intros st' (Ho & _). exact (engineSideStep_messages _ _ _ H Ho).
Qed.

Lemma sendLog_side st :
  outcomeSatisfies (sendLog E st)
    (fun _ st' => engineSideStep st st') (fun st' => engineSideStep st st').
Proof.
  unfold sendLog.
  set (st0 := match log st with None => set_log E (Some 0) st | Some _ => st end).
  assert (H0 : engineSideStep st st0).
  { exists [], []. rewrite !app_nil_r. unfold st0, logOffset.
    destruct (log st) eqn:Hlog; [rewrite Hlog|]; auto. }
  destruct (Z.of_nat (length (simulationLog st0)) <? _) eqn:E1.
  { rewrite failWithError_eq. cbn [outcomeSatisfies]. apply error_side. exact H0. }
  destruct (_ >? UINT32_MAX).
  { rewrite failWithError_eq. cbn [outcomeSatisfies]. apply error_side. exact H0. }
  cbn [outcomeSatisfies].
  eapply engineSideStep_messages; [|apply writeMessage_only].
  destruct H0 as (calls & printed & Hc & Hp & _ & Hr).
  exists calls, printed. split; [exact Hc|]. split; [exact Hp|]. split; [|exact Hr].
  right. unfold logOffset. cbn [log set_log simulationLog].
  destruct (log st0); lia.
Qed.

Lemma runTrace_side argument st :
  outcomeSatisfies (runTrace E argument st)
    (fun _ st' => engineSideStep st st') (fun st' => engineSideStep st st').
Proof.
  unfold runTrace. rewrite sendAck_eq. cbn [outcomeSatisfies].
  eapply engineSideStep_messages; [|apply writeMessage_only].
  assert (Hfields : forall (st2 : Driver E) calls,
             engineCalls st2 = engineCalls st ++ calls ->
             simulationLog st2 = simulationLog st -> log st2 = log st ->
             traceRun (traceInitialized st) calls = Some (traceInitialized st2) ->
             engineSideStep st st2).
  { intros st2 calls Hc Hp Hl Hr. exists calls, []. rewrite app_nil_r.
    unfold logOffset. rewrite Hl. auto. }
  destruct (Ascii.eqb argument "1").
  - destruct (traceInitialized st) eqn:Ht; cbn [negb].
    + apply (Hfields _ [CallEnableTrace]);
        [ reflexivity
        | cbn [engineStep simulationLog]; apply app_nil_r
        | reflexivity
        | transitivity (Some (traceInitialized st)); [rewrite Ht|]; reflexivity ].
    + apply (Hfields _ [CallInitializeTrace (simulationTraceFilepath st); CallEnableTrace]);
        [ cbn [engineStep set_traceInitialized engineCalls]; rewrite <- app_assoc; reflexivity
        | cbn [engineStep set_traceInitialized simulationLog]; rewrite !app_nil_r; reflexivity
        | reflexivity
        | reflexivity ].
  - destruct (Ascii.eqb argument "0"); [|apply engineSideStep_refl].
    apply (Hfields _ [CallDisableTrace]);
      [ reflexivity
      | cbn [engineStep simulationLog]; apply app_nil_r
      | reflexivity
      | reflexivity ].
Qed.

Lemma runTick_side t st :
  1 <= maxCycleCount E t <= INT_MAX ->
  outcomeSatisfies (runTick E beyondSentinelPortValue beyondSentinelValue t st)
    (fun _ st' => engineSideStep st st') (fun st' => engineSideStep st st').
Proof.
  intros Hn. unfold runTick.
  match goal with
  | |- context [tickLoop E _ _ ?fuel t ?spv 0 st] =>
      destruct (tickLoop_returns E beyondSentinelPortValue beyondSentinelValue
                  fuel t spv 0 st ltac:(lia) ltac:(lia) ltac:(lia))
        as (cycles & st1 & Hloop);
      rewrite Hloop;
      destruct (tickLoop_calls E _ _ fuel t spv 0 st cycles st1 Hloop ltac:(lia) ltac:(lia))
        as (n & _ & _ & _ & _ & Hadv)
  end.
  apply sendBits_side, engineAdvanced_side. exact Hadv.
Qed.

(** Whatever the line, a command adds calls and output to the engine side,
    leaves the read offset of the log where it was or at the end of the log,
    and keeps the discipline of the trace calls. *)
Lemma dispatchCommand_side line lineCursor lineEnd st :
  outcomeSatisfies (dispatch line lineCursor lineEnd st)
    (fun _ st' => engineSideStep st st') (fun st' => engineSideStep st st').
Proof.
  unfold dispatchCommand.
  destruct (Ascii.eqb (charAt line lineCursor) COMMAND_DONE).
  { cbn [step outcomeSatisfies]. exists [], []. rewrite !app_nil_r. auto. }
  destruct (Ascii.eqb (charAt line lineCursor) COMMAND_LOG); [apply sendLog_side|].
  destruct (Ascii.eqb (charAt line lineCursor) COMMAND_SET_BITS).
  { apply scanning_effect.
    - intros [[id setter] data] _. unfold bind, step. rewrite sendAck_eq.
      cbn [outcomeSatisfies].
      eapply engineSideStep_messages; [|apply writeMessage_only].
      apply engineAdvanced_side, callSetter_advanced.
    - intros message. apply error_side, engineSideStep_refl. }
  destruct (Ascii.eqb (charAt line lineCursor) COMMAND_GET_BITS).
  { apply scanning_effect.
    - intros [[[isSigned id] bitWidth] getter] _. unfold callGetter.
      apply sendBits_side, engineAdvanced_side, engineStep_advanced. reflexivity.
    - intros message. apply error_side, engineSideStep_refl. }
  destruct (Ascii.eqb (charAt line lineCursor) COMMAND_RUN).
  { apply scanning_effect.
    - intros time _. unfold bind, step. rewrite sendAck_eq.
      cbn [outcomeSatisfies].
      eapply engineSideStep_messages; [|apply writeMessage_only].
      apply engineAdvanced_side, callRunSimulation_advanced.
    - intros message. apply error_side, engineSideStep_refl. }
  destruct (Ascii.eqb (charAt line lineCursor) COMMAND_TICK).
  { apply scanning_effect.
    - intros t Hscan. apply runTick_side.
      exact (scanTick_maxCycleCount E _ _ _ _ Hscan).
    - intros message. apply error_side, engineSideStep_refl. }
  destruct (Ascii.eqb (charAt line lineCursor) COMMAND_TRACE).
  { apply scanning_effect.
    - intros argument _. apply runTrace_side.
    - intros message. apply error_side, engineSideStep_refl. }
  rewrite failWithError_eq. cbn [outcomeSatisfies].
  apply error_side, engineSideStep_refl.
Qed.

Lemma processCommand_side st :
  outcomeSatisfies (process st)
    (fun _ st' => engineSideStep st st') (fun st' => engineSideStep st st').
Proof.
  unfold processCommand. apply outcomeSatisfies_bind.
  eapply outcomeSatisfies_mono; [apply readCommand_effect | |].
  - intros [lineCursor lineEnd] st1 (line & rest & _ & _ & _ & ->).
    fold (afterRead st line rest).
    eapply outcomeSatisfies_mono; [apply dispatchCommand_side | |].
    + intros u st' H. exact (engineSideStep_same_l _ _ _ (afterRead_same st line rest) H).
    + intros st' H. exact (engineSideStep_same_l _ _ _ (afterRead_same st line rest) H).
  - intros st' (stream & buffer & message & ->).
    eapply engineSideStep_same_l; [apply (afterRead_same st buffer stream)|].
    apply error_side, engineSideStep_refl.
Qed.

Lemma logWithin_step st st' : engineSideStep st st' -> logWithin st -> logWithin st'.
Proof.
  intros (calls & printed & _ & Hp & Ho & _) (Hlo & Hhi). unfold logWithin.
  rewrite Hp in *. rewrite length_app in *. destruct Ho as [-> | ->]; lia.
Qed.

Lemma traceDiscipline_step st st' :
  engineSideStep st st' -> traceDiscipline st -> traceDiscipline st'.
Proof.
  intros (calls & printed & Hc & _ & _ & Hr) Ht. unfold traceDiscipline in *.
  rewrite Hc, traceRun_app, Ht. exact Hr.
Qed.

(** X7 (the log offset and the trace calls over a session): in every state
    a session passes through, the read offset of [sendLog] lies within the
    log file (so a LOG command never fails to gather the log), the trace has
    been initialised at most once and never been enabled before it was
    initialised, and the flag [traceInitialized] is set exactly if the trace
    has been initialised; the command read in that state keeps all of this,
    whether it returns or ends the process. *)
Theorem session_keeps_log_and_trace (script : bool) (limit : Z)
    (input tracePath : list ascii) (e : EngineState E) (st : Driver E) :
  sessionState beyondSentinelPortValue beyondSentinelValue
    (initialDriver E script limit input tracePath e) st ->
  logWithin st /\ traceDiscipline st
  /\ outcomeSatisfies (process st)
       (fun _ st' => logWithin st' /\ traceDiscipline st')
       (fun st' => logWithin st' /\ traceDiscipline st').
Proof.
  intros Hsession.
  assert (Hinv : logWithin st /\ traceDiscipline st).
  { induction Hsession as [|st st' _ IH _ Hrun].
    - destruct (onlyMessages_same _ _
                  (writeMessage_only E MESSAGE_READY (text "ready")
                     (initialDriver E script limit input tracePath e)))
        as (He & Hs & Hl & Ht).
      split.
      + unfold logWithin, logOffset. rewrite Hl, Hs. cbn [initialDriver log simulationLog length].
        lia.
      + unfold traceDiscipline. rewrite He, Ht. reflexivity.
    - pose proof (processCommand_side st) as Hside. rewrite Hrun in Hside.
      cbn [outcomeSatisfies] in Hside. destruct IH as (Hl & Ht).
      split; [exact (logWithin_step _ _ Hside Hl) | exact (traceDiscipline_step _ _ Hside Ht)]. }
  destruct Hinv as (Hl & Ht). split; [exact Hl|]. split; [exact Ht|].
  eapply outcomeSatisfies_mono; [apply processCommand_side | |].
  - intros u st' Hside. cbv beta in Hside.
    split; [exact (logWithin_step _ _ Hside Hl) | exact (traceDiscipline_step _ _ Hside Ht)].
  - intros st' Hside.
    split; [exact (logWithin_step _ _ Hside Hl) | exact (traceDiscipline_step _ _ Hside Ht)].
Qed.

End LogAndTrace.

(** After the simulation has printed [hello] and a newline, [L] sends the six
    bytes and leaves the offset at the end of the log. *)
Lemma log_command_sends_new_output_witness :
  let st := callRunSimulation demoEngine 1
              (freshDriver demoEngine demoStart (commandLine "L")) in
  exists st',
    processCommand demoEngine (filledWith 0) (filledWith 0) st = Return tt st'
    /\ messageStream st' = commandLine "l 00000006 hello" ++ [newline]
    /\ logOffset st' = 6.
Proof.
  intros st.
  destruct (log_command_sends_new_output demoEngine (filledWith 0) (filledWith 0) st
              (commandLine "L") [])
    as (st' & Hrun & Hms & _ & Hlog & Hoff & _).
  - split; [reflexivity|]. exists (text "L"). split; [reflexivity|].
    vm_compute. intuition discriminate.
  - reflexivity.
  - unfold logWithin. vm_compute. split; discriminate.
  - vm_compute. discriminate.
  - exists st'. split; [exact Hrun|]. split; [exact Hms|].
    rewrite Hoff, Hlog. reflexivity.
Defined.

(** The state after the first of two [W 1] commands. *)
Lemma session_keeps_log_and_trace_witness :
  let start := initialDriver demoEngine false (-1) (commandLine "W 1" ++ commandLine "W 1")
                 (text "trace") demoStart in
  exists st,
    sessionState (filledWith 0) (filledWith 0) start st
    /\ engineCalls st = [CallInitializeTrace (text "trace"); CallEnableTrace]
    /\ logWithin st /\ traceDiscipline st
    /\ outcomeSatisfies (processCommand demoEngine (filledWith 0) (filledWith 0) st)
         (fun _ st' => logWithin st' /\ traceDiscipline st')
         (fun st' => logWithin st' /\ traceDiscipline st').
Proof.
  intros start.
  destruct (processCommand demoEngine (filledWith 0) (filledWith 0)
              (writeMessage demoEngine MESSAGE_READY (text "ready") start))
    as [[] st1 | st1 |] eqn:Hrun; [| vm_compute in Hrun; discriminate ..].
  assert (Hs : sessionState (filledWith 0) (filledWith 0) start st1).
  { eapply sessionCommand; [apply sessionReady | reflexivity | exact Hrun]. }
  exists st1. split; [exact Hs|]. split.
  - vm_compute in Hrun. injection Hrun as <-. reflexivity.
  - exact (session_keeps_log_and_trace demoEngine (filledWith 0) (filledWith 0) false (-1)
             (commandLine "W 1" ++ commandLine "W 1") (text "trace") demoStart st1 Hs).
Defined.

(** ** Reading integers: [scanInt] *)

Lemma hexDigit_char c d :
  hexDigitValue c = Some d ->
  isspace c = false /\ Ascii.eqb c "-" = false /\ Ascii.eqb c "+" = false
  /\ Ascii.eqb c "x" = false /\ Ascii.eqb c "X" = false /\ c <> newline /\ c <> NUL
  /\ c <> " "%char /\ c <> ","%char.
Proof.
  destruct c as [[] [] [] [] [] [] [] []]; vm_compute; intros H;
    first [discriminate H | repeat split; discriminate].
Qed.

Lemma scanDigits_numeral chars digits : forall post value count,
  Forall2 (fun c d => hexDigitValue c = Some d) chars digits ->
  hexDigitValue (charAt post 0) = None ->
  scanDigits (chars ++ post) value count
  = (fold_left (fun value d => 16 * value + d) digits value,
     count + Z.of_nat (length chars)).
Proof.
  intros post value count H. revert value count.
  induction H as [|c d chars digits Hc _ IH]; intros value count Hpost.
  - cbn [app fold_left length]. rewrite Z.add_0_r.
    destruct post as [|c post]; [reflexivity|]. cbn [scanDigits].
    change (charAt (c :: post) 0) with c in Hpost. rewrite Hpost. reflexivity.
  - cbn [app scanDigits fold_left length]. rewrite Hc, IH by exact Hpost.
    f_equal. lia.
Qed.

Lemma numeralValue_nonneg digits : forall value,
  Forall isDigit digits -> 0 <= value ->
  0 <= fold_left (fun value d => 16 * value + d) digits value.
Proof.
  induction digits as [|d digits IH]; intros value Hd Hv; [exact Hv|].
  cbn [fold_left]. apply Forall_cons in Hd. destruct Hd as [Hd Hds].
  apply IH; [exact Hds|]. unfold isDigit in Hd. lia.
Qed.

Lemma charAt_drop line k i :
  0 <= i -> charAt (drop k line) i = charAt line (Z.of_nat k + i).
Proof.
  intros Hi. unfold charAt.
  destruct (i <? 0) eqn:E1; [absurd_lia|].
  destruct (Z.of_nat k + i <? 0) eqn:E2; [absurd_lia|].
  replace (Z.to_nat (Z.of_nat k + i)) with (k + Z.to_nat i)%nat by lia.
  rewrite !nth_lookup, lookup_drop. reflexivity.
Qed.

Lemma charAt_app_r pre post i :
  0 <= i -> charAt (pre ++ post) (Z.of_nat (length pre) + i) = charAt post i.
Proof.
  intros Hi. rewrite <- (charAt_drop (pre ++ post) (length pre) i Hi).
  rewrite drop_app_length. reflexivity.
Qed.

Lemma charAt_app_l pre post i :
  0 <= i < Z.of_nat (length pre) -> charAt (pre ++ post) i = charAt pre i.
Proof.
  intros Hi. unfold charAt. destruct (i <? 0) eqn:E1; [absurd_lia|].
  rewrite !nth_lookup, lookup_app_l by lia. reflexivity.
Qed.

Lemma skipSpaces_blank spaces rest :
  isBlank spaces -> isspace (charAt rest 0) = false ->
  skipSpaces (spaces ++ rest) = Z.of_nat (length spaces).
Proof.
  intros Hb Hrest. induction Hb as [|c spaces Hc _ IH].
  - cbn [app length]. destruct rest as [|c rest]; [reflexivity|].
    change (charAt (c :: rest) 0) with c in Hrest. cbn [skipSpaces]. rewrite Hrest.
    reflexivity.
  - cbn [app skipSpaces length]. rewrite Hc, IH. lia.
Qed.

(** [strtol] in base 16 on white space, an optional minus sign and a
    numeral. *)
Lemma strtol16_numeral pre spaces negative chars digits post :
  isBlank spaces -> isNumeral chars digits -> endsNumeral (charAt post 0) ->
  strtol16 (pre ++ spaces ++ signChars negative ++ chars ++ post) (Z.of_nat (length pre))
  = (Z.max LONG_MIN (Z.min LONG_MAX (signedValue negative digits)),
     Z.of_nat (length (pre ++ spaces ++ signChars negative ++ chars))).
Proof.
  intros Hblank (Hne & Hchars) (Hend & Hx & HX). unfold strtol16.
  rewrite Nat2Z.id, drop_app_length.
  destruct Hchars as [|c d chars digits Hc Hchars]; [contradiction|].
  destruct (hexDigit_char c d Hc) as (Hspace & Hminus & Hplus & _).
  set (tail := chars ++ post).
  assert (Htail : (Ascii.eqb (charAt tail 0) "x" || Ascii.eqb (charAt tail 0) "X") = false).
  { unfold tail. destruct Hchars as [|c1 d1 chars digits Hc1 Hchars].
    - cbn [app]. apply orb_false_iff. split; apply Ascii.eqb_neq; assumption.
    - change (charAt ((c1 :: chars) ++ post) 0) with c1.
      destruct (hexDigit_char c1 d1 Hc1) as (_ & _ & _ & -> & -> & _). reflexivity. }
  assert (Hskip : skipSpaces (spaces ++ signChars negative ++ (c :: chars) ++ post)
                  = Z.of_nat (length spaces)).
  { apply skipSpaces_blank; [exact Hblank|]. destruct negative; [reflexivity|].
    cbn [signChars app]. change (charAt (c :: chars ++ post) 0) with c. exact Hspace. }
  rewrite Hskip.
  assert (Hsign : charAt (spaces ++ signChars negative ++ (c :: chars) ++ post)
                    (Z.of_nat (length spaces))
                  = if negative then "-"%char else c).
  { rewrite <- (Z.add_0_r (Z.of_nat (length spaces))), charAt_app_r by lia.
    destruct negative; reflexivity. }
  rewrite Hsign.
  assert (Hneg : Ascii.eqb (if negative then "-"%char else c) "-" = negative).
  { destruct negative; [reflexivity | exact Hminus]. }
  rewrite Hneg.
  assert (Hplus' : (negative || Ascii.eqb (if negative then "-"%char else c) "+") = negative).
  { destruct negative; [reflexivity | exact Hplus]. }
  rewrite Hplus'.
  set (start := if negative then Z.of_nat (length spaces) + 1 else Z.of_nat (length spaces)).
  assert (Hstart : start = Z.of_nat (length (spaces ++ signChars negative))).
  { unfold start. rewrite length_app. destruct negative; cbn [signChars length]; lia. }
  assert (Hline : spaces ++ signChars negative ++ (c :: chars) ++ post
                 = (spaces ++ signChars negative) ++ c :: tail)
    by (rewrite <- app_assoc; reflexivity).
  assert (Hnext : charAt (spaces ++ signChars negative ++ (c :: chars) ++ post) (start + 1)
                  = charAt tail 0).
  { rewrite Hstart, Hline, charAt_app_r by lia. reflexivity. }
  rewrite Hnext, Htail, andb_false_r. cbn [andb].
  rewrite Hstart, Hline, Nat2Z.id, drop_app_length.
  change (c :: tail) with ((c :: chars) ++ post).
  rewrite (scanDigits_numeral (c :: chars) (d :: digits) post 0 0)
    by (try constructor; assumption).
  rewrite Z.add_0_l.
  destruct (Z.of_nat (length (c :: chars)) =? 0) eqn:E0; [cbn [length] in E0; absurd_lia|].
  fold (numeralValue (d :: digits)). fold (signedValue negative (d :: digits)).
  f_equal. rewrite !length_app. lia.
Qed.

(** [scanInt] on a numeral within the range of [int]. *)
Lemma scanInt_in_range (pre spaces chars post : list ascii) (negative : bool)
    (digits : list Z) (description : list ascii) :
  isBlank spaces ->
  isNumeral chars digits ->
  endsNumeral (charAt post 0) ->
  INT_MIN <= signedValue negative digits <= INT_MAX ->
  scanInt (pre ++ spaces ++ signChars negative ++ chars ++ post) (Z.of_nat (length pre))
    description
  = Scanned (signedValue negative digits,
             Z.of_nat (length (pre ++ spaces ++ signChars negative ++ chars))).
Proof.
  intros Hblank Hnum Hend Hrange. unfold scanInt.
  rewrite (strtol16_numeral pre spaces negative chars digits post Hblank Hnum Hend).
  assert (Hlen : (0 < length chars)%nat).
  { destruct Hnum as [Hne _]. destruct chars; [contradiction | cbn; lia]. }
  destruct (Z.of_nat (length (pre ++ spaces ++ signChars negative ++ chars))
            =? Z.of_nat (length pre)) eqn:E0.
  { rewrite !length_app in E0. absurd_lia. }
  cbn [negb].
  rewrite Z.min_r by (unfold LONG_MAX, INT_MAX in *; lia).
  rewrite Z.max_r by (unfold LONG_MIN, INT_MIN in *; lia).
  destruct (signedValue negative digits <? INT_MIN) eqn:E1; [absurd_lia|].
  destruct (signedValue negative digits >? INT_MAX) eqn:E2; [absurd_lia|]. reflexivity.
Qed.

(** [scanInt] on a numeral outside the range of [int]. *)
Lemma scanInt_out_of_range (pre spaces chars post : list ascii) (negative : bool)
    (digits : list Z) (description : list ascii) :
  isBlank spaces ->
  isNumeral chars digits ->
  endsNumeral (charAt post 0) ->
  ~ (INT_MIN <= signedValue negative digits <= INT_MAX) ->
  scanInt (pre ++ spaces ++ signChars negative ++ chars ++ post) (Z.of_nat (length pre))
    description
  = Failed (text "Scanned out-of-bounds integer while " ++ description ++ text ".").
Proof.
  intros Hblank Hnum Hend Hrange. unfold scanInt.
  rewrite (strtol16_numeral pre spaces negative chars digits post Hblank Hnum Hend).
  assert (Hlen : (0 < length chars)%nat).
  { destruct Hnum as [Hne _]. destruct chars; [contradiction | cbn; lia]. }
  destruct (Z.of_nat (length (pre ++ spaces ++ signChars negative ++ chars))
            =? Z.of_nat (length pre)) eqn:E0.
  { rewrite !length_app in E0. absurd_lia. }
  cbn [negb].
  set (v := signedValue negative digits) in *.
  destruct ((Z.max LONG_MIN (Z.min LONG_MAX v) <? INT_MIN)
            || (Z.max LONG_MIN (Z.min LONG_MAX v) >? INT_MAX)) eqn:Er; [reflexivity|].
  exfalso. apply orb_false_iff in Er. destruct Er as [E1 E2].
  unfold LONG_MIN, LONG_MAX, INT_MIN, INT_MAX in *. boolZ. lia.
Qed.

(** [scanInt] on a port id. *)
Lemma scanInt_port_id (pre spaces chars post : list ascii) (digits : list Z)
    (description : list ascii) :
  isBlank spaces ->
  isNumeral chars digits ->
  endsNumeral (charAt post 0) ->
  numeralValue digits <= INT_MAX ->
  scanInt (pre ++ spaces ++ chars ++ post) (Z.of_nat (length pre)) description
  = Scanned (numeralValue digits, Z.of_nat (length (pre ++ spaces ++ chars))).
Proof.
  intros Hblank Hnum Hend Hmax.
  assert (Hpos : 0 <= numeralValue digits).
  { apply numeralValue_nonneg; [|lia]. destruct Hnum as [_ Hd].
    exact (digits_of_chars _ _ Hd). }
  apply (scanInt_in_range pre spaces chars post false digits description Hblank Hnum Hend).
  cbn [signedValue]. unfold INT_MIN. lia.
Qed.

(** X8 ([scanInt]): integers on a command line are read in base 16, behind
    any white space and an optional minus sign. A hexadecimal numeral, in
    upper or lower case, that ends before a character that is no digit is
    read as the number it stands for, the cursor moves behind its last digit,
    and a number outside the range of [int] is refused. *)
Theorem scanInt_reads_hex_numeral (pre spaces chars post : list ascii) (negative : bool)
    (digits : list Z) (description : list ascii) :
  isBlank spaces ->
  isNumeral chars digits ->
  endsNumeral (charAt post 0) ->
  scanInt (pre ++ spaces ++ signChars negative ++ chars ++ post) (Z.of_nat (length pre))
    description
  = if (INT_MIN <=? signedValue negative digits) && (signedValue negative digits <=? INT_MAX)
    then
      Scanned (signedValue negative digits,
               Z.of_nat (length (pre ++ spaces ++ signChars negative ++ chars)))
    else
      Failed (text "Scanned out-of-bounds integer while " ++ description ++ text ".").
Proof.
  intros Hblank Hnum Hend. unfold scanInt.
  rewrite (strtol16_numeral pre spaces negative chars digits post Hblank Hnum Hend).
  assert (Hlen : (0 < length chars)%nat).
  { destruct Hnum as [Hne _]. destruct chars; [contradiction | cbn; lia]. }
  destruct (Z.of_nat (length (pre ++ spaces ++ signChars negative ++ chars))
            =? Z.of_nat (length pre)) eqn:E0.
  { rewrite !length_app in E0. absurd_lia. }
  cbn [negb].
  set (v := signedValue negative digits).
  assert (Hclamp : ((Z.max LONG_MIN (Z.min LONG_MAX v) <? INT_MIN)
                    || (Z.max LONG_MIN (Z.min LONG_MAX v) >? INT_MAX))
                   = negb ((INT_MIN <=? v) && (v <=? INT_MAX))).
  { unfold LONG_MIN, LONG_MAX, INT_MIN, INT_MAX.
    destruct (_ <? _) eqn:E1; destruct (_ >? _) eqn:E2;
      destruct (_ <=? v) eqn:E3; destruct (v <=? _) eqn:E4;
      try reflexivity; absurd_lia. }
  rewrite Hclamp.
  destruct ((INT_MIN <=? v) && (v <=? INT_MAX)) eqn:Er; cbn [negb]; [|reflexivity].
  f_equal. f_equal. apply andb_true_iff in Er. destruct Er as [E3 E4].
  unfold LONG_MIN, LONG_MAX, INT_MIN, INT_MAX in *. boolZ. lia.
Qed.

(** The timesteps of [R -1f], read from the space behind the command code:
    minus thirty-one. *)
Lemma scanInt_reads_hex_numeral_witness :
  scanInt (commandLine "R -1f") 1 (text "parsing time for RUN command")
  = Scanned (-31, 5).
Proof.
  apply (scanInt_reads_hex_numeral (text "R") (text " ") (text "1f") [newline] true [1; 15]
           (text "parsing time for RUN command")).
  - repeat constructor.
  - split; [discriminate | repeat constructor].
  - repeat split; discriminate.
Defined.

(** ** SET_BITS and GET_BITS on a well-formed line *)

Lemma digitsValue_app a b :
  digitsValue (a ++ b) = digitsValue a + 16 ^ Z.of_nat (length a) * digitsValue b.
Proof.
  induction a as [|d a IH]; [cbn [app length digitsValue]; lia|].
  cbn [app length digitsValue]. rewrite IH, Nat2Z.inj_succ, Z.pow_succ_r by lia. lia.
Qed.

Lemma numeralValue_rev digits : numeralValue digits = digitsValue (rev digits).
Proof.
  unfold numeralValue.
  assert (H : forall value,
             fold_left (fun value d => 16 * value + d) digits value
             = digitsValue (rev digits) + 16 ^ Z.of_nat (length digits) * value).
  { induction digits as [|d digits IH]; intros value; [cbn; lia|].
    cbn [fold_left rev length]. rewrite IH, digitsValue_app, length_rev.
    cbn [digitsValue]. rewrite Nat2Z.inj_succ, Z.pow_succ_r by lia. lia. }
  rewrite H. lia.
Qed.

Lemma Forall2_rev_rev {A B} (P : A -> B -> Prop) l k :
  Forall2 P l k -> Forall2 P (rev l) (rev k).
Proof.
  induction 1 as [|x y l k Hxy _ IH]; [constructor|].
  cbn [rev]. apply Forall2_app; [exact IH | repeat constructor; exact Hxy].
Qed.

Lemma isNumeral_no_newline chars digits : isNumeral chars digits -> ~ In newline chars.
Proof.
  intros (_ & H) Hin. induction H as [|c d chars digits Hc _ IH]; [contradiction|].
  destruct Hin as [-> | Hin]; [|exact (IH Hin)].
  destruct (hexDigit_char _ _ Hc) as (_ & _ & _ & _ & _ & Hnl & _). contradiction.
Qed.

(** X9 ([scanHexBits] on a numeral): a value written as an optional minus
    sign and a hexadecimal numeral, in upper or lower case, anywhere in the
    line, with at most two digits per byte of the magnitude, is decoded
    exactly. Without sign the number [m] of the numeral is read into its
    little-endian buffer when [m < 2^bitCount] and refused otherwise. With a
    sign, [m] is read into the two's complement of [m] over the whole buffer
    (sign-extended to the end of the top byte) when
    [1 <= m <= 2^(bitCount-1)], and refused when it is 0 or larger. The
    cursor ends behind the value. *)
Theorem scanHexBits_reads_numeral (pre valueChars post : list ascii) (negative : bool)
    (digits : list Z) (bitCount : Z) (description : list ascii) :
  (if negative then 2 else 1) <= bitCount <= INT_MAX - 7 ->
  isNumeral valueChars digits ->
  (length valueChars
   <= 2 * Z.to_nat (byteCountOf (if negative then bitCount - 1 else bitCount)))%nat ->
  let m := numeralValue digits in
  let byteCount := byteCountOf bitCount in
  let scanEnd := Z.of_nat (length (pre ++ signChars negative ++ valueChars)) in
  scanHexBits (pre ++ signChars negative ++ valueChars ++ post) (Z.of_nat (length pre))
    scanEnd bitCount description
  = if negative then
      if m =? 0 then
        Failed (text "Scanned negative value exceeded " ++ decimal byteCount
                ++ text " bytes when " ++ description ++ text ".")
      else if m <=? 2 ^ (bitCount - 1) then
        Scanned (bytesOf (Z.to_nat byteCount) (256 ^ byteCount - m), scanEnd)
      else
        Failed (text "Scanned negative value exceeded " ++ decimal bitCount
                ++ text " bits when " ++ description ++ text ".")
    else
      if m <? 2 ^ bitCount then Scanned (bytesOf (Z.to_nat byteCount) m, scanEnd)
      else
        Failed (text "Scanned value exceeded " ++ decimal bitCount
                ++ text " bits when " ++ description ++ text ".").
Proof.
  intros Hw (Hne & Hchars) Hlen m byteCount scanEnd.
  assert (Hrev : Forall2 (fun c d => hexDigitValue c = Some d) (rev valueChars) (rev digits))
    by (apply Forall2_rev_rev; exact Hchars).
  assert (Hne' : rev valueChars <> []).
  { intros Hnil. apply Hne. rewrite <- (rev_involutive valueChars), Hnil. reflexivity. }
  assert (Hm : digitsValue (rev digits) = m) by (symmetry; apply numeralValue_rev).
  unfold byteCount.
  destruct negative; cbn [signChars app] in *.
  - assert (Hend : scanEnd = Z.of_nat (length pre) + 1 + Z.of_nat (length valueChars)).
    { unfold scanEnd. rewrite length_app. cbn [length]. lia. }
    rewrite Hend.
    pose proof (scanHexBits_negative pre (rev valueChars) (rev digits) post bitCount
                  description Hw Hrev Hne') as H.
    rewrite rev_involutive, length_rev, Hm in H.
    apply H. exact Hlen.
  - assert (Hend : scanEnd = Z.of_nat (length pre) + Z.of_nat (length valueChars)).
    { unfold scanEnd. rewrite length_app. lia. }
    rewrite Hend.
    pose proof (scanHexBits_unsigned pre (rev valueChars) (rev digits) post bitCount
                  description Hw Hrev Hne') as H.
    rewrite rev_involutive, length_rev, Hm in H.
    apply H. exact Hlen.
Qed.

(** The value [-3] of a SET_BITS line, read at 12 bits: the buffer of
    0xFFFD. *)
Lemma scanHexBits_reads_numeral_witness :
  scanHexBits (commandLine "S 2a -3") 5 7 12 (text "parsing value")
  = Scanned ([253; 255], 7).
Proof.
  apply (scanHexBits_reads_numeral (text "S 2a ") (text "3") [newline] true [3] 12
           (text "parsing value")).
  - unfold INT_MAX. lia.
  - split; [discriminate | repeat constructor].
  - vm_compute. lia.
Defined.

Section Commands.

Context (E : Engine).
Variable beyondSentinelPortValue : nat -> Z.
Variable beyondSentinelValue : nat -> Z.

Implicit Types st : Driver E.

Local Abbreviation process := (processCommand E beyondSentinelPortValue beyondSentinelValue).
Local Abbreviation dispatch := (dispatchCommand E beyondSentinelPortValue beyondSentinelValue).

Lemma dispatch_SET line lineEnd st :
  charAt line 0 = COMMAND_SET_BITS ->
  dispatch line 0 lineEnd st
  = bind E (scanning E (scanSetBits E line 1 lineEnd))
      (fun '(id, setter, data) =>
         bind E (step E (callSetter E id setter data)) (fun _ => sendAck E)) st.
Proof. intros Hc. unfold dispatchCommand. rewrite Hc. reflexivity. Qed.

Lemma dispatch_GET line lineEnd st :
  charAt line 0 = COMMAND_GET_BITS ->
  dispatch line 0 lineEnd st
  = bind E (scanning E (scanGetBits E line 1))
      (fun '(isSigned, id, bitWidth, getter) =>
         fun st =>
           let '(bytes, st) :=
             callGetter E id getter (calloc (Z.quot (wrap_int (bitWidth + 7)) 8)) st in
           sendBits E bytes bitWidth isSigned st) st.
Proof. intros Hc. unfold dispatchCommand. rewrite Hc. reflexivity. Qed.

(** The line [S <id> <value>] parses to the port and the buffer of the
    value. *)
Lemma scanSetBits_line line idChars valueChars idDigits valueDigits bitWidth setter :
  line = text "S " ++ idChars ++ " "%char :: valueChars ++ [newline] ->
  isNumeral idChars idDigits -> numeralValue idDigits <= INT_MAX ->
  port_setter E (numeralValue idDigits) = Some (bitWidth, setter) ->
  1 <= bitWidth <= INT_MAX - 7 ->
  isNumeral valueChars valueDigits ->
  (length valueChars <= 2 * Z.to_nat (byteCountOf bitWidth))%nat ->
  numeralValue valueDigits < 2 ^ bitWidth ->
  scanSetBits E line 1 (Z.of_nat (length line) - 1)
  = Scanned (numeralValue idDigits, setter,
             bytesOf (Z.to_nat (byteCountOf bitWidth)) (numeralValue valueDigits)).
Proof.
  intros Hline Hid Hmax Hport Hw Hvalue Hlen Hfits.
  set (post := " "%char :: valueChars ++ [newline]) in *.
  assert (Hpos : 0 <= numeralValue idDigits).
  { apply numeralValue_nonneg; [|lia]. destruct Hid as [_ H].
    exact (digits_of_chars _ _ H). }
  assert (Hscan : scanInt line 1 (text "parsing port ID for SET_BITS command")
                  = Scanned (numeralValue idDigits,
                             Z.of_nat (length (text "S " ++ idChars)))).
  { rewrite Hline.
    apply (scanInt_port_id (text "S") (text " ") idChars post idDigits
             (text "parsing port ID for SET_BITS command")).
    - repeat constructor.
    - exact Hid.
    - repeat split; discriminate.
    - exact Hmax. }
  assert (Hspace : charAt line (Z.of_nat (length (text "S " ++ idChars))) = " "%char).
  { rewrite Hline.
    replace (text "S " ++ idChars ++ post) with ((text "S " ++ idChars) ++ post)
      by (rewrite <- app_assoc; reflexivity).
    apply charAt_app. }
  assert (Hbits : scanHexBits line (Z.of_nat (length (text "S " ++ idChars)) + 1)
                    (Z.of_nat (length line) - 1) bitWidth
                    (text "parsing value for SET_BITS command")
                  = Scanned (bytesOf (Z.to_nat (byteCountOf bitWidth))
                               (numeralValue valueDigits),
                             Z.of_nat (length line) - 1)).
  { destruct Hvalue as [Hne Hchars].
    pose proof (scanHexBits_unsigned ((text "S " ++ idChars) ++ [" "%char]) (rev valueChars)
                  (rev valueDigits) [newline] bitWidth
                  (text "parsing value for SET_BITS command") Hw) as H.
    rewrite rev_involutive, length_rev, <- numeralValue_rev in H.
    assert (Hshape : line = ((text "S " ++ idChars) ++ [" "%char]) ++ valueChars ++ [newline]).
    { rewrite Hline. rewrite <- !app_assoc. reflexivity. }
    assert (Hend : Z.of_nat (length line) - 1
                   = Z.of_nat (length ((text "S " ++ idChars) ++ [" "%char]))
                     + Z.of_nat (length valueChars)).
    { rewrite Hshape at 1. rewrite !length_app. cbn [length]. lia. }
    assert (Hstart : Z.of_nat (length (text "S " ++ idChars)) + 1
                     = Z.of_nat (length ((text "S " ++ idChars) ++ [" "%char]))).
    { rewrite (length_app _ [" "%char]). cbn [length]. lia. }
    rewrite Hstart, Hend. rewrite Hshape at 1. rewrite H.
    - destruct (numeralValue valueDigits <? 2 ^ bitWidth) eqn:E1; [reflexivity | absurd_lia].
    - apply Forall2_rev_rev. exact Hchars.
    - intros Hnil. apply Hne. rewrite <- (rev_involutive valueChars), Hnil. reflexivity.
    - exact Hlen. }
  unfold scanSetBits. rewrite Hscan. cbn [scanBind].
  unfold resolveSettablePort. rewrite Hport.
  destruct (bitWidth <=? 0) eqn:E0; [absurd_lia|]. cbn [negb scanBind].
  unfold expect. rewrite Hspace. cbn [Ascii.eqb Bool.eqb scanBind].
  rewrite Hbits. reflexivity.
Qed.

(** X10 (SET_BITS): the line [S <id> <value>], with the port id and the
    value as hexadecimal numerals, a settable port [id] of width [W], at most
    two digits per byte of the port and a value below [2^W], calls the
    setter of the port exactly once, on the little-endian buffer of the value
    over [ceil(W / 8)] bytes, and answers with an acknowledgement. *)
Theorem set_command_sets_port st (idChars valueChars rest : list ascii)
    (idDigits valueDigits : list Z) (bitWidth : Z)
    (setter : list Z -> EngineState E -> EngineState E) :
  let id := numeralValue idDigits in
  let data := bytesOf (Z.to_nat (byteCountOf bitWidth)) (numeralValue valueDigits) in
  commandStream st
  = (text "S " ++ idChars ++ " "%char :: valueChars ++ [newline]) ++ rest ->
  isNumeral idChars idDigits -> id <= INT_MAX ->
  port_setter E id = Some (bitWidth, setter) ->
  1 <= bitWidth <= INT_MAX - 7 ->
  isNumeral valueChars valueDigits ->
  (length valueChars <= 2 * Z.to_nat (byteCountOf bitWidth))%nat ->
  numeralValue valueDigits < 2 ^ bitWidth ->
  exists st',
    process st = Return tt st'
    /\ engineCalls st' = engineCalls st ++ [CallSetter id data]
    /\ engine st' = setter data (engine st)
    /\ messageStream st'
       = messageStream st ++ [MESSAGE_ACK; " "%char] ++ text "ack" ++ [newline]
    /\ commandStream st' = rest.
Proof.
  intros id data Hstream Hid Hmax Hport Hw Hvalue Hlen Hfits.
  set (line := text "S " ++ idChars ++ " "%char :: valueChars ++ [newline]) in *.
  assert (Hnext : nextCommand st line rest).
  { split; [exact Hstream|]. exists (text "S " ++ idChars ++ " "%char :: valueChars).
    split.
    - unfold line. rewrite <- !app_assoc. reflexivity.
    - intros Hin. apply in_app_or in Hin. destruct Hin as [Hin | Hin].
      + cbn in Hin. destruct Hin as [H | [H | []]]; discriminate H.
      + apply in_app_or in Hin. destruct Hin as [Hin | [H | Hin]].
        * exact (isNumeral_no_newline _ _ Hid Hin).
        * discriminate H.
        * exact (isNumeral_no_newline _ _ Hvalue Hin). }
  rewrite (processCommand_next E _ _ st line rest Hnext).
  rewrite dispatch_SET by reflexivity.
  unfold bind.
  rewrite (scanning_Scanned E _ _ _
             (scanSetBits_line line idChars valueChars idDigits valueDigits bitWidth setter
                eq_refl Hid Hmax Hport Hw Hvalue Hlen Hfits)).
  unfold step. rewrite sendAck_eq.
  destruct (afterRead_frame E st line rest) as (_ & Hc & Hm & He & Hen & _).
  eexists. split; [reflexivity|].
  match goal with
  | |- context [writeMessage E MESSAGE_ACK ?body ?st1] =>
      pose proof (writeMessage_only E MESSAGE_ACK body st1) as Ho
  end.
  rewrite (onlyMessages_engineCalls E _ _ Ho), (onlyMessages_engine E _ _ Ho),
    (onlyMessages_commandStream E _ _ Ho), messageStream_writeMessage.
  cbn [callSetter engineStep engineCalls engine messageStream commandStream].
  rewrite He, Hen, Hm, Hc. auto.
Qed.

(** The line [G s <id>] or [G u <id>] parses to the signedness and the
    port. *)
Lemma scanGetBits_line line (isSigned : bool) idChars idDigits bitWidth getter :
  line = text "G " ++ (if isSigned then "s"%char else "u"%char) :: " "%char
                   :: idChars ++ [newline] ->
  isNumeral idChars idDigits -> numeralValue idDigits <= INT_MAX ->
  port_getter E (numeralValue idDigits) = Some (bitWidth, getter) ->
  1 <= bitWidth ->
  scanGetBits E line 1 = Scanned (isSigned, numeralValue idDigits, bitWidth, getter).
Proof.
  intros Hline Hid Hmax Hport Hw.
  set (mode := if isSigned then "s"%char else "u"%char) in *.
  assert (Hpos : 0 <= numeralValue idDigits).
  { apply numeralValue_nonneg; [|lia]. destruct Hid as [_ H].
    exact (digits_of_chars _ _ H). }
  assert (H1 : charAt line 1 = " "%char) by (rewrite Hline; reflexivity).
  assert (H2 : charAt line (1 + 1) = mode) by (rewrite Hline; reflexivity).
  assert (H3 : charAt line (1 + 1 + 1) = " "%char) by (rewrite Hline; reflexivity).
  assert (Hscan : scanInt line (1 + 1 + 1 + 1) (text "parsing port ID for GET_BITS command")
                  = Scanned (numeralValue idDigits,
                             Z.of_nat (length (text "G " ++ mode :: " "%char :: idChars)))).
  { rewrite Hline.
    apply (scanInt_port_id (text "G " ++ [mode; " "%char]) [] idChars [newline] idDigits
             (text "parsing port ID for GET_BITS command")).
    - constructor.
    - exact Hid.
    - repeat split; discriminate.
    - exact Hmax. }
  assert (Hnl : charAt line (Z.of_nat (length (text "G " ++ mode :: " "%char :: idChars)))
                = newline).
  { rewrite Hline.
    change (text "G " ++ mode :: " "%char :: idChars ++ [newline])
      with ((text "G " ++ mode :: " "%char :: idChars) ++ [newline]).
    apply charAt_app. }
  unfold scanGetBits, expect. rewrite H1. cbn [Ascii.eqb Bool.eqb scanBind].
  rewrite H2, H3.
  assert (Hmode : (if Ascii.eqb mode "s" then Scanned true
                   else if Ascii.eqb mode "u" then Scanned false
                   else Failed (text "Expected `s` or `u` argument to `GET_BITS` command ("
                                ++ [mode] ++ text ").")) = Scanned isSigned).
  { unfold mode. destruct isSigned; reflexivity. }
  rewrite Hmode. cbn [Ascii.eqb Bool.eqb scanBind].
  rewrite Hscan. cbn [scanBind]. rewrite Hnl.
  change (Ascii.eqb newline newline) with true. cbn [scanBind].
  unfold resolveGettablePort. rewrite Hport.
  destruct (bitWidth <=? 0) eqn:E0; [absurd_lia|]. reflexivity.
Qed.

(** X11 (GET_BITS): the line [G s <id>] or [G u <id>], with a gettable port
    [id] of width [W] whose getter fills the buffer with the integer [v],
    calls the getter exactly once, leaves the engine as it is and answers
    with one BITS message of width [W]. Its value is a minus sign for a
    negative [v] read as signed, and then two digits for each of the
    [ceil(W / 8)] bytes of the magnitude of [v] - except for the signed
    minimum [-2^(W-1)], whose magnitude does not fit the [W - 1] bits below
    the sign: it goes out as a minus sign and zeros only ([-00] at eight
    bits), a text that does not tell [v]. *)
Theorem get_command_reports_port st (isSigned : bool) (idChars rest : list ascii)
    (idDigits : list Z) (bitWidth v : Z)
    (getter : EngineState E -> list Z -> list Z) :
  let id := numeralValue idDigits in
  let byteCount := Z.to_nat (byteCountOf bitWidth) in
  let value :=
    if isSigned && (v =? - 2 ^ (bitWidth - 1)) then
      "-"%char :: concat (replicate byteCount (text "00"))
    else
      (if v <? 0 then ["-"%char] else []) ++ hexBytes (bytesOf byteCount (Z.abs v)) in
  commandStream st
  = (text "G " ++ (if isSigned then "s"%char else "u"%char) :: " "%char
       :: idChars ++ [newline]) ++ rest ->
  isNumeral idChars idDigits -> id <= INT_MAX ->
  port_getter E id = Some (bitWidth, getter) ->
  1 <= bitWidth <= INT_MAX - 7 -> (isSigned = true -> 2 <= bitWidth) ->
  getter (engine st) (calloc (byteCountOf bitWidth)) = bufferOf bitWidth v ->
  inRange isSigned bitWidth v ->
  exists st',
    process st = Return tt st'
    /\ engineCalls st' = engineCalls st ++ [CallGetter id]
    /\ engine st' = engine st
    /\ messageStream st' = messageStream st ++ bitsMessage bitWidth value
    /\ commandStream st' = rest.
Proof.
  intros id byteCount value Hstream Hid Hmax Hport Hw Hsigned Hget Hrange.
  assert (Hvalue : encodedText isSigned bitWidth v = value).
  { unfold encodedText, encodedSign, encodedMagnitude, value. fold byteCount.
    destruct isSigned; cbn [andb]; unfold inRange in Hrange.
    - specialize (Hsigned eq_refl).
      assert (Hp : 0 < 2 ^ (bitWidth - 1)) by (apply Z.pow_pos_nonneg; lia).
      destruct (v =? - 2 ^ (bitWidth - 1)) eqn:Emin; boolZ.
      + destruct (v <? 0) eqn:Ev; [|absurd_lia].
        replace (- v) with (2 ^ (bitWidth - 1)) by lia.
        rewrite Z.mod_same by lia. rewrite hexBytes_zero. reflexivity.
      + destruct (v <? 0) eqn:Ev; boolZ.
        * rewrite Z.mod_small by lia. rewrite Z.abs_neq by lia. reflexivity.
        * rewrite Z.abs_eq by lia. reflexivity.
    - destruct (v <? 0) eqn:Ev; [absurd_lia|]. boolZ.
      rewrite Z.abs_eq by lia. reflexivity. }
  set (line := text "G " ++ (if isSigned then "s"%char else "u"%char) :: " "%char
                 :: idChars ++ [newline]) in *.
  assert (Hnext : nextCommand st line rest).
  { split; [exact Hstream|].
    exists (text "G " ++ (if isSigned then "s"%char else "u"%char) :: " "%char :: idChars).
    split; [reflexivity|].
    intros Hin. cbn in Hin.
    destruct Hin as [H | [H | [H | [H | Hin]]]]; try discriminate H.
    - destruct isSigned; discriminate H.
    - exact (isNumeral_no_newline _ _ Hid Hin). }
  rewrite (processCommand_next E _ _ st line rest Hnext).
  rewrite dispatch_GET by reflexivity.
  unfold bind.
  rewrite (scanning_Scanned E _ _ _
             (scanGetBits_line line isSigned idChars idDigits bitWidth getter
                eq_refl Hid Hmax Hport ltac:(lia))).
  destruct (afterRead_frame E st line rest) as (_ & Hc & Hm & He & Hen & _).
  unfold callGetter. rewrite (byteCount_quot bitWidth) by lia. rewrite Hen, Hget.
  set (st1 := engineStep E (CallGetter (numeralValue idDigits))
                (engine st) [] (afterRead st line rest)).
  destruct (sendBits_encodes E isSigned bitWidth v st1 Hw Hsigned Hrange)
    as (st' & Hsend & Hms).
  exists st'. split; [exact Hsend|].
  pose proof (sendBits_effect E (bufferOf bitWidth v) bitWidth isSigned st1) as Heff.
  rewrite Hsend in Heff. destruct Heff as (Ho & _).
  rewrite (onlyMessages_engineCalls E _ _ Ho), (onlyMessages_engine E _ _ Ho),
    (onlyMessages_commandStream E _ _ Ho), Hms, Hvalue.
  unfold st1. cbn [engineStep engineCalls engine messageStream commandStream].
  rewrite He, ?Hen, Hm, Hc. auto.
Qed.

End Commands.

(** [S 10 1F2a]: port 0x10 of the example engine, sixteen bits wide. *)
Lemma set_command_sets_port_witness :
  let st := freshDriver demoEngine demoStart (commandLine "S 10 1F2a") in
  exists st',
    processCommand demoEngine (filledWith 0) (filledWith 0) st = Return tt st'
    /\ engineCalls st' = [CallSetter 16 [42; 31]]
    /\ messageStream st' = commandLine "k ack".
Proof.
  intros st.
  destruct (port_setter demoEngine 16) as [[w setter]|] eqn:Hport; [|discriminate Hport].
  assert (Hw : w = 16) by (vm_compute in Hport; congruence). subst w.
  destruct (set_command_sets_port demoEngine (filledWith 0) (filledWith 0) st
              (text "10") (text "1F2a") [] [1; 0] [1; 15; 2; 10] 16 setter)
    as (st' & Hrun & Hcalls & _ & Hms & _).
  - reflexivity.
  - split; [discriminate | repeat constructor].
  - vm_compute. discriminate.
  - exact Hport.
  - unfold INT_MAX. lia.
  - split; [discriminate | repeat constructor].
  - vm_compute. lia.
  - vm_compute. reflexivity.
  - exists st'. split; [exact Hrun|]. split; [exact Hcalls | exact Hms].
Defined.

(** [G s 5] on a port that holds 80, the minimum of eight signed bits: the
    answer is [-00]. *)
Lemma get_command_reports_port_witness :
  let st := freshDriver demoEngine {| portValue := fun _ => [128]; runs := 0 |}
              (commandLine "G s 5") in
  exists st',
    processCommand demoEngine (filledWith 0) (filledWith 0) st = Return tt st'
    /\ engineCalls st' = [CallGetter 5]
    /\ messageStream st' = commandLine "b 00000008 -00".
Proof.
  intros st.
  destruct (port_getter demoEngine 5) as [[w getter]|] eqn:Hport; [|discriminate Hport].
  assert (Hw : w = 8) by (vm_compute in Hport; congruence). subst w.
  destruct (get_command_reports_port demoEngine (filledWith 0) (filledWith 0) st true
              (text "5") [] [5] 8 (-128) getter)
    as (st' & Hrun & Hcalls & _ & Hms & _).
  - reflexivity.
  - split; [discriminate | repeat constructor].
  - vm_compute. discriminate.
  - exact Hport.
  - unfold INT_MAX. lia.
  - intros _. lia.
  - vm_compute in Hport. injection Hport as <-. reflexivity.
  - unfold inRange. lia.
  - exists st'. split; [exact Hrun|]. split; [exact Hcalls | exact Hms].
Defined.

(** ** Refused commands, and the session as a whole *)

Lemma lineCount_app a b : lineCount (a ++ b) = (lineCount a + lineCount b)%nat.
Proof.
  induction a as [|c a IH]; [reflexivity|]. cbn [app lineCount]. rewrite IH. lia.
Qed.

Lemma lineCount_none body : ~ In newline body -> lineCount body = 0%nat.
Proof.
  induction body as [|c body IH]; intros H; [reflexivity|]. cbn [lineCount].
  destruct (Ascii.eqb c newline) eqn:Ec.
  - apply Ascii.eqb_eq in Ec. exfalso. apply H. left. exact Ec.
  - rewrite IH; [reflexivity|]. intros Hin. apply H. right. exact Hin.
Qed.

Lemma lineCount_line line : isLine line -> lineCount line = 1%nat.
Proof.
  intros (body & -> & Hbody). rewrite lineCount_app, (lineCount_none _ Hbody). reflexivity.
Qed.

Section Session.

Context (E : Engine).
Variable beyondSentinelPortValue : nat -> Z.
Variable beyondSentinelValue : nat -> Z.

Implicit Types st : Driver E.

Local Abbreviation process := (processCommand E beyondSentinelPortValue beyondSentinelValue).
Local Abbreviation dispatch := (dispatchCommand E beyondSentinelPortValue beyondSentinelValue).
Local Abbreviation commands := (commandLoop E beyondSentinelPortValue beyondSentinelValue).
Local Abbreviation body := (simulation_body E beyondSentinelPortValue beyondSentinelValue).

(** *** Refused commands *)

Lemma error_refused st st0 message :
  engine st0 = engine st -> simulationLog st0 = simulationLog st ->
  (engineCalls st0 = engineCalls st
   \/ exists id, engineCalls st0 = engineCalls st ++ [CallGetter id]) ->
  messageStream st0 = messageStream st ->
  refusedFrom st (writeMessage E MESSAGE_ERROR message st0).
Proof.
  intros He Hs Hc Hm.
  pose proof (writeMessage_only E MESSAGE_ERROR message st0) as Ho.
  unfold refusedFrom.
  rewrite (onlyMessages_engine E _ _ Ho), (onlyMessages_simulationLog E _ _ Ho),
    (onlyMessages_engineCalls E _ _ Ho), messageStream_writeMessage, He, Hs, Hm.
  split; [reflexivity|]. split; [reflexivity|]. split; [exact Hc|].
  exists message. reflexivity.
Qed.

Lemma sendBits_exit bytes bitCount isSigned st st' :
  sendBits E bytes bitCount isSigned st = Exit st' ->
  exists message, st' = writeMessage E MESSAGE_ERROR message st.
Proof.
  unfold sendBits. intros H.
  destruct (bitCount <=? 0).
  { rewrite failWithError_eq in H. injection H as <-. eexists. reflexivity. }
  destruct (isSigned && (bitCount <=? 1)).
  { rewrite failWithError_eq in H. injection H as <-. eexists. reflexivity. }
  repeat match type of H with
         | context [let '(_, _) := ?x in _] => destruct x
         end.
  discriminate.
Qed.

(** A command that ends the process has not touched the simulation. *)
Lemma dispatchCommand_refused line lineCursor lineEnd st :
  outcomeSatisfies (dispatch line lineCursor lineEnd st)
    (fun _ _ => True) (fun st' => refusedFrom st st').
Proof.
  unfold dispatchCommand.
  destruct (Ascii.eqb (charAt line lineCursor) COMMAND_DONE); [exact I|].
  destruct (Ascii.eqb (charAt line lineCursor) COMMAND_LOG).
  { unfold sendLog.
    set (st0 := match log st with None => set_log E (Some 0) st | Some _ => st end).
    assert (H0 : engine st0 = engine st /\ simulationLog st0 = simulationLog st
                 /\ engineCalls st0 = engineCalls st /\ messageStream st0 = messageStream st).
    { unfold st0. destruct (log st); repeat split. }
    destruct H0 as (He & Hs & Hc & Hm).
    destruct (Z.of_nat (length (simulationLog st0)) <? _).
    { rewrite failWithError_eq. cbn [outcomeSatisfies]. apply error_refused; auto. }
    destruct (_ >? UINT32_MAX); [|exact I].
    rewrite failWithError_eq. cbn [outcomeSatisfies]. apply error_refused; auto. }
  destruct (Ascii.eqb (charAt line lineCursor) COMMAND_SET_BITS).
  { apply scanning_effect.
    - intros [[id setter] data] _. exact I.
    - intros message. apply error_refused; auto. }
  destruct (Ascii.eqb (charAt line lineCursor) COMMAND_GET_BITS).
  { apply scanning_effect.
    - intros [[[isSigned id] bitWidth] getter] _. unfold callGetter.
      match goal with
      | |- outcomeSatisfies (sendBits E ?bytes ?w ?s ?st1) _ _ =>
          destruct (sendBits E bytes w s st1) as [[] st' | st' |] eqn:Hsend;
            [exact I | | pose proof (sendBits_effect E bytes w s st1) as Heff;
                         rewrite Hsend in Heff; exact Heff]
      end.
      cbn [outcomeSatisfies]. apply sendBits_exit in Hsend. destruct Hsend as [message ->].
      apply error_refused; try reflexivity.
      + cbn [engineStep simulationLog]. apply app_nil_r.
      + right. exists id. reflexivity.
    - intros message. apply error_refused; auto. }
  destruct (Ascii.eqb (charAt line lineCursor) COMMAND_RUN).
  { apply scanning_effect.
    - intros time _. exact I.
    - intros message. apply error_refused; auto. }
  destruct (Ascii.eqb (charAt line lineCursor) COMMAND_TICK).
  { apply scanning_effect.
    - intros t Hscan.
      destruct (runTick_cycles E beyondSentinelPortValue beyondSentinelValue t st
                  (scanTick_maxCycleCount E _ _ _ _ Hscan)) as (st' & n & -> & _).
      exact I.
    - intros message. apply error_refused; auto. }
  destruct (Ascii.eqb (charAt line lineCursor) COMMAND_TRACE).
  { apply scanning_effect.
    - intros argument _. unfold runTrace. rewrite sendAck_eq. exact I.
    - intros message. apply error_refused; auto. }
  rewrite failWithError_eq. cbn [outcomeSatisfies]. apply error_refused; auto.
Qed.

(** X12 (refused commands): whenever [processCommand] ends the process -
    the input has no complete line, the line does not parse, the port does
    not exist, the value does not fit - the simulation has not been touched:
    the engine is in the state it was in, no port has been set and the
    simulation has not been advanced (at most the getter of a GET_BITS
    command on a one-bit signed port has been called), the log is as it was,
    and exactly one error message has been written. *)
Theorem refused_command_leaves_engine st st' :
  process st = Exit st' ->
  engine st' = engine st
  /\ simulationLog st' = simulationLog st
  /\ (engineCalls st' = engineCalls st
      \/ exists id, engineCalls st' = engineCalls st ++ [CallGetter id])
  /\ exists message,
       messageStream st'
       = messageStream st ++ [MESSAGE_ERROR; " "%char] ++ message ++ [newline].
Proof.
  intros Hrun. change (refusedFrom st st').
  unfold processCommand, bind in Hrun.
  pose proof (readCommand_effect E st) as Hread.
  destruct (readCommand E st) as [[lineCursor lineEnd] st1 | st1 |]; [| |discriminate].
  - cbn [outcomeSatisfies] in Hread.
    destruct Hread as (line & rest & _ & _ & _ & ->).
    fold (afterRead st line rest) in Hrun.
    pose proof (dispatchCommand_refused (stringBuffer (afterRead st line rest)) lineCursor
                  lineEnd (afterRead st line rest)) as Hd.
    rewrite Hrun in Hd. cbn [outcomeSatisfies] in Hd.
    destruct (afterRead_frame E st line rest) as (_ & _ & Hm & Hc & He & _ & _ & _ & Hs).
    destruct Hd as (He' & Hs' & Hc' & message & Hm').
    unfold refusedFrom. rewrite He', Hs', Hm', He, Hs, Hm, <- Hc.
    split; [reflexivity|]. split; [reflexivity|]. split; [exact Hc'|].
    exists message. reflexivity.
  - injection Hrun as <-. cbn [outcomeSatisfies] in Hread.
    destruct Hread as (stream & buffer & message & ->).
    fold (afterRead st buffer stream).
    destruct (afterRead_frame E st buffer stream) as (_ & _ & Hm & Hc & He & _ & _ & _ & Hs).
    apply error_refused; auto.
Qed.

(** X13 (unknown command codes): a line whose first character is none of
    [D], [L], [G], [S], [R], [T] and [W] - an empty line among them, whose
    first character is the newline - ends the process with the message
    [Unknown opcode '<n>'.], where [n] is the code of the character as a
    signed [char] in decimal; the line is consumed and the engine is not
    called. *)
Theorem unknown_command_is_refused st line rest :
  nextCommand st line rest ->
  ~ In (charAt line 0) commandCodes ->
  exists st',
    process st = Exit st'
    /\ engineCalls st' = engineCalls st
    /\ commandStream st' = rest
    /\ messageStream st'
       = messageStream st ++ [MESSAGE_ERROR; " "%char]
         ++ (text "Unknown opcode '" ++ decimal (charValue (charAt line 0)) ++ text "'.")
         ++ [newline].
Proof.
  intros Hnext Hcode.
  rewrite (processCommand_next E _ _ st line rest Hnext).
  unfold dispatchCommand.
  assert (Hneq : forall c, In c commandCodes -> Ascii.eqb (charAt line 0) c = false).
  { intros c Hin. apply Ascii.eqb_neq. intros Heq. apply Hcode. rewrite Heq. exact Hin. }
  rewrite !Hneq by (unfold commandCodes; cbn; auto 10).
  rewrite failWithError_eq.
  destruct (afterRead_frame E st line rest) as (_ & Hc & Hm & He & _).
  eexists. split; [reflexivity|].
  match goal with
  | |- context [writeMessage E MESSAGE_ERROR ?message ?st1] =>
      pose proof (writeMessage_only E MESSAGE_ERROR message st1) as Ho
  end.
  rewrite (onlyMessages_engineCalls E _ _ Ho), (onlyMessages_commandStream E _ _ Ho),
    messageStream_writeMessage, He, Hc, Hm.
  auto.
Qed.

(** X14 (end of input): when the input holds no complete line any more, the
    next read ends the process with an error message and without a call into
    the engine: [Could not read next command.] at the end of the input (the
    test [feof(stdin)] looks at the stream that [main] has reopened on
    /dev/null, so [Unexpected end of input.] is never written), and
    [Read partial line] with the text read when the input ends in the middle
    of a line. *)
Theorem end_of_input_is_an_error st :
  ~ In newline (commandStream st) ->
  let message := match commandStream st with
                 | [] => text "Could not read next command."
                 | _ :: _ => text "Read partial line " ++ cstr (commandStream st)
                 end in
  exists st',
    process st = Exit st'
    /\ engineCalls st' = engineCalls st
    /\ engine st' = engine st
    /\ messageStream st'
       = messageStream st ++ [MESSAGE_ERROR; " "%char] ++ message ++ [newline].
Proof.
  intros Hnone message.
  assert (Hread : exists stream buffer,
             readCommand E st
             = Exit (writeMessage E MESSAGE_ERROR message (afterRead st buffer stream))).
  { unfold readCommand, getline, message.
    destruct (commandStream st) as [|c stream] eqn:Hstream.
    - cbn [Z.leb Z.compare]. unfold feof_stdin. rewrite failWithError_eq.
      exists (commandStream st), (stringBuffer st). unfold afterRead.
      do 3 f_equal. destruct st; cbn in *. subst. reflexivity.
    - destruct (splitLine (c :: stream)) as [line rest] eqn:Hsplit.
      destruct (splitLine_spec _ _ _ Hsplit) as (Hcat & [(b & -> & _) | (Hline & ->)]).
      + exfalso. apply Hnone. rewrite Hcat. apply in_or_app. left.
        apply in_or_app. right. left. reflexivity.
      + rewrite app_nil_r in Hcat. subst line.
        destruct (Z.of_nat (length (c :: stream)) <=? 0) eqn:E0;
          [cbn [length] in E0; absurd_lia|].
        rewrite stringBuffer_recordCommand. cbn [stringBuffer set_commandInput].
        destruct (Ascii.eqb (charAt (c :: stream) (Z.of_nat (length (c :: stream)) - 1))
                    newline) eqn:Enl.
        * exfalso. apply Ascii.eqb_eq in Enl. revert Enl.
          apply charAt_not_in; [exact Hnone | discriminate].
        * rewrite failWithError_eq. exists [], (c :: stream). reflexivity. }
  destruct Hread as (stream & buffer & Hread).
  unfold processCommand, bind. rewrite Hread.
  destruct (afterRead_frame E st buffer stream) as (_ & _ & Hm & Hc & He & _).
  eexists. split; [reflexivity|].
  pose proof (writeMessage_only E MESSAGE_ERROR message (afterRead st buffer stream)) as Ho.
  rewrite (onlyMessages_engineCalls E _ _ Ho), (onlyMessages_engine E _ _ Ho),
    messageStream_writeMessage, He, Hc, Hm.
  auto.
Qed.

(** *** The session *)

Lemma dispatchCommand_receivedDone line lineCursor lineEnd st :
  outcomeSatisfies (dispatch line lineCursor lineEnd st)
    (fun _ st' =>
       Ascii.eqb (charAt line lineCursor) COMMAND_DONE = false ->
       receivedDone st' = receivedDone st)
    (fun _ => True).
Proof.
  pose proof (dispatchCommand_effect E beyondSentinelPortValue beyondSentinelValue
                line lineCursor lineEnd st) as Heff.
  unfold dispatchCommand in *.
  destruct (Ascii.eqb (charAt line lineCursor) COMMAND_DONE);
    [cbn [step outcomeSatisfies]; discriminate|].
  assert (Hkeep : forall (o : Outcome E unit),
             outcomeSatisfies o (fun _ st' => receivedDone st' = receivedDone st)
               (fun _ => True) ->
             outcomeSatisfies o
               (fun _ st' => false = false -> receivedDone st' = receivedDone st)
               (fun _ => True)).
  { intros o H. eapply outcomeSatisfies_mono; [exact H | auto | auto]. }
  apply Hkeep. clear Hkeep Heff.
  assert (Hbits : forall bytes bitCount isSigned st1,
             receivedDone st1 = receivedDone st ->
             outcomeSatisfies (sendBits E bytes bitCount isSigned st1)
               (fun _ st' => receivedDone st' = receivedDone st) (fun _ => True)).
  { intros bytes bitCount isSigned st1 H1.
    eapply outcomeSatisfies_mono; [apply sendBits_effect | | auto].
    intros _ st' (Ho & _). rewrite (onlyMessages_receivedDone E _ _ Ho). exact H1. }
  assert (Hack : forall st1,
             receivedDone st1 = receivedDone st ->
             receivedDone (writeMessage E MESSAGE_ACK (text "ack") st1) = receivedDone st).
  { intros st1 H1.
    rewrite (onlyMessages_receivedDone E _ _ (writeMessage_only E _ _ _)). exact H1. }
  assert (Hengine : forall st1, onlyEngine st st1 -> receivedDone st1 = receivedDone st).
  { intros st1 H1. rewrite H1. reflexivity. }
  destruct (Ascii.eqb (charAt line lineCursor) COMMAND_LOG).
  { unfold sendLog.
    set (st0 := match log st with None => set_log E (Some 0) st | Some _ => st end).
    assert (H0 : receivedDone st0 = receivedDone st) by (unfold st0; destruct (log st); reflexivity).
    destruct (Z.of_nat (length (simulationLog st0)) <? _); [exact I|].
    destruct (_ >? UINT32_MAX); [exact I|].
    cbn [outcomeSatisfies].
    rewrite (onlyMessages_receivedDone E _ _ (writeMessage_only E _ _ _)). exact H0. }
  destruct (Ascii.eqb (charAt line lineCursor) COMMAND_SET_BITS).
  { apply scanning_effect; [|auto].
    intros [[id setter] data] _. unfold bind, step. rewrite sendAck_eq.
    cbn [outcomeSatisfies]. apply Hack, Hengine, callSetter_only. }
  destruct (Ascii.eqb (charAt line lineCursor) COMMAND_GET_BITS).
  { apply scanning_effect; [|auto].
    intros [[[isSigned id] bitWidth] getter] _. unfold callGetter.
    apply Hbits, Hengine, engineStep_only. }
  destruct (Ascii.eqb (charAt line lineCursor) COMMAND_RUN).
  { apply scanning_effect; [|auto].
    intros time _. unfold bind, step. rewrite sendAck_eq.
    cbn [outcomeSatisfies]. apply Hack, Hengine, callRunSimulation_only. }
  destruct (Ascii.eqb (charAt line lineCursor) COMMAND_TICK).
  { apply scanning_effect; [|auto].
    intros t Hscan. unfold runTick.
    destruct (tickLoop E _ _ _ t _ 0 st) as [[cycles st1]|] eqn:Hloop.
    - apply Hbits, Hengine. exact (tickLoop_only E _ _ _ _ _ _ _ _ _ Hloop).
    - pose proof (runTick_effect E beyondSentinelPortValue beyondSentinelValue t st
                    (scanTick_maxCycleCount E _ _ _ _ Hscan)) as Hrun.
      unfold runTick in Hrun. rewrite Hloop in Hrun. exact Hrun. }
  destruct (Ascii.eqb (charAt line lineCursor) COMMAND_TRACE).
  { apply scanning_effect; [|auto].
    intros argument _. unfold runTrace. rewrite sendAck_eq. cbn [outcomeSatisfies].
    apply Hack.
    destruct (Ascii.eqb argument "1");
      [destruct (negb (traceInitialized st)); reflexivity|].
    destruct (Ascii.eqb argument "0"); reflexivity. }
  rewrite failWithError_eq. exact I.
Qed.

(** What [processCommand] has done when it returns: one line read, and
    either DONE received or one response written. *)
Lemma processCommand_answer st st' :
  process st = Return tt st' ->
  exists line rest,
    nextCommand st line rest
    /\ commandStream st' = rest
    /\ if Ascii.eqb (charAt line 0) COMMAND_DONE then
         messageStream st' = messageStream st /\ receivedDone st' = true
       else
         receivedDone st' = receivedDone st
         /\ exists r,
              Response st (charAt line 0) r
              /\ messageStream st' = messageStream st ++ r.
Proof.
  intros Hrun. unfold processCommand, bind in Hrun.
  pose proof (readCommand_effect E st) as Hread.
  destruct (readCommand E st) as [[lineCursor lineEnd] st1 | st1 |]; [|discriminate..].
  cbn [outcomeSatisfies] in Hread.
  destruct Hread as (line & rest & Hnext & -> & -> & ->).
  fold (afterRead st line rest) in Hrun.
  destruct (afterRead_frame E st line rest)
    as (Hbuf & Hcs & Hms & _ & _ & _ & Hdone & Hl & Hs).
  rewrite Hbuf in Hrun.
  pose proof (dispatchCommand_effect E beyondSentinelPortValue beyondSentinelValue
                line 0 (Z.of_nat (length line) - 1) (afterRead st line rest)) as Hd.
  pose proof (dispatchCommand_receivedDone line 0 (Z.of_nat (length line) - 1)
                (afterRead st line rest)) as Hr.
  rewrite Hrun in Hd, Hr. cbn [outcomeSatisfies] in Hd, Hr.
  exists line, rest. split; [exact Hnext|].
  destruct (Ascii.eqb (charAt line 0) COMMAND_DONE).
  - destruct Hd as ((_ & Hc & _ & Hm) & Hflag).
    split; [congruence|]. split; [congruence | exact Hflag].
  - destruct Hd as (_ & Hc & _ & r & Hresp & Hm).
    split; [congruence|]. split; [rewrite (Hr eq_refl); exact Hdone|].
    exists r. split; [|congruence].
    exact (Response_same_log E st _ _ r Hl Hs Hresp).
Qed.

Lemma commandLoop_done fuel st :
  receivedDone st = true -> commands fuel st = Return tt st.
Proof. intros H. destruct fuel; cbn [commandLoop]; rewrite H; reflexivity. Qed.

Lemma commandLoop_session fuel : forall st st',
  commands fuel st = Return tt st' ->
  receivedDone st = false ->
  exists lines done responses stDone,
    commandStream st = concat lines ++ done ++ commandStream st'
    /\ Forall (fun line => isLine line /\ charAt line 0 <> COMMAND_DONE) lines
    /\ isLine done /\ charAt done 0 = COMMAND_DONE
    /\ answered beyondSentinelPortValue beyondSentinelValue st lines responses stDone
    /\ process stDone = Return tt st'
    /\ messageStream st' = messageStream st ++ concat responses
    /\ receivedDone st' = true.
Proof.
  induction fuel as [|fuel IH]; intros st st' Hrun Hflag; cbn [commandLoop] in Hrun;
    rewrite Hflag in Hrun; [discriminate|].
  unfold bind in Hrun.
  destruct (process st) as [[] st1 | st1 |] eqn:Hstep; [|discriminate..].
  destruct (processCommand_answer st st1 Hstep) as (line & rest & Hnext & Hrest & Hkind).
  pose proof Hnext as (Hstream & Hline).
  destruct (Ascii.eqb (charAt line 0) COMMAND_DONE) eqn:Edone.
  - destruct Hkind as (Hm & Hdone).
    rewrite (commandLoop_done fuel st1 Hdone) in Hrun. injection Hrun as <-.
    exists [], line, [], st. cbn [concat app]. rewrite app_nil_r, Hrest.
    split_all; try assumption.
    + constructor.
    + apply Ascii.eqb_eq. exact Edone.
    + constructor.
  - destruct Hkind as (Hflag1 & r & Hresp & Hm).
    rewrite Hflag in Hflag1.
    destruct (IH st1 st' Hrun Hflag1)
      as (lines & done & responses & stDone & Hs & Hlines & Hdl & Hdc & Hrs & Hlast & Hms
          & Hfinal).
    exists (line :: lines), done, (r :: responses), stDone. cbn [concat].
    split_all; try assumption.
    + rewrite Hstream, <- Hrest, Hs, <- !app_assoc. reflexivity.
    + constructor; [|exact Hlines]. split; [exact Hline|].
      apply Ascii.eqb_neq. exact Edone.
    + apply (answeredLine _ _ st st1 stDone line lines r responses);
        [exact Hstep | rewrite Hrest; exact Hnext | apply Ascii.eqb_neq; exact Edone
        | exact Hresp | exact Hm | exact Hrs].
    + rewrite Hms, Hm, <- app_assoc. reflexivity.
Qed.

(** One response to each line. *)
Lemma answered_lengths lines : forall st responses st',
  answered beyondSentinelPortValue beyondSentinelValue st lines responses st' ->
  length responses = length lines.
Proof.
  induction lines as [|line lines IH]; intros st responses st' H; inversion H; subst.
  - reflexivity.
  - cbn [length]. f_equal. eapply IH. eassumption.
Qed.

(** X15 (the session, [simulation_body]): when a session returns, the input
    it has read is a sequence of complete lines that do not start with [D],
    followed by one line that starts with [D]; nothing behind that line has
    been read; the message stream holds [r ready] first and then exactly one
    response per line, in the order of the lines, and nothing for the DONE
    line. The response to a line is the one to its command code in the state
    in which the line is read: [k ack], one BITS message, or the LOG message
    of the log as it is then. Whatever follows the [D] on its line is not
    looked at. *)
Theorem session_answers_in_order (fuel : nat) st st' :
  body fuel false st = Return tt st' ->
  receivedDone st = false ->
  exists lines done responses stDone,
    commandStream st = concat lines ++ done ++ commandStream st'
    /\ Forall (fun line => isLine line /\ charAt line 0 <> COMMAND_DONE) lines
    /\ isLine done /\ charAt done 0 = COMMAND_DONE
    /\ answered beyondSentinelPortValue beyondSentinelValue
         (writeMessage E MESSAGE_READY (text "ready") st) lines responses stDone
    /\ length responses = length lines
    /\ process stDone = Return tt st'
    /\ messageStream st'
       = messageStream st ++ commandLine "r ready" ++ concat responses
    /\ receivedDone st' = true.
Proof.
  intros Hrun Hflag. unfold simulation_body, bind, sendReady, step in Hrun.
  set (st0 := writeMessage E MESSAGE_READY (text "ready") st) in *.
  pose proof (writeMessage_only E MESSAGE_READY (text "ready") st) as Ho. fold st0 in Ho.
  destruct (commandLoop_session fuel st0 st' Hrun)
    as (lines & done & responses & stDone & Hs & Hlines & Hdl & Hdc & Hrs & Hlast & Hms
        & Hfinal).
  - rewrite (onlyMessages_receivedDone E _ _ Ho). exact Hflag.
  - exists lines, done, responses, stDone.
    rewrite (onlyMessages_commandStream E _ _ Ho) in Hs.
    split_all; try assumption.
    + exact (answered_lengths _ _ _ _ Hrs).
    + rewrite Hms. unfold st0. rewrite messageStream_writeMessage, <- !app_assoc.
      reflexivity.
Qed.

(** *** Termination *)

Lemma commandLoop_not_stuck fuel : forall st,
  (lineCount (commandStream st) < fuel)%nat -> commands fuel st <> Stuck.
Proof.
  induction fuel as [|fuel IH]; intros st Hfuel; [lia|].
  cbn [commandLoop]. destruct (receivedDone st); [discriminate|].
  unfold bind. destruct (process st) as [[] st1 | st1 |] eqn:Hstep.
  - apply IH.
    destruct (processCommand_answer st st1 Hstep) as (line & rest & (Hs & Hline) & Hrest & _).
    rewrite Hs, lineCount_app, (lineCount_line line Hline), <- Hrest in Hfuel. lia.
  - discriminate.
  - exfalso. exact (processCommand_not_stuck E _ _ st Hstep).
Qed.

(** X16 (termination): a session on a finite input comes to an end. One
    command per line of the input and one more read are enough: the session
    returns, with DONE received, or it ends the process through
    [failWithError]; it does not hang in the command loop (the calls into
    the engine are taken to return). *)
Theorem session_ends (aslrShenanigansDetected : bool) st :
  let fuel := S (lineCount (commandStream st)) in
  (exists st', body fuel aslrShenanigansDetected st = Return tt st'
               /\ receivedDone st' = true)
  \/ (exists st', body fuel aslrShenanigansDetected st = Exit st').
Proof.
  intros fuel. unfold simulation_body.
  destruct aslrShenanigansDetected.
  { right. rewrite failWithError_eq. eexists. reflexivity. }
  unfold bind, sendReady, step.
  set (st0 := writeMessage E MESSAGE_READY (text "ready") st).
  pose proof (writeMessage_only E MESSAGE_READY (text "ready") st) as Ho. fold st0 in Ho.
  assert (Hfuel : (lineCount (commandStream st0) < fuel)%nat).
  { rewrite (onlyMessages_commandStream E _ _ Ho). unfold fuel. lia. }
  pose proof (commandLoop_not_stuck fuel st0 Hfuel) as Hns.
  destruct (commands fuel st0) as [[] st' | st' |] eqn:Hrun.
  - left. exists st'. split; [reflexivity|].
    destruct (receivedDone st0) eqn:Hflag.
    + rewrite (commandLoop_done fuel st0 Hflag) in Hrun. injection Hrun as <-. exact Hflag.
    + destruct (commandLoop_session fuel st0 st' Hrun Hflag)
        as (_ & _ & _ & _ & _ & _ & _ & _ & _ & _ & _ & Hfinal).
      exact Hfinal.
  - right. exists st'. reflexivity.
  - contradiction.
Qed.

End Session.

(** [G s 0] on a port of one bit: the getter is called, [sendBits] refuses
    the width, and the engine is as it was. *)
Lemma refused_command_leaves_engine_witness :
  let st := freshDriver demoEngine demoStart (commandLine "G s 0") in
  exists st',
    processCommand demoEngine (filledWith 0) (filledWith 0) st = Exit st'
    /\ engine st' = engine st
    /\ simulationLog st' = simulationLog st
    /\ (engineCalls st' = engineCalls st
        \/ exists id, engineCalls st' = engineCalls st ++ [CallGetter id])
    /\ exists message,
         messageStream st'
         = messageStream st ++ [MESSAGE_ERROR; " "%char] ++ message ++ [newline].
Proof.
  intros st.
  destruct (processCommand demoEngine (filledWith 0) (filledWith 0) st)
    as [[] st' | st' |] eqn:Hrun; [vm_compute in Hrun; discriminate Hrun | |
                                   vm_compute in Hrun; discriminate Hrun].
  exists st'. split; [reflexivity|].
  exact (refused_command_leaves_engine demoEngine (filledWith 0) (filledWith 0) st st' Hrun).
Defined.

(** An empty line: its first character is the newline, code 10. *)
Lemma unknown_command_is_refused_witness :
  let st := freshDriver demoEngine demoStart (commandLine "" ++ commandLine "D") in
  exists st',
    processCommand demoEngine (filledWith 0) (filledWith 0) st = Exit st'
    /\ engineCalls st' = []
    /\ commandStream st' = commandLine "D"
    /\ messageStream st' = commandLine "e Unknown opcode '10'.".
Proof.
  intros st.
  destruct (unknown_command_is_refused demoEngine (filledWith 0) (filledWith 0) st
              (commandLine "") (commandLine "D"))
    as (st' & Hrun & Hcalls & Hstream & Hms).
  - split; [reflexivity|]. exists []. split; [reflexivity | intros []].
  - vm_compute. intuition discriminate.
  - exists st'. split; [exact Hrun|]. split; [exact Hcalls|]. split; [exact Hstream|].
    rewrite Hms. reflexivity.
Defined.

(** An input that ends in the middle of a line. *)
Lemma end_of_input_is_an_error_witness :
  let st := freshDriver demoEngine demoStart (text "R 1") in
  exists st',
    processCommand demoEngine (filledWith 0) (filledWith 0) st = Exit st'
    /\ engineCalls st' = []
    /\ messageStream st' = commandLine "e Read partial line R 1".
Proof.
  intros st.
  destruct (end_of_input_is_an_error demoEngine (filledWith 0) (filledWith 0) st)
    as (st' & Hrun & Hcalls & _ & Hms).
  - vm_compute. intuition discriminate.
  - exists st'. split; [exact Hrun|]. split; [exact Hcalls|].
    rewrite Hms. reflexivity.
Defined.

(** A session of a RUN command, a LOG command, a GET_BITS command and DONE,
    with a line behind the DONE that is never read. *)
Lemma session_answers_in_order_witness :
  let st := freshDriver demoEngine demoStart
              (commandLine "R 1" ++ commandLine "L" ++ commandLine "G u 5"
               ++ commandLine "Done" ++ commandLine "R 2") in
  exists st',
    simulation_body demoEngine (filledWith 0) (filledWith 0) 5 false st = Return tt st'
    /\ commandStream st' = commandLine "R 2"
    /\ messageStream st'
       = commandLine "r ready" ++ commandLine "k ack"
         ++ (text "l 00000006 hello" ++ [newline; newline])
         ++ commandLine "b 00000008 F0"
    /\ exists lines done responses stDone,
         commandStream st = concat lines ++ done ++ commandStream st'
         /\ Forall (fun line => isLine line /\ charAt line 0 <> COMMAND_DONE) lines
         /\ isLine done /\ charAt done 0 = COMMAND_DONE
         /\ answered (filledWith 0) (filledWith 0)
              (writeMessage demoEngine MESSAGE_READY (text "ready") st)
              lines responses stDone
         /\ length responses = length lines
         /\ processCommand demoEngine (filledWith 0) (filledWith 0) stDone = Return tt st'
         /\ messageStream st'
            = messageStream st ++ commandLine "r ready" ++ concat responses
         /\ receivedDone st' = true.
Proof.
  intros st.
  destruct (simulation_body demoEngine (filledWith 0) (filledWith 0) 5 false st)
    as [[] st' | st' |] eqn:Hrun; [| vm_compute in Hrun; discriminate Hrun ..].
  exists st'. split; [reflexivity|].
  pose proof (session_answers_in_order demoEngine (filledWith 0) (filledWith 0) 5 st st'
                Hrun eq_refl) as Hsession.
  vm_compute in Hrun. injection Hrun as <-.
  split; [reflexivity|]. split; [reflexivity|]. exact Hsession.
Defined.

(** ** RUN and TRACE on a well-formed line *)

Section RunAndTrace.

Context (E : Engine).
Variable beyondSentinelPortValue : nat -> Z.
Variable beyondSentinelValue : nat -> Z.

Implicit Types st : Driver E.

Local Abbreviation process := (processCommand E beyondSentinelPortValue beyondSentinelValue).

(** X17 (RUN): the line [R <timesteps>], with the timesteps as a hexadecimal
    numeral behind white space and an optional minus sign, calls
    [run_simulation] exactly once with the number the numeral stands for -
    sixteen for [R 10], a negative number behind a minus sign - and answers
    with an acknowledgement. The space behind the [R] is not required. *)
Theorem run_command_advances st (spaces chars rest : list ascii) (negative : bool)
    (digits : list Z) :
  let timesteps := signedValue negative digits in
  commandStream st
  = (text "R" ++ spaces ++ signChars negative ++ chars ++ [newline]) ++ rest ->
  isBlank spaces -> ~ In newline spaces ->
  isNumeral chars digits ->
  INT_MIN <= timesteps <= INT_MAX ->
  exists st',
    process st = Return tt st'
    /\ engineCalls st' = engineCalls st ++ [CallRunSimulation timesteps]
    /\ engine st' = fst (run_simulation E timesteps (engine st))
    /\ simulationLog st'
       = simulationLog st ++ snd (run_simulation E timesteps (engine st))
    /\ messageStream st'
       = messageStream st ++ [MESSAGE_ACK; " "%char] ++ text "ack" ++ [newline]
    /\ commandStream st' = rest.
Proof.
  intros timesteps Hstream Hblank Hnl Hnum Hrange.
  set (line := text "R" ++ spaces ++ signChars negative ++ chars ++ [newline]) in *.
  assert (Hnext : nextCommand st line rest).
  { split; [exact Hstream|]. exists (text "R" ++ spaces ++ signChars negative ++ chars).
    split.
    - unfold line. rewrite <- !app_assoc. reflexivity.
    - intros Hin. apply in_app_or in Hin. destruct Hin as [[H | []] | Hin]; [discriminate H|].
      apply in_app_or in Hin. destruct Hin as [Hin | Hin]; [exact (Hnl Hin)|].
      apply in_app_or in Hin. destruct Hin as [Hin | Hin].
      + destruct negative; cbn in Hin; [destruct Hin as [H | []]; discriminate H | exact Hin].
      + exact (isNumeral_no_newline _ _ Hnum Hin). }
  assert (Hscan : scanRun line 1 = Scanned timesteps).
  { unfold scanRun, line.
    pose proof (scanInt_in_range (text "R") spaces chars [newline] negative digits
                  (text "parsing time for RUN command") Hblank Hnum
                  ltac:(repeat split; discriminate) Hrange) as Hint.
    change (Z.of_nat (length (text "R"))) with 1 in Hint. rewrite Hint.
    cbn [scanBind]. unfold expect.
    replace (text "R" ++ spaces ++ signChars negative ++ chars ++ [newline])
      with ((text "R" ++ spaces ++ signChars negative ++ chars) ++ [newline])
      by (rewrite <- !app_assoc; reflexivity).
    rewrite charAt_app. reflexivity. }
  rewrite (processCommand_next E _ _ st line rest Hnext).
  rewrite (dispatch_RUN E _ _ line _ _ eq_refl).
  unfold bind. rewrite (scanning_Scanned E _ _ _ Hscan). unfold step. rewrite sendAck_eq.
  destruct (afterRead_frame E st line rest) as (_ & Hc & Hm & He & Hen & _ & _ & _ & Hs).
  eexists. split; [reflexivity|].
  match goal with
  | |- context [writeMessage E MESSAGE_ACK ?body ?st1] =>
      pose proof (writeMessage_only E MESSAGE_ACK body st1) as Ho
  end.
  rewrite (onlyMessages_engineCalls E _ _ Ho), (onlyMessages_engine E _ _ Ho),
    (onlyMessages_commandStream E _ _ Ho), (onlyMessages_simulationLog E _ _ Ho),
    messageStream_writeMessage.
  unfold callRunSimulation. rewrite Hen.
  destruct (run_simulation E timesteps (engine st)) as [next printed].
  cbn [engineStep engineCalls engine messageStream commandStream simulationLog fst snd].
  rewrite He, Hm, Hc, Hs. auto.
Qed.

(** X18 (TRACE): the line [W 1] enables the trace and, on its first use in
    the process, initialises it before with the trace file path; [W 0]
    disables the trace, whether it was ever initialised or not. Both are
    acknowledged. *)
Theorem trace_command_controls_trace st (enable : bool) (rest : list ascii) :
  let argument := if enable then "1"%char else "0"%char in
  let calls :=
    if enable then
      if traceInitialized st then [CallEnableTrace]
      else [CallInitializeTrace (simulationTraceFilepath st); CallEnableTrace]
    else [CallDisableTrace] in
  commandStream st = (text "W " ++ [argument; newline]) ++ rest ->
  exists st',
    process st = Return tt st'
    /\ engineCalls st' = engineCalls st ++ calls
    /\ traceInitialized st' = (enable || traceInitialized st)%bool
    /\ messageStream st'
       = messageStream st ++ [MESSAGE_ACK; " "%char] ++ text "ack" ++ [newline]
    /\ commandStream st' = rest.
Proof.
  intros argument calls Hstream.
  set (line := text "W " ++ [argument; newline]) in *.
  assert (Hnext : nextCommand st line rest).
  { split; [exact Hstream|]. exists (text "W " ++ [argument]). split; [reflexivity|].
    unfold argument. destruct enable; cbn; intuition discriminate. }
  assert (Hscan : scanTrace line 1 = Scanned argument) by reflexivity.
  rewrite (processCommand_next E _ _ st line rest Hnext).
  rewrite (dispatch_TRACE E _ _ line _ _ eq_refl).
  unfold bind. rewrite (scanning_Scanned E _ _ _ Hscan).
  unfold runTrace. rewrite sendAck_eq.
  destruct (afterRead_frame E st line rest) as (_ & Hc & Hm & He & _ & Ht & _).
  assert (Hpath : simulationTraceFilepath (afterRead st line rest)
                  = simulationTraceFilepath st).
  { unfold afterRead.
    pose proof (recordCommand_onlyRecorder E (set_commandInput E rest line st)) as H.
    destruct H as (_ & _ & _ & _ & _ & _ & _ & _ & _ & H). exact H. }
  eexists. split; [reflexivity|].
  match goal with
  | |- context [writeMessage E MESSAGE_ACK ?body ?st1] =>
      pose proof (writeMessage_only E MESSAGE_ACK body st1) as Ho
  end.
  rewrite (onlyMessages_engineCalls E _ _ Ho), (onlyMessages_traceInitialized E _ _ Ho),
    (onlyMessages_commandStream E _ _ Ho), messageStream_writeMessage.
  unfold calls, argument. destruct enable; cbn [Ascii.eqb Bool.eqb orb].
  - rewrite Ht. destruct (traceInitialized st) eqn:Hflag; cbn [negb];
      cbn [engineStep set_traceInitialized engineCalls traceInitialized messageStream
             commandStream simulationTraceFilepath];
      rewrite ?Hpath, He, Hm, Hc, <- ?app_assoc; auto.
  - cbn [engineStep engineCalls traceInitialized messageStream commandStream].
    rewrite He, Hm, Hc, Ht. auto.
Qed.

End RunAndTrace.

(** [R -10]: sixteen timesteps backwards reach the engine. *)
Lemma run_command_advances_witness :
  let st := freshDriver demoEngine demoStart (commandLine "R -10") in
  exists st',
    processCommand demoEngine (filledWith 0) (filledWith 0) st = Return tt st'
    /\ engineCalls st' = [CallRunSimulation (-16)]
    /\ messageStream st' = commandLine "k ack".
Proof.
  intros st.
  destruct (run_command_advances demoEngine (filledWith 0) (filledWith 0) st
              (text " ") (text "10") [] true [1; 0])
    as (st' & Hrun & Hcalls & _ & _ & Hms & _).
  - reflexivity.
  - repeat constructor.
  - cbn. intuition discriminate.
  - split; [discriminate | repeat constructor].
  - vm_compute. split; discriminate.
  - exists st'. split; [exact Hrun|]. split; [exact Hcalls | exact Hms].
Defined.

(** The first [W 1] of a process. *)
Lemma trace_command_controls_trace_witness :
  let st := freshDriver demoEngine demoStart (commandLine "W 1") in
  exists st',
    processCommand demoEngine (filledWith 0) (filledWith 0) st = Return tt st'
    /\ engineCalls st' = [CallInitializeTrace (text "trace"); CallEnableTrace]
    /\ traceInitialized st' = true.
Proof.
  intros st.
  destruct (trace_command_controls_trace demoEngine (filledWith 0) (filledWith 0) st true [])
    as (st' & Hrun & Hcalls & Hflag & _).
  - reflexivity.
  - exists st'. split; [exact Hrun|]. split; [exact Hcalls | exact Hflag].
Defined.

(** ** The line of a TICK command *)

Lemma findNextIn_app chars c post :
  ~ In c chars -> ~ In NUL chars ->
  findNextIn (chars ++ c :: post) c = Z.of_nat (length chars).
Proof.
  intros Hc Hnul. induction chars as [|x chars IH].
  - cbn [app findNextIn length]. rewrite Ascii.eqb_refl, orb_true_r. reflexivity.
  - cbn [app findNextIn length].
    assert (Ex : Ascii.eqb x NUL = false).
    { apply Ascii.eqb_neq. intros ->. apply Hnul. left. reflexivity. }
    assert (Ec : Ascii.eqb x c = false).
    { apply Ascii.eqb_neq. intros ->. apply Hc. left. reflexivity. }
    rewrite Ex, Ec. cbn [orb]. rewrite IH.
    + lia.
    + intros Hin. apply Hc. right. exact Hin.
    + intros Hin. apply Hnul. right. exact Hin.
Qed.

Lemma findNext_app pre chars c post :
  ~ In c chars -> ~ In NUL chars ->
  findNext (pre ++ chars ++ c :: post) (Z.of_nat (length pre)) c
  = Z.of_nat (length pre) + Z.of_nat (length chars).
Proof.
  intros Hc Hnul. unfold findNext.
  rewrite Nat2Z.id, drop_app_length, (findNextIn_app _ _ _ Hc Hnul). reflexivity.
Qed.

Lemma findNext_here pre c post :
  findNext (pre ++ c :: post) (Z.of_nat (length pre)) c = Z.of_nat (length pre).
Proof.
  pose proof (findNext_app pre [] c post) as H. cbn [app length] in H.
  rewrite H by (intros []). lia.
Qed.

Lemma isNumeral_no_char chars digits c :
  isNumeral chars digits -> hexDigitValue c = None -> ~ In c chars.
Proof.
  intros (_ & H) Hc Hin. induction H as [|x d chars digits Hx _ IH]; [contradiction|].
  destruct Hin as [-> | Hin]; [congruence | exact (IH Hin)].
Qed.

(** Normalises both sides of an equation between concatenations. *)
Ltac same_line :=
  repeat first [rewrite <- app_assoc | progress cbn [app]]; reflexivity.

(** A value of a TICK line: a numeral of at most two digits per byte that
    fits the width of the port. *)
Lemma scanHexBits_value line pre valueChars post digits bitWidth description c :
  line = pre ++ valueChars ++ c :: post ->
  1 <= bitWidth <= INT_MAX - 7 ->
  isNumeral valueChars digits ->
  (length valueChars <= 2 * Z.to_nat (byteCountOf bitWidth))%nat ->
  numeralValue digits < 2 ^ bitWidth ->
  scanHexBits line (Z.of_nat (length pre))
    (Z.of_nat (length pre) + Z.of_nat (length valueChars)) bitWidth description
  = Scanned (bytesOf (Z.to_nat (byteCountOf bitWidth)) (numeralValue digits),
             Z.of_nat (length pre) + Z.of_nat (length valueChars)).
Proof.
  intros -> Hw (Hne & Hchars) Hlen Hfits.
  pose proof (scanHexBits_unsigned pre (rev valueChars) (rev digits) (c :: post) bitWidth
                description Hw) as H.
  rewrite rev_involutive, length_rev, <- numeralValue_rev in H.
  rewrite H.
  - destruct (numeralValue digits <? 2 ^ bitWidth) eqn:E1; [reflexivity | absurd_lia].
  - apply Forall2_rev_rev. exact Hchars.
  - intros Hnil. apply Hne. rewrite <- (rev_involutive valueChars), Hnil. reflexivity.
  - exact Hlen.
Qed.

Section TickLine.

Variables (idChars inChars outChars stepChars countChars tail : list ascii).
Variables (idDigits inDigits outDigits stepDigits countDigits : list Z).
Variable bitWidth : Z.
Variables (stepNegative countNegative : bool).

Let line : list ascii :=
  text "T " ++ idChars ++ " "%char :: inChars ++ ","%char :: outChars
  ++ "-"%char :: signChars stepNegative ++ stepChars
  ++ "*"%char :: signChars countNegative ++ countChars ++ tail.

Let byteCount : nat := Z.to_nat (byteCountOf bitWidth).

Let count : Z := signedValue countNegative countDigits.

Hypothesis Hid : isNumeral idChars idDigits.
Hypothesis Hid_max : numeralValue idDigits <= INT_MAX.
Hypothesis Hwidth : 1 <= bitWidth <= INT_MAX - 7.
Hypothesis Hin : isNumeral inChars inDigits.
Hypothesis Hin_length : (length inChars <= 2 * byteCount)%nat.
Hypothesis Hin_fits : numeralValue inDigits < 2 ^ bitWidth.
Hypothesis Hout : isNumeral outChars outDigits.
Hypothesis Hout_length : (length outChars <= 2 * byteCount)%nat.
Hypothesis Hout_fits : numeralValue outDigits < 2 ^ bitWidth.
Hypothesis Hstep : isNumeral stepChars stepDigits.
Hypothesis Hstep_range : INT_MIN <= signedValue stepNegative stepDigits <= INT_MAX.
Hypothesis Hcount : isNumeral countChars countDigits.
Hypothesis Htail : endsNumeral (charAt tail 0).

(** The prefixes of the line up to each of its parts. *)
Let upToId := text "T " ++ idChars.
Let upToIn := upToId ++ " "%char :: inChars.
Let upToOut := upToIn ++ ","%char :: outChars.
Let upToStep := upToOut ++ "-"%char :: signChars stepNegative ++ stepChars.
Let upToCount := upToStep ++ "*"%char :: signChars countNegative ++ countChars.

(** The scans of the parts of the line that every TICK command has; the
    timesteps and the max cycle count may carry a minus sign. *)
Lemma tickLine_signed_parts :
  scanInt line 1 (text "parsing ticking port ID for TICK command")
  = Scanned (numeralValue idDigits, Z.of_nat (length upToId))
  /\ charAt line (Z.of_nat (length upToId)) = " "%char
  /\ scanHexBits line (Z.of_nat (length upToId) + 1)
       (findNext line (Z.of_nat (length upToId) + 1) ",") bitWidth
       (text "parsing in-phase value for TICK command")
     = Scanned (bytesOf byteCount (numeralValue inDigits), Z.of_nat (length upToIn))
  /\ charAt line (Z.of_nat (length upToIn)) = ","%char
  /\ scanHexBits line (Z.of_nat (length upToIn) + 1)
       (findNext line (Z.of_nat (length upToIn) + 1) "-") bitWidth
       (text "parsing out-of-phase value for TICK command")
     = Scanned (bytesOf byteCount (numeralValue outDigits), Z.of_nat (length upToOut))
  /\ charAt line (Z.of_nat (length upToOut)) = "-"%char
  /\ scanInt line (Z.of_nat (length upToOut) + 1)
       (text "parsing timesteps-per-phase for TICK command")
     = Scanned (signedValue stepNegative stepDigits, Z.of_nat (length upToStep))
  /\ charAt line (Z.of_nat (length upToStep)) = "*"%char
  /\ scanInt line (Z.of_nat (length upToStep) + 1)
       (text "parsing max cycle count for TICK command.")
     = (if (INT_MIN <=? count) && (count <=? INT_MAX) then
          Scanned (count, Z.of_nat (length upToCount))
        else
          Failed (text "Scanned out-of-bounds integer while "
                  ++ text "parsing max cycle count for TICK command." ++ text "."))
  /\ line = upToCount ++ tail.
Proof.
  assert (Hplus : forall (pre : list ascii) c,
             Z.of_nat (length pre) + 1 = Z.of_nat (length (pre ++ [c]))).
  { intros pre c. rewrite length_app. cbn [length]. lia. }
  assert (Hlen : forall (pre chars : list ascii) c,
             Z.of_nat (length (pre ++ [c])) + Z.of_nat (length chars)
             = Z.of_nat (length (pre ++ c :: chars))).
  { intros pre chars c. rewrite !length_app. cbn [length]. lia. }
  assert (Hcomma : hexDigitValue "," = None) by reflexivity.
  assert (Hdash : hexDigitValue "-" = None) by reflexivity.
  assert (Hnul : hexDigitValue NUL = None) by reflexivity.
  split_all.
  - set (post := " "%char :: inChars ++ ","%char :: outChars
                  ++ "-"%char :: signChars stepNegative ++ stepChars
                  ++ "*"%char :: signChars countNegative ++ countChars ++ tail).
    assert (Hshape : line = text "T" ++ text " " ++ idChars ++ post)
      by (unfold line, post; same_line).
    rewrite Hshape.
    pose proof (scanInt_port_id (text "T") (text " ") idChars post idDigits
                  (text "parsing ticking port ID for TICK command")) as H.
    change (Z.of_nat (length (text "T"))) with 1 in H.
    rewrite H; [reflexivity | repeat constructor | exact Hid
               | repeat split; discriminate | exact Hid_max].
  - assert (Hshape : line = upToId ++ " "%char :: (inChars ++ ","%char :: outChars
                              ++ "-"%char :: signChars stepNegative ++ stepChars
                              ++ "*"%char :: signChars countNegative ++ countChars ++ tail))
      by (unfold line, upToId; same_line).
    rewrite Hshape. apply charAt_app.
  - rewrite (Hplus upToId " "%char).
    assert (Hshape : line = (upToId ++ [" "%char]) ++ inChars
                            ++ ","%char :: (outChars ++ "-"%char :: signChars stepNegative
                                            ++ stepChars ++ "*"%char
                                            :: signChars countNegative ++ countChars ++ tail))
      by (unfold line, upToId; same_line).
    rewrite Hshape at 2.
    rewrite findNext_app
      by (first [exact (isNumeral_no_char _ _ _ Hin Hcomma)
                | exact (isNumeral_no_char _ _ _ Hin Hnul)]).
    rewrite (scanHexBits_value line (upToId ++ [" "%char]) inChars _ inDigits bitWidth _ _
               Hshape Hwidth Hin Hin_length Hin_fits).
    rewrite Hlen. reflexivity.
  - assert (Hshape : line = upToIn ++ ","%char :: (outChars ++ "-"%char
                              :: signChars stepNegative ++ stepChars
                              ++ "*"%char :: signChars countNegative ++ countChars ++ tail))
      by (unfold line, upToIn, upToId; same_line).
    rewrite Hshape. apply charAt_app.
  - rewrite (Hplus upToIn ","%char).
    assert (Hshape : line = (upToIn ++ [","%char]) ++ outChars
                            ++ "-"%char :: (signChars stepNegative ++ stepChars ++ "*"%char
                                            :: signChars countNegative ++ countChars ++ tail))
      by (unfold line, upToIn, upToId; same_line).
    rewrite Hshape at 2.
    rewrite findNext_app
      by (first [exact (isNumeral_no_char _ _ _ Hout Hdash)
                | exact (isNumeral_no_char _ _ _ Hout Hnul)]).
    rewrite (scanHexBits_value line (upToIn ++ [","%char]) outChars _ outDigits bitWidth _ _
               Hshape Hwidth Hout Hout_length Hout_fits).
    rewrite Hlen. reflexivity.
  - assert (Hshape : line = upToOut ++ "-"%char :: (signChars stepNegative ++ stepChars
                              ++ "*"%char :: signChars countNegative ++ countChars ++ tail))
      by (unfold line, upToOut, upToIn, upToId; same_line).
    rewrite Hshape. apply charAt_app.
  - rewrite (Hplus upToOut "-"%char).
    set (post := "*"%char :: signChars countNegative ++ countChars ++ tail).
    assert (Hshape : line = (upToOut ++ ["-"%char]) ++ [] ++ signChars stepNegative
                            ++ stepChars ++ post)
      by (unfold line, post, upToOut, upToIn, upToId; same_line).
    rewrite Hshape.
    rewrite (scanInt_in_range (upToOut ++ ["-"%char]) [] stepChars post stepNegative
               stepDigits (text "parsing timesteps-per-phase for TICK command"));
      [ | constructor | exact Hstep | repeat split; discriminate | exact Hstep_range].
    do 3 f_equal. unfold upToStep. cbn [app]. rewrite <- app_assoc. reflexivity.
  - assert (Hshape : line = upToStep ++ "*"%char
                              :: (signChars countNegative ++ countChars ++ tail))
      by (unfold line, upToStep, upToOut, upToIn, upToId; same_line).
    rewrite Hshape. apply charAt_app.
  - rewrite (Hplus upToStep "*"%char).
    assert (Hshape : line = (upToStep ++ ["*"%char]) ++ [] ++ signChars countNegative
                            ++ countChars ++ tail)
      by (unfold line, upToStep, upToOut, upToIn, upToId; same_line).
    rewrite Hshape.
    destruct ((INT_MIN <=? count) && (count <=? INT_MAX)) eqn:Er.
    + apply andb_true_iff in Er. destruct Er as [E1 E2]. boolZ.
      rewrite (scanInt_in_range (upToStep ++ ["*"%char]) [] countChars tail countNegative
                 countDigits (text "parsing max cycle count for TICK command."));
        [ | constructor | exact Hcount | exact Htail | fold count; lia].
      do 3 f_equal. unfold upToCount. cbn [app]. rewrite <- app_assoc. reflexivity.
    + apply (scanInt_out_of_range (upToStep ++ ["*"%char]) [] countChars tail countNegative
               countDigits (text "parsing max cycle count for TICK command."));
        [constructor | exact Hcount | exact Htail|].
      fold count. intros [H1 H2]. apply andb_false_iff in Er.
      destruct Er as [Er | Er]; boolZ; lia.
  - unfold line, upToCount, upToStep, upToOut, upToIn, upToId. same_line.
Qed.

End TickLine.

(** The same for a line without signs, with a max cycle count that is
    positive. *)
Lemma tickLine_parts (idChars inChars outChars stepChars countChars tail : list ascii)
    (idDigits inDigits outDigits stepDigits countDigits : list Z) (bitWidth : Z) :
  let line :=
    text "T " ++ idChars ++ " "%char :: inChars ++ ","%char :: outChars
    ++ "-"%char :: stepChars ++ "*"%char :: countChars ++ tail in
  let byteCount := Z.to_nat (byteCountOf bitWidth) in
  isNumeral idChars idDigits ->
  numeralValue idDigits <= INT_MAX ->
  1 <= bitWidth <= INT_MAX - 7 ->
  isNumeral inChars inDigits ->
  (length inChars <= 2 * byteCount)%nat ->
  numeralValue inDigits < 2 ^ bitWidth ->
  isNumeral outChars outDigits ->
  (length outChars <= 2 * byteCount)%nat ->
  numeralValue outDigits < 2 ^ bitWidth ->
  isNumeral stepChars stepDigits ->
  numeralValue stepDigits <= INT_MAX ->
  isNumeral countChars countDigits ->
  1 <= numeralValue countDigits <= INT_MAX ->
  endsNumeral (charAt tail 0) ->
  let upToId := text "T " ++ idChars in
  let upToIn := upToId ++ " "%char :: inChars in
  let upToOut := upToIn ++ ","%char :: outChars in
  let upToStep := upToOut ++ "-"%char :: stepChars in
  let upToCount := upToStep ++ "*"%char :: countChars in
  scanInt line 1 (text "parsing ticking port ID for TICK command")
  = Scanned (numeralValue idDigits, Z.of_nat (length upToId))
  /\ charAt line (Z.of_nat (length upToId)) = " "%char
  /\ scanHexBits line (Z.of_nat (length upToId) + 1)
       (findNext line (Z.of_nat (length upToId) + 1) ",") bitWidth
       (text "parsing in-phase value for TICK command")
     = Scanned (bytesOf byteCount (numeralValue inDigits), Z.of_nat (length upToIn))
  /\ charAt line (Z.of_nat (length upToIn)) = ","%char
  /\ scanHexBits line (Z.of_nat (length upToIn) + 1)
       (findNext line (Z.of_nat (length upToIn) + 1) "-") bitWidth
       (text "parsing out-of-phase value for TICK command")
     = Scanned (bytesOf byteCount (numeralValue outDigits), Z.of_nat (length upToOut))
  /\ charAt line (Z.of_nat (length upToOut)) = "-"%char
  /\ scanInt line (Z.of_nat (length upToOut) + 1)
       (text "parsing timesteps-per-phase for TICK command")
     = Scanned (numeralValue stepDigits, Z.of_nat (length upToStep))
  /\ charAt line (Z.of_nat (length upToStep)) = "*"%char
  /\ scanInt line (Z.of_nat (length upToStep) + 1)
       (text "parsing max cycle count for TICK command.")
     = Scanned (numeralValue countDigits, Z.of_nat (length upToCount))
  /\ line = upToCount ++ tail.
Proof.
  intros line byteCount Hid Hid_max Hwidth Hin Hin_length Hin_fits
         Hout Hout_length Hout_fits Hstep Hstep_max Hcount Hcount_range Htail
         upToId upToIn upToOut upToStep upToCount.
  assert (Hstep_range : INT_MIN <= signedValue false stepDigits <= INT_MAX).
  { cbn [signedValue]. split; [|exact Hstep_max].
    assert (0 <= numeralValue stepDigits).
    { apply numeralValue_nonneg; [|lia]. destruct Hstep as [_ Hd].
      exact (digits_of_chars _ _ Hd). }
    unfold INT_MIN. lia. }
  destruct (tickLine_signed_parts idChars inChars outChars stepChars countChars tail
              idDigits inDigits outDigits stepDigits countDigits bitWidth false false
              Hid Hid_max Hwidth Hin Hin_length Hin_fits Hout Hout_length Hout_fits
              Hstep Hstep_range Hcount Htail)
    as (H1 & H2 & H3 & H4 & H5 & H6 & H7 & H8 & H9 & H10).
  cbn [signedValue] in H9.
  destruct (INT_MIN <=? numeralValue countDigits) eqn:E1;
    [|unfold INT_MIN in E1; absurd_lia].
  destruct (numeralValue countDigits <=? INT_MAX) eqn:E2; [|absurd_lia].
  cbn [andb] in H9.
  split_all; [exact H1 | exact H2 | exact H3 | exact H4 | exact H5 | exact H6
              | exact H7 | exact H8 | exact H9 | exact H10].
Qed.

Section TickCommands.

Context (E : Engine).
Variable beyondSentinelPortValue : nat -> Z.
Variable beyondSentinelValue : nat -> Z.

Implicit Types st : Driver E.

Local Abbreviation process := (processCommand E beyondSentinelPortValue beyondSentinelValue).

(** The line [T <id> <in>,<out>-<timesteps>*<count>] parses to its parts. *)
Lemma scanTick_plain (idChars inChars outChars stepChars countChars : list ascii)
    (idDigits inDigits outDigits stepDigits countDigits : list Z) (bitWidth : Z)
    (setter : list Z -> EngineState E -> EngineState E) (lineEnd : Z) :
  let line := text "T " ++ idChars ++ " "%char :: inChars ++ ","%char :: outChars
                ++ "-"%char :: stepChars ++ "*"%char :: countChars ++ [newline] in
  let byteCount := Z.to_nat (byteCountOf bitWidth) in
  isNumeral idChars idDigits -> numeralValue idDigits <= INT_MAX ->
  port_setter E (numeralValue idDigits) = Some (bitWidth, setter) ->
  1 <= bitWidth <= INT_MAX - 7 ->
  isNumeral inChars inDigits -> (length inChars <= 2 * byteCount)%nat ->
  numeralValue inDigits < 2 ^ bitWidth ->
  isNumeral outChars outDigits -> (length outChars <= 2 * byteCount)%nat ->
  numeralValue outDigits < 2 ^ bitWidth ->
  isNumeral stepChars stepDigits -> numeralValue stepDigits <= INT_MAX ->
  isNumeral countChars countDigits -> 1 <= numeralValue countDigits <= INT_MAX ->
  scanTick E line 1 lineEnd
  = Scanned {| tickingPortID := numeralValue idDigits;
               tickingSetter := setter;
               inPhaseValue := bytesOf byteCount (numeralValue inDigits);
               outOfPhaseValue := bytesOf byteCount (numeralValue outDigits);
               timestepsPerPhase := numeralValue stepDigits;
               maxCycleCount := numeralValue countDigits;
               sentinel := None |}.
Proof.
  intros line byteCount Hid Hid_max Hport Hwidth Hin Hin_length Hin_fits
         Hout Hout_length Hout_fits Hstep Hstep_max Hcount Hcount_range.
  destruct (tickLine_parts idChars inChars outChars stepChars countChars [newline]
              idDigits inDigits outDigits stepDigits countDigits bitWidth
              Hid Hid_max Hwidth Hin Hin_length Hin_fits Hout Hout_length Hout_fits
              Hstep Hstep_max Hcount Hcount_range ltac:(repeat split; discriminate))
    as (H1 & H2 & H3 & H4 & H5 & H6 & H7 & H8 & H9 & H10).
  fold line byteCount in H1, H2, H3, H4, H5, H6, H7, H8, H9, H10.
  assert (Hnl : charAt line (Z.of_nat (length (
                  ((((text "T " ++ idChars) ++ " "%char :: inChars) ++ ","%char :: outChars)
                    ++ "-"%char :: stepChars) ++ "*"%char :: countChars))) = newline).
  { rewrite H10 at 1. apply charAt_app. }
  unfold scanTick. rewrite H1. cbn [scanBind].
  unfold resolveSettablePort. rewrite Hport.
  destruct (bitWidth <=? 0) eqn:E0; [absurd_lia|]. cbn [negb scanBind].
  unfold expect. rewrite H2. cbn [Ascii.eqb Bool.eqb scanBind].
  rewrite H3. cbn [scanBind]. rewrite H4. cbn [Ascii.eqb Bool.eqb scanBind].
  rewrite H5. cbn [scanBind]. rewrite H6. cbn [Ascii.eqb Bool.eqb scanBind].
  rewrite H7. cbn [scanBind]. rewrite H8. cbn [Ascii.eqb Bool.eqb scanBind].
  rewrite H9. cbn [scanBind].
  destruct (numeralValue countDigits <=? 0) eqn:E1; [absurd_lia|]. cbn [negb].
  rewrite Hnl. change (Ascii.eqb newline " ") with false. cbn [scanBind].
  rewrite Hnl. change (Ascii.eqb newline newline) with true. reflexivity.
Qed.

(** The line [T <id> <in>,<out>-<timesteps>*<count> <sentinel id>=<value>]
    parses to its parts. *)
Lemma scanTick_sentinel (idChars inChars outChars stepChars countChars : list ascii)
    (sentinelChars valueChars : list ascii)
    (idDigits inDigits outDigits stepDigits countDigits sentinelDigits valueDigits : list Z)
    (bitWidth sentinelWidth : Z)
    (setter : list Z -> EngineState E -> EngineState E)
    (getter : EngineState E -> list Z -> list Z) :
  let line := text "T " ++ idChars ++ " "%char :: inChars ++ ","%char :: outChars
                ++ "-"%char :: stepChars ++ "*"%char :: countChars
                ++ " "%char :: sentinelChars ++ "="%char :: valueChars ++ [newline] in
  let byteCount := Z.to_nat (byteCountOf bitWidth) in
  isNumeral idChars idDigits -> numeralValue idDigits <= INT_MAX ->
  port_setter E (numeralValue idDigits) = Some (bitWidth, setter) ->
  1 <= bitWidth <= INT_MAX - 7 ->
  isNumeral inChars inDigits -> (length inChars <= 2 * byteCount)%nat ->
  numeralValue inDigits < 2 ^ bitWidth ->
  isNumeral outChars outDigits -> (length outChars <= 2 * byteCount)%nat ->
  numeralValue outDigits < 2 ^ bitWidth ->
  isNumeral stepChars stepDigits -> numeralValue stepDigits <= INT_MAX ->
  isNumeral countChars countDigits -> 1 <= numeralValue countDigits <= INT_MAX ->
  isNumeral sentinelChars sentinelDigits -> numeralValue sentinelDigits <= INT_MAX ->
  port_getter E (numeralValue sentinelDigits) = Some (sentinelWidth, getter) ->
  1 <= sentinelWidth <= INT_MAX - 7 ->
  isNumeral valueChars valueDigits ->
  (length valueChars <= 2 * Z.to_nat (byteCountOf sentinelWidth))%nat ->
  numeralValue valueDigits < 2 ^ sentinelWidth ->
  scanTick E line 1 (Z.of_nat (length line) - 1)
  = Scanned {| tickingPortID := numeralValue idDigits;
               tickingSetter := setter;
               inPhaseValue := bytesOf byteCount (numeralValue inDigits);
               outOfPhaseValue := bytesOf byteCount (numeralValue outDigits);
               timestepsPerPhase := numeralValue stepDigits;
               maxCycleCount := numeralValue countDigits;
               sentinel :=
                 Some {| sentinelPortID := numeralValue sentinelDigits;
                         sentinelBitWidth := sentinelWidth;
                         sentinelGetter := getter;
                         sentinelValue :=
                           bytesOf (Z.to_nat (byteCountOf sentinelWidth))
                             (numeralValue valueDigits) |} |}.
Proof.
  intros line byteCount Hid Hid_max Hport Hwidth Hin Hin_length Hin_fits
         Hout Hout_length Hout_fits Hstep Hstep_max Hcount Hcount_range
         Hsid Hsid_max Hgetter Hswidth Hvalue Hvalue_length Hvalue_fits.
  set (tail := " "%char :: sentinelChars ++ "="%char :: valueChars ++ [newline]).
  destruct (tickLine_parts idChars inChars outChars stepChars countChars tail
              idDigits inDigits outDigits stepDigits countDigits bitWidth
              Hid Hid_max Hwidth Hin Hin_length Hin_fits Hout Hout_length Hout_fits
              Hstep Hstep_max Hcount Hcount_range ltac:(repeat split; discriminate))
    as (H1 & H2 & H3 & H4 & H5 & H6 & H7 & H8 & H9 & H10).
  assert (Hline : text "T " ++ idChars ++ " "%char :: inChars ++ ","%char :: outChars
                    ++ "-"%char :: stepChars ++ "*"%char :: countChars ++ tail = line)
    by reflexivity.
  rewrite Hline in H1, H2, H3, H4, H5, H6, H7, H8, H9, H10.
  fold byteCount in H3, H5.
  set (upToCount := ((((text "T " ++ idChars) ++ " "%char :: inChars)
                        ++ ","%char :: outChars) ++ "-"%char :: stepChars)
                      ++ "*"%char :: countChars) in *.
  set (upToSentinel := upToCount ++ " "%char :: sentinelChars).
  set (upToValue := upToSentinel ++ "="%char :: valueChars).
  assert (Hspace : charAt line (Z.of_nat (length upToCount)) = " "%char).
  { rewrite H10. apply charAt_app. }
  assert (Hscan : scanInt line (Z.of_nat (length upToCount) + 1)
                    (text "parsing sentinel port ID for TICK command")
                  = Scanned (numeralValue sentinelDigits, Z.of_nat (length upToSentinel))).
  { set (post := "="%char :: valueChars ++ [newline]).
    assert (Hshape : line = (upToCount ++ [" "%char]) ++ [] ++ sentinelChars ++ post)
      by (rewrite H10; unfold tail, post; same_line).
    replace (Z.of_nat (length upToCount) + 1)
      with (Z.of_nat (length (upToCount ++ [" "%char])))
      by (rewrite length_app; cbn [length]; lia).
    rewrite Hshape.
    rewrite (scanInt_port_id (upToCount ++ [" "%char]) [] sentinelChars post sentinelDigits
               (text "parsing sentinel port ID for TICK command"));
      [ | constructor | exact Hsid | repeat split; discriminate | exact Hsid_max].
    do 3 f_equal. unfold upToSentinel. cbn [app]. rewrite <- app_assoc. reflexivity. }
  assert (Hequals : charAt line (Z.of_nat (length upToSentinel)) = "="%char).
  { assert (Hshape : line = upToSentinel ++ "="%char :: (valueChars ++ [newline]))
      by (rewrite H10; unfold upToSentinel, tail; same_line).
    rewrite Hshape. apply charAt_app. }
  assert (Hshape : line = (upToSentinel ++ ["="%char]) ++ valueChars ++ newline :: [])
    by (rewrite H10; unfold upToSentinel, tail; same_line).
  assert (Hend : Z.of_nat (length line) - 1 = Z.of_nat (length upToValue)).
  { rewrite Hshape at 1. unfold upToValue. rewrite !length_app. cbn [length]. lia. }
  assert (Hbits : scanHexBits line (Z.of_nat (length upToSentinel) + 1)
                    (Z.of_nat (length line) - 1) sentinelWidth
                    (text "parsing sentinel value for TICK command")
                  = Scanned (bytesOf (Z.to_nat (byteCountOf sentinelWidth))
                               (numeralValue valueDigits),
                             Z.of_nat (length upToValue))).
  { pose proof (scanHexBits_value line (upToSentinel ++ ["="%char]) valueChars [] valueDigits
                  sentinelWidth (text "parsing sentinel value for TICK command") newline
                  Hshape Hswidth Hvalue Hvalue_length Hvalue_fits) as H.
    replace (Z.of_nat (length (upToSentinel ++ ["="%char])))
      with (Z.of_nat (length upToSentinel) + 1) in H
      by (rewrite length_app; cbn [length]; lia).
    replace (Z.of_nat (length upToSentinel) + 1 + Z.of_nat (length valueChars))
      with (Z.of_nat (length upToValue)) in H
      by (unfold upToValue; rewrite length_app; cbn [length]; lia).
    rewrite Hend. exact H. }
  assert (Hnl : charAt line (Z.of_nat (length upToValue)) = newline).
  { assert (Hshape' : line = upToValue ++ newline :: [])
      by (rewrite H10; unfold upToValue, upToSentinel, tail; same_line).
    rewrite Hshape' at 1. apply charAt_app. }
  unfold scanTick. rewrite H1. cbn [scanBind].
  unfold resolveSettablePort. rewrite Hport.
  destruct (bitWidth <=? 0) eqn:E0; [absurd_lia|]. cbn [negb scanBind].
  unfold expect. rewrite H2. cbn [Ascii.eqb Bool.eqb scanBind].
  rewrite H3. cbn [scanBind]. rewrite H4. cbn [Ascii.eqb Bool.eqb scanBind].
  rewrite H5. cbn [scanBind]. rewrite H6. cbn [Ascii.eqb Bool.eqb scanBind].
  rewrite H7. cbn [scanBind]. rewrite H8. cbn [Ascii.eqb Bool.eqb scanBind].
  rewrite H9. cbn [scanBind].
  destruct (numeralValue countDigits <=? 0) eqn:E1; [absurd_lia|]. cbn [negb].
  rewrite Hspace. cbn [Ascii.eqb Bool.eqb]. rewrite Hscan. cbn [scanBind].
  unfold resolveGettablePort. rewrite Hgetter.
  destruct (sentinelWidth <=? 0) eqn:E2; [absurd_lia|]. cbn [negb scanBind].
  rewrite Hequals. cbn [Ascii.eqb Bool.eqb scanBind].
  rewrite Hbits. cbn [scanBind].
  rewrite Hnl. change (Ascii.eqb newline newline) with true. reflexivity.
Qed.

Lemma no_newline_app a b : ~ In newline a -> ~ In newline b -> ~ In newline (a ++ b).
Proof. intros Ha Hb Hin. apply in_app_or in Hin. tauto. Qed.

Lemma no_newline_cons c l : c <> newline -> ~ In newline l -> ~ In newline (c :: l).
Proof. intros Hc Hl [H | H]; [exact (Hc H) | exact (Hl H)]. Qed.

(** X19 (TICK end to end): the line
    [T <id> <in>,<out>-<timesteps>*<count>], with hexadecimal numerals, a
    settable port [id] of width [W] and values that fit it, runs exactly
    [count] cycles - set the port to [in], advance by [timesteps], set it to
    [out], advance by [timesteps] - and answers with the BITS message of
    width 64 that carries [count]; the line is consumed. *)
Theorem tick_command_runs_cycles st
    (idChars inChars outChars stepChars countChars rest : list ascii)
    (idDigits inDigits outDigits stepDigits countDigits : list Z) (bitWidth : Z)
    (setter : list Z -> EngineState E -> EngineState E) :
  let id := numeralValue idDigits in
  let byteCount := Z.to_nat (byteCountOf bitWidth) in
  let inPhase := bytesOf byteCount (numeralValue inDigits) in
  let outOfPhase := bytesOf byteCount (numeralValue outDigits) in
  let timesteps := numeralValue stepDigits in
  let count := numeralValue countDigits in
  commandStream st
  = (text "T " ++ idChars ++ " "%char :: inChars ++ ","%char :: outChars
       ++ "-"%char :: stepChars ++ "*"%char :: countChars ++ [newline]) ++ rest ->
  isNumeral idChars idDigits -> id <= INT_MAX ->
  port_setter E id = Some (bitWidth, setter) ->
  1 <= bitWidth <= INT_MAX - 7 ->
  isNumeral inChars inDigits -> (length inChars <= 2 * byteCount)%nat ->
  numeralValue inDigits < 2 ^ bitWidth ->
  isNumeral outChars outDigits -> (length outChars <= 2 * byteCount)%nat ->
  numeralValue outDigits < 2 ^ bitWidth ->
  isNumeral stepChars stepDigits -> timesteps <= INT_MAX ->
  isNumeral countChars countDigits -> 1 <= count <= INT_MAX ->
  exists st',
    process st = Return tt st'
    /\ engineCalls st'
       = engineCalls st
         ++ concat (replicate (Z.to_nat count)
                      [CallSetter id inPhase; CallRunSimulation timesteps;
                       CallSetter id outOfPhase; CallRunSimulation timesteps])
    /\ messageStream st'
       = messageStream st ++ bitsMessage 64 (hexBytes (bytesOf 8 count))
    /\ commandStream st' = rest.
Proof.
  intros id byteCount inPhase outOfPhase timesteps count Hstream
         Hid Hid_max Hport Hwidth Hin Hin_length Hin_fits
         Hout Hout_length Hout_fits Hstep Hstep_max Hcount Hcount_range.
  set (line := text "T " ++ idChars ++ " "%char :: inChars ++ ","%char :: outChars
                 ++ "-"%char :: stepChars ++ "*"%char :: countChars ++ [newline]) in *.
  assert (Hnext : nextCommand st line rest).
  { split; [exact Hstream|].
    exists (text "T " ++ idChars ++ " "%char :: inChars ++ ","%char :: outChars
              ++ "-"%char :: stepChars ++ "*"%char :: countChars).
    split; [unfold line; same_line|].
    repeat first
      [ apply no_newline_app
      | apply no_newline_cons; [discriminate|]
      | exact (isNumeral_no_newline _ _ Hid)
      | exact (isNumeral_no_newline _ _ Hin)
      | exact (isNumeral_no_newline _ _ Hout)
      | exact (isNumeral_no_newline _ _ Hstep)
      | exact (isNumeral_no_newline _ _ Hcount) ].
    cbn. intuition discriminate. }
  pose proof (scanTick_plain idChars inChars outChars stepChars countChars
                idDigits inDigits outDigits stepDigits countDigits bitWidth setter
                (Z.of_nat (length line) - 1)
                Hid Hid_max Hport Hwidth Hin Hin_length Hin_fits
                Hout Hout_length Hout_fits Hstep Hstep_max Hcount Hcount_range) as Hscan.
  cbv zeta in Hscan. fold line byteCount in Hscan.
  rewrite (processCommand_next E _ _ st line rest Hnext).
  rewrite (dispatch_TICK E _ _ line _ _ eq_refl).
  unfold bind. rewrite (scanning_Scanned E _ _ _ Hscan).
  match goal with
  | |- context [runTick E _ _ ?t ?st1] =>
      destruct (runTick_no_sentinel E beyondSentinelPortValue beyondSentinelValue t st1
                  eq_refl Hcount_range) as (st' & Hrun & Hcalls & Hms);
      pose proof (runTick_effect E beyondSentinelPortValue beyondSentinelValue t st1
                    Hcount_range) as Heff
  end.
  rewrite Hrun in Heff. cbn [outcomeSatisfies] in Heff.
  destruct Heff as (_ & Hcs & _).
  destruct (afterRead_frame E st line rest) as (_ & Hc & Hm & He & _).
  exists st'. split; [exact Hrun|].
  rewrite Hcalls, Hms, Hcs, He, Hm, Hc. auto.
Qed.

(** X20 (TICK with a sentinel, end to end): the line
    [T <id> <in>,<out>-<timesteps>*<count> <sentinel id>=<value>] - the
    sentinel port and its value are joined by an equals sign - probes the
    sentinel port before every cycle, runs some number [n <= count] of
    cycles, stops below [count] only right after a probe, and answers with
    the BITS message of width 64 that carries [n]. *)
Theorem tick_command_with_sentinel st
    (idChars inChars outChars stepChars countChars sentinelChars valueChars rest : list ascii)
    (idDigits inDigits outDigits stepDigits countDigits sentinelDigits valueDigits : list Z)
    (bitWidth sentinelWidth : Z)
    (setter : list Z -> EngineState E -> EngineState E)
    (getter : EngineState E -> list Z -> list Z) :
  let id := numeralValue idDigits in
  let byteCount := Z.to_nat (byteCountOf bitWidth) in
  let inPhase := bytesOf byteCount (numeralValue inDigits) in
  let outOfPhase := bytesOf byteCount (numeralValue outDigits) in
  let timesteps := numeralValue stepDigits in
  let count := numeralValue countDigits in
  let sentinelId := numeralValue sentinelDigits in
  commandStream st
  = (text "T " ++ idChars ++ " "%char :: inChars ++ ","%char :: outChars
       ++ "-"%char :: stepChars ++ "*"%char :: countChars
       ++ " "%char :: sentinelChars ++ "="%char :: valueChars ++ [newline]) ++ rest ->
  isNumeral idChars idDigits -> id <= INT_MAX ->
  port_setter E id = Some (bitWidth, setter) ->
  1 <= bitWidth <= INT_MAX - 7 ->
  isNumeral inChars inDigits -> (length inChars <= 2 * byteCount)%nat ->
  numeralValue inDigits < 2 ^ bitWidth ->
  isNumeral outChars outDigits -> (length outChars <= 2 * byteCount)%nat ->
  numeralValue outDigits < 2 ^ bitWidth ->
  isNumeral stepChars stepDigits -> timesteps <= INT_MAX ->
  isNumeral countChars countDigits -> 1 <= count <= INT_MAX ->
  isNumeral sentinelChars sentinelDigits -> sentinelId <= INT_MAX ->
  port_getter E sentinelId = Some (sentinelWidth, getter) ->
  1 <= sentinelWidth <= INT_MAX - 7 ->
  isNumeral valueChars valueDigits ->
  (length valueChars <= 2 * Z.to_nat (byteCountOf sentinelWidth))%nat ->
  numeralValue valueDigits < 2 ^ sentinelWidth ->
  exists st' (n : nat),
    process st = Return tt st'
    /\ Z.of_nat n <= count
    /\ engineCalls st'
       = engineCalls st
         ++ concat (replicate n
                      [CallGetter sentinelId;
                       CallSetter id inPhase; CallRunSimulation timesteps;
                       CallSetter id outOfPhase; CallRunSimulation timesteps])
         ++ (if Z.of_nat n <? count then [CallGetter sentinelId] else [])
    /\ messageStream st'
       = messageStream st ++ bitsMessage 64 (hexBytes (bytesOf 8 (Z.of_nat n)))
    /\ commandStream st' = rest.
Proof.
  intros id byteCount inPhase outOfPhase timesteps count sentinelId Hstream
         Hid Hid_max Hport Hwidth Hin Hin_length Hin_fits
         Hout Hout_length Hout_fits Hstep Hstep_max Hcount Hcount_range
         Hsid Hsid_max Hgetter Hswidth Hvalue Hvalue_length Hvalue_fits.
  set (line := text "T " ++ idChars ++ " "%char :: inChars ++ ","%char :: outChars
                 ++ "-"%char :: stepChars ++ "*"%char :: countChars
                 ++ " "%char :: sentinelChars ++ "="%char :: valueChars ++ [newline]) in *.
  assert (Hnext : nextCommand st line rest).
  { split; [exact Hstream|].
    exists (text "T " ++ idChars ++ " "%char :: inChars ++ ","%char :: outChars
              ++ "-"%char :: stepChars ++ "*"%char :: countChars
              ++ " "%char :: sentinelChars ++ "="%char :: valueChars).
    split; [unfold line; same_line|].
    repeat first
      [ apply no_newline_app
      | apply no_newline_cons; [discriminate|]
      | exact (isNumeral_no_newline _ _ Hid)
      | exact (isNumeral_no_newline _ _ Hin)
      | exact (isNumeral_no_newline _ _ Hout)
      | exact (isNumeral_no_newline _ _ Hstep)
      | exact (isNumeral_no_newline _ _ Hcount)
      | exact (isNumeral_no_newline _ _ Hsid)
      | exact (isNumeral_no_newline _ _ Hvalue) ].
    cbn. intuition discriminate. }
  pose proof (scanTick_sentinel idChars inChars outChars stepChars countChars
                sentinelChars valueChars
                idDigits inDigits outDigits stepDigits countDigits sentinelDigits valueDigits
                bitWidth sentinelWidth setter getter
                Hid Hid_max Hport Hwidth Hin Hin_length Hin_fits
                Hout Hout_length Hout_fits Hstep Hstep_max Hcount Hcount_range
                Hsid Hsid_max Hgetter Hswidth Hvalue Hvalue_length Hvalue_fits) as Hscan.
  cbv zeta in Hscan. fold line byteCount in Hscan.
  rewrite (processCommand_next E _ _ st line rest Hnext).
  rewrite (dispatch_TICK E _ _ line _ _ eq_refl).
  unfold bind. rewrite (scanning_Scanned E _ _ _ Hscan).
  match goal with
  | |- context [runTick E _ _ ?t ?st1] =>
      destruct (runTick_cycles E beyondSentinelPortValue beyondSentinelValue t st1
                  Hcount_range) as (st' & n & Hrun & Hle & Hcalls & _ & Hms);
      pose proof (runTick_effect E beyondSentinelPortValue beyondSentinelValue t st1
                    Hcount_range) as Heff
  end.
  rewrite Hrun in Heff. cbn [outcomeSatisfies] in Heff.
  destruct Heff as (_ & Hcs & _).
  destruct (afterRead_frame E st line rest) as (_ & Hc & Hm & He & _).
  exists st', n. split; [exact Hrun|]. split; [exact Hle|].
  rewrite Hcalls, Hms, Hcs, He, Hm, Hc. auto.
Qed.

(** X21 (TICK, the out-of-phase value): the end of the out-of-phase value is
    searched as the first minus sign behind the comma, so an out-of-phase
    value that starts with a minus sign is cut to nothing: the command is
    refused with [Scanned value is empty], whatever follows, and the engine
    is not called. *)
Theorem tick_out_of_phase_cannot_be_negative st
    (idChars inChars more rest : list ascii) (idDigits inDigits : list Z) (bitWidth : Z)
    (setter : list Z -> EngineState E -> EngineState E) :
  commandStream st
  = (text "T " ++ idChars ++ " "%char :: inChars ++ ","%char :: "-"%char :: more
       ++ [newline]) ++ rest ->
  ~ In newline more ->
  isNumeral idChars idDigits -> numeralValue idDigits <= INT_MAX ->
  port_setter E (numeralValue idDigits) = Some (bitWidth, setter) ->
  1 <= bitWidth <= INT_MAX - 7 ->
  isNumeral inChars inDigits ->
  (length inChars <= 2 * Z.to_nat (byteCountOf bitWidth))%nat ->
  numeralValue inDigits < 2 ^ bitWidth ->
  exists st',
    process st = Exit st'
    /\ engineCalls st' = engineCalls st
    /\ messageStream st'
       = messageStream st ++ [MESSAGE_ERROR; " "%char]
         ++ text "Scanned value is empty when parsing out-of-phase value for TICK command."
         ++ [newline].
Proof.
  intros Hstream Hmore Hid Hid_max Hport Hwidth Hin Hin_length Hin_fits.
  set (line := text "T " ++ idChars ++ " "%char :: inChars ++ ","%char :: "-"%char :: more
                 ++ [newline]) in *.
  set (upToId := text "T " ++ idChars).
  set (upToIn := upToId ++ " "%char :: inChars).
  assert (Hnext : nextCommand st line rest).
  { split; [exact Hstream|].
    exists (text "T " ++ idChars ++ " "%char :: inChars ++ ","%char :: "-"%char :: more).
    split; [unfold line; same_line|].
    repeat first
      [ apply no_newline_app
      | apply no_newline_cons; [discriminate|]
      | exact (isNumeral_no_newline _ _ Hid)
      | exact (isNumeral_no_newline _ _ Hin)
      | exact Hmore ].
    cbn. intuition discriminate. }
  assert (Hplus : forall (pre : list ascii) c,
             Z.of_nat (length pre) + 1 = Z.of_nat (length (pre ++ [c]))).
  { intros pre c. rewrite length_app. cbn [length]. lia. }
  assert (H1 : scanInt line 1 (text "parsing ticking port ID for TICK command")
               = Scanned (numeralValue idDigits, Z.of_nat (length upToId))).
  { set (post := " "%char :: inChars ++ ","%char :: "-"%char :: more ++ [newline]).
    assert (Hshape : line = text "T" ++ text " " ++ idChars ++ post)
      by (unfold line, post; same_line).
    rewrite Hshape.
    pose proof (scanInt_port_id (text "T") (text " ") idChars post idDigits
                  (text "parsing ticking port ID for TICK command")) as H.
    change (Z.of_nat (length (text "T"))) with 1 in H.
    rewrite H; [reflexivity | repeat constructor | exact Hid
               | repeat split; discriminate | exact Hid_max]. }
  assert (H2 : charAt line (Z.of_nat (length upToId)) = " "%char).
  { assert (Hshape : line = upToId ++ " "%char :: (inChars ++ ","%char :: "-"%char :: more
                                                     ++ [newline]))
      by (unfold line, upToId; same_line).
    rewrite Hshape. apply charAt_app. }
  assert (H3 : scanHexBits line (Z.of_nat (length upToId) + 1)
                 (findNext line (Z.of_nat (length upToId) + 1) ",") bitWidth
                 (text "parsing in-phase value for TICK command")
               = Scanned (bytesOf (Z.to_nat (byteCountOf bitWidth)) (numeralValue inDigits),
                          Z.of_nat (length upToIn))).
  { rewrite (Hplus upToId " "%char).
    assert (Hshape : line = (upToId ++ [" "%char]) ++ inChars
                            ++ ","%char :: ("-"%char :: more ++ [newline]))
      by (unfold line, upToId; same_line).
    rewrite Hshape at 2.
    rewrite findNext_app
      by (first [exact (isNumeral_no_char _ _ _ Hin (eq_refl : hexDigitValue "," = None))
                | exact (isNumeral_no_char _ _ _ Hin (eq_refl : hexDigitValue NUL = None))]).
    rewrite (scanHexBits_value line (upToId ++ [" "%char]) inChars _ inDigits bitWidth _ _
               Hshape Hwidth Hin Hin_length Hin_fits).
    do 2 f_equal. unfold upToIn. rewrite !length_app. cbn [length]. lia. }
  assert (H4 : charAt line (Z.of_nat (length upToIn)) = ","%char).
  { assert (Hshape : line = upToIn ++ ","%char :: ("-"%char :: more ++ [newline]))
      by (unfold line, upToIn, upToId; same_line).
    rewrite Hshape. apply charAt_app. }
  assert (H5 : findNext line (Z.of_nat (length upToIn) + 1) "-"
               = Z.of_nat (length upToIn) + 1).
  { rewrite (Hplus upToIn ","%char).
    assert (Hshape : line = (upToIn ++ [","%char]) ++ "-"%char :: (more ++ [newline]))
      by (unfold line, upToIn, upToId; same_line).
    rewrite Hshape. apply findNext_here. }
  assert (Hscan : scanTick E line 1 (Z.of_nat (length line) - 1)
                  = Failed (text "Scanned value is empty when "
                            ++ text "parsing out-of-phase value for TICK command"
                            ++ text ".")).
  { unfold scanTick. rewrite H1. cbn [scanBind].
    unfold resolveSettablePort. rewrite Hport.
    destruct (bitWidth <=? 0) eqn:E0; [absurd_lia|]. cbn [negb scanBind].
    unfold expect. rewrite H2. cbn [Ascii.eqb Bool.eqb scanBind].
    rewrite H3. cbn [scanBind]. rewrite H4. cbn [Ascii.eqb Bool.eqb scanBind].
    rewrite H5. unfold scanHexBits at 1.
    destruct (Z.of_nat (length upToIn) + 1 - 1 <? Z.of_nat (length upToIn) + 1) eqn:E1;
      [|absurd_lia].
    reflexivity. }
  rewrite (processCommand_next E _ _ st line rest Hnext).
  rewrite (dispatch_TICK E _ _ line _ _ eq_refl).
  unfold bind. rewrite (scanning_Failed E _ _ _ Hscan).
  destruct (afterRead_frame E st line rest) as (_ & _ & Hm & He & _).
  eexists. split; [reflexivity|].
  match goal with
  | |- context [writeMessage E MESSAGE_ERROR ?message ?st1] =>
      pose proof (writeMessage_only E MESSAGE_ERROR message st1) as Ho
  end.
  rewrite (onlyMessages_engineCalls E _ _ Ho), messageStream_writeMessage, He, Hm.
  split; reflexivity.
Qed.

End TickCommands.

(** The TICK command of a one-bit clock on port 0, three cycles of ten
    timesteps per phase. *)
Lemma tick_command_runs_cycles_witness :
  let st := freshDriver demoEngine demoStart (commandLine "T 0 1,0-A*3") in
  exists st',
    processCommand demoEngine (filledWith 0) (filledWith 0) st = Return tt st'
    /\ engineCalls st'
       = concat (replicate 3 [CallSetter 0 [1]; CallRunSimulation 10;
                              CallSetter 0 [0]; CallRunSimulation 10])
    /\ messageStream st' = bitsMessage 64 (text "0000000000000003").
Proof.
  intros st.
  destruct (port_setter demoEngine 0) as [[w setter]|] eqn:Hport; [|discriminate Hport].
  assert (Hw : w = 1) by (vm_compute in Hport; congruence). subst w.
  destruct (tick_command_runs_cycles demoEngine (filledWith 0) (filledWith 0) st
              (text "0") (text "1") (text "0") (text "A") (text "3") []
              [0] [1] [0] [10] [3] 1 setter)
    as (st' & Hrun & Hcalls & Hms & _).
  - reflexivity.
  - split; [discriminate | repeat constructor].
  - vm_compute. discriminate.
  - exact Hport.
  - unfold INT_MAX. lia.
  - split; [discriminate | repeat constructor].
  - vm_compute. lia.
  - vm_compute. reflexivity.
  - split; [discriminate | repeat constructor].
  - vm_compute. lia.
  - vm_compute. reflexivity.
  - split; [discriminate | repeat constructor].
  - vm_compute. discriminate.
  - split; [discriminate | repeat constructor].
  - vm_compute. split; discriminate.
  - exists st'. split; [exact Hrun|]. split; [exact Hcalls | exact Hms].
Defined.

(** The same clock with port 7 as the sentinel: port 7 reads 1 once the
    simulation has been advanced ten times. *)
Lemma tick_command_with_sentinel_witness :
  let st := freshDriver demoEngine demoStart (commandLine "T 0 1,0-A*64 7=1") in
  exists st' (n : nat),
    processCommand demoEngine (filledWith 0) (filledWith 0) st = Return tt st'
    /\ Z.of_nat n <= 100
    /\ engineCalls st'
       = concat (replicate n [CallGetter 7; CallSetter 0 [1]; CallRunSimulation 10;
                              CallSetter 0 [0]; CallRunSimulation 10])
         ++ (if Z.of_nat n <? 100 then [CallGetter 7] else [])
    /\ messageStream st' = bitsMessage 64 (hexBytes (bytesOf 8 (Z.of_nat n))).
Proof.
  intros st.
  destruct (port_setter demoEngine 0) as [[w setter]|] eqn:Hport; [|discriminate Hport].
  assert (Hw : w = 1) by (vm_compute in Hport; congruence). subst w.
  destruct (port_getter demoEngine 7) as [[sw getter]|] eqn:Hgetter; [|discriminate Hgetter].
  assert (Hsw : sw = 1) by (vm_compute in Hgetter; congruence). subst sw.
  destruct (tick_command_with_sentinel demoEngine (filledWith 0) (filledWith 0) st
              (text "0") (text "1") (text "0") (text "A") (text "64") (text "7") (text "1") []
              [0] [1] [0] [10] [6; 4] [7] [1] 1 1 setter getter)
    as (st' & n & Hrun & Hle & Hcalls & Hms & _).
  - reflexivity.
  - split; [discriminate | repeat constructor].
  - vm_compute. discriminate.
  - exact Hport.
  - unfold INT_MAX. lia.
  - split; [discriminate | repeat constructor].
  - vm_compute. lia.
  - vm_compute. reflexivity.
  - split; [discriminate | repeat constructor].
  - vm_compute. lia.
  - vm_compute. reflexivity.
  - split; [discriminate | repeat constructor].
  - vm_compute. discriminate.
  - split; [discriminate | repeat constructor].
  - vm_compute. split; discriminate.
  - split; [discriminate | repeat constructor].
  - vm_compute. discriminate.
  - exact Hgetter.
  - unfold INT_MAX. lia.
  - split; [discriminate | repeat constructor].
  - vm_compute. lia.
  - vm_compute. reflexivity.
  - exists st', n. split; [exact Hrun|]. split; [exact Hle|].
    split; [exact Hcalls | exact Hms].
Defined.

(** [T 0 1,-1-A*3]: the out-of-phase value [-1] is cut at its own sign. *)
Lemma tick_out_of_phase_cannot_be_negative_witness :
  let st := freshDriver demoEngine demoStart (commandLine "T 0 1,-1-A*3") in
  exists st',
    processCommand demoEngine (filledWith 0) (filledWith 0) st = Exit st'
    /\ engineCalls st' = []
    /\ messageStream st'
       = commandLine
           "e Scanned value is empty when parsing out-of-phase value for TICK command.".
Proof.
  intros st.
  destruct (port_setter demoEngine 0) as [[w setter]|] eqn:Hport; [|discriminate Hport].
  assert (Hw : w = 1) by (vm_compute in Hport; congruence). subst w.
  destruct (tick_out_of_phase_cannot_be_negative demoEngine (filledWith 0) (filledWith 0) st
              (text "0") (text "1") (text "1-A*3") [] [0] [1] 1 setter)
    as (st' & Hrun & Hcalls & Hms).
  - reflexivity.
  - cbn. intuition discriminate.
  - split; [discriminate | repeat constructor].
  - vm_compute. discriminate.
  - exact Hport.
  - unfold INT_MAX. lia.
  - split; [discriminate | repeat constructor].
  - vm_compute. lia.
  - vm_compute. reflexivity.
  - exists st'. split; [exact Hrun|]. split; [exact Hcalls | exact Hms].
Defined.

(** ** The record of messages in the execution script *)

Lemma renderScript_app a b : renderScript (a ++ b) = renderScript a ++ renderScript b.
Proof. unfold renderScript. rewrite map_app, concat_app. reflexivity. Qed.

Section Record.

Context (E : Engine).
Variable beyondSentinelPortValue : nat -> Z.
Variable beyondSentinelValue : nat -> Z.

Implicit Types st : Driver E.

Local Abbreviation process := (processCommand E beyondSentinelPortValue beyondSentinelValue).
Local Abbreviation dispatch := (dispatchCommand E beyondSentinelPortValue beyondSentinelValue).
Local Abbreviation shouldLog := (shouldLogMessageToExecutionScript E).

Lemma option_map_app_nil (script : option (list ScriptEntry)) :
  option_map (fun s => s ++ []) script = script.
Proof. destruct script; cbn; [rewrite app_nil_r|]; reflexivity. Qed.

Lemma option_map_app_app (script : option (list ScriptEntry)) a b :
  option_map (fun s => s ++ b) (option_map (fun s => s ++ a) script)
  = option_map (fun s => s ++ a ++ b) script.
Proof. destruct script; cbn; [rewrite app_assoc|]; reflexivity. Qed.

Lemma shouldLog_same st st' :
  executionScript st' = option_map (fun s => s ++ []) (executionScript st)
  \/ (exists entries,
        executionScript st'
        = option_map (fun s => s ++ entries) (executionScript st)) ->
  executionScriptLimit st' = executionScriptLimit st ->
  executionScriptMessageCount st' = executionScriptMessageCount st ->
  shouldLog st' = shouldLog st.
Proof.
  intros Hs Hl Hc. unfold shouldLogMessageToExecutionScript. rewrite Hl, Hc.
  assert (Hsome : exists entries,
             executionScript st'
             = option_map (fun s => s ++ entries) (executionScript st)).
  { destruct Hs as [Hs | Hs]; [exists []; exact Hs | exact Hs]. }
  destruct Hsome as (entries & ->). destruct (executionScript st); reflexivity.
Qed.

Lemma onlyMessages_limit st st' :
  onlyMessages st st' -> executionScriptLimit st' = executionScriptLimit st.
Proof. intros H. rewrite H. reflexivity. Qed.

Lemma mirrored_refl st : mirrored st st [].
Proof.
  split; [apply onlyMessages_refl|]. split; [reflexivity|].
  split; [rewrite app_nil_r; reflexivity|].
  exists []. rewrite option_map_app_nil. split; [reflexivity|].
  destruct (shouldLog st); reflexivity.
Qed.

Lemma mirrored_shouldLog st st' out : mirrored st st' out -> shouldLog st' = shouldLog st.
Proof.
  intros (Ho & Hc & _ & entries & Hs & _).
  apply shouldLog_same; [right; exists entries; exact Hs | | exact Hc].
  exact (onlyMessages_limit _ _ Ho).
Qed.

Lemma mirrored_trans st1 st2 st3 a b :
  mirrored st1 st2 a -> mirrored st2 st3 b -> mirrored st1 st3 (a ++ b).
Proof.
  intros H12 H23. pose proof (mirrored_shouldLog _ _ _ H12) as Hlog.
  destruct H12 as (Ho1 & Hc1 & Hm1 & es1 & Hs1 & Hr1).
  destruct H23 as (Ho2 & Hc2 & Hm2 & es2 & Hs2 & Hr2).
  split; [exact (onlyMessages_trans E _ _ _ Ho1 Ho2)|].
  split; [congruence|].
  split; [rewrite Hm2, Hm1, app_assoc; reflexivity|].
  exists (es1 ++ es2). split.
  - rewrite Hs2, Hs1. apply option_map_app_app.
  - rewrite renderScript_app, Hr1, Hr2, Hlog. destruct (shouldLog st1); reflexivity.
Qed.

Lemma writeMessageBody_mirrored body st : mirrored st (writeMessageBody E body st) body.
Proof.
  split; [apply writeMessageBody_only|].
  unfold writeMessageBody.
  assert (Hlog : shouldLog (set_messageStream E (fun out => out ++ body) st) = shouldLog st)
    by reflexivity.
  rewrite Hlog. destruct (shouldLog st).
  - split; [reflexivity|]. split; [reflexivity|].
    exists [ScriptMessageText body]. split; [reflexivity|].
    cbn [renderScript map concat renderEntry]. apply app_nil_r.
  - split; [reflexivity|]. split; [reflexivity|].
    exists []. split; [symmetry; apply option_map_app_nil | reflexivity].
Qed.

Lemma sendBytes_mirrored count : forall bytes st,
  exists digits, mirrored st (sendBytes E count bytes st) digits.
Proof.
  induction count as [|i IH]; intros bytes st; cbn [sendBytes].
  - exists []. apply mirrored_refl.
  - destruct (IH bytes (writeMessageBody E (hex02 (byteAt bytes (Z.of_nat i))) st))
      as (digits & Hd).
    eexists. eapply mirrored_trans; [apply writeMessageBody_mirrored | exact Hd].
Qed.

(** A message is a start, pieces and an end. *)
Lemma message_recorded c body st st2 :
  mirrored (writeMessageStart E c st) st2 body ->
  messageRecorded st (writeMessageEnd E st2).
Proof.
  intros Hbody. pose proof (mirrored_shouldLog _ _ _ Hbody) as Hlog2.
  destruct Hbody as (Ho & Hc & Hm & entries & Hs & Hr).
  assert (Hstart : executionScriptMessageCount (writeMessageStart E c st)
                   = executionScriptMessageCount st
                   /\ executionScriptLimit (writeMessageStart E c st)
                      = executionScriptLimit st
                   /\ messageStream (writeMessageStart E c st)
                      = messageStream st ++ [c; " "%char]
                   /\ shouldLog (writeMessageStart E c st) = shouldLog st
                   /\ executionScript (writeMessageStart E c st)
                      = option_map
                          (fun s => s ++ (if shouldLog st then
                                            [ScriptMessageStart (executionScriptMessageCount st) c]
                                          else []))
                          (executionScript st)).
  { unfold writeMessageStart. destruct (shouldLog st) eqn:Hlog.
    - split_all; try reflexivity.
      unfold shouldLogMessageToExecutionScript in *.
      cbn [executionScript set_messageStream writeScript set_executionScript
             executionScriptLimit executionScriptMessageCount].
      destruct (executionScript st); [exact Hlog | discriminate Hlog].
    - split_all; try reflexivity.
      + exact Hlog.
      + symmetry. apply option_map_app_nil. }
  destruct Hstart as (Hc0 & Hl0 & Hm0 & Hlog0 & Hs0).
  rewrite Hlog0 in Hlog2, Hr.
  assert (Hend : messageStream (writeMessageEnd E st2) = messageStream st2 ++ [newline]
                 /\ executionScriptMessageCount (writeMessageEnd E st2)
                    = wrap_int (executionScriptMessageCount st2 + 1)
                 /\ executionScriptLimit (writeMessageEnd E st2) = executionScriptLimit st2
                 /\ executionScript (writeMessageEnd E st2)
                    = option_map
                        (fun s => s ++ (if shouldLog st2 then [ScriptMessageText [newline]]
                                        else []))
                        (executionScript st2)).
  { unfold writeMessageEnd.
    assert (Hl : shouldLog (set_messageStream E (fun out => out ++ [newline]) st2)
                 = shouldLog st2) by reflexivity.
    rewrite Hl. destruct (shouldLog st2); split_all; try reflexivity.
    symmetry. apply option_map_app_nil. }
  destruct Hend as (Hm3 & Hc3 & Hl3 & Hs3).
  exists ([c; " "%char] ++ body ++ [newline]).
  eexists.
  split; [rewrite Hm3, Hm, Hm0, <- !app_assoc; reflexivity|].
  split; [rewrite Hs3, Hs, Hs0, !option_map_app_app; reflexivity|].
  split.
  - rewrite !renderScript_app, Hr, Hlog2. unfold messageRecord.
    destruct (shouldLog st).
    + cbn [renderScript map concat renderEntry]. rewrite !app_nil_r, <- !app_assoc.
      reflexivity.
    + reflexivity.
  - rewrite Hc3, Hc, Hc0, Hl3, (onlyMessages_limit _ _ Ho), Hl0. split; reflexivity.
Qed.

Lemma writeMessage_recorded c body st : messageRecorded st (writeMessage E c body st).
Proof.
  unfold writeMessage. apply (message_recorded c body). apply writeMessageBody_mirrored.
Qed.

Lemma sendBits_recorded bytes bitCount isSigned st :
  outcomeSatisfies (sendBits E bytes bitCount isSigned st)
    (fun _ st' => messageRecorded st st') (fun st' => messageRecorded st st').
Proof.
  unfold sendBits.
  destruct (bitCount <=? 0).
  { rewrite failWithError_eq. apply writeMessage_recorded. }
  destruct (isSigned && (bitCount <=? 1)).
  { rewrite failWithError_eq. apply writeMessage_recorded. }
  set (st1 := writeMessageStart E MESSAGE_BITS st).
  set (st2 := writeMessageBody E (hex08 bitCount ++ text " ") st1).
  pose proof (writeMessageBody_mirrored (hex08 bitCount ++ text " ") st1) as H12.
  fold st2 in H12.
  destruct isSigned.
  - destruct (negb (Z.land (byteAt bytes _) (signBitMask bitCount) =? 0)).
    + cbn [outcomeSatisfies].
      match goal with
      | |- messageRecorded st (writeMessageEnd E (sendBytes E ?n ?b ?st3)) =>
          destruct (sendBytes_mirrored n b st3) as (digits & Hd)
      end.
      eapply message_recorded. fold st1.
      eapply mirrored_trans; [exact H12|].
      eapply mirrored_trans; [apply writeMessageBody_mirrored | exact Hd].
    + cbn [outcomeSatisfies].
      match goal with
      | |- messageRecorded st (writeMessageEnd E (sendBytes E ?n ?b ?st3)) =>
          destruct (sendBytes_mirrored n b st3) as (digits & Hd)
      end.
      eapply message_recorded. fold st1.
      eapply mirrored_trans; [exact H12 | exact Hd].
  - cbn [outcomeSatisfies].
    match goal with
    | |- messageRecorded st (writeMessageEnd E (sendBytes E ?n ?b ?st3)) =>
        destruct (sendBytes_mirrored n b st3) as (digits & Hd)
    end.
    eapply message_recorded. fold st1.
    eapply mirrored_trans; [exact H12 | exact Hd].
Qed.

Lemma messageRecorded_same st st1 st' :
  sameMessageSide st st1 -> messageRecorded st1 st' -> messageRecorded st st'.
Proof.
  intros (Hm & Hs & Hc & Hl) (out & entries & Hm' & Hs' & Hr & Hc' & Hl').
  exists out, entries. unfold messageRecord, shouldLogMessageToExecutionScript in *.
  rewrite <- Hm, <- Hs, <- Hc, <- Hl. auto.
Qed.

Lemma onlyEngine_sameMessages st st1 : onlyEngine st st1 -> sameMessageSide st st1.
Proof. intros H. rewrite H. repeat split. Qed.

(** Whatever the line, a command leaves the message side alone (DONE) or
    writes one message that the script records whole or not at all. *)
Lemma dispatchCommand_recorded line lineCursor lineEnd st :
  outcomeSatisfies (dispatch line lineCursor lineEnd st)
    (fun _ st' =>
       if Ascii.eqb (charAt line lineCursor) COMMAND_DONE then sameMessageSide st st'
       else messageRecorded st st')
    (fun st' => messageRecorded st st').
Proof.
  unfold dispatchCommand.
  destruct (Ascii.eqb (charAt line lineCursor) COMMAND_DONE).
  { cbn [step outcomeSatisfies]. repeat split. }
  assert (Hack : forall st1, sameMessageSide st st1 ->
                   messageRecorded st (writeMessage E MESSAGE_ACK (text "ack") st1)).
  { intros st1 H1. eapply messageRecorded_same; [exact H1 | apply writeMessage_recorded]. }
  assert (Herror : forall message,
             messageRecorded st (writeMessage E MESSAGE_ERROR message st)).
  { intros message. apply writeMessage_recorded. }
  assert (Hbits : forall bytes bitCount isSigned st1,
             sameMessageSide st st1 ->
             outcomeSatisfies (sendBits E bytes bitCount isSigned st1)
               (fun _ st' => messageRecorded st st') (fun st' => messageRecorded st st')).
  { intros bytes bitCount isSigned st1 H1.
    eapply outcomeSatisfies_mono; [apply sendBits_recorded | |];
      intros; eapply messageRecorded_same; eassumption. }
  destruct (Ascii.eqb (charAt line lineCursor) COMMAND_LOG).
  { unfold sendLog.
    set (st0 := match log st with None => set_log E (Some 0) st | Some _ => st end).
    assert (H0 : sameMessageSide st st0) by (unfold st0; destruct (log st); repeat split).
    destruct (Z.of_nat (length (simulationLog st0)) <? _).
    { rewrite failWithError_eq. cbn [outcomeSatisfies].
      eapply messageRecorded_same; [exact H0 | apply writeMessage_recorded]. }
    destruct (_ >? UINT32_MAX).
    { rewrite failWithError_eq. cbn [outcomeSatisfies].
      eapply messageRecorded_same; [exact H0 | apply writeMessage_recorded]. }
    cbn [outcomeSatisfies].
    eapply messageRecorded_same; [|apply writeMessage_recorded].
    destruct H0 as (Hm & Hs & Hc & Hl). repeat split; assumption. }
  destruct (Ascii.eqb (charAt line lineCursor) COMMAND_SET_BITS).
  { apply scanning_effect; [|exact Herror].
    intros [[id setter] data] _. unfold bind, step. rewrite sendAck_eq.
    cbn [outcomeSatisfies]. apply Hack, onlyEngine_sameMessages, callSetter_only. }
  destruct (Ascii.eqb (charAt line lineCursor) COMMAND_GET_BITS).
  { apply scanning_effect; [|exact Herror].
    intros [[[isSigned id] bitWidth] getter] _. unfold callGetter.
    apply Hbits, onlyEngine_sameMessages, engineStep_only. }
  destruct (Ascii.eqb (charAt line lineCursor) COMMAND_RUN).
  { apply scanning_effect; [|exact Herror].
    intros time _. unfold bind, step. rewrite sendAck_eq.
    cbn [outcomeSatisfies]. apply Hack, onlyEngine_sameMessages, callRunSimulation_only. }
  destruct (Ascii.eqb (charAt line lineCursor) COMMAND_TICK).
  { apply scanning_effect; [|exact Herror].
    intros t Hscan. unfold runTick.
    destruct (tickLoop E _ _ _ t _ 0 st) as [[cycles st1]|] eqn:Hloop.
    - apply Hbits, onlyEngine_sameMessages. exact (tickLoop_only E _ _ _ _ _ _ _ _ _ Hloop).
    - pose proof (runTick_effect E beyondSentinelPortValue beyondSentinelValue t st
                    (scanTick_maxCycleCount E _ _ _ _ Hscan)) as Hrun.
      unfold runTick in Hrun. rewrite Hloop in Hrun. contradiction. }
  destruct (Ascii.eqb (charAt line lineCursor) COMMAND_TRACE).
  { apply scanning_effect; [|exact Herror].
    intros argument _. unfold runTrace. rewrite sendAck_eq. cbn [outcomeSatisfies].
    apply Hack.
    destruct (Ascii.eqb argument "1");
      [destruct (negb (traceInitialized st)); repeat split|].
    destruct (Ascii.eqb argument "0"); repeat split. }
  rewrite failWithError_eq. cbn [outcomeSatisfies]. apply Herror.
Qed.

(** X22 (the record of messages): every message that a command writes on the
    message stream - its response, or the error message that ends the
    process - goes to the execution script as one unit, the text of the
    message behind [<n>< ] with [n] the count of messages so far, or, once
    the count has reached the limit, not at all: the script never holds a
    part of a message. A DONE command writes no message and leaves the
    record of messages as it is. The state in which the message is written
    is the one behind the read of the line, which has recorded the
    command. *)
Theorem messages_are_recorded_whole st :
  outcomeSatisfies (process st)
    (fun _ st' =>
       exists line rest,
         nextCommand st line rest
         /\ if Ascii.eqb (charAt line 0) COMMAND_DONE then
              sameMessageSide (afterRead st line rest) st'
            else messageRecorded (afterRead st line rest) st')
    (fun st' =>
       exists buffer stream, messageRecorded (afterRead st buffer stream) st').
Proof.
  unfold processCommand. apply outcomeSatisfies_bind.
  eapply outcomeSatisfies_mono; [apply readCommand_effect | |].
  - intros [lineCursor lineEnd] st1 (line & rest & Hnext & -> & -> & ->).
    fold (afterRead st line rest).
    destruct (afterRead_frame E st line rest) as (Hbuf & _). rewrite Hbuf.
    eapply outcomeSatisfies_mono; [apply dispatchCommand_recorded | |].
    + intros u st' H. cbv beta in H. exists line, rest. split; [exact Hnext | exact H].
    + intros st' H. exists line, rest. exact H.
  - intros st' (stream & buffer & message & ->).
    exists buffer, stream. apply writeMessage_recorded.
Qed.

End Record.

(** With a script and the limit 1, the response to the first command is the
    second message and is not recorded. *)
Lemma messages_are_recorded_whole_witness :
  let st := writeMessage demoEngine MESSAGE_READY (text "ready")
              (initialDriver demoEngine true 1 (commandLine "R 1") (text "trace") demoStart) in
  exists st',
    processCommand demoEngine (filledWith 0) (filledWith 0) st = Return tt st'
    /\ option_map renderScript (executionScript st')
       = Some (commandLine "0< r ready" ++ commandLine "1> R 1"
               ++ commandLine "# Execution script limited to 1 commands (not counting implicit 'Done')."
               ++ commandLine "2> D")
    /\ exists line rest,
         nextCommand st line rest
         /\ if Ascii.eqb (charAt line 0) COMMAND_DONE then
              sameMessageSide (afterRead st line rest) st'
            else messageRecorded (afterRead st line rest) st'.
Proof.
  intros st.
  pose proof (messages_are_recorded_whole demoEngine (filledWith 0) (filledWith 0) st) as H.
  destruct (processCommand demoEngine (filledWith 0) (filledWith 0) st)
    as [[] st' | st' |] eqn:Hrun; [| vm_compute in Hrun; discriminate Hrun ..].
  cbn [outcomeSatisfies] in H.
  exists st'. split; [reflexivity|]. split; [|exact H].
  vm_compute in Hrun. injection Hrun as <-. vm_compute. reflexivity.
Defined.

(** ** The execution script under a limit, over a session (claim C7) *)









Section ScriptLimit.

Context (E : Engine).
Variable beyondSentinelPortValue : nat -> Z.
Variable beyondSentinelValue : nat -> Z.

Implicit Types st : Driver E.

Local Abbreviation process := (processCommand E beyondSentinelPortValue beyondSentinelValue).
Local Abbreviation commands := (commandLoop E beyondSentinelPortValue beyondSentinelValue).
Local Abbreviation body := (simulation_body E beyondSentinelPortValue beyondSentinelValue).






End ScriptLimit.


(** ** TICK and RUN on the text of their lines (claims C5 and C6) *)

Lemma engineAfter_app (E : Engine) calls1 : forall calls2 (e : EngineState E),
  engineAfter E (calls1 ++ calls2) e
  = let '(e1, printed1) := engineAfter E calls1 e in
    let '(e2, printed2) := engineAfter E calls2 e1 in
    (e2, printed1 ++ printed2).
Proof.
  induction calls1 as [|call calls1 IH]; intros calls2 e; cbn [app engineAfter].
  - destruct (engineAfter E calls2 e). reflexivity.
  - destruct (engineCall E call e) as [e1 printed]. rewrite IH.
    destruct (engineAfter E calls1 e1) as [e2 printed1].
    destruct (engineAfter E calls2 e2) as [e3 printed2].
    rewrite app_assoc. reflexivity.
Qed.

Lemma signChars_no_newline negative : ~ In newline (signChars negative).
Proof. destruct negative; cbn; intuition discriminate. Qed.

Section TickClaims.

Context (E : Engine).
Variable beyondSentinelPortValue : nat -> Z.
Variable beyondSentinelValue : nat -> Z.

Implicit Types st : Driver E.

Local Abbreviation process := (processCommand E beyondSentinelPortValue beyondSentinelValue).
Local Abbreviation run := (runTick E beyondSentinelPortValue beyondSentinelValue).

(** *** What the calls do to the engine *)

Lemma engineWent_refl st : engineWent st st [].
Proof. unfold engineWent. cbn [engineAfter fst snd]. rewrite !app_nil_r. auto. Qed.

Lemma engineWent_trans st st1 st2 calls1 calls2 :
  engineWent st st1 calls1 -> engineWent st1 st2 calls2 ->
  engineWent st st2 (calls1 ++ calls2).
Proof.
  intros (Hc1 & He1 & Hs1) (Hc2 & He2 & Hs2). unfold engineWent.
  rewrite engineAfter_app.
  destruct (engineAfter E calls1 (engine st)) as [e1 printed1].
  cbn [fst snd] in He1, Hs1. rewrite He1 in He2, Hs2.
  destruct (engineAfter E calls2 e1) as [e2 printed2].
  cbn [fst snd] in *. rewrite Hc2, Hc1, He2, Hs2, Hs1, !app_assoc. auto.
Qed.

Lemma callSetter_went id setter bitWidth data st :
  port_setter E id = Some (bitWidth, setter) ->
  engineWent st (callSetter E id setter data st) [CallSetter id data].
Proof.
  intros Hport. unfold engineWent, callSetter.
  cbn [engineStep engineCalls engine simulationLog engineAfter engineCall].
  rewrite Hport. cbn [fst snd app]. auto.
Qed.

Lemma callRunSimulation_went timesteps st :
  engineWent st (callRunSimulation E timesteps st) [CallRunSimulation timesteps].
Proof.
  unfold engineWent, callRunSimulation. cbn [engineAfter engineCall].
  destruct (run_simulation E timesteps (engine st)) as [next printed].
  cbn [engineStep engineCalls engine simulationLog fst snd]. rewrite app_nil_r. auto.
Qed.

Lemma cycleStep_went (t : Tick E) bitWidth st :
  port_setter E (tickingPortID E t) = Some (bitWidth, tickingSetter E t) ->
  engineWent st (cycleStep E t st) (cycleCalls t).
Proof.
  intros Hport. unfold cycleStep.
  change (cycleCalls t)
    with ([CallSetter (tickingPortID E t) (inPhaseValue E t)]
          ++ [CallRunSimulation (timestepsPerPhase E t)]
          ++ [CallSetter (tickingPortID E t) (outOfPhaseValue E t)]
          ++ [CallRunSimulation (timestepsPerPhase E t)]).
  eapply engineWent_trans; [exact (callSetter_went _ _ _ _ _ Hport)|].
  eapply engineWent_trans; [apply callRunSimulation_went|].
  eapply engineWent_trans; [exact (callSetter_went _ _ _ _ _ Hport)|].
  apply callRunSimulation_went.
Qed.

(** The engine goes through the cycles of a TICK command one after the
    other. *)
Lemma cycleSteps_went n : forall (t : Tick E) bitWidth st,
  port_setter E (tickingPortID E t) = Some (bitWidth, tickingSetter E t) ->
  engineWent st (cycleSteps E n t st) (concat (replicate n (cycleCalls t))).
Proof.
  induction n as [|n IH]; intros t w st Hport; cbn [cycleSteps replicate concat].
  - apply engineWent_refl.
  - eapply engineWent_trans; [exact (cycleStep_went t w st Hport) | exact (IH t w _ Hport)].
Qed.

(** The cycles and the answer of a TICK command without sentinel: all its
    cycles, and then nothing but the message. *)
Lemma runTick_plain (t : Tick E) st :
  sentinel E t = None -> 1 <= maxCycleCount E t <= INT_MAX ->
  exists st',
    run t st = Return tt st'
    /\ onlyMessages (cycleSteps E (Z.to_nat (maxCycleCount E t)) t st) st'
    /\ messageStream st'
       = messageStream st ++ bitsMessage 64 (hexBytes (bytesOf 8 (maxCycleCount E t))).
Proof.
  intros Hs Hn. unfold runTick. rewrite Hs.
  rewrite tickLoop_no_sentinel by (auto; lia). rewrite Z.sub_0_r.
  replace (wrap_int (maxCycleCount E t + 1) - 1)
    with (wrap_int (maxCycleCount E t + 1) + -1) by lia.
  rewrite wrap_int_add_l.
  replace (maxCycleCount E t + 1 + -1) with (maxCycleCount E t) by lia.
  rewrite wrap_int_id by (unfold INT_MIN, INT_MAX in *; lia).
  set (n := maxCycleCount E t) in *.
  set (st1 := cycleSteps E (Z.to_nat n) t st).
  destruct (sendBits_encodes E false 64 n st1) as (st' & Hsend & Hms).
  - unfold INT_MAX. lia.
  - discriminate.
  - unfold inRange. unfold INT_MAX in Hn. lia.
  - exists st'. split; [exact Hsend|]. split.
    + pose proof (sendBits_effect E (bufferOf 64 n) 64 false st1) as Heff.
      rewrite Hsend in Heff. destruct Heff as (Ho' & _). exact Ho'.
    + rewrite Hms. unfold st1.
      rewrite (onlyEngine_messageStream E _ _ (cycleSteps_only E _ _ _)).
      unfold encodedText, encodedSign, encodedMagnitude. cbn [andb app]. reflexivity.
Qed.

(** *** The line of a TICK command without sentinel *)

(** The line [T <id> <in>,<out>-<timesteps>*<count>], where the timesteps
    and the count may carry a minus sign: the count is the only part whose
    sign is looked at. Whatever follows a count that is not positive is not
    looked at either. *)
Lemma scanTick_signed_line (idChars inChars outChars stepChars countChars tail : list ascii)
    (idDigits inDigits outDigits stepDigits countDigits : list Z) (bitWidth : Z)
    (stepNegative countNegative : bool)
    (setter : list Z -> EngineState E -> EngineState E) (lineEnd : Z) :
  let line := text "T " ++ idChars ++ " "%char :: inChars ++ ","%char :: outChars
                ++ "-"%char :: signChars stepNegative ++ stepChars
                ++ "*"%char :: signChars countNegative ++ countChars
                ++ tail ++ [newline] in
  let byteCount := Z.to_nat (byteCountOf bitWidth) in
  let count := signedValue countNegative countDigits in
  isNumeral idChars idDigits -> numeralValue idDigits <= INT_MAX ->
  port_setter E (numeralValue idDigits) = Some (bitWidth, setter) ->
  1 <= bitWidth <= INT_MAX - 7 ->
  isNumeral inChars inDigits -> (length inChars <= 2 * byteCount)%nat ->
  numeralValue inDigits < 2 ^ bitWidth ->
  isNumeral outChars outDigits -> (length outChars <= 2 * byteCount)%nat ->
  numeralValue outDigits < 2 ^ bitWidth ->
  isNumeral stepChars stepDigits ->
  INT_MIN <= signedValue stepNegative stepDigits <= INT_MAX ->
  isNumeral countChars countDigits ->
  endsNumeral (charAt (tail ++ [newline]) 0) ->
  (0 < count -> tail = []) ->
  scanTick E line 1 lineEnd
  = if (INT_MIN <=? count) && (count <=? INT_MAX) then
      if count <=? 0 then
        Failed (text "Max cycle count for TICK command should be greater than 0.")
      else
        Scanned {| tickingPortID := numeralValue idDigits;
                   tickingSetter := setter;
                   inPhaseValue := bytesOf byteCount (numeralValue inDigits);
                   outOfPhaseValue := bytesOf byteCount (numeralValue outDigits);
                   timestepsPerPhase := signedValue stepNegative stepDigits;
                   maxCycleCount := count;
                   sentinel := None |}
    else
      Failed (text "Scanned out-of-bounds integer while "
              ++ text "parsing max cycle count for TICK command." ++ text ".").
Proof.
  intros line byteCount count Hid Hid_max Hport Hwidth Hin Hin_length Hin_fits
         Hout Hout_length Hout_fits Hstep Hstep_range Hcount Htail Hplain.
  destruct (tickLine_signed_parts idChars inChars outChars stepChars countChars
              (tail ++ [newline])
              idDigits inDigits outDigits stepDigits countDigits bitWidth
              stepNegative countNegative
              Hid Hid_max Hwidth Hin Hin_length Hin_fits Hout Hout_length Hout_fits
              Hstep Hstep_range Hcount Htail)
    as (H1 & H2 & H3 & H4 & H5 & H6 & H7 & H8 & H9 & H10).
  fold line byteCount in H1, H2, H3, H4, H5, H6, H7, H8, H9, H10.
  fold count in H9.
  unfold scanTick. rewrite H1. cbn [scanBind].
  unfold resolveSettablePort. rewrite Hport.
  destruct (bitWidth <=? 0) eqn:E0; [absurd_lia|]. cbn [negb scanBind].
  unfold expect. rewrite H2. cbn [Ascii.eqb Bool.eqb scanBind].
  rewrite H3. cbn [scanBind]. rewrite H4. cbn [Ascii.eqb Bool.eqb scanBind].
  rewrite H5. cbn [scanBind]. rewrite H6. cbn [Ascii.eqb Bool.eqb scanBind].
  rewrite H7. cbn [scanBind]. rewrite H8. cbn [Ascii.eqb Bool.eqb scanBind].
  rewrite H9.
  destruct ((INT_MIN <=? count) && (count <=? INT_MAX)); cbn [scanBind]; [|reflexivity].
  destruct (count <=? 0) eqn:E1; cbn [negb]; [reflexivity|]. boolZ.
  rewrite (Hplain ltac:(lia)) in H10. cbn [app] in H10.
  assert (Hnl : charAt line (Z.of_nat (length (
                  ((((text "T " ++ idChars) ++ " "%char :: inChars) ++ ","%char :: outChars)
                    ++ "-"%char :: signChars stepNegative ++ stepChars)
                  ++ "*"%char :: signChars countNegative ++ countChars))) = newline).
  { rewrite H10 at 1. apply charAt_app. }
  rewrite Hnl. change (Ascii.eqb newline " ") with false. cbn [scanBind].
  rewrite Hnl. change (Ascii.eqb newline newline) with true. reflexivity.
Qed.

(** The line of a TICK command is a line. *)
Lemma tickLine_next st (idChars inChars outChars stepChars countChars tail rest : list ascii)
    (idDigits inDigits outDigits stepDigits countDigits : list Z)
    (stepNegative countNegative : bool) :
  let line := text "T " ++ idChars ++ " "%char :: inChars ++ ","%char :: outChars
                ++ "-"%char :: signChars stepNegative ++ stepChars
                ++ "*"%char :: signChars countNegative ++ countChars
                ++ tail ++ [newline] in
  commandStream st = line ++ rest ->
  isNumeral idChars idDigits -> isNumeral inChars inDigits ->
  isNumeral outChars outDigits -> isNumeral stepChars stepDigits ->
  isNumeral countChars countDigits -> ~ In newline tail ->
  nextCommand st line rest.
Proof.
  intros line Hstream Hid Hin Hout Hstep Hcount Htail.
  split; [exact Hstream|].
  exists (text "T " ++ idChars ++ " "%char :: inChars ++ ","%char :: outChars
            ++ "-"%char :: signChars stepNegative ++ stepChars
            ++ "*"%char :: signChars countNegative ++ countChars ++ tail).
  split; [unfold line; same_line|].
  repeat first
    [ apply no_newline_app
    | apply no_newline_cons; [discriminate|]
    | apply signChars_no_newline
    | exact (isNumeral_no_newline _ _ Hid)
    | exact (isNumeral_no_newline _ _ Hin)
    | exact (isNumeral_no_newline _ _ Hout)
    | exact (isNumeral_no_newline _ _ Hstep)
    | exact (isNumeral_no_newline _ _ Hcount)
    | exact Htail ].
  cbn. intuition discriminate.
Qed.

(** C5: the TICK command [T <id> <in>,<out>-<timesteps>*<N>] without
    sentinel, with a settable port [id], values that fit its width and
    [1 <= N <= INT_MAX], answers normally. Its calls into the engine are
    exactly [N] cycles of set in-phase, advance, set out-of-phase, advance,
    so the engine is advanced exactly [2N] times, each time by the timesteps
    per phase of the line; the engine is in the state these calls lead to
    and the log has what the simulation printed during them; the response
    is the BITS message of width 64 that carries [N]; and the line is
    consumed. *)
Theorem tick_without_sentinel st
    (idChars inChars outChars stepChars countChars rest : list ascii)
    (idDigits inDigits outDigits stepDigits countDigits : list Z) (bitWidth : Z)
    (stepNegative : bool) (setter : list Z -> EngineState E -> EngineState E) :
  let id := numeralValue idDigits in
  let byteCount := Z.to_nat (byteCountOf bitWidth) in
  let inPhase := bytesOf byteCount (numeralValue inDigits) in
  let outOfPhase := bytesOf byteCount (numeralValue outDigits) in
  let timesteps := signedValue stepNegative stepDigits in
  let N := numeralValue countDigits in
  let calls :=
    concat (replicate (Z.to_nat N)
              [CallSetter id inPhase; CallRunSimulation timesteps;
               CallSetter id outOfPhase; CallRunSimulation timesteps]) in
  commandStream st
  = (text "T " ++ idChars ++ " "%char :: inChars ++ ","%char :: outChars
       ++ "-"%char :: signChars stepNegative ++ stepChars
       ++ "*"%char :: countChars ++ [newline]) ++ rest ->
  isNumeral idChars idDigits -> id <= INT_MAX ->
  port_setter E id = Some (bitWidth, setter) ->
  1 <= bitWidth <= INT_MAX - 7 ->
  isNumeral inChars inDigits -> (length inChars <= 2 * byteCount)%nat ->
  numeralValue inDigits < 2 ^ bitWidth ->
  isNumeral outChars outDigits -> (length outChars <= 2 * byteCount)%nat ->
  numeralValue outDigits < 2 ^ bitWidth ->
  isNumeral stepChars stepDigits -> INT_MIN <= timesteps <= INT_MAX ->
  isNumeral countChars countDigits -> 1 <= N <= INT_MAX ->
  exists st',
    process st = Return tt st'
    /\ engineCalls st' = engineCalls st ++ calls
    /\ advances calls = replicate (Z.to_nat (2 * N)) timesteps
    /\ engine st' = fst (engineAfter E calls (engine st))
    /\ simulationLog st' = simulationLog st ++ snd (engineAfter E calls (engine st))
    /\ messageStream st' = messageStream st ++ bitsMessage 64 (hexBytes (bytesOf 8 N))
    /\ commandStream st' = rest.
Proof.
  intros id byteCount inPhase outOfPhase timesteps N calls Hstream
         Hid Hid_max Hport Hwidth Hin Hin_length Hin_fits
         Hout Hout_length Hout_fits Hstep Hstep_range Hcount Hcount_range.
  set (line := text "T " ++ idChars ++ " "%char :: inChars ++ ","%char :: outChars
                 ++ "-"%char :: signChars stepNegative ++ stepChars
                 ++ "*"%char :: countChars ++ [newline]) in *.
  set (t := {| tickingPortID := id;
               tickingSetter := setter;
               inPhaseValue := inPhase;
               outOfPhaseValue := outOfPhase;
               timestepsPerPhase := timesteps;
               maxCycleCount := N;
               sentinel := None |} : Tick E).
  assert (Hnext : nextCommand st line rest).
  { exact (tickLine_next st idChars inChars outChars stepChars countChars [] rest
             idDigits inDigits outDigits stepDigits countDigits stepNegative false
             Hstream Hid Hin Hout Hstep Hcount ltac:(intros [])). }
  assert (Hscan : scanTick E line 1 (Z.of_nat (length line) - 1) = Scanned t).
  { pose proof (scanTick_signed_line idChars inChars outChars stepChars countChars []
                  idDigits inDigits outDigits stepDigits countDigits bitWidth
                  stepNegative false setter (Z.of_nat (length line) - 1)
                  Hid Hid_max Hport Hwidth Hin Hin_length Hin_fits
                  Hout Hout_length Hout_fits Hstep Hstep_range Hcount
                  ltac:(repeat split; discriminate) ltac:(reflexivity)) as H.
    cbv zeta in H. cbn [signedValue] in H. fold N in H.
    destruct (INT_MIN <=? N) eqn:E1; [|unfold INT_MIN in E1; absurd_lia].
    destruct (N <=? INT_MAX) eqn:E2; [|absurd_lia].
    destruct (N <=? 0) eqn:E3; [absurd_lia|].
    exact H. }
  rewrite (processCommand_next E _ _ st line rest Hnext).
  rewrite (dispatch_TICK E _ _ line _ _ eq_refl).
  unfold bind. rewrite (scanning_Scanned E _ _ _ Hscan).
  destruct (runTick_plain t (afterRead st line rest) eq_refl Hcount_range)
    as (st' & Hrun & Ho & Hms).
  destruct (cycleSteps_went (Z.to_nat (maxCycleCount E t)) t bitWidth
              (afterRead st line rest) Hport)
    as (Hc & He & Hs).
  pose proof (cycleSteps_only E (Z.to_nat (maxCycleCount E t)) t (afterRead st line rest))
    as Hoe.
  destruct (afterRead_frame E st line rest) as (_ & Hcs & Hm & Hec & Hen & _ & _ & _ & Hsl).
  exists st'. split; [exact Hrun|].
  rewrite (onlyMessages_engineCalls E _ _ Ho), (onlyMessages_engine E _ _ Ho),
    (onlyMessages_simulationLog E _ _ Ho), (onlyMessages_commandStream E _ _ Ho),
    (onlyEngine_commandStream E _ _ Hoe), Hc, He, Hs, Hms, Hec, Hen, Hsl, Hm, Hcs.
  split_all; try reflexivity.
  replace (Z.to_nat (2 * N)) with (2 * Z.to_nat N)%nat by lia.
  exact (advances_cycles E (Z.to_nat N) t).
Qed.

(** C6, as the code has it: of the counts of a command only the max cycle
    count of TICK is checked for its sign. A TICK command whose max cycle
    count is zero or negative, or does not fit an [int], ends the process
    with an error message before any call into the engine, whatever follows
    the count on the line. With a positive count the command runs, and its
    timesteps per phase reach [run_simulation] as they are written, negative
    values included. So do the timesteps of a RUN command. *)
Theorem only_max_cycle_count_is_sign_checked st :
  (forall (idChars inChars outChars stepChars countChars tail rest : list ascii)
          (idDigits inDigits outDigits stepDigits countDigits : list Z) (bitWidth : Z)
          (stepNegative countNegative : bool)
          (setter : list Z -> EngineState E -> EngineState E),
     let id := numeralValue idDigits in
     let byteCount := Z.to_nat (byteCountOf bitWidth) in
     let inPhase := bytesOf byteCount (numeralValue inDigits) in
     let outOfPhase := bytesOf byteCount (numeralValue outDigits) in
     let timesteps := signedValue stepNegative stepDigits in
     let count := signedValue countNegative countDigits in
     let calls :=
       concat (replicate (Z.to_nat count)
                 [CallSetter id inPhase; CallRunSimulation timesteps;
                  CallSetter id outOfPhase; CallRunSimulation timesteps]) in
     commandStream st
     = (text "T " ++ idChars ++ " "%char :: inChars ++ ","%char :: outChars
          ++ "-"%char :: signChars stepNegative ++ stepChars
          ++ "*"%char :: signChars countNegative ++ countChars
          ++ tail ++ [newline]) ++ rest ->
     ~ In newline tail -> endsNumeral (charAt (tail ++ [newline]) 0) ->
     (0 < count -> tail = []) ->
     isNumeral idChars idDigits -> id <= INT_MAX ->
     port_setter E id = Some (bitWidth, setter) ->
     1 <= bitWidth <= INT_MAX - 7 ->
     isNumeral inChars inDigits -> (length inChars <= 2 * byteCount)%nat ->
     numeralValue inDigits < 2 ^ bitWidth ->
     isNumeral outChars outDigits -> (length outChars <= 2 * byteCount)%nat ->
     numeralValue outDigits < 2 ^ bitWidth ->
     isNumeral stepChars stepDigits -> INT_MIN <= timesteps <= INT_MAX ->
     isNumeral countChars countDigits ->
     if (count <=? 0) || (INT_MAX <? count) then
       exists st',
         process st = Exit st'
         /\ engineCalls st' = engineCalls st
         /\ engine st' = engine st
         /\ messageStream st'
            = messageStream st ++ [MESSAGE_ERROR; " "%char]
              ++ (if (INT_MIN <=? count) && (count <=? INT_MAX) then
                    text "Max cycle count for TICK command should be greater than 0."
                  else
                    text "Scanned out-of-bounds integer while "
                    ++ text "parsing max cycle count for TICK command." ++ text ".")
              ++ [newline]
     else
       exists st',
         process st = Return tt st'
         /\ engineCalls st' = engineCalls st ++ calls
         /\ advances calls = replicate (Z.to_nat (2 * count)) timesteps
         /\ engine st' = fst (engineAfter E calls (engine st))
         /\ messageStream st'
            = messageStream st ++ bitsMessage 64 (hexBytes (bytesOf 8 count)))
  /\ (forall (spaces chars rest : list ascii) (negative : bool) (digits : list Z),
        let timesteps := signedValue negative digits in
        commandStream st
        = (text "R" ++ spaces ++ signChars negative ++ chars ++ [newline]) ++ rest ->
        isBlank spaces -> ~ In newline spaces ->
        isNumeral chars digits ->
        INT_MIN <= timesteps <= INT_MAX ->
        exists st',
          process st = Return tt st'
          /\ engineCalls st' = engineCalls st ++ [CallRunSimulation timesteps]
          /\ engine st' = fst (run_simulation E timesteps (engine st))
          /\ messageStream st'
             = messageStream st ++ [MESSAGE_ACK; " "%char] ++ text "ack" ++ [newline]).
Proof.
  split.
  - intros idChars inChars outChars stepChars countChars tail rest
           idDigits inDigits outDigits stepDigits countDigits bitWidth
           stepNegative countNegative setter
           id byteCount inPhase outOfPhase timesteps count calls Hstream Htail Hends Hplain
           Hid Hid_max Hport Hwidth Hin Hin_length Hin_fits
           Hout Hout_length Hout_fits Hstep Hstep_range Hcount.
    set (line := text "T " ++ idChars ++ " "%char :: inChars ++ ","%char :: outChars
                   ++ "-"%char :: signChars stepNegative ++ stepChars
                   ++ "*"%char :: signChars countNegative ++ countChars
                   ++ tail ++ [newline]) in *.
    pose proof (tickLine_next st idChars inChars outChars stepChars countChars tail rest
                  idDigits inDigits outDigits stepDigits countDigits stepNegative
                  countNegative Hstream Hid Hin Hout Hstep Hcount Htail) as Hnext.
    pose proof (scanTick_signed_line idChars inChars outChars stepChars countChars tail
                  idDigits inDigits outDigits stepDigits countDigits bitWidth
                  stepNegative countNegative setter (Z.of_nat (length line) - 1)
                  Hid Hid_max Hport Hwidth Hin Hin_length Hin_fits
                  Hout Hout_length Hout_fits Hstep Hstep_range Hcount Hends Hplain) as Hscan.
    cbv zeta in Hscan. fold line byteCount inPhase outOfPhase timesteps count in Hscan.
    fold id in Hscan.
    rewrite (processCommand_next E _ _ st line rest Hnext).
    rewrite (dispatch_TICK E _ _ line _ _ eq_refl).
    unfold bind.
    destruct (afterRead_frame E st line rest)
      as (_ & Hcs & Hm & Hec & Hen & _ & _ & _ & Hsl).
    assert (Hrefused : forall message,
               scanTick E line 1 (Z.of_nat (length line) - 1) = Failed message ->
               exists st',
                 scanning E (scanTick E line 1 (Z.of_nat (length line) - 1))
                   (afterRead st line rest) = Exit st'
                 /\ engineCalls st' = engineCalls st
                 /\ engine st' = engine st
                 /\ messageStream st'
                    = messageStream st ++ [MESSAGE_ERROR; " "%char] ++ message ++ [newline]).
    { intros message Hfailed. rewrite (scanning_Failed E _ _ _ Hfailed).
      eexists. split; [reflexivity|].
      pose proof (writeMessage_only E MESSAGE_ERROR message (afterRead st line rest)) as Ho.
      rewrite (onlyMessages_engineCalls E _ _ Ho), (onlyMessages_engine E _ _ Ho),
        messageStream_writeMessage, Hec, Hen, Hm. auto. }
    destruct ((INT_MIN <=? count) && (count <=? INT_MAX)) eqn:Erange.
    + apply andb_true_iff in Erange. destruct Erange as [E1 E2].
      assert (E3 : (INT_MAX <? count) = false) by (boolZ; lia).
      rewrite E3, orb_false_r.
      destruct (count <=? 0) eqn:E4.
      * destruct (Hrefused _ Hscan) as (st' & Hexit & Hrest).
        rewrite Hexit. exists st'. split; [reflexivity | exact Hrest].
      * rewrite (scanning_Scanned E _ _ _ Hscan).
        match type of Hscan with
        | _ = Scanned ?record => set (t := record) in *
        end.
        assert (Hcount_range : 1 <= maxCycleCount E t <= INT_MAX)
          by (cbn [maxCycleCount t]; boolZ; lia).
        destruct (runTick_plain t (afterRead st line rest) eq_refl Hcount_range)
          as (st' & Hrun & Ho & Hms).
        destruct (cycleSteps_went (Z.to_nat (maxCycleCount E t)) t bitWidth
                    (afterRead st line rest) Hport)
          as (Hc & He & _).
        exists st'. split; [exact Hrun|].
        rewrite (onlyMessages_engineCalls E _ _ Ho), (onlyMessages_engine E _ _ Ho),
          Hc, He, Hms, Hec, Hen, Hm.
        split_all; try reflexivity.
        replace (Z.to_nat (2 * count)) with (2 * Z.to_nat count)%nat by lia.
        exact (advances_cycles E (Z.to_nat count) t).
    + assert (Hout_of_range : ((count <=? 0) || (INT_MAX <? count)) = true).
      { apply andb_false_iff in Erange. apply orb_true_iff.
        destruct Erange as [Er | Er]; boolZ; [left | right]; boolZ;
          unfold INT_MIN in *; lia. }
      rewrite Hout_of_range.
      destruct (Hrefused _ Hscan) as (st' & Hexit & Hrest).
      rewrite Hexit. exists st'. split; [reflexivity | exact Hrest].
  - intros spaces chars rest negative digits timesteps Hstream Hblank Hnl Hnum Hrange.
    set (line := text "R" ++ spaces ++ signChars negative ++ chars ++ [newline]) in *.
    assert (Hnext : nextCommand st line rest).
    { split; [exact Hstream|]. exists (text "R" ++ spaces ++ signChars negative ++ chars).
      split; [unfold line; same_line|].
      repeat first
        [ apply no_newline_app
        | apply signChars_no_newline
        | exact (isNumeral_no_newline _ _ Hnum)
        | exact Hnl ].
      cbn. intuition discriminate. }
    assert (Hscan : scanRun line 1 = Scanned timesteps).
    { unfold scanRun, line.
      pose proof (scanInt_in_range (text "R") spaces chars [newline] negative digits
                    (text "parsing time for RUN command") Hblank Hnum
                    ltac:(repeat split; discriminate) Hrange) as Hint.
      change (Z.of_nat (length (text "R"))) with 1 in Hint. rewrite Hint.
      cbn [scanBind]. unfold expect.
      replace (text "R" ++ spaces ++ signChars negative ++ chars ++ [newline])
        with ((text "R" ++ spaces ++ signChars negative ++ chars) ++ [newline])
        by (rewrite <- !app_assoc; reflexivity).
      rewrite charAt_app. reflexivity. }
    rewrite (processCommand_next E _ _ st line rest Hnext).
    rewrite (dispatch_RUN E _ _ line _ _ eq_refl).
    unfold bind. rewrite (scanning_Scanned E _ _ _ Hscan). unfold step. rewrite sendAck_eq.
    destruct (afterRead_frame E st line rest) as (_ & _ & Hm & Hec & Hen & _).
    destruct (callRunSimulation_went timesteps (afterRead st line rest)) as (Hc & He & _).
    eexists. split; [reflexivity|].
    match goal with
    | |- context [writeMessage E MESSAGE_ACK ?body ?st1] =>
        pose proof (writeMessage_only E MESSAGE_ACK body st1) as Ho
    end.
    rewrite (onlyMessages_engineCalls E _ _ Ho), (onlyMessages_engine E _ _ Ho),
      messageStream_writeMessage,
      (onlyEngine_messageStream E _ _ (callRunSimulation_only E _ _)), Hc, He, Hec, Hen, Hm.
    cbn [engineAfter engineCall].
    destruct (run_simulation E timesteps (engine st)) as [next printed]. auto.
Qed.

End TickClaims.

(** The TICK example of the protocol without its sentinel: three cycles of
    ten timesteps per phase on the one-bit clock of port 0. *)
Lemma tick_without_sentinel_witness :
  let st := freshDriver demoEngine demoStart (commandLine "T 0 1,0-A*3") in
  exists st',
    processCommand demoEngine (filledWith 0) (filledWith 0) st = Return tt st'
    /\ engineCalls st'
       = concat (replicate 3 [CallSetter 0 [1]; CallRunSimulation 10;
                              CallSetter 0 [0]; CallRunSimulation 10])
    /\ advances (engineCalls st') = [10; 10; 10; 10; 10; 10]
    /\ runs (engine st') = 6
    /\ messageStream st' = bitsMessage 64 (text "0000000000000003").
Proof.
  intros st.
  destruct (port_setter demoEngine 0) as [[w setter]|] eqn:Hport; [|discriminate Hport].
  assert (Hw : w = 1) by (vm_compute in Hport; congruence). subst w.
  destruct (tick_without_sentinel demoEngine (filledWith 0) (filledWith 0) st
              (text "0") (text "1") (text "0") (text "A") (text "3") []
              [0] [1] [0] [10] [3] 1 false setter)
    as (st' & Hrun & Hcalls & _ & Hengine & _ & Hms & _).
  - reflexivity.
  - split; [discriminate | repeat constructor].
  - vm_compute. discriminate.
  - exact Hport.
  - unfold INT_MAX. lia.
  - split; [discriminate | repeat constructor].
  - vm_compute. lia.
  - vm_compute. reflexivity.
  - split; [discriminate | repeat constructor].
  - vm_compute. lia.
  - vm_compute. reflexivity.
  - split; [discriminate | repeat constructor].
  - vm_compute. split; discriminate.
  - split; [discriminate | repeat constructor].
  - vm_compute. split; discriminate.
  - exists st'. split; [exact Hrun|]. split; [exact Hcalls|].
    split; [rewrite Hcalls; reflexivity|]. split; [|exact Hms].
    rewrite Hengine. vm_compute. reflexivity.
Defined.

(** [T 0 1,0--5*-1 7=1] is refused for its count, sentinel or not;
    [T 0 1,0--5*2] runs two cycles of minus five timesteps per phase; and
    [R -1] advances the simulation by minus one. *)
Lemma only_max_cycle_count_is_sign_checked_witness :
  (exists st',
     processCommand demoEngine (filledWith 0) (filledWith 0)
       (freshDriver demoEngine demoStart (commandLine "T 0 1,0--5*-1 7=1"))
     = Exit st'
     /\ engineCalls st' = []
     /\ messageStream st'
        = commandLine "e Max cycle count for TICK command should be greater than 0.")
  /\ (exists st',
        processCommand demoEngine (filledWith 0) (filledWith 0)
          (freshDriver demoEngine demoStart (commandLine "T 0 1,0--5*2"))
        = Return tt st'
        /\ advances (engineCalls st') = [-5; -5; -5; -5])
  /\ (exists st',
        processCommand demoEngine (filledWith 0) (filledWith 0)
          (freshDriver demoEngine demoStart (commandLine "R -1"))
        = Return tt st'
        /\ engineCalls st' = [CallRunSimulation (-1)]
        /\ messageStream st' = commandLine "k ack").
Proof.
  destruct (port_setter demoEngine 0) as [[w setter]|] eqn:Hport; [|discriminate Hport].
  assert (Hw : w = 1) by (vm_compute in Hport; congruence). subst w.
  split; [|split].
  - destruct (only_max_cycle_count_is_sign_checked demoEngine (filledWith 0) (filledWith 0)
                (freshDriver demoEngine demoStart (commandLine "T 0 1,0--5*-1 7=1")))
      as [Htick _].
    specialize (Htick (text "0") (text "1") (text "0") (text "5") (text "1") (text " 7=1") []
                  [0] [1] [0] [5] [1] 1 true true setter).
    cbv zeta in Htick.
    destruct Htick as (st' & Hexit & Hcalls & _ & Hms).
    + reflexivity.
    + cbn. intuition discriminate.
    + repeat split; discriminate.
    + vm_compute. discriminate.
    + split; [discriminate | repeat constructor].
    + vm_compute. discriminate.
    + exact Hport.
    + unfold INT_MAX. lia.
    + split; [discriminate | repeat constructor].
    + vm_compute. lia.
    + vm_compute. reflexivity.
    + split; [discriminate | repeat constructor].
    + vm_compute. lia.
    + vm_compute. reflexivity.
    + split; [discriminate | repeat constructor].
    + vm_compute. split; discriminate.
    + split; [discriminate | repeat constructor].
    + exists st'. split; [exact Hexit|]. split; [exact Hcalls | exact Hms].
  - destruct (only_max_cycle_count_is_sign_checked demoEngine (filledWith 0) (filledWith 0)
                (freshDriver demoEngine demoStart (commandLine "T 0 1,0--5*2")))
      as [Htick _].
    specialize (Htick (text "0") (text "1") (text "0") (text "5") (text "2") [] []
                  [0] [1] [0] [5] [2] 1 true false setter).
    cbv zeta in Htick.
    destruct Htick as (st' & Hrun & Hcalls & Hadvances & _).
    + reflexivity.
    + intros [].
    + repeat split; discriminate.
    + reflexivity.
    + split; [discriminate | repeat constructor].
    + vm_compute. discriminate.
    + exact Hport.
    + unfold INT_MAX. lia.
    + split; [discriminate | repeat constructor].
    + vm_compute. lia.
    + vm_compute. reflexivity.
    + split; [discriminate | repeat constructor].
    + vm_compute. lia.
    + vm_compute. reflexivity.
    + split; [discriminate | repeat constructor].
    + vm_compute. split; discriminate.
    + split; [discriminate | repeat constructor].
    + exists st'. split; [exact Hrun|]. rewrite Hcalls. exact Hadvances.
  - destruct (only_max_cycle_count_is_sign_checked demoEngine (filledWith 0) (filledWith 0)
                (freshDriver demoEngine demoStart (commandLine "R -1")))
      as [_ Hrun].
    destruct (Hrun (text " ") (text "1") [] true [1]) as (st' & Hreturn & Hcalls & _ & Hms).
    + reflexivity.
    + repeat constructor.
    + cbn. intuition discriminate.
    + split; [discriminate | repeat constructor].
    + vm_compute. split; discriminate.
    + exists st'. split; [exact Hreturn|]. split; [exact Hcalls | exact Hms].
Defined.
